(** * pyFDT item model: properties, nodes, equality, merge and the DTB encoder

    A shallow embedding of [fdt/item.py].  Python objects live in a store
    and are named by their address; strings are lists of characters; byte
    strings are lists of byte values. *)

From Stdlib Require Import ZArith Ascii String.
From stdpp Require Import base decidable option list numbers gmap.

Open Scope Z_scope.

(** ** Python strings and bytes *)

(** A Python [str], one character per element. *)
Abbreviation str := (list ascii).

(** A string literal. *)
Definition py (s : string) : str := list_ascii_of_string s.

(** [bytes] and [bytearray] contents, one byte value in [0, 255] per element. *)
Abbreviation bytes := (list Z).

Definition ord (c : ascii) : Z := Z.of_nat (nat_of_ascii c).

(** [c in string.printable]: digits, letters, punctuation and the
    whitespace characters space, tab, LF, CR, VT and FF. *)
Definition printable (c : ascii) : bool :=
  ((9 <=? ord c) && (ord c <=? 13)) || ((32 <=? ord c) && (ord c <=? 126)).

(** The NUL character, ['\0']. *)
Definition NUL : ascii := Ascii.zero.

(** ** Errors raised by the module

    The source raises [AssertionError], [ValueError], [TypeError] and bare
    [Exception]; each raise site is named after the failure it reports. *)
Inductive exn :=
| InvalidName        (* assert all(c in printable for c in name) *)
| InvalidType        (* assert isinstance(...) / raise TypeError / ValueError("Invalid object type") *)
| InvalidValue       (* assert len(value) > 0 / invalid chars in a strings value *)
| DuplicateName      (* raise Exception("... already exists") *)
| SelfReference      (* raise Exception("... append the same node ...") *)
| ValueOutOfRange    (* assert 0 <= value < 2**word_size, assert 0 <= value <= 0xFF *)
| IndexOutOfRange    (* assert 0 <= index < len(self.data) *)
| AttributeError     (* reading an attribute the object does not have *)
| EncodeError        (* str.encode('ascii') or struct.pack on a value it rejects *)
| DanglingReference  (* an address that names no object of the store *)
| OutOfFuel.         (* the recursion budget of the model ran out *)

(** ** Property values *)

(** An element of a property's [data]: a string or an integer. *)
Inductive pyval :=
| PyStr (s : str)
| PyInt (z : Z).

#[global] Instance ascii_eq_dec : EqDecision ascii := ascii_dec.
#[global] Instance pyval_eq_dec : EqDecision pyval.
Proof. solve_decision. Defined.

(** The [data] attribute: a [list] (PropStrings, PropWords) or a
    [bytearray] (PropBytes). *)
Inductive payload :=
| PyList (l : list pyval)
| ByteArray (l : bytes).

#[global] Instance payload_eq_dec : EqDecision payload.
Proof. solve_decision. Defined.

(** The elements of a payload, as indexing returns them. *)
Definition items (d : payload) : list pyval :=
  match d with
  | PyList l => l
  | ByteArray l => PyInt <$> l
  end.

(** [copy(data)]: a new list or bytearray holding the same elements. *)
Definition copy_data (d : payload) : payload := d.

(** Addresses of node objects and of property objects. *)
Abbreviation naddr := nat.
Abbreviation paddr := nat.

(** The four property classes.  [Property] is the base class and the
    class of a property without value; the other three derive from it. *)
Inductive pclass := CProperty | CPropStrings | CPropWords | CPropBytes.

#[global] Instance pclass_eq_dec : EqDecision pclass.
Proof. solve_decision. Defined.

(** A property object: its class and its attributes.  Objects of class
    [Property] are created without [data]; merge can install one. *)
Inductive prop :=
| Property (name : str) (parent : option naddr) (data : option payload)
| PropStrings (name : str) (parent : option naddr) (data : payload)
| PropWords (name : str) (parent : option naddr) (data : payload) (word_size : Z)
| PropBytes (name : str) (parent : option naddr) (data : payload).

Definition class_of (p : prop) : pclass :=
  match p with
  | Property _ _ _ => CProperty
  | PropStrings _ _ _ => CPropStrings
  | PropWords _ _ _ _ => CPropWords
  | PropBytes _ _ _ => CPropBytes
  end.

Definition prop_name (p : prop) : str :=
  match p with
  | Property n _ _ | PropStrings n _ _ | PropWords n _ _ _ | PropBytes n _ _ => n
  end.

Definition prop_parent (p : prop) : option naddr :=
  match p with
  | Property _ q _ | PropStrings _ q _ | PropWords _ q _ _ | PropBytes _ q _ => q
  end.

(** [p.data], absent on a plain [Property] unless merge installed it. *)
Definition prop_data (p : prop) : option payload :=
  match p with
  | Property _ _ d => d
  | PropStrings _ _ d | PropWords _ _ d _ | PropBytes _ _ d => Some d
  end.

(** [isinstance(p, c)] for a property object [p]. *)
Definition isinstance (p : prop) (c : pclass) : bool :=
  match c with
  | CProperty => true
  | _ => bool_decide (class_of p = c)
  end.

(** [type(q)] is a proper subclass of [type(p)]. *)
Definition proper_subclass (q p : prop) : bool :=
  bool_decide (class_of p = CProperty) && negb (bool_decide (class_of q = CProperty)).

(** The values of a property of a class with a value, as [__len__] and
    [__getitem__] of that class see them. *)
Definition values (p : prop) : list pyval :=
  match p with
  | Property _ _ _ => []
  | PropStrings _ _ d | PropWords _ _ d _ | PropBytes _ _ d => items d
  end.

(** ** Property equality *)

(** The loop shared by the three [__eq__] of the value classes:
    [for index in range(len(self)): if self.data[index] != prop[index]: return False]. *)
Fixpoint data_eq_loop (a b : list pyval) (indices : list nat) : bool :=
  match indices with
  | [] => true
  | i :: rest =>
      if bool_decide (a !! i = b !! i) then data_eq_loop a b rest else false
  end.

(** What the right operand of a comparison can be. *)
Inductive operand :=
| OpProp (q : prop)
| OpNode (a : naddr)
| OpInt (z : Z)
| OpStr (s : str)
| OpNone.

(** [Property.__eq__(self, prop)]. *)
Definition Property___eq__ (self : prop) (other : operand) : bool :=
  match other with
  | OpProp q =>
      if negb (isinstance q CProperty) then false
      else if negb (bool_decide (prop_name self = prop_name q)) then false
      else true
  | _ => false
  end.

(** [PropStrings.__eq__], [PropWords.__eq__] and [PropBytes.__eq__] have the
    same body up to the class tested; [c] is that class. *)
Definition PropData___eq__ (c : pclass) (self : prop) (other : operand) : bool :=
  match other with
  | OpProp q =>
      if negb (isinstance q c) then false
      else if negb (bool_decide (prop_name self = prop_name q)) then false
      else if negb (bool_decide (length (values self) = length (values q))) then false
      else data_eq_loop (values self) (values q) (seq 0 (length (values self)))
  | _ => false
  end.

(** Method resolution: the [__eq__] of the class of [self]. *)
Definition prop___eq__ (self : prop) (other : operand) : bool :=
  match class_of self with
  | CProperty => Property___eq__ self other
  | c => PropData___eq__ c self other
  end.

(** [self == other] with a property on the left.  When the right operand's
    class is a proper subclass of the left operand's class, Python calls the
    right operand's [__eq__] first; none of the methods here returns
    [NotImplemented], so that call decides. *)
Definition prop_eq (self : prop) (other : operand) : bool :=
  match other with
  | OpProp q =>
      if proper_subclass q self then prop___eq__ q (OpProp self)
      else prop___eq__ self other
  | _ => prop___eq__ self other
  end.

(** [self != other]: [BaseItem.__ne__] is [not self.__eq__(node)], reached
    through the same dispatch. *)
Definition prop_ne (self : prop) (other : operand) : bool :=
  match other with
  | OpProp q =>
      if proper_subclass q self then negb (prop___eq__ q (OpProp self))
      else negb (prop___eq__ self other)
  | _ => negb (prop___eq__ self other)
  end.

(** ** The object store *)

(** A node object: its attributes [_name], [_parent], [_props], [_nodes].
    [_props] holds addresses of property objects and [_nodes] addresses of
    node objects, which is what [append] lets into them. *)
Record node := Node {
  n_name : str;
  n_parent : option naddr;
  n_props : list paddr;
  n_nodes : list naddr
}.

(** The store: the property objects and the node objects allocated so far;
    an object's address is its index. *)
Record store := Store {
  s_props : list prop;
  s_nodes : list node
}.

Definition empty_store : store := Store [] [].

(** The outcome of a call: a value or a raised exception. *)
Inductive result (A : Type) :=
| Ok (a : A)
| Raise (e : exn).
Arguments Ok {A} a.
Arguments Raise {A} e.

Definition rbind {A B} (r : result A) (k : A -> result B) : result B :=
  match r with
  | Ok a => k a
  | Raise e => Raise e
  end.

(** A call that can mutate the store: the store it leaves, also when it
    raises, and its outcome. *)
Definition M (A : Type) : Type := store -> store * result A.

Definition ret {A} (a : A) : M A := fun s => (s, Ok a).
Definition raise {A} (e : exn) : M A := fun s => (s, Raise e).
Definition bind {A B} (m : M A) (k : A -> M B) : M B :=
  fun s => match m s with
           | (s', Ok a) => k a s'
           | (s', Raise e) => (s', Raise e)
           end.
Definition lift {A} (f : store -> result A) : M A := fun s => (s, f s).

Notation "'let!' x ':=' m 'in' k" := (bind m (fun x => k))
  (at level 10, x pattern, m at level 100, k at level 200).
Notation "'let?' x ':=' r 'in' k" := (rbind r (fun x => k))
  (at level 10, x pattern, r at level 100, k at level 200).

Definition load_prop (a : paddr) (s : store) : result prop :=
  match s_props s !! a with
  | Some p => Ok p
  | None => Raise DanglingReference
  end.

Definition load_node (a : naddr) (s : store) : result node :=
  match s_nodes s !! a with
  | Some n => Ok n
  | None => Raise DanglingReference
  end.

Definition alloc_prop (p : prop) : M paddr :=
  fun s => (Store (s_props s ++ [p]) (s_nodes s), Ok (length (s_props s))).

Definition alloc_node (n : node) : M naddr :=
  fun s => (Store (s_props s) (s_nodes s ++ [n]), Ok (length (s_nodes s))).

Definition write_prop (a : paddr) (p : prop) : M unit :=
  fun s => (Store (<[a := p]> (s_props s)) (s_nodes s), Ok tt).

Definition write_node (a : naddr) (n : node) : M unit :=
  fun s => (Store (s_props s) (<[a := n]> (s_nodes s)), Ok tt).

(** ** BaseItem *)

(** [BaseItem.__init__]: the checks on the name.  The name is a [str]
    and a parent, when given, is a node. *)
Definition BaseItem___init__ (name : str) : result unit :=
  if forallb printable name then Ok tt else Raise InvalidName.

(** [sep.join(l)]. *)
Fixpoint join (sep : str) (l : list str) : str :=
  match l with
  | [] => []
  | [x] => x
  | x :: rest => x ++ sep ++ join sep rest
  end.

(** The [while] loop of [BaseItem.path]: [node] is the loop variable and
    [path] the list built so far. *)
Fixpoint path_loop (fuel : nat) (s : store) (node : option naddr) (path : list str)
  : result (list str) :=
  match fuel with
  | O => Raise OutOfFuel
  | S fuel =>
      match node with
      | None => Ok path
      | Some a =>
          let? n := load_node a s in
          if bool_decide (n_name n = py "/") then Ok path
          else path_loop fuel s (n_parent n) (path ++ [n_name n])
      end
  end.

(** [BaseItem.path] of an item whose [parent] attribute is [parent]. *)
Definition path_of (fuel : nat) (s : store) (parent : option naddr) : result str :=
  let? path := path_loop fuel s parent [] in
  Ok (py "/" ++ join (py "/") (rev path)).

Definition node_path (fuel : nat) (s : store) (a : naddr) : result str :=
  let? n := load_node a s in path_of fuel s (n_parent n).

Definition prop_path (fuel : nat) (s : store) (a : paddr) : result str :=
  let? p := load_prop a s in path_of fuel s (prop_parent p).

(** A property object with its [_parent] attribute set to [q]. *)
Definition with_parent (p : prop) (q : option naddr) : prop :=
  match p with
  | Property n _ d => Property n q d
  | PropStrings n _ d => PropStrings n q d
  | PropWords n _ d w => PropWords n q d w
  | PropBytes n _ d => PropBytes n q d
  end.

(** [BaseItem.set_parent] on a property and on a node. *)
Definition set_parent (p : prop) (value : naddr) : prop := with_parent p (Some value).

Definition node_set_parent (n : node) (value : naddr) : node :=
  Node (n_name n) (Some value) (n_props n) (n_nodes n).

(** ** Property classes: construction, append and copy *)

(** [data.append(value)] on the list or bytearray held in [data]. *)
Definition data_append (d : payload) (v : pyval) : result payload :=
  match d, v with
  | PyList l, _ => Ok (PyList (l ++ [v]))
  | ByteArray l, PyInt z =>
      if (0 <=? z) && (z <=? 255) then Ok (ByteArray (l ++ [z])) else Raise ValueOutOfRange
  | ByteArray _, PyStr _ => Raise InvalidType
  end.

(** The three assertions of [PropStrings.append]. *)
Definition PropStrings_check (v : pyval) : result unit :=
  match v with
  | PyInt _ => Raise InvalidType
  | PyStr value =>
      if negb (0 <? Z.of_nat (length value)) then Raise InvalidValue
      else if negb (forallb (fun c => printable c
                                      || bool_decide (c = ascii_of_nat 13)
                                      || bool_decide (c = ascii_of_nat 10)) value)
      then Raise InvalidValue
      else Ok tt
  end.

(** [0 <= value < 2**word_size]; for a negative [word_size] the bound is a
    fraction below one. *)
Definition in_word_range (word_size value : Z) : bool :=
  (0 <=? value) && (if 0 <=? word_size then value <? 2 ^ word_size else value =? 0).

(** The assertion of [PropWords.append]. *)
Definition PropWords_check (word_size : Z) (v : pyval) : result unit :=
  match v with
  | PyStr _ => Raise InvalidType
  | PyInt value => if in_word_range word_size value then Ok tt else Raise ValueOutOfRange
  end.

(** The assertion of [PropBytes.append]. *)
Definition PropBytes_check (v : pyval) : result unit :=
  match v with
  | PyStr _ => Raise InvalidType
  | PyInt value => if (0 <=? value) && (value <=? 255) then Ok tt else Raise ValueOutOfRange
  end.

(** [for arg in args: self.append(arg)] with the class's check. *)
Fixpoint append_all (check : pyval -> result unit) (d : payload) (args : list pyval)
  : result payload :=
  match args with
  | [] => Ok d
  | v :: rest =>
      let? _ := check v in
      let? d' := data_append d v in
      append_all check d' rest
  end.

(** [Property(name, parent=...)]. *)
Definition Property_init (name : str) (parent : option naddr) : result prop :=
  let? _ := BaseItem___init__ name in
  Ok (Property name parent None).

(** [PropStrings(name, *args, parent=...)]. *)
Definition PropStrings_init (name : str) (args : list pyval) (parent : option naddr)
  : result prop :=
  let? _ := BaseItem___init__ name in
  let? d := append_all PropStrings_check (PyList []) args in
  Ok (PropStrings name parent d).

(** [PropWords(name, *args, wsize=..., parent=...)]; [wsize] defaults to 32. *)
Definition PropWords_init (name : str) (args : list pyval) (wsize : Z)
    (parent : option naddr) : result prop :=
  let? _ := BaseItem___init__ name in
  let? d := append_all (PropWords_check wsize) (PyList []) args in
  Ok (PropWords name parent d wsize).

(** [bytearray(data)] for [data] a sequence of elements. *)
Fixpoint bytearray (l : list pyval) : result bytes :=
  match l with
  | [] => Ok []
  | PyStr _ :: _ => Raise InvalidType
  | PyInt z :: rest =>
      if (0 <=? z) && (z <=? 255)
      then (let? r := bytearray rest in Ok (z :: r))
      else Raise ValueOutOfRange
  end.

(** [PropBytes(name, data)]; [data=None] gives an empty bytearray. *)
Definition PropBytes_init (name : str) (data : option (list pyval)) : result prop :=
  let? _ := BaseItem___init__ name in
  match data with
  | None => Ok (PropBytes name None (ByteArray []))
  | Some l => let? b := bytearray l in Ok (PropBytes name None (ByteArray b))
  end.

(** [prop.copy()] of each class: a new, detached object built by the
    class's constructor from the name and the data. *)
Definition prop_copy (p : prop) : result prop :=
  match p with
  | Property name _ _ => Property_init name None
  | PropStrings name _ d => PropStrings_init name (items d) None
  | PropWords name _ d w => PropWords_init name (items d) w None
  | PropBytes name _ d => PropBytes_init name (Some (items d))
  end.

(** [Node(name, parent=..., props=..., nodes=...)]; the lists default to
    empty ones. *)
Definition Node_init (name : str) (parent : option naddr)
    (props : list paddr) (nodes : list naddr) : result node :=
  let? _ := BaseItem___init__ name in
  Ok (Node name parent props nodes).

(** Construction in the store: the object is allocated when [__init__]
    returns. *)
Definition new_prop (r : result prop) : M paddr :=
  match r with
  | Ok p => alloc_prop p
  | Raise e => raise e
  end.

Definition new_node (r : result node) : M naddr :=
  match r with
  | Ok n => alloc_node n
  | Raise e => raise e
  end.

(** ** Node: lookup and append *)

(** The loop of [get_property]: the first property of that name. *)
Fixpoint get_property_loop (s : store) (props : list paddr) (name : str)
  : result (option paddr) :=
  match props with
  | [] => Ok None
  | a :: rest =>
      let? p := load_prop a s in
      if bool_decide (prop_name p = name) then Ok (Some a)
      else get_property_loop s rest name
  end.

Definition get_property (self : naddr) (name : str) (s : store) : result (option paddr) :=
  let? n := load_node self s in
  get_property_loop s (n_props n) name.

(** The loop of [get_subnode]: the first child of that name. *)
Fixpoint get_subnode_loop (s : store) (nodes : list naddr) (name : str)
  : result (option naddr) :=
  match nodes with
  | [] => Ok None
  | a :: rest =>
      let? n := load_node a s in
      if bool_decide (n_name n = name) then Ok (Some a)
      else get_subnode_loop s rest name
  end.

Definition get_subnode (self : naddr) (name : str) (s : store) : result (option naddr) :=
  let? n := load_node self s in
  get_subnode_loop s (n_nodes n) name.

(** What [append] can be handed: a property object, a node object, or a
    value that is neither. *)
Inductive item :=
| ItemProp (a : paddr)
| ItemNode (a : naddr)
| ItemOther.

(** [self.props.append(a)] and [self.nodes.append(a)]. *)
Definition props_append (self : naddr) (a : paddr) : M unit :=
  let! n := lift (load_node self) in
  write_node self (Node (n_name n) (n_parent n) (n_props n ++ [a]) (n_nodes n)).

Definition nodes_append (self : naddr) (a : naddr) : M unit :=
  let! n := lift (load_node self) in
  write_node self (Node (n_name n) (n_parent n) (n_props n) (n_nodes n ++ [a])).

(** [Node.append]. *)
Definition Node_append (self : naddr) (it : item) : M unit :=
  match it with
  | ItemProp a =>
      let! p := lift (load_prop a) in
      let! found := lift (get_property self (prop_name p)) in
      match found with
      | Some _ => raise DuplicateName
      | None =>
          let! _ := write_prop a (set_parent p self) in
          props_append self a
      end
  | ItemNode a =>
      let! n := lift (load_node a) in
      let! found := lift (get_subnode self (n_name n)) in
      match found with
      | Some _ => raise DuplicateName
      | None =>
          if bool_decide (a = self) then raise SelfReference
          else
            let! _ := write_node a (node_set_parent n self) in
            nodes_append self a
      end
  | ItemOther => raise InvalidType
  end.

(** ** Node equality *)

(** [x in l]: [any(x is e or x == e for e in l)], for a comparison [eq]
    of the objects at two addresses. *)
Fixpoint contains (eq : nat -> nat -> result bool) (x : nat) (l : list nat) : result bool :=
  match l with
  | [] => Ok false
  | e :: rest =>
      if bool_decide (x = e) then Ok true
      else
        let? b := eq x e in
        if b then Ok true else contains eq x rest
  end.

(** [for x in xs: if x not in l: return False], then [True]. *)
Fixpoint all_in (eq : nat -> nat -> result bool) (xs l : list nat) : result bool :=
  match xs with
  | [] => Ok true
  | x :: rest =>
      let? b := contains eq x l in
      if negb b then Ok false else all_in eq rest l
  end.

(** [p == e] for the property objects at two addresses. *)
Definition prop_eq_at (s : store) (x e : paddr) : result bool :=
  let? p := load_prop x s in
  let? q := load_prop e s in
  Ok (prop_eq p (OpProp q)).

(** [Node.__eq__(self, node)].  The comparison of children recurses. *)
Fixpoint Node___eq__ (fuel : nat) (s : store) (self : naddr) (other : operand)
  : result bool :=
  match other with
  | OpNode b =>
      match fuel with
      | O => Raise OutOfFuel
      | S fuel =>
          let? n := load_node self s in
          let? m := load_node b s in
          if negb (bool_decide (n_name n = n_name m)) then Ok false
          else if negb (bool_decide (length (n_props n) = length (n_props m)))
                  || negb (bool_decide (length (n_nodes n) = length (n_nodes m)))
          then Ok false
          else
            let? ps := all_in (prop_eq_at s) (n_props n) (n_props m) in
            if negb ps then Ok false
            else all_in (fun x e => Node___eq__ fuel s x (OpNode e)) (n_nodes n) (n_nodes m)
      end
  | _ => Raise InvalidType
  end.

(** [self == other] with a node on the left: [Node] has no subclass, so
    its own [__eq__] is called. *)
Definition node_eq (fuel : nat) (s : store) (self : naddr) (other : operand) : result bool :=
  Node___eq__ fuel s self other.

(** ** Binary encoding of properties *)

(** The tag words [DTB_PROP], [DTB_BEGIN_NODE] and [DTB_END_NODE], which
    the module imports from [fdt/head.py]. *)
Record dtb_tags := Tags {
  DTB_PROP : Z;
  DTB_BEGIN_NODE : Z;
  DTB_END_NODE : Z
}.

(** [sub] starts [s]. *)
Fixpoint starts_with (s sub : str) {struct sub} : bool :=
  match sub with
  | [] => true
  | c :: sub' =>
      match s with
      | [] => false
      | d :: s' => bool_decide (c = d) && starts_with s' sub'
      end
  end.

(** [s.find(sub)]: the lowest index at which [sub] occurs in [s], or -1. *)
Fixpoint find (s sub : str) : Z :=
  if starts_with s sub then 0
  else match s with
       | [] => -1
       | _ :: s' => let r := find s' sub in if r <? 0 then -1 else 1 + r
       end.

(** [pack('>I', z)]: four big-endian bytes; [struct.error] out of range. *)
Definition pack_u32 (z : Z) : result bytes :=
  if (0 <=? z) && (z <? 2 ^ 32)
  then Ok [Z.land (Z.shiftr z 24) 255; Z.land (Z.shiftr z 16) 255;
           Z.land (Z.shiftr z 8) 255; Z.land z 255]
  else Raise EncodeError.

(** [pack('>III', a, b, c)]. *)
Definition pack_III (a b c : Z) : result bytes :=
  let? x := pack_u32 a in
  let? y := pack_u32 b in
  let? z := pack_u32 c in
  Ok (x ++ y ++ z).

(** [pack('b', 0) * k]. *)
Definition zeros (k : Z) : bytes := replicate (Z.to_nat k) 0.

(** [chars.encode('ascii')]. *)
Definition encode_ascii (chars : str) : result bytes :=
  if forallb (fun c => ord c <? 128) chars then Ok (ord <$> chars) else Raise EncodeError.

Definition len {A} (l : list A) : Z := Z.of_nat (length l).

(** The four lines every [to_dtb] of a property shares: find the name in
    the string table, or add it at the end. *)
Definition name_offset (strings name : str) : Z * str :=
  let strpos := find strings (name ++ [NUL]) in
  if strpos <? 0 then (len strings, strings ++ name ++ [NUL])
  else (strpos, strings).

(** [Property.to_dtb]. *)
Definition Property_to_dtb (T : dtb_tags) (name : str) (strings : str) (pos version : Z)
  : result (bytes * str * Z) :=
  let '(strpos, strings) := name_offset strings name in
  let pos := pos + 12 in
  let? header := pack_III (DTB_PROP T) 0 strpos in
  Ok (header, strings, pos).

(** The first loop of [PropStrings.to_dtb]:
    [blob += chars.encode('ascii') + pack('b', 0)]. *)
Fixpoint strings_blob (data : list pyval) (blob : bytes) : result bytes :=
  match data with
  | [] => Ok blob
  | PyInt _ :: _ => Raise AttributeError
  | PyStr chars :: rest =>
      let? b := encode_ascii chars in
      strings_blob rest (blob ++ b ++ [0])
  end.

(** [PropStrings.to_dtb]. *)
Definition PropStrings_to_dtb (T : dtb_tags) (name : str) (data : payload)
    (strings : str) (pos version : Z) : result (bytes * str * Z) :=
  let? blob := strings_blob (items data) [] in
  let blob_len := len blob in
  let blob := if (version <? 16) && negb ((pos + 12) mod 8 =? 0)
              then zeros (8 - (pos + 12) mod 8) ++ blob else blob in
  let blob := if negb (blob_len mod 4 =? 0)
              then blob ++ zeros (4 - blob_len mod 4) else blob in
  let '(strpos, strings) := name_offset strings name in
  let? header := pack_III (DTB_PROP T) blob_len strpos in
  let blob := header ++ blob in
  let pos := pos + len blob in
  Ok (blob, strings, pos).

(** The loop of [PropWords.to_dtb]: [blob += pack('>I', word)]. *)
Fixpoint words_blob (data : list pyval) (blob : bytes) : result bytes :=
  match data with
  | [] => Ok blob
  | PyStr _ :: _ => Raise EncodeError
  | PyInt word :: rest =>
      let? w := pack_u32 word in
      words_blob rest (blob ++ w)
  end.

(** [PropWords.to_dtb]. *)
Definition PropWords_to_dtb (T : dtb_tags) (name : str) (data : payload)
    (strings : str) (pos version : Z) : result (bytes * str * Z) :=
  let '(strpos, strings) := name_offset strings name in
  let? blob := pack_III (DTB_PROP T) (len (items data) * 4) strpos in
  let? blob := words_blob (items data) blob in
  let pos := pos + len blob in
  Ok (blob, strings, pos).

(** [PropBytes.to_dtb]. *)
Definition PropBytes_to_dtb (T : dtb_tags) (name : str) (data : payload)
    (strings : str) (pos version : Z) : result (bytes * str * Z) :=
  let '(strpos, strings) := name_offset strings name in
  let? blob := pack_III (DTB_PROP T) (len (items data)) strpos in
  let? raw := bytearray (items data) in
  let blob := blob ++ raw in
  let blob := if negb (len blob mod 4 =? 0)
              then blob ++ zeros (4 - len blob mod 4) else blob in
  let pos := pos + len blob in
  Ok (blob, strings, pos).

(** [prop.to_dtb(strings, pos, version)], by the class of [p]. *)
Definition prop_to_dtb (T : dtb_tags) (p : prop) (strings : str) (pos version : Z)
  : result (bytes * str * Z) :=
  match p with
  | Property name _ _ => Property_to_dtb T name strings pos version
  | PropStrings name _ d => PropStrings_to_dtb T name d strings pos version
  | PropWords name _ d _ => PropWords_to_dtb T name d strings pos version
  | PropBytes name _ d => PropBytes_to_dtb T name d strings pos version
  end.

(** ** Binary encoding of nodes *)

(** [for x in xs: (data, strings, pos) = x.to_dtb(strings, pos, version); blob += data]. *)
Fixpoint dtb_loop (to_dtb : nat -> str -> Z -> result (bytes * str * Z))
    (xs : list nat) (blob : bytes) (strings : str) (pos : Z)
  : result (bytes * str * Z) :=
  match xs with
  | [] => Ok (blob, strings, pos)
  | x :: rest =>
      let? (data, strings, pos) := to_dtb x strings pos in
      dtb_loop to_dtb rest (blob ++ data) strings pos
  end.

(** The begin-node record of [Node.to_dtb], before and after its padding. *)
Definition begin_node_raw (T : dtb_tags) (name : str) : result bytes :=
  if bool_decide (name = py "/") then
    let? tag := pack_u32 (DTB_BEGIN_NODE T) in
    let? zero := pack_u32 0 in
    Ok (tag ++ zero)
  else
    let? tag := pack_u32 (DTB_BEGIN_NODE T) in
    let? nm := encode_ascii name in
    Ok (tag ++ nm ++ [0]).

Definition begin_node (T : dtb_tags) (name : str) : result bytes :=
  let? blob := begin_node_raw T name in
  Ok (if negb (len blob mod 4 =? 0) then blob ++ zeros (4 - len blob mod 4) else blob).

(** [prop.to_dtb] for the property object at an address. *)
Definition prop_to_dtb_at (T : dtb_tags) (s : store) (version : Z)
    (a : paddr) (strings : str) (pos : Z) : result (bytes * str * Z) :=
  let? p := load_prop a s in
  prop_to_dtb T p strings pos version.

(** [Node.to_dtb(strings, pos, version)]. *)
Fixpoint Node_to_dtb (fuel : nat) (T : dtb_tags) (s : store) (version : Z)
    (self : naddr) (strings : str) (pos : Z) : result (bytes * str * Z) :=
  match fuel with
  | O => Raise OutOfFuel
  | S fuel =>
      let? n := load_node self s in
      let? blob := begin_node T (n_name n) in
      let pos := pos + len blob in
      let? (blob, strings, pos) :=
        dtb_loop (prop_to_dtb_at T s version) (n_props n) blob strings pos in
      let? (blob, strings, pos) :=
        dtb_loop (Node_to_dtb fuel T s version) (n_nodes n) blob strings pos in
      let pos := pos + 4 in
      let? tag := pack_u32 (DTB_END_NODE T) in
      Ok (blob ++ tag, strings, pos)
  end.

(** ** deepcopy *)

(** The memo of [copy.deepcopy]: the copy already made of each object
    met, for node objects and for property objects. *)
Record memo := Memo {
  m_nodes : gmap nat nat;
  m_props : gmap nat nat
}.

Definition empty_memo : memo := Memo ∅ ∅.

(** Deep copy of an attribute that holds a node or [None]. *)
Definition deepcopy_opt (rec : naddr -> memo -> M (naddr * memo))
    (x : option naddr) (m : memo) : M (option naddr * memo) :=
  match x with
  | None => ret (None, m)
  | Some a => let! (b, m) := rec a m in ret (Some b, m)
  end.

(** Deep copy of a list attribute: a new list of the copies, in order. *)
Fixpoint deepcopy_list (rec : nat -> memo -> M (nat * memo))
    (xs : list nat) (m : memo) : M (list nat * memo) :=
  match xs with
  | [] => ret ([], m)
  | x :: rest =>
      let! (y, m) := rec x m in
      let! (ys, m) := deepcopy_list rec rest m in
      ret (y :: ys, m)
  end.

(** Deep copy of a property object: a new object of the same class is
    entered in the memo, then its attributes are copied ([_name] and the
    elements of [data] are immutable, [_parent] is a node) and installed.
    Until then the new object's [_parent] reads [None]. *)
Definition deepcopy_prop (rec : naddr -> memo -> M (naddr * memo))
    (a : paddr) (m : memo) : M (paddr * memo) :=
  match m_props m !! a with
  | Some b => ret (b, m)
  | None =>
      let! p := lift (load_prop a) in
      let! b := alloc_prop (with_parent p None) in
      let m := Memo (m_nodes m) (<[a := b]> (m_props m)) in
      let! (parent, m) := deepcopy_opt rec (prop_parent p) m in
      let! _ := write_prop b
        (match p with
         | Property n _ d => Property n parent (copy_data <$> d)
         | PropStrings n _ d => PropStrings n parent (copy_data d)
         | PropWords n _ d w => PropWords n parent (copy_data d) w
         | PropBytes n _ d => PropBytes n parent (copy_data d)
         end) in
      ret (b, m)
  end.

(** [deepcopy(x)] of a node object, with the memo threaded through: the
    new node is entered in the memo, then [_parent], [_props] and [_nodes]
    are copied in that order and installed.  Until then the new node reads
    as one without parent, properties and children. *)
Fixpoint deepcopy_node (fuel : nat) (x : naddr) (m : memo) : M (naddr * memo) :=
  match fuel with
  | O => raise OutOfFuel
  | S fuel =>
      match m_nodes m !! x with
      | Some y => ret (y, m)
      | None =>
          let! n := lift (load_node x) in
          let! y := alloc_node (Node (n_name n) None [] []) in
          let m := Memo (<[x := y]> (m_nodes m)) (m_props m) in
          let! (parent, m) := deepcopy_opt (deepcopy_node fuel) (n_parent n) m in
          let! (props, m) := deepcopy_list (deepcopy_prop (deepcopy_node fuel)) (n_props n) m in
          let! (nodes, m) := deepcopy_list (deepcopy_node fuel) (n_nodes n) m in
          let! _ := write_node y (Node (n_name n) parent props nodes) in
          ret (y, m)
      end
  end.

(** [deepcopy(x)]: a fresh memo for each call. *)
Definition deepcopy (fuel : nat) (x : naddr) : M naddr :=
  let! (y, _) := deepcopy_node fuel x empty_memo in
  ret y.

(** ** Node.merge *)

(** The local [get_property_index]: the index in [self.props] of the first
    property of that name. *)
Fixpoint get_property_index_loop (s : store) (props : list paddr) (name : str) (i : nat)
  : result (option nat) :=
  match props with
  | [] => Ok None
  | a :: rest =>
      let? p := load_prop a s in
      if bool_decide (prop_name p = name) then Ok (Some i)
      else get_property_index_loop s rest name (S i)
  end.

Definition get_property_index (self : naddr) (name : str) (s : store) : result (option nat) :=
  let? n := load_node self s in
  get_property_index_loop s (n_props n) name 0%nat.

(** The local [get_subnode_index]. *)
Fixpoint get_subnode_index_loop (s : store) (nodes : list naddr) (name : str) (i : nat)
  : result (option nat) :=
  match nodes with
  | [] => Ok None
  | a :: rest =>
      let? n := load_node a s in
      if bool_decide (n_name n = name) then Ok (Some i)
      else get_subnode_index_loop s rest name (S i)
  end.

Definition get_subnode_index (self : naddr) (name : str) (s : store) : result (option nat) :=
  let? n := load_node self s in
  get_subnode_index_loop s (n_nodes n) name 0%nat.

(** [p.data = d]. *)
Definition set_data (p : prop) (d : payload) : prop :=
  match p with
  | Property n q _ => Property n q (Some d)
  | PropStrings n q _ => PropStrings n q d
  | PropWords n q _ w => PropWords n q d w
  | PropBytes n q _ => PropBytes n q d
  end.

(** [prop in self._props]. *)
Definition prop_in_props (self : naddr) (a : paddr) (s : store) : result bool :=
  let? n := load_node self s in
  contains (prop_eq_at s) a (n_props n).

(** [sub_node in self._nodes]. *)
Definition node_in_nodes (fuel : nat) (self : naddr) (a : naddr) (s : store) : result bool :=
  let? n := load_node self s in
  contains (fun x e => node_eq fuel s x (OpNode e)) a (n_nodes n).

(** [self._props[index]] and [self._nodes[index]]. *)
Definition props_at (self : naddr) (index : nat) (s : store) : result paddr :=
  let? n := load_node self s in
  match n_props n !! index with
  | Some a => Ok a
  | None => Raise IndexOutOfRange
  end.

Definition nodes_at (self : naddr) (index : nat) (s : store) : result naddr :=
  let? n := load_node self s in
  match n_nodes n !! index with
  | Some a => Ok a
  | None => Raise IndexOutOfRange
  end.

(** The body of the first loop of [merge], for the property [a] of [node]. *)
Definition merge_prop (self : naddr) (replace : bool) (a : paddr) : M unit :=
  let! prop := lift (load_prop a) in
  let! index := lift (get_property_index self (prop_name prop)) in
  match index with
  | None =>
      let! c := new_prop (prop_copy prop) in
      Node_append self (ItemProp c)
  | Some index =>
      let! present := lift (prop_in_props self a) in
      if present then ret tt
      else if replace then
        match prop_data prop with
        | None => raise AttributeError
        | Some d =>
            let! t := lift (props_at self index) in
            let! target := lift (load_prop t) in
            write_prop t (set_data target (copy_data d))
        end
      else ret tt
  end.

(** [for x in xs: body(x)]. *)
Fixpoint for_each (body : nat -> M unit) (xs : list nat) : M unit :=
  match xs with
  | [] => ret tt
  | x :: rest => let! _ := body x in for_each body rest
  end.

(** The body of the second loop of [merge], for the child [a] of [node];
    [rec] is the recursive call [self._nodes[index].merge(sub_node, replace)]. *)
Definition merge_node (fuel : nat) (rec : naddr -> naddr -> M unit)
    (self : naddr) (a : naddr) : M unit :=
  let! sub_node := lift (load_node a) in
  let! index := lift (get_subnode_index self (n_name sub_node)) in
  match index with
  | None =>
      let! c := deepcopy fuel a in
      nodes_append self c
  | Some index =>
      let! present := lift (node_in_nodes fuel self a) in
      if present then ret tt
      else
        let! t := lift (nodes_at self index) in
        rec t a
  end.

(** [self.merge(node, replace)].  Each loop runs over the list its
    sequence holds when the loop starts. *)
Fixpoint Node_merge (fuel : nat) (self node : naddr) (replace : bool) : M unit :=
  match fuel with
  | O => raise OutOfFuel
  | S fuel =>
      let! other := lift (load_node node) in
      let! _ := for_each (merge_prop self replace) (n_props other) in
      let! other := lift (load_node node) in
      for_each (merge_node fuel (fun t a => Node_merge fuel t a replace) self) (n_nodes other)
  end.

(** ** A sample tree

    [root = Node('/')], [soc = Node('soc')], [bus = Node('bus')],
    [leaf = Node('leaf')], then [root.append(soc)], [soc.append(bus)],
    [bus.append(leaf)], and a property [reg = PropWords('reg', 1)]
    appended to [leaf]. *)
Definition build_sample : M (naddr * naddr * naddr * naddr * paddr) :=
  let! root := new_node (Node_init (py "/") None [] []) in
  let! soc := new_node (Node_init (py "soc") None [] []) in
  let! bus := new_node (Node_init (py "bus") None [] []) in
  let! leaf := new_node (Node_init (py "leaf") None [] []) in
  let! reg := new_prop (PropWords_init (py "reg") [PyInt 1] 32 None) in
  let! _ := Node_append root (ItemNode soc) in
  let! _ := Node_append soc (ItemNode bus) in
  let! _ := Node_append bus (ItemNode leaf) in
  let! _ := Node_append leaf (ItemProp reg) in
  ret (root, soc, bus, leaf, reg).

Definition sample_store : store := fst (build_sample empty_store).

(** The names met by [path] on the way up from [parent]: every node is in
    the store and is not named [/], and the walk ends at [None] or at a
    node named [/]. *)
Fixpoint is_chain (s : store) (parent : option naddr) (names : list str) : bool :=
  match names, parent with
  | [], None => true
  | [], Some a =>
      match s_nodes s !! a with
      | Some n => bool_decide (n_name n = py "/")
      | None => false
      end
  | nm :: rest, Some a =>
      match s_nodes s !! a with
      | Some n =>
          bool_decide (n_name n = nm) && negb (bool_decide (nm = py "/"))
          && is_chain s (n_parent n) rest
      | None => false
      end
  | _ :: _, None => false
  end.

(** The names of the objects a list of addresses refers to. *)
Definition prop_names (s : store) (props : list paddr) : list (option str) :=
  (fun a => prop_name <$> s_props s !! a) <$> props.

Definition node_names (s : store) (nodes : list naddr) : list (option str) :=
  (fun a => n_name <$> s_nodes s !! a) <$> nodes.

(** ** Reading an encoded record *)

(** The [i]-th 32-bit field of a record. *)
Definition field (i : nat) (blob : bytes) : bytes := take 4 (drop (4 * i) blob).

(** The bytes of a record after its 12-byte header. *)
Definition record_payload (blob : bytes) : bytes := drop 12 blob.

(** The tag values of the flattened device tree format. *)
Definition fdt_tags : dtb_tags := Tags 3 1 2.

(** What the padding steps add: nothing to a length that is a multiple of
    four, otherwise the distance to the next one. *)
Definition trailing_pad (n : Z) : Z := if negb (n mod 4 =? 0) then 4 - n mod 4 else 0.

Definition leading_pad (pos version : Z) : Z :=
  if (version <? 16) && negb ((pos + 12) mod 8 =? 0) then 8 - (pos + 12) mod 8 else 0.

(** The table a call to [to_dtb] returns. *)
Definition final_strings (r : result (bytes * str * Z)) : option str :=
  match r with
  | Ok (_, strings, _) => Some strings
  | Raise _ => None
  end.

(** A tree whose root holds a property [foobar] and whose two children
    [a] and [b] each hold a property [bar]. *)
Definition build_shared_tail : M naddr :=
  let! root := new_node (Node_init (py "/") None [] []) in
  let! a := new_node (Node_init (py "a") None [] []) in
  let! b := new_node (Node_init (py "b") None [] []) in
  let! foobar := new_prop (Property_init (py "foobar") None) in
  let! bar1 := new_prop (Property_init (py "bar") None) in
  let! bar2 := new_prop (Property_init (py "bar") None) in
  let! _ := Node_append root (ItemProp foobar) in
  let! _ := Node_append a (ItemProp bar1) in
  let! _ := Node_append b (ItemProp bar2) in
  let! _ := Node_append root (ItemNode a) in
  let! _ := Node_append root (ItemNode b) in
  ret root.

Definition shared_tail_store : store := fst (build_shared_tail empty_store).

(** ** Invariants of deepcopy *)

(** [q] is [None] or an address at or above [base]. *)
Definition fresh_or_none (base : nat) (q : option nat) : Prop :=
  match q with
  | None => True
  | Some a => (base <= a)%nat
  end.

(** Both parts of [s'] are at least as long as those of [s]. *)
Definition store_le (s s' : store) : Prop :=
  (length (s_nodes s) <= length (s_nodes s'))%nat /\
  (length (s_props s) <= length (s_props s'))%nat.

(** The state of a deep copy started in store [s0], with memo [m] and
    current store [s]: the objects of [s0] are untouched, the memo maps
    into the objects allocated since, and the nodes allocated since refer
    only to objects allocated since. *)
Record dc_ok (s0 : store) (m : memo) (s : store) : Prop := {
  dc_le : store_le s0 s;
  dc_old_n : forall a, (a < length (s_nodes s0))%nat -> s_nodes s !! a = s_nodes s0 !! a;
  dc_old_p : forall a, (a < length (s_props s0))%nat -> s_props s !! a = s_props s0 !! a;
  dc_memo_n : forall x y, m_nodes m !! x = Some y ->
      (length (s_nodes s0) <= y < length (s_nodes s))%nat;
  dc_memo_p : forall x y, m_props m !! x = Some y ->
      (length (s_props s0) <= y < length (s_props s))%nat;
  dc_new_n : forall a n, (length (s_nodes s0) <= a)%nat -> s_nodes s !! a = Some n ->
      fresh_or_none (length (s_nodes s0)) (n_parent n) /\
      Forall (fun c => (length (s_nodes s0) <= c)%nat) (n_nodes n) /\
      Forall (fun b => (length (s_props s0) <= b)%nat) (n_props n)
}.

(** What a copying function called during a deep copy started in [s0]
    guarantees: it keeps [dc_ok], only allocates, and returns an address
    at or above [base]. *)
Definition dc_fun_ok (s0 : store) (base : nat) (f : nat -> memo -> M (nat * memo)) : Prop :=
  forall x m s s' y m',
    dc_ok s0 m s -> f x m s = (s', Ok (y, m')) ->
    dc_ok s0 m' s' /\ store_le s s' /\ (base <= y)%nat.

(** ** Invariants of merge *)

(** How a store can change during a merge, from [s] to [s']: objects are
    only added; a node of [s] keeps its name and parent, and its lists
    only receive, at their end, objects allocated since, the new
    properties having that node as parent; a property of [s] keeps its
    class, name and parent; a node allocated since has no parent or one
    allocated since. *)
Record evolves (s s' : store) : Prop := {
  ev_le : store_le s s';
  ev_node : forall a n, s_nodes s !! a = Some n ->
      exists n' en ep,
        s_nodes s' !! a = Some n' /\
        n_name n' = n_name n /\ n_parent n' = n_parent n /\
        n_nodes n' = n_nodes n ++ en /\ n_props n' = n_props n ++ ep /\
        Forall (fun c => (length (s_nodes s) <= c < length (s_nodes s'))%nat) en /\
        Forall (fun b => (length (s_props s) <= b)%nat /\
                         exists p, s_props s' !! b = Some p /\ prop_parent p = Some a) ep;
  ev_prop : forall b p, s_props s !! b = Some p ->
      exists p',
        s_props s' !! b = Some p' /\
        class_of p' = class_of p /\ prop_name p' = prop_name p /\
        prop_parent p' = prop_parent p;
  ev_new : forall a n', (length (s_nodes s) <= a)%nat -> s_nodes s' !! a = Some n' ->
      fresh_or_none (length (s_nodes s)) (n_parent n')
}.

(** [q] is met by the walk of [path] that starts at the node [a]: it is
    the parent of [a], or the parent of a node so met. *)
Inductive ancestor (s : store) : naddr -> naddr -> Prop :=
| ancestor_parent (a q : naddr) (n : node) :
    s_nodes s !! a = Some n -> n_parent n = Some q -> ancestor s a q
| ancestor_step (a q r : naddr) (n : node) :
    s_nodes s !! a = Some n -> n_parent n = Some q -> ancestor s q r -> ancestor s a r.

(** ** A sample merge

    [a = Node('a')] holds the property [p = <1>]; [b = Node('b')] holds
    [p = <2>], a property [q = "x"] and, appended to it, a child
    [c = Node('c')]. *)
Definition build_merge_sample : M (naddr * naddr) :=
  let! a := new_node (Node_init (py "a") None [] []) in
  let! b := new_node (Node_init (py "b") None [] []) in
  let! c := new_node (Node_init (py "c") None [] []) in
  let! pa := new_prop (PropWords_init (py "p") [PyInt 1] 32 None) in
  let! pb := new_prop (PropWords_init (py "p") [PyInt 2] 32 None) in
  let! q := new_prop (PropStrings_init (py "q") [PyStr (py "x")] None) in
  let! _ := Node_append a (ItemProp pa) in
  let! _ := Node_append b (ItemProp pb) in
  let! _ := Node_append b (ItemProp q) in
  let! _ := Node_append b (ItemNode c) in
  ret (a, b).

Definition merge_sample_store : store := fst (build_merge_sample empty_store).

(** The sample after [a.merge(b, replace)]. *)
Definition merged_sample (replace : bool) : store :=
  fst (Node_merge 5 0%nat 1%nat replace merge_sample_store).

(** ** The footprint of a nested merge

    [inD] and [PD] describe a set of node objects and a set of property
    objects a merge may write to: the sets hold every object not yet
    allocated and, with a node, its children and its properties. *)
Definition closed (inD PD : nat -> Prop) (s : store) : Prop :=
  (forall a, (length (s_nodes s) <= a)%nat -> inD a) /\
  (forall b, (length (s_props s) <= b)%nat -> PD b) /\
  (forall a n, inD a -> s_nodes s !! a = Some n ->
               Forall inD (n_nodes n) /\ Forall PD (n_props n)).

(** From [s] to [s'] only objects of the two sets changed, and the sets
    still have the three properties. *)
Definition frame_ok (inD PD : nat -> Prop) (s s' : store) : Prop :=
  closed inD PD s' /\ store_le s s' /\
  (forall x, ~ inD x -> s_nodes s' !! x = s_nodes s !! x) /\
  (forall b, ~ PD b -> s_props s' !! b = s_props s !! b).

(** [self.nodes.append]-style growth of the children of a node. *)
Definition with_nodes (n : node) (extra : list naddr) : node :=
  Node (n_name n) (n_parent n) (n_props n) (n_nodes n ++ extra).

(** The second loop of a merge into [self], from [s] to [s']: as
    [frame_ok], except that [self] itself, when outside the node set,
    received new children from the set. *)
Definition child_frame (inD PD : nat -> Prop) (self : naddr) (s s' : store) : Prop :=
  closed inD PD s' /\ store_le s s' /\
  (forall x, ~ inD x -> x <> self -> s_nodes s' !! x = s_nodes s !! x) /\
  (forall b, ~ PD b -> s_props s' !! b = s_props s !! b) /\
  (forall n, ~ inD self -> s_nodes s !! self = Some n ->
             exists en, s_nodes s' !! self = Some (with_nodes n en) /\ Forall inD en) /\
  (exists n', s_nodes s' !! self = Some n' /\ Forall inD (n_nodes n')).

(** [self.props.append]-style growth of the properties of a node. *)
Definition with_props (n : node) (extra : list paddr) : node :=
  Node (n_name n) (n_parent n) (n_props n ++ extra) (n_nodes n).

(** The nodes below [self] own their properties: [D] holds the children
    of [self] ([n] is the node object of [self]) and, with a node, its
    children; it does not hold [self]; the properties of its nodes exist
    and none of them is a property of [self]. *)
Definition footprint (s : store) (D : list naddr) (self : naddr) (n : node) : bool :=
  negb (bool_decide (self ∈ D)) &&
  forallb (fun c => bool_decide (c ∈ D)) (n_nodes n) &&
  forallb (fun d =>
             match s_nodes s !! d with
             | Some nd =>
                 forallb (fun c => bool_decide (c ∈ D)) (n_nodes nd) &&
                 forallb (fun b => bool_decide (b < length (s_props s))%nat &&
                                   negb (bool_decide (b ∈ n_props n))) (n_props nd)
             | None => true
             end) D.

(** The node set and the property set of the second loop of a merge into
    [self] whose first loop ended in [s1]: the nodes of [D], their
    properties in [s], and everything allocated after [s1]. *)
Definition below_nodes (D : list naddr) (s1 : store) (a : naddr) : Prop :=
  a ∈ D \/ (length (s_nodes s1) <= a)%nat.

Definition below_props (D : list naddr) (s s1 : store) (b : paddr) : Prop :=
  (exists d nd, d ∈ D /\ s_nodes s !! d = Some nd /\ b ∈ n_props nd) \/
  (length (s_props s1) <= b)%nat.

(** [a = Node('a')] holding [p = <1>] and [b = Node('b')] holding a
    property [p] without value. *)
Definition build_valueless_sample : M (naddr * naddr) :=
  let! a := new_node (Node_init (py "a") None [] []) in
  let! b := new_node (Node_init (py "b") None [] []) in
  let! pa := new_prop (PropWords_init (py "p") [PyInt 1] 32 None) in
  let! pb := new_prop (Property_init (py "p") None) in
  let! _ := Node_append a (ItemProp pa) in
  let! _ := Node_append b (ItemProp pb) in
  ret (a, b).

Definition valueless_store : store := fst (build_valueless_sample empty_store).

(** ** Well-formed stores *)

(** [q] is [None] or an address below [bound]. *)
Definition valid_opt (bound : nat) (q : option nat) : Prop :=
  match q with
  | None => True
  | Some a => (a < bound)%nat
  end.

(** Every reference held by an object of the store names an object of the
    store. *)
Record wf (s : store) : Prop := {
  wf_node : forall a n, s_nodes s !! a = Some n ->
      valid_opt (length (s_nodes s)) (n_parent n) /\
      Forall (fun c => (c < length (s_nodes s))%nat) (n_nodes n) /\
      Forall (fun b => (b < length (s_props s))%nat) (n_props n);
  wf_prop : forall b p, s_props s !! b = Some p ->
      valid_opt (length (s_nodes s)) (prop_parent p)
}.

(** The same as a test. *)
Definition valid_optb (bound : nat) (q : option nat) : bool :=
  match q with
  | None => true
  | Some a => bool_decide (a < bound)%nat
  end.

Definition wf_store (s : store) : bool :=
  forallb (fun n => valid_optb (length (s_nodes s)) (n_parent n) &&
                    forallb (fun c => bool_decide (c < length (s_nodes s))%nat) (n_nodes n) &&
                    forallb (fun b => bool_decide (b < length (s_props s))%nat) (n_props n))
          (s_nodes s) &&
  forallb (fun p => valid_optb (length (s_nodes s)) (prop_parent p)) (s_props s).

(** What a copying function called during a deep copy guarantees about
    well-formedness: [len_of] gives the number of objects of the kind it
    copies. *)
Definition dc_fun_wf (s0 : store) (len_of : store -> nat)
    (f : nat -> memo -> M (nat * memo)) : Prop :=
  forall x m s s' y m',
    wf s -> dc_ok s0 m s -> f x m s = (s', Ok (y, m')) ->
    wf s' /\ (y < len_of s')%nat.

(** The keys of the node memo are nodes of the store [s0] the deep copy
    started in. *)
Definition keys_ok (s0 : store) (m : memo) : Prop :=
  forall k y, m_nodes m !! k = Some y -> (k < length (s_nodes s0))%nat.

(** A copying function called with recursion budget [fuel] during a deep
    copy started in [s0] returns on every source satisfying [src_ok], as
    long as the budget exceeds the number of nodes of [s0] not yet in the
    memo. *)
Definition dc_total (s0 : store) (fuel : nat) (src_ok : nat -> Prop)
    (f : nat -> memo -> M (nat * memo)) : Prop :=
  forall x m s,
    dc_ok s0 m s -> src_ok x -> keys_ok s0 m ->
    (length (s_nodes s0) < fuel + size (m_nodes m))%nat ->
    exists s' y m',
      f x m s = (s', Ok (y, m')) /\
      (size (m_nodes m) <= size (m_nodes m'))%nat /\ keys_ok s0 m'.

(** ** More budget, same outcome *)

(** Whatever [r1] returns, [r2] returns. *)
Definition rrefines {A} (r1 r2 : result A) : Prop :=
  forall a, r1 = Ok a -> r2 = Ok a.

(** When [c1] returns from a store, [c2] returns the same value and
    leaves the same store. *)
Definition refines {A} (c1 c2 : M A) : Prop :=
  forall s s' a, c1 s = (s', Ok a) -> c2 s = (s', Ok a).

(** The subtree of children below [a] exists and has fewer than [h]
    levels. *)
Fixpoint height_ok (h : nat) (s : store) (a : naddr) : bool :=
  match h with
  | O => false
  | S h =>
      match s_nodes s !! a with
      | Some n => forallb (height_ok h s) (n_nodes n)
      | None => false
      end
  end.

(** ** The side that is merged in *)

(** Every property object of the store named [nm] is of class
    [Property].  A property of that class is equal to each property of
    that class and name, so that [prop in self._props] holds as soon as
    [self] has a property named [nm]. *)
Definition plain (s : store) (nm : str) : Prop :=
  forall b q, s_props s !! b = Some q -> prop_name q = nm -> class_of q = CProperty.

(** Every property object of [s'] has the class and the name of a
    property object of [s]. *)
Definition kinds (s s' : store) : Prop :=
  forall b q', s_props s' !! b = Some q' ->
    exists b0 q, s_props s !! b0 = Some q /\
                 class_of q = class_of q' /\ prop_name q = prop_name q'.

(** A property that the first loop of merge can process: its [copy()]
    succeeds and, when [replace] is set, it has a [data] attribute or no
    property of its name in the store is of a class with a value. *)
Definition mergeable (replace : bool) (s : store) (p : prop) : Prop :=
  (exists c, prop_copy p = Ok c) /\
  (replace = true -> is_Some (prop_data p) \/ plain s (prop_name p)).

(** The node [b] and the nodes below it, fewer than [h] levels, are
    outside the node set, and their properties exist, are outside the
    property set and are mergeable. *)
Fixpoint bside (inD PD : nat -> Prop) (replace : bool) (h : nat) (s : store) (b : naddr)
  : Prop :=
  match h with
  | O => False
  | S h =>
      exists n, s_nodes s !! b = Some n /\ ~ inD b /\
        Forall (fun p => ~ PD p /\
                         exists pp, s_props s !! p = Some pp /\ mergeable replace s pp)
               (n_props n) /\
        Forall (bside inD PD replace h s) (n_nodes n)
  end.

(** For every merge of a tree of fewer than [h] levels into a node of the
    node set there is a budget from which the merge returns, always with
    the same store. *)
Definition merge_returns (inD PD : nat -> Prop) (replace : bool) (h : nat) : Prop :=
  forall s t x,
    wf s -> closed inD PD s -> inD t -> (t < length (s_nodes s))%nat ->
    bside inD PD replace h s x ->
    exists f0 s', forall fuel, (f0 <= fuel)%nat ->
      Node_merge fuel t x replace s = (s', Ok tt).

(** ** The two sides of a merge, as tests *)

(** [DA] holds, with a node, its children. *)
Definition side_closed (s : store) (DA : list naddr) : bool :=
  forallb (fun d =>
             match s_nodes s !! d with
             | Some n => forallb (fun c => bool_decide (c ∈ DA)) (n_nodes n)
             | None => true
             end) DA.

(** The properties of the nodes of [DA]. *)
Definition props_of (s : store) (DA : list naddr) : list paddr :=
  flat_map (fun d => match s_nodes s !! d with
                     | Some n => n_props n
                     | None => []
                     end) DA.

(** The property set that goes with the node set [below_nodes DA s]. *)
Definition side_props (DA : list naddr) (s : store) (b : paddr) : Prop :=
  b ∈ props_of s DA \/ (length (s_props s) <= b)%nat.

Definition is_ok {A} (r : result A) : bool :=
  match r with
  | Ok _ => true
  | Raise _ => false
  end.

(** [plain], as a test. *)
Definition plainb (s : store) (nm : str) : bool :=
  forallb (fun q => negb (bool_decide (prop_name q = nm)) ||
                    bool_decide (class_of q = CProperty)) (s_props s).

Definition mergeableb (replace : bool) (s : store) (p : prop) : bool :=
  is_ok (prop_copy p) &&
  (negb replace || bool_decide (is_Some (prop_data p)) || plainb s (prop_name p)).

(** [bside] for the sets given by [DA], as a test. *)
Fixpoint bside_ok (DA : list naddr) (replace : bool) (h : nat) (s : store) (b : naddr)
  : bool :=
  match h with
  | O => false
  | S h =>
      match s_nodes s !! b with
      | Some n =>
          negb (bool_decide (b ∈ DA)) &&
          forallb (fun p => negb (bool_decide (p ∈ props_of s DA)) &&
                            match s_props s !! p with
                            | Some pp => mergeableb replace s pp
                            | None => false
                            end) (n_props n) &&
          forallb (bside_ok DA replace h s) (n_nodes n)
      | None => false
      end
  end.

(** ** new_property: a property from its raw value *)

(** [unpack(">I", b)[0]]: the big-endian value of four bytes;
    [struct.error] for another length. *)
Definition unpack_u32 (b : bytes) : result Z :=
  match b with
  | [b0; b1; b2; b3] =>
      Ok (Z.lor (Z.shiftl b0 24) (Z.lor (Z.shiftl b1 16) (Z.lor (Z.shiftl b2 8) b3)))
  | _ => Raise EncodeError
  end.

(** [range(0, n, 4)]. *)
Definition range4 (n : nat) : list nat :=
  (fun k => (4 * k)%nat) <$> seq 0 ((n + 3) / 4).

(** [obj.append(value)] on the data of a property under construction. *)
Definition checked_append (check : pyval -> result unit) (d : payload) (v : pyval)
  : result payload :=
  let? _ := check v in data_append d v.

(** [for i in range(0, len(raw_value), 4):
       obj.append(unpack(">I", raw_value[i:i + 4])[0])]. *)
Fixpoint words_loop (raw_value : bytes) (indices : list nat) (d : payload) : result payload :=
  match indices with
  | [] => Ok d
  | i :: rest =>
      let? w := unpack_u32 (take 4 (drop i raw_value)) in
      let? d := checked_append (PropWords_check 32) d (PyInt w) in
      words_loop raw_value rest d
  end.

(** [raw.decode('ascii')]: one character per byte; a codec error for a
    byte above 127. *)
Definition decode_ascii (raw : bytes) : result str :=
  if forallb (fun b => (0 <=? b) && (b <? 128)) raw
  then Ok ((fun b => ascii_of_nat (Z.to_nat b)) <$> raw)
  else Raise EncodeError.

(** [s.split(sep)] for a one-character separator: the pieces between the
    separators, one more than there are separators; [cur] is the piece
    being read. *)
Fixpoint split_loop (sep : ascii) (s cur : str) : list str :=
  match s with
  | [] => [cur]
  | c :: rest =>
      if bool_decide (c = sep) then cur :: split_loop sep rest []
      else split_loop sep rest (cur ++ [c])
  end.

Definition split (s : str) (sep : ascii) : list str := split_loop sep s [].

(** [for st in pieces: if st: obj.append(st)]. *)
Fixpoint strings_loop (pieces : list str) (d : payload) : result payload :=
  match pieces with
  | [] => Ok d
  | st :: rest =>
      if bool_decide (st = []) then strings_loop rest d
      else
        let? d := checked_append PropStrings_check d (PyStr st) in
        strings_loop rest d
  end.

(** [new_property(name, raw_value)].  [is_string] is the test the module
    imports from [fdt/misc.py]. *)
Definition new_property (is_string : bytes -> bool) (name : str) (raw_value : bytes)
  : result prop :=
  if is_string raw_value then
    let? _ := PropStrings_init name [] None in
    let? text := decode_ascii raw_value in
    let? d := strings_loop (split text NUL) (PyList []) in
    Ok (PropStrings name None d)
  else if (0 <? len raw_value) && (len raw_value mod 4 =? 0) then
    let? _ := PropWords_init name [] 32 None in
    let? d := words_loop raw_value (range4 (length raw_value)) (PyList []) in
    Ok (PropWords name None d 32)
  else if (0 <? len raw_value) && (0 <? len raw_value) then
    PropBytes_init name (Some (PyInt <$> raw_value))
  else
    Property_init name None.

(** ** Changing the value of a property *)

(** The assertion(s) of the [append] of the class of [p]; [Property] has
    no such method. *)
Definition prop_check (p : prop) (v : pyval) : result unit :=
  match p with
  | Property _ _ _ => Raise AttributeError
  | PropStrings _ _ _ => PropStrings_check v
  | PropWords _ _ _ w => PropWords_check w v
  | PropBytes _ _ _ => PropBytes_check v
  end.

(** [prop.append(value)] for the property object at [a]. *)
Definition prop_append (a : paddr) (value : pyval) : M unit :=
  let! p := lift (load_prop a) in
  let! _ := lift (fun _ => prop_check p value) in
  match prop_data p with
  | None => raise AttributeError
  | Some d =>
      let! d := lift (fun _ => data_append d value) in
      write_prop a (set_data p d)
  end.

(** [data.pop(index)] for an index in range: what is left. *)
Definition data_pop (d : payload) (i : nat) : payload :=
  match d with
  | PyList l => PyList (delete i l)
  | ByteArray l => ByteArray (delete i l)
  end.

(** [prop.pop(index)], the same method in the three classes with a value. *)
Definition prop_pop (a : paddr) (index : Z) : M pyval :=
  let! p := lift (load_prop a) in
  match class_of p, prop_data p with
  | CProperty, _ | _, None => raise AttributeError
  | _, Some d =>
      if (0 <=? index) && (index <? len (items d)) then
        match items d !! Z.to_nat index with
        | Some v =>
            let! _ := write_prop a (set_data p (data_pop d (Z.to_nat index))) in
            ret v
        | None => raise IndexOutOfRange
        end
      else raise IndexOutOfRange
  end.

(** ** Node: removal *)

(** [l.remove(x)]: [l] without its first element that is [x] or compares
    equal to it, the element of the list on the left of the comparison;
    [ValueError] when there is none. *)
Fixpoint list_remove (eq : nat -> nat -> result bool) (x : nat) (l : list nat)
  : result (list nat) :=
  match l with
  | [] => Raise InvalidValue
  | e :: rest =>
      if bool_decide (e = x) then Ok rest
      else
        let? b := eq e x in
        if b then Ok rest
        else let? r := list_remove eq x rest in Ok (e :: r)
  end.

(** [Node.remove_property]. *)
Definition remove_property (self : naddr) (name : str) : M unit :=
  let! item := lift (get_property self name) in
  match item with
  | Some a =>
      let! n := lift (load_node self) in
      let! props := lift (fun s => list_remove (prop_eq_at s) a (n_props n)) in
      write_node self (Node (n_name n) (n_parent n) props (n_nodes n))
  | None => ret tt
  end.

(** [Node.remove_subnode]. *)
Definition remove_subnode (fuel : nat) (self : naddr) (name : str) : M unit :=
  let! item := lift (get_subnode self name) in
  match item with
  | Some a =>
      let! n := lift (load_node self) in
      let! nodes := lift (fun s => list_remove (fun e x => node_eq fuel s e (OpNode x))
                                               a (n_nodes n)) in
      write_node self (Node (n_name n) (n_parent n) (n_props n) nodes)
  | None => ret tt
  end.

(** ** Valid properties *)

(** A property as the constructors and the methods [append], [pop] and
    [clear] leave it: a printable name and, by class, no [data], a list of
    strings, a list of words of the word size or a bytearray, each element
    passing the assertion of the class's [append]. *)
Definition valid_prop (p : prop) : bool :=
  forallb printable (prop_name p) &&
  match p with
  | Property _ _ None => true
  | PropStrings _ _ (PyList l) => forallb (fun v => is_ok (PropStrings_check v)) l
  | PropWords _ _ (PyList l) w => forallb (fun v => is_ok (PropWords_check w v)) l
  | PropBytes _ _ (ByteArray l) => forallb (fun z => (0 <=? z) && (z <=? 255)) l
  | _ => false
  end.

(** The number of bytes of the value of a property in its record, before
    any padding. *)
Definition raw_size (p : prop) : Z :=
  match p with
  | Property _ _ _ => 0
  | PropStrings _ _ d =>
      foldr (fun v acc => match v with PyStr st => len st + 1 + acc | PyInt _ => acc end)
            0 (items d)
  | PropWords _ _ d _ => len (items d) * 4
  | PropBytes _ _ d => len (items d)
  end.

(** ** Walking up the parents *)

(** The walk of [path] that starts at the node [x] is, after at most [k]
    steps through nodes not named [/], at the node [a], itself not named
    [/]. *)
Fixpoint climbs (s : store) (k : nat) (x a : naddr) : bool :=
  match s_nodes s !! x with
  | Some n =>
      negb (bool_decide (n_name n = py "/")) &&
      (bool_decide (x = a) ||
       match k, n_parent n with
       | S k, Some q => climbs s k q a
       | _, _ => false
       end)
  | None => false
  end.

(** ** A sample overlay

    [a = Node('a')] holds [p = <1>] and a property [flag] without value;
    [b = Node('b')] holds [p = "x"], a property [flag] without value, a
    property [status] without value and the child [c = Node('c')], which
    holds a property [ranges] without value and the child
    [d = Node('d')]. *)
Definition build_overlay_sample : M (naddr * naddr) :=
  let! a := new_node (Node_init (py "a") None [] []) in
  let! b := new_node (Node_init (py "b") None [] []) in
  let! c := new_node (Node_init (py "c") None [] []) in
  let! d := new_node (Node_init (py "d") None [] []) in
  let! pa := new_prop (PropWords_init (py "p") [PyInt 1] 32 None) in
  let! fa := new_prop (Property_init (py "flag") None) in
  let! pb := new_prop (PropStrings_init (py "p") [PyStr (py "x")] None) in
  let! fb := new_prop (Property_init (py "flag") None) in
  let! sb := new_prop (Property_init (py "status") None) in
  let! rc := new_prop (Property_init (py "ranges") None) in
  let! _ := Node_append a (ItemProp pa) in
  let! _ := Node_append a (ItemProp fa) in
  let! _ := Node_append b (ItemProp pb) in
  let! _ := Node_append b (ItemProp fb) in
  let! _ := Node_append b (ItemProp sb) in
  let! _ := Node_append c (ItemProp rc) in
  let! _ := Node_append c (ItemNode d) in
  let! _ := Node_append b (ItemNode c) in
  ret (a, b).

Definition overlay_store : store := fst (build_overlay_sample empty_store).

(** The overlay sample after [a.merge(b)]. *)
Definition merged_overlay : store :=
  fst (Node_merge 6 0%nat 1%nat true overlay_store).

(** ** Copies of trees and of parent chains *)

(** The chain of parents that starts at [q'] in [s'] is, [k] levels up, a
    copy of the one that starts at [q] in [s]: both end, or both go on
    with nodes of the same name, the one of [s'] allocated after [s]. *)
Fixpoint chain_copy (k : nat) (s : store) (q : option naddr) (s' : store)
    (q' : option naddr) : Prop :=
  match k with
  | O => True
  | S k =>
      match q, q' with
      | None, None => True
      | Some a, Some a' =>
          (length (s_nodes s) <= a')%nat /\
          exists n n', s_nodes s !! a = Some n /\ s_nodes s' !! a' = Some n' /\
            n_name n' = n_name n /\ chain_copy k s (n_parent n) s' (n_parent n')
      | _, _ => False
      end
  end.

(** The tree below [y] in [s'] is, [h] levels down, a deep copy of the
    tree below [x] in [s]: [y] was allocated after [s] and has the name of
    [x]; its properties are, in order, objects allocated after [s] that
    differ from those of [x] at most in the parent, which is [y] where the
    original's is [x]; its children are, in order, deep copies of the
    children of [x], with [y] as parent where the original's is [x]. *)
Fixpoint tree_copy (h : nat) (s : store) (x : naddr) (s' : store) (y : naddr) : Prop :=
  match h with
  | O => True
  | S h =>
      (length (s_nodes s) <= y)%nat /\
      exists n n', s_nodes s !! x = Some n /\ s_nodes s' !! y = Some n' /\
        n_name n' = n_name n /\
        Forall2 (fun a b =>
                   (length (s_props s) <= b)%nat /\
                   exists p p', s_props s !! a = Some p /\ s_props s' !! b = Some p' /\
                     with_parent p' None = with_parent p None /\
                     (prop_parent p = Some x -> prop_parent p' = Some y))
                (n_props n) (n_props n') /\
        Forall2 (fun c c' =>
                   tree_copy h s c s' c' /\
                   forall nc nc', s_nodes s !! c = Some nc -> s_nodes s' !! c' = Some nc' ->
                                  n_parent nc = Some x -> n_parent nc' = Some y)
                (n_nodes n) (n_nodes n')
  end.

(** ** The structure of a deep copy *)

(** An attribute of the copy holds the copy, as the memo [g] has it, of
    what the attribute of the original holds. *)
Definition memo_opt (g : gmap nat nat) (q q' : option nat) : Prop :=
  match q, q' with
  | None, None => True
  | Some a, Some a' => g !! a = Some a'
  | _, _ => False
  end.

Definition memo_list (g : gmap nat nat) (l l' : list nat) : Prop :=
  Forall2 (fun a b => g !! a = Some b) l l'.

(** [n'] is the finished copy of the node object [n], and [p'] that of
    the property object [p]. *)
Definition node_image (m : memo) (n n' : node) : Prop :=
  n_name n' = n_name n /\
  memo_opt (m_nodes m) (n_parent n) (n_parent n') /\
  memo_list (m_props m) (n_props n) (n_props n') /\
  memo_list (m_nodes m) (n_nodes n) (n_nodes n').

Definition prop_image (m : memo) (p p' : prop) : Prop :=
  with_parent p' None = with_parent p None /\
  memo_opt (m_nodes m) (prop_parent p) (prop_parent p').

(** The memo of a deep copy started in [s0]: apart from the objects
    whose copy is under way, those of [ON] and [OP], every object of the
    memo has its finished copy in the store; no two objects share a
    copy. *)
Record dc_img (s0 : store) (ON OP : nat -> Prop) (m : memo) (s : store) : Prop := {
  img_node : forall x y, m_nodes m !! x = Some y -> ~ ON x ->
      exists n n', s_nodes s0 !! x = Some n /\ s_nodes s !! y = Some n' /\
                   node_image m n n';
  img_prop : forall a b, m_props m !! a = Some b -> ~ OP a ->
      exists p p', s_props s0 !! a = Some p /\ s_props s !! b = Some p' /\
                   prop_image m p p';
  img_inj_n : forall x x' y, m_nodes m !! x = Some y -> m_nodes m !! x' = Some y -> x = x';
  img_inj_p : forall a a' b, m_props m !! a = Some b -> m_props m !! a' = Some b -> a = a'
}.

(** The memo only grows. *)
Definition memo_le (m m' : memo) : Prop :=
  m_nodes m ⊆ m_nodes m' /\ m_props m ⊆ m_props m'.

(** What a copying function called during a deep copy started in [s0]
    guarantees about the memo, on a source below [len0]: [get] selects
    the part of the memo for the kind of object it copies. *)
Definition dc_fun_img (s0 : store) (len0 : nat) (get : memo -> gmap nat nat)
    (f : nat -> memo -> M (nat * memo)) : Prop :=
  forall ON OP x m s s' y m',
    (x < len0)%nat -> dc_ok s0 m s -> dc_img s0 ON OP m s ->
    f x m s = (s', Ok (y, m')) ->
    dc_img s0 ON OP m' s' /\ memo_le m m' /\ get m' !! x = Some y.

(** The node [c] of [s'] is a copy of the node [x] of [s]: a deep copy of
    the tree below [x], whose chain of parents is a copy of that of
    [x]. *)
Definition copied (s : store) (x : naddr) (s' : store) (c : naddr) : Prop :=
  (forall h, tree_copy h s x s' c) /\
  exists sub nc, s_nodes s !! x = Some sub /\ s_nodes s' !! c = Some nc /\
                 forall k, chain_copy k s (n_parent sub) s' (n_parent nc).

(** The tree below [b], fewer than [h] levels, is apart from the nodes of
    [DA] and from their properties. *)
Fixpoint apart (DA : list naddr) (h : nat) (s : store) (b : naddr) : bool :=
  match h with
  | O => false
  | S h =>
      match s_nodes s !! b with
      | Some n =>
          negb (bool_decide (b ∈ DA)) &&
          forallb (fun p => negb (bool_decide (p ∈ props_of s DA))) (n_props n) &&
          forallb (apart DA h s) (n_nodes n)
      | None => false
      end
  end.

(** The state of the second loop of a merge into [self], which was the
    node [n] in the store [s] the merge started in and whose first loop
    ended in [s1]; [D] holds the nodes below [self].  [ej] are the
    children the loop has appended to [self] and [PN], [PP] the node
    objects and property objects of these copies.  Nested merges write
    to the nodes of [D], to their properties and to what they allocate,
    but not to the copies; the objects of [s] other than [self], the
    nodes of [D] and their properties are as in [s]. *)
Record loop_inv (s : store) (D : list naddr) (self : naddr) (n : node) (s1 : store)
    (PN PP : nat -> Prop) (ej : list naddr) (sj : store) : Prop := {
  li_wf : wf sj;
  li_ev : evolves s sj;
  li_le : store_le s1 sj;
  li_dec : forall a, PN a \/ ~ PN a;
  li_closed : closed (fun a => below_nodes D s1 a /\ ~ PN a)
                     (fun b => below_props D s s1 b /\ ~ PP b) sj;
  li_pn : forall a, PN a -> (length (s_nodes s1) <= a < length (s_nodes sj))%nat;
  li_pp : forall b, PP b -> (length (s_props s1) <= b < length (s_props sj))%nat;
  li_sub : forall a na, PN a -> s_nodes sj !! a = Some na ->
      Forall PN (n_nodes na) /\ Forall PP (n_props na);
  li_out_n : forall z, (z < length (s_nodes s))%nat -> z ∉ self :: D ->
      s_nodes sj !! z = s_nodes s !! z;
  li_out_p : forall b, (b < length (s_props s))%nat -> b ∉ props_of s (self :: D) ->
      s_props sj !! b = s_props s !! b;
  li_self : exists nj, s_nodes sj !! self = Some nj /\ n_nodes nj = n_nodes n ++ ej;
  li_ej : Forall PN ej
}.

(** The outcomes a merge can have when the properties it copies can be
    copied: it returns, or [prop.data] was read on a property without
    value. *)
Definition settled (r : result unit) : Prop := r = Ok tt \/ r = Raise AttributeError.

(** For every merge of a tree of fewer than [h] levels into a node of the
    node set there is a budget from which the merge has the same settled
    outcome. *)
Definition merge_settles (inD PD : nat -> Prop) (replace : bool) (h : nat) : Prop :=
  forall s t x,
    wf s -> closed inD PD s -> inD t -> (t < length (s_nodes s))%nat ->
    bside inD PD false h s x ->
    exists f0 s' r, settled r /\
      forall fuel, (f0 <= fuel)%nat -> Node_merge fuel t x replace s = (s', r).

(** * Properties *)

(** ** Property equality *)

Lemma data_eq_loop_spec (a b : list pyval) (k n : nat) :
  data_eq_loop a b (seq k n) = true <->
  (forall i : nat, (k <= i < k + n)%nat -> a !! i = b !! i).
Proof.
  revert k. induction n as [|n IH]; intros k; simpl.
  - split; [intros _ i Hi; lia | reflexivity].
  - case_bool_decide as Hk.
    + rewrite IH. split.
      * intros H i Hi. destruct (decide (i = k)) as [->|Hne]; [exact Hk|].
        apply H. lia.
      * intros H i Hi. apply H. lia.
    + split; [discriminate|]. intros H. exfalso. apply Hk, H. lia.
Qed.

Lemma PropData_eq_spec (c : pclass) (p q : prop) :
  PropData___eq__ c p (OpProp q) = true <->
  isinstance q c = true /\ prop_name p = prop_name q /\
  length (values p) = length (values q) /\
  (forall i : nat, (i < length (values p))%nat -> values p !! i = values q !! i).
Proof.
  unfold PropData___eq__.
  destruct (isinstance q c); simpl; [|intuition discriminate].
  case_bool_decide as Hn; simpl; [|intuition discriminate].
  case_bool_decide as Hl; simpl; [|intuition discriminate].
  rewrite data_eq_loop_spec. split.
  - intros H. repeat split; auto. intros i Hi. apply H. lia.
  - intros (_ & _ & _ & H) i Hi. apply H. lia.
Qed.

(** C1. Two properties compare equal exactly when they have the same
    class, the same name, the same number of values and equal values at
    every index; a property without value and a property with strings,
    words or bytes are unequal, whichever is on the left, also when their
    names match. *)
Theorem prop_eq_iff (p q : prop) :
  (prop_eq p (OpProp q) = true <->
   class_of p = class_of q /\ prop_name p = prop_name q /\
   length (values p) = length (values q) /\
   (forall i : nat, (i < length (values p))%nat -> values p !! i = values q !! i)) /\
  (class_of p = CProperty -> class_of q <> CProperty ->
   prop_eq p (OpProp q) = false /\ prop_eq q (OpProp p) = false).
Proof.
  split.
  - unfold prop_eq, proper_subclass, prop___eq__.
    destruct p as [n1 ? ?|n1 ? d1|n1 ? d1 ?|n1 ? d1];
      destruct q as [n2 ? ?|n2 ? d2|n2 ? d2 ?|n2 ? d2]; simpl class_of;
      repeat (case_bool_decide; try congruence); simpl andb; cbv iota;
      try rewrite PropData_eq_spec; unfold Property___eq__, isinstance; simpl;
      repeat (case_bool_decide; try congruence); simpl;
      try (split; [intros; try discriminate; intuition (auto; lia)
                  | intros (? & ? & ? & ?); try discriminate; try congruence; auto]).
  - intros Hp Hq.
    destruct p; try discriminate. destruct q; simpl in Hq; try congruence;
      unfold prop_eq, proper_subclass, prop___eq__, PropData___eq__; simpl; auto.
Qed.

Lemma prop_eq_iff_witness :
  prop_eq (Property (py "a") None None)
          (OpProp (PropStrings (py "a") None (PyList [PyStr (py "x")]))) = false /\
  prop_eq (PropStrings (py "a") None (PyList [PyStr (py "x")]))
          (OpProp (Property (py "a") None None)) = false.
Proof. apply (proj2 (prop_eq_iff _ _)); [reflexivity | discriminate]. Defined.

(** Called as a plain method, [Property.__eq__] accepts an object of a
    derived class of the same name; the [==] operator never makes that
    call when the right operand is of a derived class. *)
Lemma Property_eq_method_on_subclass (name : str) (q : prop) :
  prop_name q = name -> Property___eq__ (Property name None None) (OpProp q) = true.
Proof.
  intros <-. unfold Property___eq__. simpl. case_bool_decide; [reflexivity|congruence].
Qed.

(** ** Names *)

Lemma append_all_not_InvalidName (check : pyval -> result unit) (args : list pyval) :
  (forall v, check v <> Raise InvalidName) ->
  forall d, append_all check d args <> Raise InvalidName.
Proof.
  intros Hc. induction args as [|v args IH]; intros d; simpl; [discriminate|].
  specialize (Hc v). destruct (check v) as [[]|e]; simpl; [|congruence].
  destruct d as [l|l], v as [x|z]; simpl; try apply IH; try discriminate.
  destruct (_ && _); simpl; [apply IH|discriminate].
Qed.

Lemma bytearray_not_InvalidName (l : list pyval) : bytearray l <> Raise InvalidName.
Proof.
  induction l as [|[x|z] l IH]; simpl; try discriminate.
  destruct (_ && _); [|discriminate].
  destruct (bytearray l); simpl; [discriminate|congruence].
Qed.

Lemma PropStrings_check_not_InvalidName v : PropStrings_check v <> Raise InvalidName.
Proof.
  destruct v; simpl; [|discriminate].
  repeat (destruct (negb _); try discriminate).
Qed.

Lemma PropWords_check_not_InvalidName w v : PropWords_check w v <> Raise InvalidName.
Proof. destruct v; simpl; [discriminate|]. destruct (in_word_range _ _); discriminate. Qed.

(** C5 (as the code has it). A constructor fails with the invalid-name
    error exactly when the name holds a character that is not printable;
    this holds for the five classes.  The empty name holds no such
    character and is accepted. *)
Theorem constructors_InvalidName (name : str) (parent : option naddr) :
  let bad := forallb printable name = false in
  (Property_init name parent = Raise InvalidName <-> bad) /\
  (forall args, PropStrings_init name args parent = Raise InvalidName <-> bad) /\
  (forall args wsize, PropWords_init name args wsize parent = Raise InvalidName <-> bad) /\
  (forall data, PropBytes_init name data = Raise InvalidName <-> bad) /\
  (forall props nodes, Node_init name parent props nodes = Raise InvalidName <-> bad) /\
  BaseItem___init__ [] = Ok tt.
Proof.
  unfold Property_init, PropStrings_init, PropWords_init, PropBytes_init, Node_init,
    BaseItem___init__.
  destruct (forallb printable name); simpl; repeat split; try discriminate; try congruence.
  - intros H. exfalso. revert H.
    pose proof (append_all_not_InvalidName PropStrings_check args
                  PropStrings_check_not_InvalidName (PyList [])) as Hn.
    destruct (append_all _ _ _); simpl; [discriminate|congruence].
  - intros H. exfalso. revert H.
    pose proof (append_all_not_InvalidName (PropWords_check wsize) args
                  (PropWords_check_not_InvalidName wsize) (PyList [])) as Hn.
    destruct (append_all _ _ _); simpl; [discriminate|congruence].
  - intros H. exfalso. revert H. destruct data as [l|]; [|discriminate].
    pose proof (bytearray_not_InvalidName l) as Hn.
    destruct (bytearray l); simpl; [discriminate|congruence].
Qed.

(** An item of each kind is constructed with the empty name. *)
Lemma empty_name_accepted :
  Node_init (py "") None [] [] = Ok (Node [] None [] []) /\
  Property_init (py "") None = Ok (Property [] None None) /\
  new_node (Node_init (py "") None [] []) empty_store
    = (Store [] [Node [] None [] []], Ok 0%nat).
Proof. repeat split. Qed.

(** ** Paths *)

Lemma sample_store_eq :
  sample_store =
  Store [PropWords (py "reg") (Some 3%nat) (PyList [PyInt 1]) 32]
        [Node (py "/") None [] [1%nat];
         Node (py "soc") (Some 0%nat) [] [2%nat];
         Node (py "bus") (Some 1%nat) [] [3%nat];
         Node (py "leaf") (Some 2%nat) [0%nat] []].
Proof. reflexivity. Qed.

Lemma path_loop_chain (s : store) (names : list str) :
  forall (parent : option naddr) (acc : list str) (fuel : nat),
    is_chain s parent names = true ->
    (length names < fuel)%nat ->
    path_loop fuel s parent acc = Ok (acc ++ names).
Proof.
  induction names as [|nm names IH]; intros parent acc fuel Hc Hf;
    (destruct fuel as [|fuel]; [simpl in Hf; lia|]); simpl in *.
  - destruct parent as [a|]; [|by rewrite app_nil_r].
    unfold load_node. destruct (s_nodes s !! a) as [n|]; [|discriminate]. simpl.
    rewrite Hc. by rewrite app_nil_r.
  - destruct parent as [a|]; [|discriminate].
    unfold load_node. destruct (s_nodes s !! a) as [n|]; [|discriminate]. simpl.
    apply andb_true_iff in Hc as [Hc Hrest]. apply andb_true_iff in Hc as [Hn Hroot].
    apply bool_decide_eq_true in Hn. subst nm.
    apply negb_true_iff in Hroot. rewrite Hroot.
    rewrite (IH _ _ fuel Hrest); [|lia]. by rewrite <- app_assoc.
Qed.

(** C2 (as the code has it). The path of an item is a slash followed by
    the slash-joined names of its ancestors, outermost first, from below
    the node named [/] down to the item's parent; the item's own name is
    not part of it.  An item without parent, such as the root, has path
    [/]. *)
Theorem path_of_chain (s : store) (parent : option naddr) (names : list str) (fuel : nat) :
  is_chain s parent names = true ->
  (length names < fuel)%nat ->
  path_of fuel s parent = Ok (py "/" ++ join (py "/") (rev names)) /\
  path_of fuel s None = Ok (py "/").
Proof.
  intros Hc Hf. unfold path_of. split.
  - by rewrite (path_loop_chain s names parent [] fuel Hc Hf).
  - destruct fuel; [lia|reflexivity].
Qed.

Lemma path_of_chain_witness :
  path_of 3 sample_store (Some 2%nat) = Ok (py "/soc/bus") /\
  path_of 3 sample_store None = Ok (py "/").
Proof.
  apply (path_of_chain sample_store (Some 2%nat) [py "bus"; py "soc"] 3);
    [reflexivity | simpl; lia].
Defined.

(** The node [leaf] of the sample tree, three levels below the root under
    [soc] and [bus], reports [/soc/bus], not [/soc/bus/leaf]. *)
Lemma path_excludes_own_name :
  node_path 4 sample_store 3%nat = Ok (py "/soc/bus") /\
  node_path 4 sample_store 3%nat <> Ok (py "/soc/bus/leaf") /\
  node_path 4 sample_store 0%nat = Ok (py "/").
Proof. repeat split. discriminate. Qed.

(** ** append rejects a duplicate name *)

Lemma get_property_loop_found (s : store) (name : str) (props : list paddr) :
  None ∉ prop_names s props ->
  Some name ∈ prop_names s props ->
  exists b, get_property_loop s props name = Ok (Some b).
Proof.
  unfold prop_names. induction props as [|a props IH]; simpl; intros Hd Hin.
  - by apply elem_of_nil in Hin.
  - apply not_elem_of_cons in Hd as [Ha Hd]. unfold load_prop.
    destruct (s_props s !! a) as [p|]; simpl in *; [|congruence].
    case_bool_decide as Hn; [eauto|].
    apply elem_of_cons in Hin as [Heq|Hin]; [congruence|]. by apply IH.
Qed.

Lemma get_subnode_loop_found (s : store) (name : str) (nodes : list naddr) :
  None ∉ node_names s nodes ->
  Some name ∈ node_names s nodes ->
  exists b, get_subnode_loop s nodes name = Ok (Some b).
Proof.
  unfold node_names. induction nodes as [|a nodes IH]; simpl; intros Hd Hin.
  - by apply elem_of_nil in Hin.
  - apply not_elem_of_cons in Hd as [Ha Hd]. unfold load_node.
    destruct (s_nodes s !! a) as [n|]; simpl in *; [|congruence].
    case_bool_decide as Hn; [eauto|].
    apply elem_of_cons in Hin as [Heq|Hin]; [congruence|]. by apply IH.
Qed.

(** C6. Appending to a node a property whose name one of the node's
    properties already has, or a node whose name one of its children
    already has, raises the duplicate-name error and leaves the store as
    it was: the node's properties and children, and every other object,
    are unchanged. *)
Theorem append_duplicate_rejected (s : store) (self : naddr) (n : node) :
  s_nodes s !! self = Some n ->
  None ∉ prop_names s (n_props n) ->
  None ∉ node_names s (n_nodes n) ->
  (forall (a : paddr) (p : prop),
      s_props s !! a = Some p ->
      Some (prop_name p) ∈ prop_names s (n_props n) ->
      Node_append self (ItemProp a) s = (s, Raise DuplicateName)) /\
  (forall (a : naddr) (x : node),
      s_nodes s !! a = Some x ->
      Some (n_name x) ∈ node_names s (n_nodes n) ->
      Node_append self (ItemNode a) s = (s, Raise DuplicateName)).
Proof.
  intros Hself Hp Hn. split.
  - intros a p Ha Hin.
    destruct (get_property_loop_found s (prop_name p) _ Hp Hin) as [b Hb].
    unfold Node_append, bind, lift, get_property, load_prop, load_node.
    rewrite Ha, Hself. simpl. by rewrite Hb.
  - intros a x Ha Hin.
    destruct (get_subnode_loop_found s (n_name x) _ Hn Hin) as [b Hb].
    unfold Node_append, bind, lift, get_subnode, load_node.
    rewrite Ha, Hself. simpl. by rewrite Hb.
Qed.

(** A second [reg] for [leaf] and a second [bus] for [soc], in the sample
    tree extended by the two new objects. *)
Lemma append_duplicate_rejected_witness :
  let s := Store (s_props sample_store ++ [Property (py "reg") None None])
                 (s_nodes sample_store ++ [Node (py "bus") None [] []]) in
  Node_append 3%nat (ItemProp 1%nat) s = (s, Raise DuplicateName) /\
  Node_append 1%nat (ItemNode 4%nat) s = (s, Raise DuplicateName).
Proof.
  intros s. split.
  - refine (proj1 (append_duplicate_rejected s 3%nat
                     (Node (py "leaf") (Some 2%nat) [0%nat] []) _ _ _) 1%nat
                  (Property (py "reg") None None) _ _);
      first [reflexivity | compute_done].
  - refine (proj2 (append_duplicate_rejected s 1%nat
                     (Node (py "soc") (Some 0%nat) [] [2%nat]) _ _ _) 4%nat
                  (Node (py "bus") None [] []) _ _);
      first [reflexivity | compute_done].
Defined.

(** ** Comparing across types *)

(** C10. Comparing a node with a value that is not a node raises, whatever
    the value (a property, an integer, a string, [None]); comparing a
    property with a value that is not a property, or with a property of
    another class, returns [False]. *)
Theorem eq_across_types (fuel : nat) (s : store) (self : naddr) (p : prop) (other : operand) :
  ((forall b, other <> OpNode b) -> node_eq fuel s self other = Raise InvalidType) /\
  ((forall q, other <> OpProp q) -> prop_eq p other = false) /\
  (forall q, class_of p <> class_of q -> prop_eq p (OpProp q) = false).
Proof.
  repeat split.
  - intros H. unfold node_eq. destruct other; try (by destruct fuel). by destruct (H a).
  - intros H. destruct other; try (by destruct p). by destruct (H q).
  - intros q Hc. apply not_true_is_false. intros Heq.
    apply (proj1 (prop_eq_iff p q)) in Heq. tauto.
Qed.

Lemma eq_across_types_witness :
  node_eq 0 sample_store 3%nat (OpProp (Property (py "leaf") None None)) = Raise InvalidType /\
  prop_eq (PropWords (py "reg") None (PyList [PyInt 1]) 32) (OpNode 3%nat) = false /\
  prop_eq (PropWords (py "reg") None (PyList [PyInt 1]) 32)
          (OpProp (PropBytes (py "reg") None (ByteArray [1]))) = false.
Proof.
  pose proof (eq_across_types 0 sample_store 3%nat
                (PropWords (py "reg") None (PyList [PyInt 1]) 32)
                (OpProp (Property (py "leaf") None None))) as (H1 & _ & _).
  pose proof (eq_across_types 0 sample_store 3%nat
                (PropWords (py "reg") None (PyList [PyInt 1]) 32)
                (OpNode 3%nat)) as (_ & H2 & H3).
  split; [apply H1; discriminate|].
  split; [apply H2; discriminate|apply H3; discriminate].
Defined.

(** ** Lengths of encoded records *)

Lemma pack_u32_length (z : Z) (b : bytes) : pack_u32 z = Ok b -> length b = 4%nat.
Proof. unfold pack_u32. destruct (_ && _); [|discriminate]. by intros [= <-]. Qed.

Lemma pack_III_inv (a b c : Z) (h : bytes) :
  pack_III a b c = Ok h ->
  exists x y z, pack_u32 a = Ok x /\ pack_u32 b = Ok y /\ pack_u32 c = Ok z /\
                h = x ++ y ++ z.
Proof.
  unfold pack_III.
  destruct (pack_u32 a) as [x|]; simpl; [|discriminate].
  destruct (pack_u32 b) as [y|]; simpl; [|discriminate].
  destruct (pack_u32 c) as [z|]; simpl; [|discriminate].
  intros [= <-]. eauto 10.
Qed.

Lemma pack_III_length (a b c : Z) (h : bytes) : pack_III a b c = Ok h -> length h = 12%nat.
Proof.
  intros (x & y & z & Hx & Hy & Hz & ->)%pack_III_inv.
  rewrite !length_app.
  rewrite (pack_u32_length _ _ Hx), (pack_u32_length _ _ Hy), (pack_u32_length _ _ Hz).
  reflexivity.
Qed.

Lemma zeros_len (k : Z) : 0 <= k -> len (zeros k) = k.
Proof. intros Hk. unfold len, zeros. rewrite length_replicate. lia. Qed.

Lemma len_app {A} (l1 l2 : list A) : len (l1 ++ l2) = len l1 + len l2.
Proof. unfold len. rewrite length_app. lia. Qed.

Lemma len_nonneg {A} (l : list A) : 0 <= len l.
Proof. unfold len. lia. Qed.

Lemma words_blob_len (data : list pyval) :
  forall acc blob, words_blob data acc = Ok blob -> len blob = len acc + 4 * len data.
Proof.
  induction data as [|[x|w] data IH]; intros acc blob; simpl.
  - intros [= <-]. unfold len. simpl. lia.
  - discriminate.
  - destruct (pack_u32 w) as [b|] eqn:Hw; simpl; [|discriminate].
    intros H. apply IH in H. rewrite H, len_app.
    apply pack_u32_length in Hw. unfold len in *. simpl. lia.
Qed.

Lemma trailing_pad_aligned (n : Z) : (n + trailing_pad n) mod 4 = 0.
Proof.
  unfold trailing_pad. destruct (n mod 4 =? 0) eqn:E; simpl.
  - apply Z.eqb_eq in E. by rewrite Z.add_0_r.
  - apply Z.eqb_neq in E. Z.div_mod_to_equations. lia.
Qed.

Lemma trailing_pad_range (n : Z) : 0 <= trailing_pad n < 4.
Proof.
  unfold trailing_pad. destruct (n mod 4 =? 0) eqn:E; simpl; [lia|].
  apply Z.eqb_neq in E. Z.div_mod_to_equations. lia.
Qed.

Lemma leading_pad_aligned (pos version : Z) :
  pos mod 4 = 0 -> leading_pad pos version mod 4 = 0.
Proof.
  intros Hp. unfold leading_pad.
  destruct ((version <? 16) && negb ((pos + 12) mod 8 =? 0)) eqn:E; [|reflexivity].
  apply andb_true_iff in E as [_ E]. apply negb_true_iff, Z.eqb_neq in E.
  Z.div_mod_to_equations. lia.
Qed.

Lemma leading_pad_range (pos version : Z) : 0 <= leading_pad pos version < 8.
Proof.
  unfold leading_pad.
  destruct ((version <? 16) && negb ((pos + 12) mod 8 =? 0)) eqn:E; [|lia].
  apply andb_true_iff in E as [_ E]. apply negb_true_iff, Z.eqb_neq in E.
  Z.div_mod_to_equations. lia.
Qed.

(** The shape of the record [PropStrings.to_dtb] emits. *)
Lemma PropStrings_to_dtb_inv (T : dtb_tags) (name : str) (data : payload)
    (strings : str) (pos version : Z) (blob : bytes) (strings' : str) (pos' : Z) :
  PropStrings_to_dtb T name data strings pos version = Ok (blob, strings', pos') ->
  exists raw header,
    strings_blob (items data) [] = Ok raw /\
    pack_III (DTB_PROP T) (len raw) (fst (name_offset strings name)) = Ok header /\
    blob = header ++ zeros (leading_pad pos version) ++ raw ++ zeros (trailing_pad (len raw)) /\
    strings' = snd (name_offset strings name) /\
    pos' = pos + len blob.
Proof.
  unfold PropStrings_to_dtb.
  destruct (strings_blob (items data) []) as [raw|] eqn:Hraw; simpl; [|discriminate].
  destruct (name_offset strings name) as [strpos st] eqn:Hoff. simpl.
  destruct (pack_III _ _ _) as [header|] eqn:Hh; simpl; [|discriminate].
  intros [= <- <- <-]. exists raw, header. repeat split; auto.
  unfold leading_pad, trailing_pad.
  destruct ((version <? 16) && _); destruct (negb (len raw mod 4 =? 0));
    simpl; rewrite ?app_nil_r, <- ?app_assoc; reflexivity.
Qed.

Lemma field_1_of_header (x y z rest : bytes) :
  length x = 4%nat -> length y = 4%nat -> field 1 ((x ++ y ++ z) ++ rest) = y.
Proof.
  intros Hx Hy. unfold field. rewrite <- !app_assoc.
  change (4 * 1)%nat with 4%nat.
  rewrite (drop_app_length' x _ 4 (eq_sym Hx)). by rewrite (take_app_length' y _ 4 (eq_sym Hy)).
Qed.

Lemma field_2_of_header (x y z rest : bytes) :
  length x = 4%nat -> length y = 4%nat -> length z = 4%nat ->
  field 2 ((x ++ y ++ z) ++ rest) = z.
Proof.
  intros Hx Hy Hz. unfold field. rewrite <- !app_assoc.
  change (4 * 2)%nat with (4 + 4)%nat. rewrite <- (drop_drop _ 4 4).
  rewrite (drop_app_length' x _ 4 (eq_sym Hx)), (drop_app_length' y _ 4 (eq_sym Hy)).
  by rewrite (take_app_length' z _ 4 (eq_sym Hz)).
Qed.

Lemma record_payload_of_header (h rest : bytes) :
  length h = 12%nat -> record_payload (h ++ rest) = rest.
Proof. intros Hh. unfold record_payload. by rewrite (drop_app_length' h _ 12 (eq_sym Hh)). Qed.

(** C3 (as the code has it). The length field of the record emitted for a
    strings property holds the length of the payload as the first loop
    built it, the strings with their terminators: it is measured before
    the leading padding of versions below 16 and before the trailing
    padding to a multiple of four, both of which the emitted payload
    contains. *)
Theorem PropStrings_recorded_length (T : dtb_tags) (name : str) (data : payload)
    (strings : str) (pos version : Z) (blob : bytes) (strings' : str) (pos' : Z) :
  PropStrings_to_dtb T name data strings pos version = Ok (blob, strings', pos') ->
  exists raw,
    strings_blob (items data) [] = Ok raw /\
    pack_u32 (len raw) = Ok (field 1 blob) /\
    record_payload blob
      = zeros (leading_pad pos version) ++ raw ++ zeros (trailing_pad (len raw)) /\
    len (record_payload blob)
      = leading_pad pos version + len raw + trailing_pad (len raw).
Proof.
  intros (raw & header & Hraw & Hh & -> & _ & _)%PropStrings_to_dtb_inv.
  exists raw. split; [exact Hraw|].
  pose proof (pack_III_length _ _ _ _ Hh) as Hlen.
  apply pack_III_inv in Hh as (x & y & z & Hx & Hy & Hz & ->).
  rewrite field_1_of_header by eauto using pack_u32_length.
  rewrite record_payload_of_header by exact Hlen.
  repeat split; auto.
  rewrite !len_app, !zeros_len; [lia| |].
  - apply trailing_pad_range.
  - apply leading_pad_range.
Qed.

Lemma PropStrings_recorded_length_witness :
  exists raw,
    strings_blob [PyStr (py "a"); PyStr (py "bc")] [] = Ok raw /\
    pack_u32 (len raw) = Ok [0; 0; 0; 5] /\
    [0; 0; 0; 0; 97; 0; 98; 99; 0; 0; 0; 0]
      = zeros (leading_pad 0 15) ++ raw ++ zeros (trailing_pad (len raw)) /\
    12 = leading_pad 0 15 + len raw + trailing_pad (len raw).
Proof.
  exact (PropStrings_recorded_length fdt_tags (py "p")
           (PyList [PyStr (py "a"); PyStr (py "bc")]) [] 0 15
           [0; 0; 0; 3; 0; 0; 0; 5; 0; 0; 0; 0;
            0; 0; 0; 0; 97; 0; 98; 99; 0; 0; 0; 0]
           (py "p" ++ [NUL]) 24 eq_refl).
Defined.

(** The strings property [p = "a"]: the payload [61 00] is padded to four
    bytes, and the length field holds 2. *)
Lemma strings_length_excludes_trailing_pad :
  PropStrings_to_dtb fdt_tags (py "p") (PyList [PyStr (py "a")]) [] 0 17
    = Ok ([0; 0; 0; 3; 0; 0; 0; 2; 0; 0; 0; 0; 97; 0; 0; 0], py "p" ++ [NUL], 16) /\
  pack_u32 2 = Ok (field 1 [0; 0; 0; 3; 0; 0; 0; 2; 0; 0; 0; 0; 97; 0; 0; 0]) /\
  len (record_payload [0; 0; 0; 3; 0; 0; 0; 2; 0; 0; 0; 0; 97; 0; 0; 0]) = 4.
Proof. repeat split. Qed.

(** ** Alignment *)

Lemma mod4_add (a b : Z) : a mod 4 = 0 -> b mod 4 = 0 -> (a + b) mod 4 = 0.
Proof. intros Ha Hb. Z.div_mod_to_equations. lia. Qed.

Lemma prop_record_aligned (T : dtb_tags) (p : prop) (strings : str) (pos version : Z)
    (blob : bytes) (strings' : str) (pos' : Z) :
  pos mod 4 = 0 ->
  prop_to_dtb T p strings pos version = Ok (blob, strings', pos') ->
  len blob mod 4 = 0 /\ pos' = pos + len blob.
Proof.
  intros Hpos. destruct p as [name ? ?|name ? d|name ? d w|name ? d]; simpl.
  - unfold Property_to_dtb. destruct (name_offset strings name) as [strpos st].
    destruct (pack_III _ _ _) as [h|] eqn:Hh; simpl; [|discriminate].
    intros [= <- <- <-]. apply pack_III_length in Hh. unfold len. rewrite Hh.
    split; reflexivity.
  - intros (raw & header & _ & Hh & -> & _ & ->)%PropStrings_to_dtb_inv.
    split; [|reflexivity]. apply pack_III_length in Hh.
    pose proof (leading_pad_range pos version). pose proof (trailing_pad_range (len raw)).
    rewrite !len_app, !zeros_len by lia.
    replace (len header) with 12 by (unfold len; rewrite Hh; reflexivity).
    pose proof (leading_pad_aligned pos version Hpos).
    pose proof (trailing_pad_aligned (len raw)).
    Z.div_mod_to_equations. lia.
  - unfold PropWords_to_dtb. destruct (name_offset strings name) as [strpos st].
    destruct (pack_III _ _ _) as [h|] eqn:Hh; simpl; [|discriminate].
    destruct (words_blob _ _) as [b|] eqn:Hb; simpl; [|discriminate].
    intros [= <- <- <-]. split; [|reflexivity].
    apply words_blob_len in Hb. apply pack_III_length in Hh. rewrite Hb.
    replace (len h) with 12 by (unfold len; rewrite Hh; reflexivity).
    Z.div_mod_to_equations. lia.
  - unfold PropBytes_to_dtb. destruct (name_offset strings name) as [strpos st].
    destruct (pack_III _ _ _) as [h|] eqn:Hh; simpl; [|discriminate].
    destruct (bytearray _) as [raw|] eqn:Hb; simpl; [|discriminate].
    intros [= <- <- <-]. split; [|reflexivity].
    fold (trailing_pad (len (h ++ raw))).
    destruct (negb (len (h ++ raw) mod 4 =? 0)) eqn:E.
    + pose proof (trailing_pad_range (len (h ++ raw))).
      pose proof (trailing_pad_aligned (len (h ++ raw))) as Ha.
      unfold trailing_pad in *. rewrite E in *.
      rewrite len_app, zeros_len by lia. exact Ha.
    + apply negb_false_iff, Z.eqb_eq in E. exact E.
Qed.

Lemma begin_node_shape (T : dtb_tags) (name : str) (b : bytes) :
  begin_node T name = Ok b ->
  len b mod 4 = 0 /\
  (name <> py "/" ->
   exists tag, pack_u32 (DTB_BEGIN_NODE T) = Ok tag /\
     b = tag ++ (ord <$> name) ++ [0] ++ zeros (trailing_pad (len name + 1)) /\
     len ((ord <$> name) ++ [0] ++ zeros (trailing_pad (len name + 1))) mod 4 = 0).
Proof.
  unfold begin_node. destruct (begin_node_raw T name) as [raw|] eqn:Hraw; simpl; [|discriminate].
  intros [= <-]. split.
  - fold (trailing_pad (len raw)).
    destruct (negb (len raw mod 4 =? 0)) eqn:E.
    + pose proof (trailing_pad_range (len raw)).
      pose proof (trailing_pad_aligned (len raw)) as Ha.
      unfold trailing_pad in *. rewrite E in *.
      rewrite len_app, zeros_len by lia. exact Ha.
    + apply negb_false_iff, Z.eqb_eq in E. exact E.
  - intros Hname. unfold begin_node_raw in Hraw.
    rewrite bool_decide_eq_false_2 in Hraw by exact Hname.
    destruct (pack_u32 _) as [tag|] eqn:Ht; simpl in Hraw; [|discriminate].
    unfold encode_ascii in Hraw. destruct (forallb _ name); simpl in Hraw; [|discriminate].
    injection Hraw as <-. exists tag. split; [reflexivity|].
    apply pack_u32_length in Ht.
    assert (Hl : len (tag ++ (ord <$> name) ++ [0]) = 4 + (len name + 1)).
    { rewrite !len_app. unfold len. rewrite Ht, length_fmap. simpl. lia. }
    assert (Hm : (4 + (len name + 1)) mod 4 = (len name + 1) mod 4).
    { Z.div_mod_to_equations. lia. }
    split.
    + rewrite Hl, Hm. unfold trailing_pad.
      destruct (negb (_ =? 0)); simpl; rewrite <- ?app_assoc, ?app_nil_r; reflexivity.
    + pose proof (trailing_pad_range (len name + 1)).
      pose proof (trailing_pad_aligned (len name + 1)) as Ha.
      change ([0] ++ zeros (trailing_pad (len name + 1)))
        with (0 :: zeros (trailing_pad (len name + 1))).
      assert (Hz : len (0 :: zeros (trailing_pad (len name + 1)))
                   = 1 + trailing_pad (len name + 1)).
      { rewrite <- (zeros_len (trailing_pad (len name + 1))) at 2 by lia.
        unfold len. simpl. lia. }
      rewrite len_app, Hz.
      replace (len (ord <$> name)) with (len name) by (unfold len; by rewrite length_fmap).
      replace (len name + (1 + trailing_pad (len name + 1)))
        with (len name + 1 + trailing_pad (len name + 1)) by lia.
      exact Ha.
Qed.

(** C8. When the offset handed to the encoder is a multiple of four, the
    record emitted for a property of any class has a length that is a
    multiple of four; a begin-node record has a length that is a multiple
    of four, and for a node other than the root it is the tag followed by
    the name, its terminator and zero bytes up to the next multiple of
    four. *)
Theorem records_aligned (T : dtb_tags) :
  (forall (p : prop) (strings : str) (pos version : Z)
          (blob : bytes) (strings' : str) (pos' : Z),
      pos mod 4 = 0 ->
      prop_to_dtb T p strings pos version = Ok (blob, strings', pos') ->
      len blob mod 4 = 0) /\
  (forall (name : str) (b : bytes),
      begin_node T name = Ok b ->
      len b mod 4 = 0 /\
      (name <> py "/" ->
       exists tag, pack_u32 (DTB_BEGIN_NODE T) = Ok tag /\
         b = tag ++ (ord <$> name) ++ [0] ++ zeros (trailing_pad (len name + 1)) /\
         len ((ord <$> name) ++ [0] ++ zeros (trailing_pad (len name + 1))) mod 4 = 0)).
Proof.
  split.
  - intros p strings pos version blob strings' pos' Hpos H.
    by destruct (prop_record_aligned T p strings pos version blob strings' pos' Hpos H).
  - apply begin_node_shape.
Qed.

Lemma records_aligned_witness :
  len [0; 0; 0; 3; 0; 0; 0; 5; 0; 0; 0; 0; 0; 0; 0; 0; 97; 0; 98; 99; 0; 0; 0; 0] mod 4 = 0 /\
  len [0; 0; 0; 3; 0; 0; 0; 1; 0; 0; 0; 0; 7; 0; 0; 0] mod 4 = 0 /\
  len [0; 0; 0; 1; 115; 111; 99; 0] mod 4 = 0.
Proof.
  destruct (records_aligned fdt_tags) as [Hp Hn].
  split; [|split].
  - exact (Hp (PropStrings (py "p") None (PyList [PyStr (py "a"); PyStr (py "bc")]))
              [] 0 15 _ (py "p" ++ [NUL]) 24 eq_refl eq_refl).
  - exact (Hp (PropBytes (py "p") None (ByteArray [7])) [] 4 17 _
              (py "p" ++ [NUL]) 20 eq_refl eq_refl).
  - exact (proj1 (Hn (py "soc") [0; 0; 0; 1; 115; 111; 99; 0] eq_refl)).
Defined.

(** ** The string table *)

Lemma starts_with_spec (s sub : str) :
  starts_with s sub = true <-> exists r, s = sub ++ r.
Proof.
  revert s. induction sub as [|c sub IH]; intros s; simpl.
  - split; [intros _; by exists s | intros _; reflexivity].
  - destruct s as [|d s]; simpl.
    + split; [discriminate|]. intros [r Hr]. discriminate.
    + rewrite andb_true_iff, bool_decide_eq_true, IH. split.
      * intros [-> [r ->]]. eauto.
      * intros [r [= -> ->]]. eauto.
Qed.

Lemma find_range (s sub : str) :
  find s sub = -1 \/ (0 <= find s sub /\ find s sub + len sub <= len s).
Proof.
  induction s as [|c s IH]; simpl.
  - destruct (starts_with [] sub) eqn:E; [|by left].
    right. apply starts_with_spec in E as [r Hr].
    symmetry in Hr. apply app_eq_nil in Hr as [-> _]. unfold len. simpl. lia.
  - destruct (starts_with (c :: s) sub) eqn:E.
    + right. apply starts_with_spec in E as [r Hr]. rewrite Hr, len_app.
      pose proof (len_nonneg r). lia.
    + destruct IH as [IH|IH].
      * rewrite IH. by left.
      * destruct (find s sub <? 0) eqn:Hlt; [apply Z.ltb_lt in Hlt; lia|].
        right. unfold len in *. simpl. lia.
Qed.

Lemma starts_with_app (s t sub : str) :
  (length sub <= length s)%nat -> starts_with (s ++ t) sub = starts_with s sub.
Proof.
  revert s. induction sub as [|c sub IH]; intros s Hl; [reflexivity|].
  destruct s as [|d s]; simpl in *; [lia|].
  rewrite IH by lia. reflexivity.
Qed.

(** Text added at the end of the table does not move a name it holds. *)
Lemma find_app_found (s t sub : str) :
  0 <= find s sub -> find (s ++ t) sub = find s sub.
Proof.
  induction s as [|c s IH]; simpl.
  - destruct (starts_with [] sub) eqn:E; [|lia]. intros _.
    apply starts_with_spec in E as [r Hr].
    symmetry in Hr. apply app_eq_nil in Hr as [-> _]. by destruct t.
  - intros Hf. destruct (starts_with (c :: s) sub) eqn:E.
    + apply starts_with_spec in E as [r Hr].
      assert (E' : starts_with ((c :: s) ++ t) sub = true).
      { apply starts_with_spec. exists (r ++ t). by rewrite Hr, app_assoc. }
      simpl in E'. by rewrite E'.
    + destruct (find s sub <? 0) eqn:Hlt; [lia|]. apply Z.ltb_ge in Hlt.
      rewrite (IH Hlt), (proj2 (Z.ltb_ge _ _) Hlt).
      destruct (find_range s sub) as [Hr|[_ Hr]]; [lia|].
      change (c :: s ++ t) with ((c :: s) ++ t).
      rewrite starts_with_app, E; [reflexivity|].
      unfold len in Hr. simpl. lia.
Qed.

Lemma find_at_start (s sub : str) : starts_with s sub = true -> find s sub = 0.
Proof. intros H. destruct s; simpl; by rewrite H. Qed.

(** A terminated name cannot begin inside the table and end inside a copy
    of itself put at the end of the table. *)
Lemma starts_with_no_overlap (s n : str) :
  s <> [] -> NUL ∉ n ->
  starts_with (s ++ n ++ [NUL]) (n ++ [NUL]) = true ->
  starts_with s (n ++ [NUL]) = true.
Proof.
  intros Hs Hn H.
  destruct (decide (length (n ++ [NUL]) <= length s)%nat) as [Hle|Hgt].
  - by rewrite starts_with_app in H.
  - exfalso. apply Hn. apply starts_with_spec in H as [r Hr].
    rewrite length_app in Hgt. simpl in Hgt.
    assert (Hl : (s ++ n ++ [NUL]) !! length n = Some NUL).
    { rewrite Hr, <- app_assoc. rewrite lookup_app_r by lia.
      by rewrite Nat.sub_diag. }
    rewrite lookup_app_r in Hl by lia.
    assert (0 < length s)%nat by (destruct s; [done|simpl; lia]).
    rewrite lookup_app_l in Hl by lia.
    eapply list_elem_of_lookup_2, Hl.
Qed.

(** A name that the table does not hold is found, once added at the end,
    at the offset where the table ended. *)
Lemma find_app_new (s n : str) :
  NUL ∉ n -> find s (n ++ [NUL]) < 0 -> find (s ++ n ++ [NUL]) (n ++ [NUL]) = len s.
Proof.
  intros Hn. induction s as [|c s IH]; intros Hf.
  - simpl app. apply find_at_start, starts_with_spec. exists []. by rewrite app_nil_r.
  - simpl in Hf. destruct (starts_with (c :: s) (n ++ [NUL])) eqn:E; [lia|].
    destruct (find s (n ++ [NUL]) <? 0) eqn:Hlt; [|lia]. apply Z.ltb_lt in Hlt.
    specialize (IH Hlt).
    change ((c :: s) ++ n ++ [NUL]) with (c :: (s ++ n ++ [NUL])).
    cbn [find]. change (c :: (s ++ n ++ [NUL])) with ((c :: s) ++ n ++ [NUL]).
    destruct (starts_with ((c :: s) ++ n ++ [NUL]) (n ++ [NUL])) eqn:E'.
    + apply starts_with_no_overlap in E'; [congruence|done|done].
    + rewrite IH. pose proof (len_nonneg s).
      destruct (len s <? 0) eqn:Hneg; [apply Z.ltb_lt in Hneg; lia|].
      unfold len. simpl length. lia.
Qed.

Lemma printable_no_NUL (name : str) : forallb printable name = true -> NUL ∉ name.
Proof.
  intros H Hin. apply list_elem_of_In in Hin.
  rewrite forallb_forall in H. specialize (H _ Hin). discriminate.
Qed.

(** Looking a name up a second time, in the table the first lookup left
    with anything added at its end, returns the offset of the first lookup
    and adds nothing. *)
Lemma name_offset_again (strings ext name : str) :
  NUL ∉ name ->
  name_offset (snd (name_offset strings name) ++ ext) name
  = (fst (name_offset strings name), snd (name_offset strings name) ++ ext).
Proof.
  intros Hn. unfold name_offset at 2 3 4.
  destruct (find strings (name ++ [NUL]) <? 0) eqn:E; simpl.
  - apply Z.ltb_lt in E. unfold name_offset.
    pose proof (find_app_new strings name Hn E) as Hf.
    rewrite find_app_found; rewrite Hf; [|apply len_nonneg].
    pose proof (len_nonneg strings).
    destruct (len strings <? 0) eqn:Hneg; [apply Z.ltb_lt in Hneg; lia|reflexivity].
  - apply Z.ltb_ge in E. unfold name_offset.
    rewrite find_app_found by exact E.
    by rewrite (proj2 (Z.ltb_ge _ _) E).
Qed.

(** What every property encoder does with the table and the name field. *)
Lemma prop_to_dtb_name_offset (T : dtb_tags) (p : prop) (strings : str) (pos version : Z)
    (blob : bytes) (strings' : str) (pos' : Z) :
  prop_to_dtb T p strings pos version = Ok (blob, strings', pos') ->
  strings' = snd (name_offset strings (prop_name p)) /\
  pack_u32 (fst (name_offset strings (prop_name p))) = Ok (field 2 blob).
Proof.
  destruct p as [name ? ?|name ? d|name ? d w|name ? d]; simpl.
  - unfold Property_to_dtb. destruct (name_offset strings name) as [strpos st]. simpl.
    destruct (pack_III _ _ _) as [h|] eqn:Hh; simpl; [|discriminate].
    intros [= <- <- <-]. split; [reflexivity|].
    apply pack_III_inv in Hh as (x & y & z & Hx & Hy & Hz & ->).
    rewrite <- (app_nil_r (x ++ y ++ z)).
    rewrite field_2_of_header by eauto using pack_u32_length. exact Hz.
  - intros (raw & header & _ & Hh & -> & -> & _)%PropStrings_to_dtb_inv.
    split; [reflexivity|].
    apply pack_III_inv in Hh as (x & y & z & Hx & Hy & Hz & ->).
    rewrite field_2_of_header by eauto using pack_u32_length. exact Hz.
  - unfold PropWords_to_dtb. destruct (name_offset strings name) as [strpos st]. simpl.
    destruct (pack_III _ _ _) as [h|] eqn:Hh; simpl; [|discriminate].
    destruct (words_blob _ _) as [b|] eqn:Hb; simpl; [|discriminate].
    intros [= <- <- <-]. split; [reflexivity|].
    apply pack_III_inv in Hh as (x & y & z & Hx & Hy & Hz & ->).
    assert (Hpre : exists rest, b = (x ++ y ++ z) ++ rest).
    { clear -Hb. revert Hb. generalize (x ++ y ++ z). generalize (items d).
      induction l as [|[?|w] l IH]; intros acc; simpl.
      - intros [= <-]. exists []. by rewrite app_nil_r.
      - discriminate.
      - destruct (pack_u32 w) as [wb|]; simpl; [|discriminate].
        intros [rest ->]%IH. exists (wb ++ rest). by rewrite app_assoc. }
    destruct Hpre as [rest ->].
    rewrite field_2_of_header by eauto using pack_u32_length. exact Hz.
  - unfold PropBytes_to_dtb. destruct (name_offset strings name) as [strpos st]. simpl.
    destruct (pack_III _ _ _) as [h|] eqn:Hh; simpl; [|discriminate].
    destruct (bytearray _) as [raw|] eqn:Hb; simpl; [|discriminate].
    intros [= <- <- <-]. split; [reflexivity|].
    apply pack_III_inv in Hh as (x & y & z & Hx & Hy & Hz & ->).
    destruct (negb _); [rewrite <- (app_assoc (x ++ y ++ z) raw)|];
      rewrite field_2_of_header by eauto using pack_u32_length; exact Hz.
Qed.

Lemma name_offset_extends (strings name : str) :
  exists ext, snd (name_offset strings name) = strings ++ ext.
Proof.
  unfold name_offset. destruct (_ <? 0); simpl; [eauto|].
  exists []. by rewrite app_nil_r.
Qed.

Lemma dtb_loop_extends (f : nat -> str -> Z -> result (bytes * str * Z)) (xs : list nat) :
  (forall x strings pos blob strings' pos',
      f x strings pos = Ok (blob, strings', pos') -> exists ext, strings' = strings ++ ext) ->
  forall blob strings pos blob' strings' pos',
    dtb_loop f xs blob strings pos = Ok (blob', strings', pos') ->
    exists ext, strings' = strings ++ ext.
Proof.
  intros Hf. induction xs as [|x xs IH]; intros blob strings pos blob' strings' pos'; simpl.
  - intros [= <- <- <-]. exists []. by rewrite app_nil_r.
  - destruct (f x strings pos) as [[[data st] ps]|] eqn:Hx; simpl; [|discriminate].
    intros [ext2 ->]%IH. apply Hf in Hx as [ext1 ->].
    exists (ext1 ++ ext2). by rewrite app_assoc.
Qed.

(** A walk only ever adds to the end of the table. *)
Lemma Node_to_dtb_extends (T : dtb_tags) (s : store) (version : Z) (fuel : nat) :
  forall self strings pos blob strings' pos',
    Node_to_dtb fuel T s version self strings pos = Ok (blob, strings', pos') ->
    exists ext, strings' = strings ++ ext.
Proof.
  induction fuel as [|fuel IH]; intros self strings pos blob strings' pos'; simpl;
    [discriminate|].
  destruct (load_node self s) as [n|]; simpl; [|discriminate].
  destruct (begin_node T (n_name n)) as [b|]; simpl; [|discriminate].
  destruct (dtb_loop (prop_to_dtb_at T s version) _ _ _ _) as [[[b1 st1] p1]|] eqn:H1;
    simpl; [|discriminate].
  destruct (dtb_loop (Node_to_dtb fuel T s version) _ _ _ _) as [[[b2 st2] p2]|] eqn:H2;
    simpl; [|discriminate].
  destruct (pack_u32 _); simpl; [|discriminate].
  intros [= <- <- <-].
  apply dtb_loop_extends in H1 as [e1 ->].
  - apply dtb_loop_extends in H2 as [e2 ->]; [|exact IH].
    exists (e1 ++ e2). by rewrite app_assoc.
  - intros x st ps bl st' ps'. unfold prop_to_dtb_at.
    destruct (load_prop x s) as [p|]; simpl; [|discriminate].
    intros [-> _]%prop_to_dtb_name_offset. apply name_offset_extends.
Qed.

(** C7 (as the code has it). In a walk that threads one table, which only
    grows at its end, the first property of a name adds the terminated
    name to the table when the table does not hold it yet, also not as the
    tail of a longer entry, and adds nothing otherwise; a later property
    of the same name adds nothing, and its record carries the same name
    offset as the first. *)
Theorem string_table_dedup (T : dtb_tags) (p q : prop) (strings ext : str)
    (pos1 pos2 v1 v2 : Z) (blob1 blob2 : bytes) (s1 s2 : str) (pos1' pos2' : Z) :
  prop_name q = prop_name p ->
  forallb printable (prop_name p) = true ->
  prop_to_dtb T p strings pos1 v1 = Ok (blob1, s1, pos1') ->
  prop_to_dtb T q (s1 ++ ext) pos2 v2 = Ok (blob2, s2, pos2') ->
  s1 = (if find strings (prop_name p ++ [NUL]) <? 0
        then strings ++ prop_name p ++ [NUL] else strings) /\
  s2 = s1 ++ ext /\
  field 2 blob2 = field 2 blob1 /\
  (forall fuel s version self st ps b st' ps',
      Node_to_dtb fuel T s version self st ps = Ok (b, st', ps') ->
      exists added, st' = st ++ added).
Proof.
  intros Hname Hprint Hp Hq.
  apply printable_no_NUL in Hprint.
  apply prop_to_dtb_name_offset in Hp as [Hs1 Hf1].
  apply prop_to_dtb_name_offset in Hq as [Hs2 Hf2].
  rewrite Hname, Hs1, name_offset_again in * by exact Hprint. simpl in *.
  split; [|split; [exact Hs2|split]].
  - unfold name_offset. by destruct (_ <? 0).
  - congruence.
  - intros fuel s version self st ps b st' ps'. apply Node_to_dtb_extends.
Qed.

Lemma string_table_dedup_witness :
  py "bar" ++ [NUL] = py "bar" ++ [NUL] /\
  (py "bar" ++ [NUL]) ++ py "x" ++ [NUL] = (py "bar" ++ [NUL]) ++ py "x" ++ [NUL] /\
  field 2 [0; 0; 0; 3; 0; 0; 0; 4; 0; 0; 0; 0; 0; 0; 0; 9]
    = field 2 [0; 0; 0; 3; 0; 0; 0; 0; 0; 0; 0; 0].
Proof.
  pose proof (string_table_dedup fdt_tags
                (Property (py "bar") None None)
                (PropWords (py "bar") None (PyList [PyInt 9]) 32)
                [] (py "x" ++ [NUL]) 0 12 17 17
                [0; 0; 0; 3; 0; 0; 0; 0; 0; 0; 0; 0]
                [0; 0; 0; 3; 0; 0; 0; 4; 0; 0; 0; 0; 0; 0; 0; 9]
                (py "bar" ++ [NUL]) ((py "bar" ++ [NUL]) ++ py "x" ++ [NUL]) 12 28
                eq_refl eq_refl eq_refl eq_refl) as (H1 & H2 & H3 & _).
  exact (conj H1 (conj H2 H3)).
Defined.

(** In the tree with [foobar] at the root and [bar] in both children, the
    walk leaves a table holding [foobar] alone: [bar] is found at offset 3
    both times and is never added. *)
Lemma shared_tail_never_inserted :
  final_strings (Node_to_dtb 2 fdt_tags shared_tail_store 17 0%nat [] 0)
    = Some (py "foobar" ++ [NUL]) /\
  name_offset (py "foobar" ++ [NUL]) (py "bar") = (3, py "foobar" ++ [NUL]) /\
  prop_to_dtb fdt_tags (Property (py "bar") None None) (py "foobar" ++ [NUL]) 32 17
    = Ok ([0; 0; 0; 3; 0; 0; 0; 0; 0; 0; 0; 3], py "foobar" ++ [NUL], 44).
Proof. repeat split. Qed.

(** ** Reasoning about calls *)

Lemma bind_Ok {A B} (m : M A) (k : A -> M B) (s s' : store) (b : B) :
  bind m k s = (s', Ok b) ->
  exists s1 a, m s = (s1, Ok a) /\ k a s1 = (s', Ok b).
Proof.
  unfold bind. destruct (m s) as [s1 [a|e]]; [eauto|]. discriminate.
Qed.

Lemma lift_Ok {A} (f : store -> result A) (s s' : store) (a : A) :
  lift f s = (s', Ok a) -> s' = s /\ f s = Ok a.
Proof. unfold lift. intros [= <- ->]. auto. Qed.

Lemma ret_Ok {A} (a b : A) (s s' : store) : ret a s = (s', Ok b) -> s' = s /\ b = a.
Proof. unfold ret. intros [= <- <-]. auto. Qed.

Lemma load_node_Ok (a : naddr) (s : store) (n : node) :
  load_node a s = Ok n -> s_nodes s !! a = Some n.
Proof. unfold load_node. destruct (s_nodes s !! a); [congruence|discriminate]. Qed.

Lemma load_prop_Ok (a : paddr) (s : store) (p : prop) :
  load_prop a s = Ok p -> s_props s !! a = Some p.
Proof. unfold load_prop. destruct (s_props s !! a); [congruence|discriminate]. Qed.

Lemma store_le_refl (s : store) : store_le s s.
Proof. split; lia. Qed.

Lemma store_le_trans (s1 s2 s3 : store) : store_le s1 s2 -> store_le s2 s3 -> store_le s1 s3.
Proof. intros [? ?] [? ?]. split; lia. Qed.

(** Successive inversion of a monadic computation that returned. *)
Ltac inv_call H :=
  repeat match type of H with
         | bind _ _ _ = (_, Ok _) =>
             let s1 := fresh "s" in let a := fresh "a" in
             let H1 := fresh "Hstep" in
             apply bind_Ok in H as (s1 & a & H1 & H)
         | lift _ _ = (_, Ok _) => apply lift_Ok in H as [-> H]
         | ret _ _ = (_, Ok _) => apply ret_Ok in H as [-> H]
         | raise _ _ = (_, Ok _) => discriminate H
         end.

(** One step of a computation that returned: the store [s1] and the value
    [a] of the first call, with its equation [H1]. *)
Tactic Notation "inv_bind" hyp(H) "as" ident(s1) simple_intropattern(a) ident(H1) :=
  apply bind_Ok in H as (s1 & a & H1 & H).

(** The same when the first call only reads the store. *)
Tactic Notation "inv_read" hyp(H) "as" simple_intropattern(a) ident(H1) :=
  let s1 := fresh "s" in
  apply bind_Ok in H as (s1 & a & H1 & H); apply lift_Ok in H1 as [-> H1].

(** ** deepcopy keeps its invariant *)

Lemma dc_ok_start (s : store) : dc_ok s empty_memo s.
Proof.
  split; simpl.
  - apply store_le_refl.
  - done.
  - done.
  - intros x y H. by rewrite lookup_empty in H.
  - intros x y H. by rewrite lookup_empty in H.
  - intros a n Hle Hn. apply lookup_lt_Some in Hn. lia.
Qed.

Lemma dc_ok_alloc_node (s0 : store) (m : memo) (s : store) (x : naddr) (nm : str) :
  dc_ok s0 m s ->
  dc_ok s0 (Memo (<[x := length (s_nodes s)]> (m_nodes m)) (m_props m))
        (Store (s_props s) (s_nodes s ++ [Node nm None [] []])).
Proof.
  intros [[Hln Hlp] Hon Hop Hmn Hmp Hnn]. split; simpl.
  - split; simpl; [rewrite length_app; simpl; lia | lia].
  - intros a Ha. rewrite lookup_app_l by lia. by apply Hon.
  - exact Hop.
  - intros x' y. rewrite length_app. simpl. rewrite lookup_insert.
    case_decide; [intros [= <-]; lia|]. intros Hm%Hmn. lia.
  - exact Hmp.
  - intros a n Ha [Hl|[Hl Hr]]%lookup_app_Some; [by apply (Hnn a)|].
    apply list_lookup_singleton_Some in Hr as [_ <-]. simpl. auto.
Qed.

Lemma dc_ok_alloc_prop (s0 : store) (m : memo) (s : store) (x : paddr) (p : prop) :
  dc_ok s0 m s ->
  dc_ok s0 (Memo (m_nodes m) (<[x := length (s_props s)]> (m_props m)))
        (Store (s_props s ++ [p]) (s_nodes s)).
Proof.
  intros [[Hln Hlp] Hon Hop Hmn Hmp Hnn]. split; simpl.
  - split; simpl; [lia | rewrite length_app; simpl; lia].
  - exact Hon.
  - intros a Ha. rewrite lookup_app_l by lia. by apply Hop.
  - exact Hmn.
  - intros x' y. rewrite length_app. simpl. rewrite lookup_insert.
    case_decide; [intros [= <-]; lia|]. intros Hm%Hmp. lia.
  - exact Hnn.
Qed.

Lemma dc_ok_write_node (s0 : store) (m : memo) (s : store) (y : naddr) (n : node) :
  dc_ok s0 m s ->
  (length (s_nodes s0) <= y)%nat ->
  fresh_or_none (length (s_nodes s0)) (n_parent n) ->
  Forall (fun c => (length (s_nodes s0) <= c)%nat) (n_nodes n) ->
  Forall (fun b => (length (s_props s0) <= b)%nat) (n_props n) ->
  dc_ok s0 m (Store (s_props s) (<[y := n]> (s_nodes s))).
Proof.
  intros [[Hln Hlp] Hon Hop Hmn Hmp Hnn] Hy Hpar Hns Hps. split; simpl.
  - split; simpl; [rewrite length_insert; lia | lia].
  - intros a Ha. rewrite list_lookup_insert_ne by lia. by apply Hon.
  - exact Hop.
  - intros x' y' H%Hmn. rewrite length_insert. lia.
  - exact Hmp.
  - intros a n' Ha [(-> & <- & _)|[_ Hl]]%list_lookup_insert_Some; [auto|].
    by apply (Hnn a).
Qed.

Lemma dc_ok_write_prop (s0 : store) (m : memo) (s : store) (b : paddr) (p : prop) :
  dc_ok s0 m s ->
  (length (s_props s0) <= b)%nat ->
  dc_ok s0 m (Store (<[b := p]> (s_props s)) (s_nodes s)).
Proof.
  intros [[Hln Hlp] Hon Hop Hmn Hmp Hnn] Hb. split; simpl.
  - split; simpl; [lia | rewrite length_insert; lia].
  - exact Hon.
  - intros a Ha. rewrite list_lookup_insert_ne by lia. by apply Hop.
  - exact Hmn.
  - intros x' y' H%Hmp. rewrite length_insert. lia.
  - exact Hnn.
Qed.

Lemma deepcopy_opt_ok (s0 : store) (rec : naddr -> memo -> M (naddr * memo)) :
  dc_fun_ok s0 (length (s_nodes s0)) rec ->
  forall x m s s' q m',
    dc_ok s0 m s -> deepcopy_opt rec x m s = (s', Ok (q, m')) ->
    dc_ok s0 m' s' /\ store_le s s' /\ fresh_or_none (length (s_nodes s0)) q.
Proof.
  intros Hrec x m s s' q m' Hok H. destruct x as [a|]; simpl in H.
  - inv_call H. destruct a0 as [b m1]. inv_call H. injection H as -> ->.
    destruct (Hrec _ _ _ _ _ _ Hok Hstep) as (? & ? & ?). split_and!; simpl; auto.
  - inv_call H. injection H as -> ->. split_and!; simpl; auto using store_le_refl.
Qed.

Lemma deepcopy_list_ok (s0 : store) (base : nat) (f : nat -> memo -> M (nat * memo)) :
  dc_fun_ok s0 base f ->
  forall xs m s s' ys m',
    dc_ok s0 m s -> deepcopy_list f xs m s = (s', Ok (ys, m')) ->
    dc_ok s0 m' s' /\ store_le s s' /\ Forall (fun y => (base <= y)%nat) ys.
Proof.
  intros Hf. induction xs as [|x xs IH]; intros m s s' ys m' Hok H; simpl in H.
  - inv_call H. injection H as -> ->. split_and!; auto using store_le_refl.
  - inv_call H. destruct a as [y m1]. inv_call H. destruct a as [ys' m2].
    inv_call H. injection H as -> ->.
    destruct (Hf _ _ _ _ _ _ Hok Hstep) as (Hok1 & Hle1 & Hy).
    destruct (IH _ _ _ _ _ Hok1 Hstep0) as (Hok2 & Hle2 & Hys).
    split_and!; eauto using store_le_trans.
Qed.

Lemma deepcopy_prop_ok (s0 : store) (rec : naddr -> memo -> M (naddr * memo)) :
  dc_fun_ok s0 (length (s_nodes s0)) rec ->
  dc_fun_ok s0 (length (s_props s0)) (deepcopy_prop rec).
Proof.
  intros Hrec x m s s' y m' Hok H. unfold deepcopy_prop in H.
  destruct (m_props m !! x) as [b|] eqn:Hm.
  - apply ret_Ok in H as [-> [= -> ->]].
    split_and!; [done|apply store_le_refl|]. apply (dc_memo_p _ _ _ Hok) in Hm. lia.
  - inv_read H as p Hp.
    inv_bind H as s1 b Hb. unfold alloc_prop in Hb. injection Hb as <- <-.
    inv_bind H as s2 [parent m1] Hpar.
    inv_bind H as s3 u Hw. unfold write_prop in Hw. injection Hw as <-.
    apply ret_Ok in H as [-> [= -> ->]].
    pose proof (dc_ok_alloc_prop s0 m s x (with_parent p None) Hok) as Hok1.
    destruct (deepcopy_opt_ok s0 rec Hrec _ _ _ _ _ _ Hok1 Hpar) as (Hok2 & Hle2 & _).
    pose proof (dc_le _ _ _ Hok) as [_ Hlp].
    split_and!.
    + apply dc_ok_write_prop; [exact Hok2|lia].
    + destruct Hle2 as [Hn Hq]. simpl in Hn, Hq. rewrite length_app in Hq. simpl in Hq.
      split; simpl; [lia|rewrite length_insert; lia].
    + lia.
Qed.

Lemma deepcopy_node_ok (s0 : store) (fuel : nat) :
  dc_fun_ok s0 (length (s_nodes s0)) (deepcopy_node fuel) /\
  (forall x m s s' y m',
      dc_ok s0 m s -> deepcopy_node fuel x m s = (s', Ok (y, m')) ->
      (y < length (s_nodes s'))%nat).
Proof.
  induction fuel as [|fuel [IH _]]; [split; intros x m s s' y m' Hok H; discriminate|].
  assert (Hmain : forall x m s s' y m',
             dc_ok s0 m s -> deepcopy_node (S fuel) x m s = (s', Ok (y, m')) ->
             dc_ok s0 m' s' /\ store_le s s' /\
             (length (s_nodes s0) <= y < length (s_nodes s'))%nat).
  { intros x m s s' y m' Hok H. simpl in H.
    destruct (m_nodes m !! x) as [b|] eqn:Hm.
    - apply ret_Ok in H as [-> [= -> ->]].
      apply (dc_memo_n _ _ _ Hok) in Hm.
      split_and!; [done|apply store_le_refl|lia|lia].
    - inv_read H as n Hn.
      inv_bind H as s1 b Hb. unfold alloc_node in Hb. injection Hb as <- <-.
      inv_bind H as s2 [parent m1] Hpar.
      inv_bind H as s3 [props m2] Hprops.
      inv_bind H as s4 [nodes m3] Hnodes.
      inv_bind H as s5 u Hw. unfold write_node in Hw. injection Hw as <-.
      apply ret_Ok in H as [-> [= -> ->]].
      pose proof (dc_ok_alloc_node s0 m s x (n_name n) Hok) as Hok1.
      destruct (deepcopy_opt_ok s0 _ IH _ _ _ _ _ _ Hok1 Hpar) as (Hok2 & Hle2 & Hfp).
      destruct (deepcopy_list_ok s0 _ _ (deepcopy_prop_ok s0 _ IH) _ _ _ _ _ _ Hok2 Hprops)
        as (Hok3 & Hle3 & Hfps).
      destruct (deepcopy_list_ok s0 _ _ IH _ _ _ _ _ _ Hok3 Hnodes)
        as (Hok4 & Hle4 & Hfns).
      pose proof (dc_le _ _ _ Hok) as [Hln _].
      pose proof (store_le_trans _ _ _ Hle2 (store_le_trans _ _ _ Hle3 Hle4)) as [Hln' Hlp'].
      simpl in Hln', Hlp'. rewrite length_app in Hln'. simpl in Hln'.
      split_and!.
      + apply dc_ok_write_node; [exact Hok4|lia|exact Hfp|exact Hfns|exact Hfps].
      + split; simpl; [rewrite length_insert; lia|lia].
      + lia.
      + simpl. rewrite length_insert. lia. }
  split.
  - intros x m s s' y m' Hok H.
    destruct (Hmain _ _ _ _ _ _ Hok H) as (? & ? & ?). split_and!; auto; lia.
  - intros x m s s' y m' Hok H.
    destruct (Hmain _ _ _ _ _ _ Hok H) as (? & ? & ?). lia.
Qed.

(** What a deep copy leaves: the objects that existed are untouched, the
    copy is a new node of the same name, and every node allocated by the
    call refers only to objects allocated by the call. *)
Lemma deepcopy_spec (fuel : nat) (x : naddr) (s s' : store) (y : naddr) :
  deepcopy fuel x s = (s', Ok y) ->
  (exists m, dc_ok s m s') /\
  (length (s_nodes s) <= y < length (s_nodes s'))%nat /\
  (exists nx ny, s_nodes s !! x = Some nx /\ s_nodes s' !! y = Some ny /\
                 n_name ny = n_name nx).
Proof.
  unfold deepcopy. intros H.
  inv_bind H as s1 [y' m] Hdc. apply ret_Ok in H as [-> ->].
  destruct (deepcopy_node_ok s fuel) as [Hok Hlt].
  destruct (Hok _ _ _ _ _ _ (dc_ok_start s) Hdc) as (Hok' & Hle & Hy).
  pose proof (Hlt _ _ _ _ _ _ (dc_ok_start s) Hdc) as Hy'.
  split_and!; [eauto|lia|lia|].
  destruct fuel as [|fuel]; [discriminate|]. simpl in Hdc.
  rewrite lookup_empty in Hdc.
  inv_read Hdc as n Hn. apply load_node_Ok in Hn.
  inv_bind Hdc as s2 b Hb. unfold alloc_node in Hb. injection Hb as <- <-.
  inv_bind Hdc as s3 [parent m1] Hpar.
  inv_bind Hdc as s4 [props m2] Hprops.
  inv_bind Hdc as s5 [nodes m3] Hnodes.
  inv_bind Hdc as s6 u Hw. unfold write_node in Hw. injection Hw as <-.
  apply ret_Ok in Hdc as [-> [= -> ->]].
  exists n, (Node (n_name n) parent props nodes). split_and!; [done| |done].
  simpl. apply list_lookup_insert_eq. simpl in Hy'. by rewrite length_insert in Hy'.
Qed.

(** ** merge only adds *)

Lemma evolves_refl (s : store) : evolves s s.
Proof.
  split.
  - apply store_le_refl.
  - intros a n Hn. exists n, [], []. rewrite !app_nil_r. split_and!; auto.
  - intros b p Hp. exists p. auto.
  - intros a n' Hle Hn. apply lookup_lt_Some in Hn. lia.
Qed.

Lemma evolves_trans (s1 s2 s3 : store) : evolves s1 s2 -> evolves s2 s3 -> evolves s1 s3.
Proof.
  intros [Hle1 Hn1 Hp1 Hw1] [Hle2 Hn2 Hp2 Hw2]. split.
  - eapply store_le_trans; eauto.
  - intros a n Hn.
    destruct (Hn1 a n Hn) as (n' & en & ep & Hn' & Hnm & Hpar & Hns & Hps & Hen & Hep).
    destruct (Hn2 a n' Hn') as (n'' & en' & ep' & Hn'' & Hnm' & Hpar' & Hns' & Hps' & Hen' & Hep').
    exists n'', (en ++ en'), (ep ++ ep'). destruct Hle1 as [? ?], Hle2 as [? ?].
    split_and!; try congruence.
    + by rewrite Hns', Hns, app_assoc.
    + by rewrite Hps', Hps, app_assoc.
    + apply Forall_app. split; (eapply Forall_impl; [eassumption|]); simpl; intros; lia.
    + apply Forall_app. split.
      * eapply Forall_impl; [exact Hep|]. simpl. intros b [Hb (p & Hp & Hpp)].
        split; [lia|]. destruct (Hp2 b p Hp) as (p' & Hp' & _ & _ & Hpp').
        exists p'. split; [done|congruence].
      * eapply Forall_impl; [exact Hep'|]. simpl. intros b [Hb Hex]. split; [lia|done].
  - intros b p Hp.
    destruct (Hp1 b p Hp) as (p' & Hp' & ? & ? & ?).
    destruct (Hp2 b p' Hp') as (p'' & Hp'' & ? & ? & ?).
    exists p''. split_and!; congruence.
  - intros a n' Hle Hn. destruct Hle1 as [Hl1 _].
    destruct (decide (a < length (s_nodes s2))%nat) as [Hlt|Hge].
    + destruct (lookup_lt_is_Some_2 (s_nodes s2) a Hlt) as [n2 Hn2'].
      destruct (Hn2 a n2 Hn2') as (n'' & _ & _ & Hn'' & _ & Hpar & _).
      assert (n'' = n') as -> by congruence. rewrite Hpar. by apply (Hw1 a).
    + specialize (Hw2 a n' ltac:(lia) Hn). destruct (n_parent n'); simpl in *; [lia|done].
Qed.

Lemma class_of_set_data p d : class_of (set_data p d) = class_of p.
Proof. by destruct p. Qed.
Lemma prop_name_set_data p d : prop_name (set_data p d) = prop_name p.
Proof. by destruct p. Qed.
Lemma prop_parent_set_data p d : prop_parent (set_data p d) = prop_parent p.
Proof. by destruct p. Qed.
Lemma prop_parent_with_parent p q : prop_parent (with_parent p q) = q.
Proof. by destruct p. Qed.
Lemma prop_name_with_parent p q : prop_name (with_parent p q) = prop_name p.
Proof. by destruct p. Qed.
Lemma class_of_with_parent p q : class_of (with_parent p q) = class_of p.
Proof. by destruct p. Qed.

(** The store after the deep copy of a child and its direct addition to
    the children of [self]. *)
Lemma deepcopy_append_evolves (fuel : nat) (self a : naddr) (s s1 s2 : store)
    (c : naddr) (u : unit) :
  is_Some (s_nodes s !! self) ->
  deepcopy fuel a s = (s1, Ok c) ->
  nodes_append self c s1 = (s2, Ok u) ->
  evolves s s2.
Proof.
  intros [n0 Hself] Hdc Happ.
  destruct (deepcopy_spec _ _ _ _ _ Hdc) as ([m Hok] & Hc & _).
  pose proof (lookup_lt_Some _ _ _ Hself) as Hlt.
  unfold nodes_append in Happ. inv_read Happ as n Hn. apply load_node_Ok in Hn.
  unfold write_node in Happ. injection Happ as <-.
  rewrite (dc_old_n _ _ _ Hok) in Hn by exact Hlt.
  assert (n = n0) as -> by congruence.
  destruct (dc_le _ _ _ Hok) as [Hln Hlp].
  split; simpl.
  - split; simpl; [rewrite length_insert; lia|lia].
  - intros b n Hb. pose proof (lookup_lt_Some _ _ _ Hb) as Hltb.
    destruct (decide (b = self)) as [->|Hne].
    + assert (n = n0) as -> by congruence.
      exists (Node (n_name n0) (n_parent n0) (n_props n0) (n_nodes n0 ++ [c])), [c], [].
      rewrite app_nil_r, length_insert.
      split_and!; simpl; auto;
        first [apply list_lookup_insert_eq; lia | repeat constructor; lia].
    + exists n, [], []. rewrite !app_nil_r, list_lookup_insert_ne by done.
      rewrite (dc_old_n _ _ _ Hok) by exact Hltb. split_and!; auto.
  - intros b p Hb. exists p. rewrite (dc_old_p _ _ _ Hok); [auto|].
    by apply lookup_lt_Some in Hb.
  - intros b n' Hle Hb. rewrite list_lookup_insert_ne in Hb by lia.
    by destruct (dc_new_n _ _ _ Hok b n' Hle Hb).
Qed.

Lemma insert_app_end {A} (l : list A) (x y : A) : <[length l := y]> (l ++ [x]) = l ++ [y].
Proof.
  rewrite insert_app_r_alt by lia. by rewrite Nat.sub_diag.
Qed.

(** The three ways an iteration of the first loop of merge can end. *)
Lemma merge_prop_cases (self : naddr) (replace : bool) (a : paddr) (s s' : store) (u : unit) :
  merge_prop self replace a s = (s', Ok u) ->
  exists prop n index,
    s_props s !! a = Some prop /\ s_nodes s !! self = Some n /\
    get_property_index self (prop_name prop) s = Ok index /\
    match index with
    | None =>
        exists copy, prop_copy prop = Ok copy /\
          s' = Store (s_props s ++ [set_parent copy self])
                     (<[self := Node (n_name n) (n_parent n)
                                     (n_props n ++ [length (s_props s)]) (n_nodes n)]>
                        (s_nodes s))
    | Some i =>
        exists present, prop_in_props self a s = Ok present /\
          if present then s' = s
          else if replace then
            exists d t target,
              prop_data prop = Some d /\ n_props n !! i = Some t /\
              s_props s !! t = Some target /\
              s' = Store (<[t := set_data target d]> (s_props s)) (s_nodes s)
          else s' = s
    end.
Proof.
  unfold merge_prop. intros H.
  inv_read H as prop Hprop. apply load_prop_Ok in Hprop.
  inv_read H as index Hidx.
  assert (Hself : exists n, s_nodes s !! self = Some n).
  { unfold get_property_index in Hidx. destruct (load_node self s) as [n|] eqn:Hn;
      [|discriminate]. apply load_node_Ok in Hn. eauto. }
  destruct Hself as [n Hself].
  exists prop, n, index. split_and!; auto.
  destruct index as [i|].
  - inv_read H as present Hpres. exists present. split; [done|].
    destruct present; [by apply ret_Ok in H as [-> _]|].
    destruct replace; [|by apply ret_Ok in H as [-> _]].
    destruct (prop_data prop) as [d|]; [|discriminate].
    inv_read H as t Ht. inv_read H as target Htarget. apply load_prop_Ok in Htarget.
    unfold write_prop in H. injection H as <-.
    unfold props_at, load_node in Ht. rewrite Hself in Ht. simpl in Ht.
    destruct (n_props n !! i) as [t'|] eqn:Hi; [|discriminate]. injection Ht as ->.
    exists d, t, target. auto.
  - inv_bind H as s1 c Hc. unfold new_prop in Hc.
    destruct (prop_copy prop) as [copy|]; [|discriminate].
    unfold alloc_prop in Hc. injection Hc as <- <-.
    exists copy. split; [done|].
    unfold Node_append in H.
    inv_read H as p Hp. apply load_prop_Ok in Hp. simpl in Hp.
    rewrite lookup_app_r, Nat.sub_diag in Hp by lia. injection Hp as <-.
    inv_read H as found Hfound. destruct found; [discriminate|].
    inv_bind H as s2 u' Hw. unfold write_prop in Hw. injection Hw as <-.
    unfold props_append in H. inv_read H as n' Hn'. apply load_node_Ok in Hn'.
    simpl in Hn'. assert (n' = n) as -> by congruence.
    unfold write_node in H. injection H as <-. simpl.
    by rewrite insert_app_end.
Qed.

Lemma merge_prop_evolves (self : naddr) (replace : bool) (a : paddr) (s s' : store) (u : unit) :
  merge_prop self replace a s = (s', Ok u) -> evolves s s'.
Proof.
  intros (prop & n & index & Hprop & Hself & _ & Hcase)%merge_prop_cases.
  destruct index as [i|].
  - destruct Hcase as (present & _ & Hcase).
    destruct present; [subst; apply evolves_refl|].
    destruct replace; [|subst; apply evolves_refl].
    destruct Hcase as (d & t & target & _ & _ & Htarget & ->).
    pose proof (lookup_lt_Some _ _ _ Htarget) as Hlt.
    split; simpl.
    + split; simpl; [lia|rewrite length_insert; lia].
    + intros b nb Hb. exists nb, [], []. rewrite !app_nil_r. split_and!; auto.
    + intros b p Hb. destruct (decide (b = t)) as [->|Hne].
      * exists (set_data target d). rewrite list_lookup_insert_eq by done.
        assert (p = target) as -> by congruence.
        by rewrite class_of_set_data, prop_name_set_data, prop_parent_set_data.
      * exists p. by rewrite list_lookup_insert_ne.
    + intros b n' Hle Hb. apply lookup_lt_Some in Hb. lia.
  - destruct Hcase as (copy & _ & ->).
    pose proof (lookup_lt_Some _ _ _ Hself) as Hlt.
    split; simpl.
    + split; simpl; [rewrite length_insert; lia|rewrite length_app; simpl; lia].
    + intros b nb Hb. destruct (decide (b = self)) as [->|Hne].
      * assert (nb = n) as -> by congruence.
        eexists _, [], [length (s_props s)].
        rewrite list_lookup_insert_eq by done. rewrite app_nil_r.
        split_and!; simpl; auto.
        repeat constructor. eexists. rewrite lookup_app_r, Nat.sub_diag by lia.
        split; [reflexivity|]. apply prop_parent_with_parent.
      * exists nb, [], []. rewrite !app_nil_r, list_lookup_insert_ne by done.
        split_and!; auto.
    + intros b p Hb. exists p. rewrite lookup_app_l by (by apply lookup_lt_Some in Hb). auto.
    + intros b n' Hle Hb. apply lookup_lt_Some in Hb. rewrite length_insert in Hb. lia.
Qed.

Lemma for_each_evolves (body : nat -> M unit) (xs : list nat) :
  (forall x s s' u, body x s = (s', Ok u) -> evolves s s') ->
  forall s s' u, for_each body xs s = (s', Ok u) -> evolves s s'.
Proof.
  intros Hbody. induction xs as [|x xs IH]; intros s s' u H; simpl in H.
  - apply ret_Ok in H as [-> _]. apply evolves_refl.
  - inv_bind H as s1 u1 Hx. eapply evolves_trans; eauto.
Qed.

Lemma get_subnode_index_self (self : naddr) (name : str) (s : store) (r : option nat) :
  get_subnode_index self name s = Ok r -> is_Some (s_nodes s !! self).
Proof.
  unfold get_subnode_index. destruct (load_node self s) as [n|] eqn:Hn; [|discriminate].
  apply load_node_Ok in Hn. eauto.
Qed.

Lemma merge_node_evolves (fuel : nat) (rec : naddr -> naddr -> M unit) (self a : naddr) :
  (forall t x s s' u, rec t x s = (s', Ok u) -> evolves s s') ->
  forall s s' u, merge_node fuel rec self a s = (s', Ok u) -> evolves s s'.
Proof.
  intros Hrec s s' u H. unfold merge_node in H.
  inv_read H as sub Hsub. inv_read H as index Hidx.
  apply get_subnode_index_self in Hidx.
  destruct index as [i|].
  - inv_read H as present Hpres.
    destruct present; [apply ret_Ok in H as [-> _]; apply evolves_refl|].
    inv_read H as t Ht. eauto.
  - inv_bind H as s1 c Hc. destruct u. eapply deepcopy_append_evolves; eauto.
Qed.

Lemma Node_merge_evolves (fuel : nat) :
  forall self node replace s s' u,
    Node_merge fuel self node replace s = (s', Ok u) -> evolves s s'.
Proof.
  induction fuel as [|fuel IH]; intros self node replace s s' u H; [discriminate|].
  simpl in H.
  inv_read H as other Hother.
  inv_bind H as s1 u1 Hprops.
  inv_read H as other' Hother'.
  eapply evolves_trans.
  - eapply for_each_evolves; [|exact Hprops]. intros. by eapply merge_prop_evolves.
  - eapply for_each_evolves; [|exact H]. intros x s2 s3 u2 Hx.
    eapply merge_node_evolves; [|exact Hx].
    intros t y s4 s5 u3 Hr. simpl in Hr. exact (IH _ _ _ _ _ _ Hr).
Qed.

Lemma merge_sample_store_eq :
  merge_sample_store =
  Store [PropWords (py "p") (Some 0%nat) (PyList [PyInt 1]) 32;
         PropWords (py "p") (Some 1%nat) (PyList [PyInt 2]) 32;
         PropStrings (py "q") (Some 1%nat) (PyList [PyStr (py "x")])]
        [Node (py "a") None [0%nat] [];
         Node (py "b") None [1%nat; 2%nat] [2%nat];
         Node (py "c") (Some 1%nat) [] []].
Proof. reflexivity. Qed.

Lemma merged_sample_eq :
  Node_merge 5 0%nat 1%nat true merge_sample_store =
  (Store [PropWords (py "p") (Some 0%nat) (PyList [PyInt 2]) 32;
          PropWords (py "p") (Some 1%nat) (PyList [PyInt 2]) 32;
          PropStrings (py "q") (Some 1%nat) (PyList [PyStr (py "x")]);
          PropStrings (py "q") (Some 0%nat) (PyList [PyStr (py "x")]);
          PropWords (py "p") (Some 4%nat) (PyList [PyInt 2]) 32;
          PropStrings (py "q") (Some 4%nat) (PyList [PyStr (py "x")])]
         [Node (py "a") None [0%nat; 3%nat] [3%nat];
          Node (py "b") None [1%nat; 2%nat] [2%nat];
          Node (py "c") (Some 1%nat) [] [];
          Node (py "c") (Some 4%nat) [] [];
          Node (py "b") None [4%nat; 5%nat] [3%nat]], Ok tt).
Proof. reflexivity. Qed.

(** ** Copies appended by merge *)

Lemma ancestor_fresh (s : store) (base : nat) :
  (forall a n, (base <= a)%nat -> s_nodes s !! a = Some n -> fresh_or_none base (n_parent n)) ->
  forall c r, ancestor s c r -> (base <= c)%nat -> (base <= r)%nat.
Proof.
  intros Hnew c r Hanc. induction Hanc as [a q n Hn Hq|a q r n Hn Hq _ IH]; intros Hc.
  - specialize (Hnew a n Hc Hn). by rewrite Hq in Hnew.
  - apply IH. specialize (Hnew a n Hc Hn). by rewrite Hq in Hnew.
Qed.

Lemma merge_node_absent (fuel : nat) (rec : naddr -> naddr -> M unit)
    (self a : naddr) (s s1 : store) (sub : node) (u : unit) :
  s_nodes s !! a = Some sub ->
  get_subnode_index self (n_name sub) s = Ok None ->
  merge_node fuel rec self a s = (s1, Ok u) ->
  exists c nc nself,
    s_nodes s !! self = Some nself /\
    s_nodes s1 !! self
      = Some (Node (n_name nself) (n_parent nself) (n_props nself) (n_nodes nself ++ [c])) /\
    (length (s_nodes s) <= c)%nat /\
    s_nodes s1 !! c = Some nc /\ n_name nc = n_name sub /\
    n_parent nc <> Some self /\ ~ ancestor s1 c self.
Proof.
  intros Ha Hidx H.
  destruct (get_subnode_index_self _ _ _ _ Hidx) as [nself Hself].
  pose proof (lookup_lt_Some _ _ _ Hself) as Hlt.
  unfold merge_node in H.
  inv_read H as sub' Hsub. apply load_node_Ok in Hsub.
  assert (sub' = sub) as -> by congruence.
  inv_read H as index Hidx'. assert (index = None) as -> by congruence.
  inv_bind H as s2 c Hdc.
  assert (Hev : evolves s s1).
  { destruct u. eapply deepcopy_append_evolves; eauto. }
  destruct (deepcopy_spec _ _ _ _ _ Hdc) as ([m Hok] & Hc & (nx & ny & Hx & Hy & Hname)).
  assert (nx = sub) as -> by congruence.
  unfold nodes_append in H. inv_read H as n Hn. apply load_node_Ok in Hn.
  unfold write_node in H. injection H as <-.
  rewrite (dc_old_n _ _ _ Hok) in Hn by exact Hlt.
  assert (n = nself) as -> by congruence.
  exists c, ny, nself. simpl.
  destruct (dc_le _ _ _ Hok) as [Hln _].
  split_and!; auto.
  - apply list_lookup_insert_eq. lia.
  - lia.
  - rewrite list_lookup_insert_ne by lia. exact Hy.
  - pose proof (dc_new_n _ _ _ Hok c ny (proj1 Hc) Hy) as (Hpar & _).
    intros Heq. rewrite Heq in Hpar. simpl in Hpar. lia.
  - intros Hanc.
    pose proof (ancestor_fresh _ (length (s_nodes s)) (ev_new _ _ Hev) _ _ Hanc (proj1 Hc)).
    lia.
Qed.

(** After a merge into [self] that returned, the children of [self] are
    those it had followed by new nodes, none of which has [self] as parent
    or among its ancestors, and its properties are those it had followed by
    new properties whose parent is [self]. *)
Lemma merge_copies_of_run (fuel : nat) (self other : naddr) (replace : bool)
    (s s' : store) (n : node) :
  Node_merge fuel self other replace s = (s', Ok tt) ->
  s_nodes s !! self = Some n ->
  exists n' en ep,
    s_nodes s' !! self = Some n' /\
    n_nodes n' = n_nodes n ++ en /\ n_props n' = n_props n ++ ep /\
    Forall (fun c => exists nc, s_nodes s' !! c = Some nc /\
                       n_parent nc <> Some self /\ ~ ancestor s' c self) en /\
    Forall (fun b => exists p, s_props s' !! b = Some p /\ prop_parent p = Some self) ep.
Proof.
  intros H Hself.
  apply Node_merge_evolves in H as Hev.
  destruct (ev_node _ _ Hev self n Hself)
    as (n' & en & ep & Hn' & _ & _ & Hns & Hps & Hen & Hep).
  pose proof (lookup_lt_Some _ _ _ Hself) as Hlt.
  exists n', en, ep. split_and!; auto.
  - eapply Forall_impl; [exact Hen|]. simpl. intros c [Hc1 Hc2].
    destruct (lookup_lt_is_Some_2 _ _ Hc2) as [nc Hnc]. exists nc.
    split_and!; [done| |].
    + pose proof (ev_new _ _ Hev c nc Hc1 Hnc) as Hpar.
      intros Heq. rewrite Heq in Hpar. simpl in Hpar. lia.
    + intros Hanc.
      pose proof (ancestor_fresh _ (length (s_nodes s)) (ev_new _ _ Hev) _ _ Hanc Hc1).
      lia.
  - eapply Forall_impl; [exact Hep|]. simpl. by intros b [_ Hb].
Qed.

(** In the sample, the copy of [c] appended to [a] reports the path of the
    original under [b], and the copy of [q] appended to [a] reports the
    path of a property of [a]. *)
Lemma merged_sample_paths :
  n_nodes <$> s_nodes (merged_sample true) !! 0%nat = Some [3%nat] /\
  n_parent <$> s_nodes (merged_sample true) !! 3%nat = Some (Some 4%nat) /\
  node_path 5 (merged_sample true) 3%nat = Ok (py "/b") /\
  prop_path 5 (merged_sample true) 3%nat = Ok (py "/a").
Proof. repeat split. Qed.

(** ** What a nested merge can write to *)

Lemma frame_ok_refl inD PD s : closed inD PD s -> frame_ok inD PD s s.
Proof. intros Hc. split_and!; auto using store_le_refl. Qed.

Lemma frame_ok_trans inD PD s1 s2 s3 :
  frame_ok inD PD s1 s2 -> frame_ok inD PD s2 s3 -> frame_ok inD PD s1 s3.
Proof.
  intros (_ & Hle1 & Hn1 & Hp1) (Hc & Hle2 & Hn2 & Hp2).
  split_and!; eauto using store_le_trans.
  - intros x Hx. by rewrite Hn2, Hn1.
  - intros b Hb. by rewrite Hp2, Hp1.
Qed.

Lemma merge_prop_frame inD PD (self : naddr) (replace : bool) (a : paddr)
    (s s' : store) (u : unit) :
  closed inD PD s -> inD self ->
  merge_prop self replace a s = (s', Ok u) ->
  frame_ok inD PD s s'.
Proof.
  intros Hc Hself (prop & n & index & Hprop & Hn & _ & Hcase)%merge_prop_cases.
  destruct Hc as (Hcn & Hcp & Hcl).
  destruct (Hcl self n Hself Hn) as [Hch Hpr].
  destruct index as [i|].
  - destruct Hcase as (present & _ & Hcase).
    destruct present; [subst; by apply frame_ok_refl|].
    destruct replace; [|subst; by apply frame_ok_refl].
    destruct Hcase as (d & t & target & _ & Ht & Htarget & ->).
    assert (HPt : PD t).
    { rewrite Forall_forall in Hpr. apply Hpr. by eapply list_elem_of_lookup_2. }
    split_and!; simpl.
    + split_and!; simpl; auto. intros b. rewrite length_insert. apply Hcp.
    + split; simpl; [lia|rewrite length_insert; lia].
    + done.
    + intros b Hb. rewrite list_lookup_insert_ne; [done|]. by intros ->.
  - destruct Hcase as (copy & _ & ->).
    split_and!; simpl.
    + split_and!; simpl.
      * intros x. rewrite length_insert. apply Hcn.
      * intros b. rewrite length_app. simpl. intros Hb. apply Hcp. lia.
      * intros x nx Hx [(-> & <- & _)|[Hne Hl]]%list_lookup_insert_Some; simpl.
        -- split; [done|]. apply Forall_app. split; [done|].
           repeat constructor. by apply Hcp.
        -- by apply (Hcl x).
    + split; simpl; [rewrite length_insert; lia|rewrite length_app; simpl; lia].
    + intros x Hx. rewrite list_lookup_insert_ne; [done|]. by intros ->.
    + intros b Hb. rewrite lookup_app_l; [done|].
      destruct (decide (b < length (s_props s))%nat); [done|]. exfalso. apply Hb, Hcp. lia.
Qed.

Lemma for_each_frame inD PD (body : nat -> M unit) (xs : list nat) :
  (forall x s s' u, closed inD PD s -> body x s = (s', Ok u) -> frame_ok inD PD s s') ->
  forall s s' u, closed inD PD s -> for_each body xs s = (s', Ok u) -> frame_ok inD PD s s'.
Proof.
  intros Hbody. induction xs as [|x xs IH]; intros s s' u Hc H; simpl in H.
  - apply ret_Ok in H as [-> _]. by apply frame_ok_refl.
  - inv_bind H as s1 u1 Hx. pose proof (Hbody _ _ _ _ Hc Hx) as Hf1.
    eapply frame_ok_trans; [exact Hf1|]. eapply IH; [|exact H]. by destruct Hf1.
Qed.

Section Footprint.

Variables inD PD : nat -> Prop.
Hypothesis inD_dec : forall a, inD a \/ ~ inD a.

Lemma with_nodes_nil (n : node) : with_nodes n [] = n.
Proof. destruct n. unfold with_nodes. simpl. by rewrite app_nil_r. Qed.

Lemma with_nodes_app (n : node) (e1 e2 : list naddr) :
  with_nodes (with_nodes n e1) e2 = with_nodes n (e1 ++ e2).
Proof. unfold with_nodes. simpl. by rewrite app_assoc. Qed.

Lemma frame_ok_child_frame (self : naddr) (s s' : store) :
  is_Some (s_nodes s !! self) ->
  (forall n, s_nodes s !! self = Some n -> Forall inD (n_nodes n)) ->
  frame_ok inD PD s s' -> child_frame inD PD self s s'.
Proof.
  intros [n Hn] Hch (Hc & Hle & Hns & Hps).
  split_and!; auto.
  - intros n0 Hself Hn0. exists []. rewrite with_nodes_nil, Hns by done. auto.
  - destruct (inD_dec self) as [Hin|Hout].
    + assert (Hlt : (self < length (s_nodes s'))%nat).
      { apply lookup_lt_Some in Hn. destruct Hle. lia. }
      destruct (lookup_lt_is_Some_2 _ _ Hlt) as [n' Hn']. exists n'. split; [done|].
      destruct Hc as (_ & _ & Hcl). by destruct (Hcl self n' Hin Hn').
    + exists n. rewrite Hns by done. auto.
Qed.

Lemma child_frame_trans (self : naddr) (s1 s2 s3 : store) :
  child_frame inD PD self s1 s2 -> child_frame inD PD self s2 s3 ->
  child_frame inD PD self s1 s3.
Proof.
  intros (_ & Hle1 & Hn1 & Hp1 & Hs1 & _) (Hc & Hle2 & Hn2 & Hp2 & Hs2 & Hch).
  split_and!; eauto using store_le_trans.
  - intros x Hx Hne. by rewrite Hn2, Hn1.
  - intros b Hb. by rewrite Hp2, Hp1.
  - intros n Hout Hn. destruct (Hs1 n Hout Hn) as (e1 & He1 & Hf1).
    destruct (Hs2 _ Hout He1) as (e2 & He2 & Hf2).
    exists (e1 ++ e2). rewrite <- with_nodes_app. split; [done|].
    apply Forall_app. auto.
Qed.

Lemma merge_node_child_frame (fuel : nat) (rec : naddr -> naddr -> M unit)
    (self a : naddr) (s s' : store) (u : unit) :
  (forall t x s s' u, closed inD PD s -> inD t ->
                      rec t x s = (s', Ok u) -> frame_ok inD PD s s') ->
  closed inD PD s ->
  (exists n, s_nodes s !! self = Some n /\ Forall inD (n_nodes n)) ->
  merge_node fuel rec self a s = (s', Ok u) ->
  child_frame inD PD self s s'.
Proof.
  intros Hrec Hc (n & Hn & Hch) H. unfold merge_node in H.
  inv_read H as sub Hsub. inv_read H as index Hidx.
  assert (Hch' : forall n0, s_nodes s !! self = Some n0 -> Forall inD (n_nodes n0)).
  { intros n0 Hn0. by assert (n0 = n) as -> by congruence. }
  destruct index as [i|].
  - inv_read H as present Hpres.
    destruct present.
    { apply ret_Ok in H as [-> _]. apply frame_ok_child_frame; eauto.
      by apply frame_ok_refl. }
    inv_read H as t Ht.
    unfold nodes_at, load_node in Ht. rewrite Hn in Ht. simpl in Ht.
    destruct (n_nodes n !! i) as [t'|] eqn:Hi; [|discriminate]. injection Ht as ->.
    assert (Ht : inD t).
    { rewrite Forall_forall in Hch. apply Hch. by eapply list_elem_of_lookup_2. }
    apply frame_ok_child_frame; eauto.
  - inv_bind H as s1 c Hdc.
    destruct (deepcopy_spec _ _ _ _ _ Hdc) as ([m Hok] & Hcb & _).
    pose proof (lookup_lt_Some _ _ _ Hn) as Hlt.
    unfold nodes_append in H. inv_read H as n1 Hn1. apply load_node_Ok in Hn1.
    unfold write_node in H. injection H as <-.
    rewrite (dc_old_n _ _ _ Hok) in Hn1 by exact Hlt.
    assert (n1 = n) as -> by congruence.
    destruct (dc_le _ _ _ Hok) as [Hln Hlp].
    destruct Hc as (Hcn & Hcp & Hcl).
    assert (Hcin : inD c) by (apply Hcn; lia).
    assert (Hnew : Forall inD (n_nodes n ++ [c])).
    { apply Forall_app. split; [done|]. by repeat constructor. }
    split_and!; simpl.
    + split_and!; simpl.
      * intros x. rewrite length_insert. intros Hx. apply Hcn. lia.
      * intros b Hb. apply Hcp. lia.
      * intros x nx Hx [(-> & <- & _)|[Hne Hl]]%list_lookup_insert_Some; simpl.
        -- split; [done|]. by destruct (Hcl _ _ Hx Hn).
        -- destruct (decide (x < length (s_nodes s))%nat) as [Hxl|Hxg].
           ++ rewrite (dc_old_n _ _ _ Hok) in Hl by done. by apply (Hcl x).
           ++ destruct (dc_new_n _ _ _ Hok x nx ltac:(lia) Hl) as (_ & Hfn & Hfp).
              split; (eapply Forall_impl; [eassumption|]); simpl; auto.
    + split; simpl; [rewrite length_insert; lia|lia].
    + intros x Hx Hne. rewrite list_lookup_insert_ne by done.
      apply (dc_old_n _ _ _ Hok).
      destruct (decide (x < length (s_nodes s))%nat); [done|]. exfalso. apply Hx, Hcn. lia.
    + intros b Hb. apply (dc_old_p _ _ _ Hok).
      destruct (decide (b < length (s_props s))%nat); [done|]. exfalso. apply Hb, Hcp. lia.
    + intros n0 _ Hn0. assert (n0 = n) as -> by congruence.
      exists [c]. split; [|by repeat constructor].
      apply list_lookup_insert_eq. lia.
    + eexists. split; [apply list_lookup_insert_eq; lia|]. done.
Qed.

Lemma child_frame_refl (self : naddr) (s : store) :
  closed inD PD s ->
  (exists n, s_nodes s !! self = Some n /\ Forall inD (n_nodes n)) ->
  child_frame inD PD self s s.
Proof.
  intros Hc (n & Hn & Hch). apply frame_ok_child_frame; eauto.
  - intros n0 Hn0. by assert (n0 = n) as -> by congruence.
  - by apply frame_ok_refl.
Qed.

Lemma for_each_child_frame (fuel : nat) (rec : naddr -> naddr -> M unit)
    (self : naddr) (xs : list naddr) :
  (forall t x s s' u, closed inD PD s -> inD t ->
                      rec t x s = (s', Ok u) -> frame_ok inD PD s s') ->
  forall s s' u,
    closed inD PD s ->
    (exists n, s_nodes s !! self = Some n /\ Forall inD (n_nodes n)) ->
    for_each (merge_node fuel rec self) xs s = (s', Ok u) ->
    child_frame inD PD self s s'.
Proof.
  intros Hrec. induction xs as [|x xs IH]; intros s s' u Hc Hch H; simpl in H.
  - apply ret_Ok in H as [-> _]. by apply child_frame_refl.
  - inv_bind H as s1 u1 Hx.
    pose proof (merge_node_child_frame _ _ _ _ _ _ _ Hrec Hc Hch Hx) as Hf1.
    eapply child_frame_trans; [exact Hf1|].
    destruct Hf1 as (Hc1 & _ & _ & _ & _ & Hch1). eapply IH; eauto.
Qed.

(** A merge into a node of the set writes only to objects of the sets. *)
Lemma Node_merge_frame (fuel : nat) :
  forall self other replace s s' u,
    closed inD PD s -> inD self ->
    Node_merge fuel self other replace s = (s', Ok u) ->
    frame_ok inD PD s s'.
Proof.
  induction fuel as [|fuel IH]; intros self other replace s s' u Hc Hself H;
    [discriminate|].
  simpl in H.
  inv_read H as o Ho. inv_bind H as s1 u1 Hprops. inv_read H as o' Ho'.
  assert (Hf1 : frame_ok inD PD s s1).
  { eapply for_each_frame; [|exact Hc|exact Hprops].
    intros x s2 s3 u2 Hc2 Hx. by eapply merge_prop_frame. }
  eapply frame_ok_trans; [exact Hf1|].
  destruct Hf1 as (Hc1 & Hle1 & _ & _).
  destruct (s_nodes s1 !! self) as [n|] eqn:Hn; last first.
  { destruct (n_nodes o') as [|x xs]; simpl in H.
    - apply ret_Ok in H as [-> _]. by apply frame_ok_refl.
    - exfalso. inv_bind H as s2 u2 Hx. unfold merge_node in Hx.
      inv_read Hx as sub Hsub. inv_read Hx as index Hidx.
      apply get_subnode_index_self in Hidx as [? Hidx]. congruence. }
  assert (Hch1 : exists n, s_nodes s1 !! self = Some n /\ Forall inD (n_nodes n)).
  { exists n. split; [done|].
    destruct Hc1 as (_ & _ & Hcl). by destruct (Hcl self n Hself Hn). }
  assert (Hf2 : child_frame inD PD self s1 s').
  { eapply for_each_child_frame; [|exact Hc1|exact Hch1|exact H].
    intros t x s2 s3 u2 Hc2 Ht Hr. simpl in Hr. by eapply IH. }
  destruct Hf2 as (Hc2 & Hle2 & Hn2 & Hp2 & _ & _).
  split_and!; auto.
  intros x Hx. apply Hn2; [done|]. by intros ->.
Qed.

End Footprint.

(** ** The first loop of merge *)

Lemma prop_eq_name (p q : prop) : prop_eq p (OpProp q) = true -> prop_name p = prop_name q.
Proof.
  unfold prop_eq, prop___eq__, Property___eq__, PropData___eq__, proper_subclass.
  destruct p, q; simpl; repeat case_bool_decide; simpl; try discriminate; auto.
Qed.

Lemma data_eq_loop_refl (a : list pyval) (l : list nat) : data_eq_loop a a l = true.
Proof. induction l as [|i l IH]; simpl; [done|]. by rewrite bool_decide_eq_true_2. Qed.

Lemma prop_eq_refl (p : prop) : prop_eq p (OpProp p) = true.
Proof.
  unfold prop_eq, prop___eq__, Property___eq__, PropData___eq__, proper_subclass.
  destruct p; simpl; rewrite ?bool_decide_eq_true_2 by done; simpl;
    auto using data_eq_loop_refl.
Qed.

Lemma append_all_PyList (check : pyval -> result unit) (args : list pyval) :
  forall l d, append_all check (PyList l) args = Ok d -> d = PyList (l ++ args).
Proof.
  induction args as [|v args IH]; intros l d; simpl.
  - intros [= <-]. by rewrite app_nil_r.
  - destruct (check v); simpl; [|discriminate].
    intros ->%IH. by rewrite <- app_assoc.
Qed.

Lemma bytearray_items (l : list pyval) (b : bytes) : bytearray l = Ok b -> PyInt <$> b = l.
Proof.
  revert b. induction l as [|[x|z] l IH]; intros b; simpl; try discriminate.
  - by intros [= <-].
  - destruct (_ && _); [|discriminate].
    destruct (bytearray l) as [r|]; simpl; [|discriminate].
    intros [= <-]. rewrite fmap_cons. f_equal. by apply IH.
Qed.

(** A copy is a detached property of the same class and name holding the
    same values. *)
Lemma prop_copy_spec (p c : prop) :
  prop_copy p = Ok c ->
  class_of c = class_of p /\ prop_name c = prop_name p /\ prop_parent c = None /\
  values c = values p.
Proof.
  destruct p as [n q d|n q d|n q d w|n q d]; simpl.
  - unfold Property_init. destruct (BaseItem___init__ n); simpl; [|discriminate].
    by intros [= <-].
  - unfold PropStrings_init. destruct (BaseItem___init__ n); simpl; [|discriminate].
    destruct (append_all _ _ _) as [d'|] eqn:E; simpl; [|discriminate].
    intros [= <-]. apply append_all_PyList in E as ->. by simpl.
  - unfold PropWords_init. destruct (BaseItem___init__ n); simpl; [|discriminate].
    destruct (append_all _ _ _) as [d'|] eqn:E; simpl; [|discriminate].
    intros [= <-]. apply append_all_PyList in E as ->. by simpl.
  - unfold PropBytes_init. destruct (BaseItem___init__ n); simpl; [|discriminate].
    destruct (bytearray _) as [b|] eqn:E; simpl; [|discriminate].
    intros [= <-]. simpl. by rewrite (bytearray_items _ _ E).
Qed.

Lemma get_property_index_loop_Some (s : store) (nm : str) (l : list paddr) :
  forall k i,
    get_property_index_loop s l nm k = Ok (Some i) ->
    exists t p, (k <= i)%nat /\ l !! (i - k)%nat = Some t /\
                s_props s !! t = Some p /\ prop_name p = nm.
Proof.
  induction l as [|a l IH]; intros k i; simpl; [discriminate|].
  destruct (load_prop a s) as [p|] eqn:Hp; simpl; [|discriminate].
  apply load_prop_Ok in Hp. case_bool_decide as Hn.
  - intros [= <-]. exists a, p. rewrite Nat.sub_diag. auto.
  - intros (t & q & Hle & Hl & Hq & Hnm)%IH. exists t, q.
    replace (i - k)%nat with (S (i - S k)) by lia. split_and!; auto. lia.
Qed.

Lemma get_property_index_loop_None (s : store) (nm : str) (l : list paddr) :
  forall k,
    get_property_index_loop s l nm k = Ok None ->
    Forall (fun t => exists p, s_props s !! t = Some p /\ prop_name p <> nm) l.
Proof.
  induction l as [|a l IH]; intros k; simpl; [by constructor|].
  destruct (load_prop a s) as [p|] eqn:Hp; simpl; [|discriminate].
  apply load_prop_Ok in Hp. case_bool_decide as Hn; [discriminate|].
  intros H. constructor; eauto.
Qed.

Lemma contains_true (eq : nat -> nat -> result bool) (x : nat) (l : list nat) :
  contains eq x l = Ok true -> exists e, e ∈ l /\ (x = e \/ eq x e = Ok true).
Proof.
  induction l as [|e l IH]; simpl; [discriminate|].
  case_bool_decide as Hx.
  - intros _. exists e. split; [apply list_elem_of_here|auto].
  - destruct (eq x e) as [[|]|] eqn:E; simpl; try discriminate.
    + intros _. exists e. split; [apply list_elem_of_here|auto].
    + intros (e' & Hin & He')%IH. exists e'. split; [by apply list_elem_of_further|done].
Qed.

Lemma contains_false_inv (eq : nat -> nat -> result bool) (x : nat) (l : list nat) :
  contains eq x l = Ok false -> Forall (fun e => x <> e /\ eq x e = Ok false) l.
Proof.
  induction l as [|e l IH]; simpl; [by constructor|].
  case_bool_decide as Hx; [discriminate|].
  destruct (eq x e) as [[|]|] eqn:E; simpl; try discriminate.
  intros H. constructor; auto.
Qed.

Lemma contains_false_intro (eq : nat -> nat -> result bool) (x : nat) (l : list nat) :
  Forall (fun e => x <> e /\ eq x e = Ok false) l -> contains eq x l = Ok false.
Proof.
  induction 1 as [|e l [Hne He] _ IH]; simpl; [done|].
  rewrite bool_decide_eq_false_2 by done. by rewrite He.
Qed.

Lemma contains_true_inv (eq : nat -> nat -> result bool) (x : nat) (l : list nat) :
  contains eq x l = Ok true ->
  exists l1 e l2, l = l1 ++ e :: l2 /\
    Forall (fun e' => x <> e' /\ eq x e' = Ok false) l1 /\ (x = e \/ eq x e = Ok true).
Proof.
  induction l as [|e l IH]; simpl; [discriminate|].
  case_bool_decide as Hx.
  - intros _. exists [], e, l. split_and!; [done|constructor|by left].
  - destruct (eq x e) as [[|]|] eqn:E; simpl; try discriminate.
    + intros _. exists [], e, l. split_and!; [done|constructor|by right].
    + intros (l1 & e' & l2 & -> & Hl1 & He')%IH. exists (e :: l1), e', l2.
      split_and!; [done|by constructor|done].
Qed.

Lemma contains_true_intro (eq : nat -> nat -> result bool) (x : nat) (l1 : list nat)
    (e : nat) (l2 : list nat) :
  Forall (fun e' => x <> e' /\ eq x e' = Ok false) l1 -> (x = e \/ eq x e = Ok true) ->
  contains eq x (l1 ++ e :: l2) = Ok true.
Proof.
  intros Hl1 He. induction Hl1 as [|e' l1 [Hne He'] _ IH]; simpl.
  - case_bool_decide; [done|]. destruct He as [? | ->]; done.
  - rewrite bool_decide_eq_false_2 by done. by rewrite He'.
Qed.

Lemma with_props_nil (n : node) : with_props n [] = n.
Proof. destruct n. unfold with_props. simpl. by rewrite app_nil_r. Qed.

Lemma with_props_app (n : node) (e1 e2 : list paddr) :
  with_props (with_props n e1) e2 = with_props n (e1 ++ e2).
Proof. unfold with_props. simpl. by rewrite app_assoc. Qed.

(** One iteration of the first loop, for the property [prop] of the other
    node: it writes to [self], to properties that have the name of [prop],
    and to the property it allocates, which has that name too. *)
Lemma merge_prop_step (self : naddr) (replace : bool) (a : paddr) (s s' : store)
    (u : unit) (prop : prop) (n : node) :
  merge_prop self replace a s = (s', Ok u) ->
  s_props s !! a = Some prop -> s_nodes s !! self = Some n ->
  store_le s s' /\
  (forall x, x <> self -> s_nodes s' !! x = s_nodes s !! x) /\
  (exists ex, s_nodes s' !! self = Some (with_props n ex) /\
              Forall (fun c => (length (s_props s) <= c)%nat) ex) /\
  (forall c p, (length (s_props s) <= c)%nat -> s_props s' !! c = Some p ->
               prop_name p = prop_name prop) /\
  (forall b p, s_props s !! b = Some p -> prop_name p <> prop_name prop ->
               s_props s' !! b = Some p).
Proof.
  intros H Hprop Hn.
  pose proof (ev_le _ _ (merge_prop_evolves _ _ _ _ _ _ H)) as Hle.
  apply merge_prop_cases in H as (prop' & n' & index & Hprop' & Hn' & Hidx & Hcase).
  assert (prop' = prop) as -> by congruence. assert (n' = n) as -> by congruence.
  assert (Hsame : s' = s ->
    store_le s s' /\
    (forall x, x <> self -> s_nodes s' !! x = s_nodes s !! x) /\
    (exists ex, s_nodes s' !! self = Some (with_props n ex) /\
                Forall (fun c => (length (s_props s) <= c)%nat) ex) /\
    (forall c p, (length (s_props s) <= c)%nat -> s_props s' !! c = Some p ->
                 prop_name p = prop_name prop) /\
    (forall b p, s_props s !! b = Some p -> prop_name p <> prop_name prop ->
                 s_props s' !! b = Some p)).
  { intros ->. split_and!; auto.
    - exists []. by rewrite with_props_nil.
    - intros c p Hc Hp. apply lookup_lt_Some in Hp. lia. }
  destruct index as [i|].
  - destruct Hcase as (present & _ & Hcase).
    destruct present; [auto|]. destruct replace; [|auto].
    destruct Hcase as (d & t & target & _ & Ht & Htarget & ->).
    unfold get_property_index, load_node in Hidx. rewrite Hn in Hidx. simpl in Hidx.
    apply get_property_index_loop_Some in Hidx as (t' & p' & _ & Ht' & Hp' & Hname).
    rewrite Nat.sub_0_r in Ht'. assert (t' = t) as -> by congruence.
    assert (p' = target) as -> by congruence.
    split_and!; simpl; auto.
    + exists []. by rewrite with_props_nil.
    + intros c p Hc Hp. apply lookup_lt_Some in Hp. rewrite length_insert in Hp. lia.
    + intros b p Hb Hne. rewrite list_lookup_insert_ne; [done|]. intros <-. congruence.
  - destruct Hcase as (copy & Hcopy & ->).
    apply prop_copy_spec in Hcopy as (_ & Hname & _).
    pose proof (lookup_lt_Some _ _ _ Hn) as Hlt.
    split_and!; simpl; auto.
    + intros x Hx. by rewrite list_lookup_insert_ne.
    + exists [length (s_props s)]. split; [by apply list_lookup_insert_eq|].
      by repeat constructor.
    + intros c p Hc [Hl|[_ Hr]]%lookup_app_Some.
      * apply lookup_lt_Some in Hl. lia.
      * apply list_lookup_singleton_Some in Hr as [_ <-].
        unfold set_parent. by rewrite prop_name_with_parent.
    + intros b p Hb _. rewrite lookup_app_l; [done|]. by apply lookup_lt_Some in Hb.
Qed.

(** The first loop over properties none of which is named [nm]: the
    properties named [nm] are untouched, none is allocated, and [self]
    only receives new properties. *)
Lemma for_each_merge_prop_other (self : naddr) (replace : bool) (nm : str) (xs : list paddr) :
  forall s s' u n,
    Forall (fun x => exists p, s_props s !! x = Some p /\ prop_name p <> nm) xs ->
    s_nodes s !! self = Some n ->
    for_each (merge_prop self replace) xs s = (s', Ok u) ->
    store_le s s' /\
    (forall x, x <> self -> s_nodes s' !! x = s_nodes s !! x) /\
    (exists ex, s_nodes s' !! self = Some (with_props n ex) /\
                Forall (fun c => (length (s_props s) <= c)%nat) ex) /\
    (forall c p, (length (s_props s) <= c)%nat -> s_props s' !! c = Some p ->
                 prop_name p <> nm) /\
    (forall b p, s_props s !! b = Some p -> prop_name p = nm -> s_props s' !! b = Some p).
Proof.
  induction xs as [|x xs IH]; intros s s' u n Hxs Hn H; simpl in H.
  - apply ret_Ok in H as [-> _]. split_and!; auto using store_le_refl.
    + exists []. by rewrite with_props_nil.
    + intros c p Hc Hp. apply lookup_lt_Some in Hp. lia.
  - inv_bind H as s1 u1 Hx.
    apply Forall_cons in Hxs as [(px & Hpx & Hnx) Hxs].
    pose proof (merge_prop_evolves _ _ _ _ _ _ Hx) as Hev1.
    pose proof (for_each_evolves _ _ (fun x s s' u => merge_prop_evolves self replace x s s' u)
                  _ _ _ H) as Hev2.
    destruct (merge_prop_step _ _ _ _ _ _ _ _ Hx Hpx Hn)
      as (Hle1 & Hns1 & (ex1 & Hself1 & Hex1) & Hnew1 & Hold1).
    assert (Hxs1 : Forall (fun x => exists p, s_props s1 !! x = Some p /\ prop_name p <> nm) xs).
    { eapply Forall_impl; [exact Hxs|]. simpl. intros y (p & Hp & Hne).
      destruct (ev_prop _ _ Hev1 y p Hp) as (p' & Hp' & _ & Hnm' & _).
      exists p'. split; [done|congruence]. }
    destruct (IH _ _ _ _ Hxs1 Hself1 H)
      as (Hle2 & Hns2 & (ex2 & Hself2 & Hex2) & Hnew2 & Hold2).
    destruct Hle1 as [Hln1 Hlp1].
    split_and!.
    + eapply store_le_trans; [split|]; eauto.
    + intros y Hy. by rewrite Hns2, Hns1.
    + exists (ex1 ++ ex2). rewrite <- with_props_app. split; [done|].
      apply Forall_app. split; [done|].
      eapply Forall_impl; [exact Hex2|]. simpl. intros; lia.
    + intros c p Hc Hp.
      destruct (decide (c < length (s_props s1))%nat) as [Hlt|Hge].
      * destruct (lookup_lt_is_Some_2 _ _ Hlt) as [p1 Hp1].
        destruct (ev_prop _ _ Hev2 c p1 Hp1) as (p' & Hp' & _ & Hnm' & _).
        assert (p' = p) as -> by congruence.
        rewrite Hnm', (Hnew1 c p1 Hc Hp1). congruence.
      * apply (Hnew2 c p); [lia|done].
    + intros b p Hb Hnm. apply Hold2; [|done]. apply Hold1; [done|congruence].
Qed.

Lemma for_each_app (body : nat -> M unit) (l1 l2 : list nat) :
  forall s s' u,
    for_each body (l1 ++ l2) s = (s', Ok u) ->
    exists s1 u1, for_each body l1 s = (s1, Ok u1) /\ for_each body l2 s1 = (s', Ok u).
Proof.
  induction l1 as [|x l1 IH]; intros s s' u H; simpl in *.
  - exists s, tt. auto.
  - inv_bind H as s1 u1 Hx. apply IH in H as (s2 & u2 & H1 & H2).
    exists s2, u2. split; [|done]. unfold bind. by rewrite Hx.
Qed.

(** The iteration for a property of the other node that [self] has under
    the same name with another value. *)
Lemma merge_prop_conflict (self : naddr) (replace : bool) (bA bB : paddr)
    (s s' : store) (u : unit) (n : node) (pA pB : prop) :
  s_nodes s !! self = Some n ->
  s_props s !! bA = Some pA -> s_props s !! bB = Some pB ->
  bA ∈ n_props n ->
  prop_name pA = prop_name pB ->
  prop_eq pB (OpProp pA) = false ->
  (forall e pe, e ∈ n_props n -> e <> bA -> s_props s !! e = Some pe ->
                prop_name pe <> prop_name pB) ->
  merge_prop self replace bB s = (s', Ok u) ->
  if replace
  then exists d, prop_data pB = Some d /\
                 s' = Store (<[bA := set_data pA (copy_data d)]> (s_props s)) (s_nodes s)
  else s' = s.
Proof.
  intros Hn HpA HpB Hin Hname Hneq Huniq H.
  apply merge_prop_cases in H as (prop & n' & index & Hprop & Hn' & Hidx & Hcase).
  assert (prop = pB) as -> by congruence. assert (n' = n) as -> by congruence.
  unfold get_property_index, load_node in Hidx. rewrite Hn in Hidx. simpl in Hidx.
  destruct index as [i|]; last first.
  { apply get_property_index_loop_None in Hidx. rewrite Forall_forall in Hidx.
    destruct (Hidx bA Hin) as (p & Hp & Hne). congruence. }
  apply get_property_index_loop_Some in Hidx as (t & p & _ & Ht & Hp & Hnm).
  rewrite Nat.sub_0_r in Ht.
  assert (t = bA) as ->.
  { destruct (decide (t = bA)) as [|Hne]; [done|]. exfalso.
    by apply (Huniq t p (list_elem_of_lookup_2 _ _ _ Ht) Hne Hp). }
  destruct Hcase as (present & Hpres & Hcase).
  assert (present = false) as ->.
  { destruct present; [|done]. exfalso.
    unfold prop_in_props, load_node in Hpres. rewrite Hn in Hpres. simpl in Hpres.
    apply contains_true in Hpres as (e & He & [->|Heq]).
    - destruct (decide (e = bA)) as [->|Hne].
      + assert (pA = pB) as -> by congruence. by rewrite prop_eq_refl in Hneq.
      + by apply (Huniq e pB He Hne HpB).
    - unfold prop_eq_at, load_prop in Heq. rewrite HpB in Heq. simpl in Heq.
      destruct (s_props s !! e) as [pe|] eqn:Hpe; simpl in Heq; [|discriminate].
      injection Heq as Heq. change (prop_eq pB (OpProp pe) = true) in Heq.
      pose proof (prop_eq_name _ _ Heq) as Hnme.
      destruct (decide (e = bA)) as [->|Hne].
      + assert (pe = pA) as -> by congruence. congruence.
      + apply (Huniq e pe He Hne Hpe). congruence. }
  destruct replace; [|done].
  destruct Hcase as (d & t & target & Hd & Ht' & Htarget & ->).
  assert (t = bA) as -> by congruence. assert (target = pA) as -> by congruence.
  exists d. auto.
Qed.

(** The iteration for a property of the other node whose name no property
    of [self] has. *)
Lemma merge_prop_absent (self : naddr) (replace : bool) (bC : paddr)
    (s s' : store) (u : unit) (n : node) (pC : prop) :
  s_nodes s !! self = Some n ->
  s_props s !! bC = Some pC ->
  (forall e pe, e ∈ n_props n -> s_props s !! e = Some pe ->
                prop_name pe <> prop_name pC) ->
  merge_prop self replace bC s = (s', Ok u) ->
  exists copy, prop_copy pC = Ok copy /\
    s' = Store (s_props s ++ [set_parent copy self])
               (<[self := with_props n [length (s_props s)]]> (s_nodes s)).
Proof.
  intros Hn HpC Habs H.
  apply merge_prop_cases in H as (prop & n' & index & Hprop & Hn' & Hidx & Hcase).
  assert (prop = pC) as -> by congruence. assert (n' = n) as -> by congruence.
  unfold get_property_index, load_node in Hidx. rewrite Hn in Hidx. simpl in Hidx.
  destruct index as [i|]; [|exact Hcase]. exfalso.
  apply get_property_index_loop_Some in Hidx as (t & p & _ & Ht & Hp & Hnm).
  by apply (Habs t p (list_elem_of_lookup_2 _ _ _ Ht) Hp).
Qed.

(** In a list of properties with distinct names, the properties around one
    of them have other names. *)
Lemma names_around (s : store) (xs1 xs2 : list paddr) (b : paddr) (p : prop) :
  NoDup (prop_names s (xs1 ++ b :: xs2)) ->
  None ∉ prop_names s (xs1 ++ b :: xs2) ->
  s_props s !! b = Some p ->
  Forall (fun x => exists q, s_props s !! x = Some q /\ prop_name q <> prop_name p)
         (xs1 ++ xs2).
Proof.
  unfold prop_names. rewrite fmap_app, fmap_cons. intros Hnd Hval Hp.
  apply NoDup_app in Hnd as (_ & Hdisj & Hnd2). apply NoDup_cons in Hnd2 as [Hnot2 _].
  rewrite Hp in *. simpl in *.
  apply Forall_forall. intros x Hx.
  assert (Hvx : is_Some (s_props s !! x)).
  { destruct (s_props s !! x) as [q|] eqn:Hq; [eauto|]. exfalso. apply Hval.
    apply elem_of_app in Hx as [Hx|Hx].
    - apply elem_of_app. left. apply list_elem_of_fmap. exists x. by rewrite Hq.
    - apply elem_of_app. right. apply list_elem_of_further.
      apply list_elem_of_fmap. exists x. by rewrite Hq. }
  destruct Hvx as [q Hq]. exists q. split; [done|]. intros Heq.
  apply elem_of_app in Hx as [Hx|Hx].
  - apply (Hdisj (Some (prop_name p))).
    + apply list_elem_of_fmap. exists x. by rewrite Hq, <- Heq.
    + apply list_elem_of_here.
  - apply Hnot2. apply list_elem_of_fmap. exists x. by rewrite Hq, <- Heq.
Qed.

(** The first loop changes no node but [self], whose properties it only
    extends with new ones. *)
Lemma first_loop_shape (self : naddr) (replace : bool) (xs : list paddr) :
  forall s s' u n,
    s_nodes s !! self = Some n ->
    for_each (merge_prop self replace) xs s = (s', Ok u) ->
    store_le s s' /\
    (forall x, x <> self -> s_nodes s' !! x = s_nodes s !! x) /\
    (exists ex, s_nodes s' !! self = Some (with_props n ex) /\
                Forall (fun c => (length (s_props s) <= c)%nat) ex).
Proof.
  induction xs as [|x xs IH]; intros s s' u n Hn H; simpl in H.
  - apply ret_Ok in H as [-> _]. split_and!; auto using store_le_refl.
    exists []. by rewrite with_props_nil.
  - inv_bind H as s1 u1 Hx.
    pose proof Hx as (prop & n' & _ & Hprop & _)%merge_prop_cases.
    destruct (merge_prop_step _ _ _ _ _ _ _ _ Hx Hprop Hn)
      as (Hle1 & Hns1 & (ex1 & Hself1 & Hex1) & _).
    destruct (IH _ _ _ _ Hself1 H) as (Hle2 & Hns2 & (ex2 & Hself2 & Hex2)).
    split_and!.
    + eapply store_le_trans; eauto.
    + intros y Hy. by rewrite Hns2, Hns1.
    + exists (ex1 ++ ex2). rewrite <- with_props_app. split; [done|].
      apply Forall_app. split; [done|]. destruct Hle1 as [_ Hlp].
      eapply Forall_impl; [exact Hex2|]. simpl. intros; lia.
Qed.

Lemma first_loop_evolves (self : naddr) (replace : bool) (xs : list paddr) s s' u :
  for_each (merge_prop self replace) xs s = (s', Ok u) -> evolves s s'.
Proof.
  apply for_each_evolves. intros x s1 s2 u1. apply merge_prop_evolves.
Qed.

(** Names of the properties of [self] met at some point of the first loop
    that started in [s0]: a property other than [bA] is not named [nm],
    when [bA] is the only property of [self] so named in [s0] and no
    property allocated since is. *)
Lemma only_named (s0 s : store) (nA : node) (ex : list paddr) (bA : paddr) (pA : prop) :
  evolves s0 s ->
  NoDup (prop_names s0 (n_props nA)) ->
  bA ∈ n_props nA -> s_props s0 !! bA = Some pA ->
  Forall (fun c => (length (s_props s0) <= c)%nat) ex ->
  (forall c p, (length (s_props s0) <= c)%nat -> s_props s !! c = Some p ->
               prop_name p <> prop_name pA) ->
  forall e pe, e ∈ n_props nA ++ ex -> e <> bA -> s_props s !! e = Some pe ->
               prop_name pe <> prop_name pA.
Proof.
  intros Hev Hnd Hin HpA Hex Hnew e pe He Hne Hpe.
  destruct (decide (length (s_props s0) <= e)%nat) as [Hge|Hlt]; [by apply (Hnew e)|].
  apply elem_of_app in He as [He|He]; last first.
  { rewrite Forall_forall in Hex. specialize (Hex e He). lia. }
  destruct (lookup_lt_is_Some_2 (s_props s0) e ltac:(lia)) as [pe0 Hpe0].
  destruct (ev_prop _ _ Hev e pe0 Hpe0) as (pe' & Hpe' & _ & Hnm & _).
  assert (pe' = pe) as -> by congruence. rewrite Hnm. intros Heq.
  apply list_elem_of_lookup in He as [i Hi]. apply list_elem_of_lookup in Hin as [j Hj].
  assert (i = j).
  { eapply (NoDup_lookup _ i j (Some (prop_name pA)) Hnd); unfold prop_names;
      rewrite list_lookup_fmap.
    - by rewrite Hi; simpl; rewrite Hpe0; simpl; rewrite Heq.
    - by rewrite Hj; simpl; rewrite HpA. }
  congruence.
Qed.

Lemma names_preserved (s s' : store) (nm : str) (xs : list paddr) :
  evolves s s' ->
  Forall (fun x => exists q, s_props s !! x = Some q /\ prop_name q <> nm) xs ->
  Forall (fun x => exists q, s_props s' !! x = Some q /\ prop_name q <> nm) xs.
Proof.
  intros Hev HF. eapply Forall_impl; [exact HF|]. simpl. intros x (q & Hq & Hne).
  destruct (ev_prop _ _ Hev x q Hq) as (q' & Hq' & _ & Hnm & _).
  exists q'. split; [done|congruence].
Qed.

(** The first loop, for a property of the other node that [self] has under
    the same name with another value. *)
Lemma first_loop_conflict (self : naddr) (replace : bool) (xs : list paddr)
    (s s1 : store) (u : unit) (nA : node) (bA bB : paddr) (pA pB : prop) :
  s_nodes s !! self = Some nA ->
  NoDup (prop_names s (n_props nA)) ->
  NoDup (prop_names s xs) -> None ∉ prop_names s xs ->
  bA ∈ n_props nA -> bB ∈ xs ->
  s_props s !! bA = Some pA -> s_props s !! bB = Some pB ->
  prop_name pA = prop_name pB ->
  prop_eq pB (OpProp pA) = false ->
  for_each (merge_prop self replace) xs s = (s1, Ok u) ->
  if replace
  then exists d, prop_data pB = Some d /\
                 s_props s1 !! bA = Some (set_data pA (copy_data d))
  else s_props s1 !! bA = Some pA.
Proof.
  intros Hn HndA HndB Hval HinA HinB HpA HpB Hname Hneq H.
  apply list_elem_of_split in HinB as (xs1 & xs2 & ->).
  pose proof (names_around _ _ _ _ _ HndB Hval HpB) as Hnames.
  apply Forall_app in Hnames as [Hnames1 Hnames2].
  apply for_each_app in H as (sa & ua & H1 & H2). simpl in H2.
  inv_bind H2 as sb ub Hstep.
  pose proof (first_loop_evolves _ _ _ _ _ _ H1) as Hev1.
  destruct (for_each_merge_prop_other _ _ _ _ _ _ _ _ Hnames1 Hn H1)
    as (Hle1 & Hns1 & (ex1 & Hself1 & Hex1) & Hnew1 & Hold1).
  pose proof (Hold1 bA pA HpA Hname) as HpA1.
  pose proof (Hold1 bB pB HpB eq_refl) as HpB1.
  assert (Huniq : forall e pe, e ∈ n_props (with_props nA ex1) -> e <> bA ->
                    s_props sa !! e = Some pe -> prop_name pe <> prop_name pB).
  { rewrite <- Hname. eapply only_named; eauto. by rewrite Hname. }
  assert (HinA1 : bA ∈ n_props (with_props nA ex1)).
  { simpl. apply elem_of_app. by left. }
  pose proof (merge_prop_conflict _ _ _ _ _ _ _ _ _ _ Hself1 HpA1 HpB1 HinA1 Hname Hneq
                Huniq Hstep) as Hres.
  pose proof (merge_prop_evolves _ _ _ _ _ _ Hstep) as Hev2.
  pose proof (names_preserved _ _ _ _ (evolves_trans _ _ _ Hev1 Hev2) Hnames2) as Hnames2b.
  assert (Hselfb : s_nodes sb !! self = Some (with_props nA ex1)).
  { destruct replace; [destruct Hres as (d & _ & ->)|subst sb]; done. }
  destruct (for_each_merge_prop_other _ _ _ _ _ _ _ _ Hnames2b Hselfb H2)
    as (_ & _ & _ & _ & Hold2).
  pose proof (lookup_lt_Some _ _ _ HpA1) as Hlt.
  destruct replace.
  - destruct Hres as (d & Hd & ->). exists d. split; [done|].
    apply Hold2; simpl.
    + by apply list_lookup_insert_eq.
    + by rewrite prop_name_set_data.
  - subst sb. by apply Hold2.
Qed.

(** The first loop, for a property of the other node whose name no
    property of [self] has. *)
Lemma first_loop_absent (self : naddr) (replace : bool) (xs : list paddr)
    (s s1 : store) (u : unit) (nA : node) (bC : paddr) (pC : prop) :
  s_nodes s !! self = Some nA ->
  NoDup (prop_names s xs) -> None ∉ prop_names s xs ->
  bC ∈ xs -> s_props s !! bC = Some pC ->
  Some (prop_name pC) ∉ prop_names s (n_props nA) ->
  for_each (merge_prop self replace) xs s = (s1, Ok u) ->
  exists c copy ex,
    prop_copy pC = Ok copy /\ (length (s_props s) <= c < length (s_props s1))%nat /\
    s_nodes s1 !! self = Some (with_props nA ex) /\ c ∈ ex /\
    s_props s1 !! c = Some (set_parent copy self).
Proof.
  intros Hn HndB Hval HinB HpC Habs H.
  apply list_elem_of_split in HinB as (xs1 & xs2 & ->).
  pose proof (names_around _ _ _ _ _ HndB Hval HpC) as Hnames.
  apply Forall_app in Hnames as [Hnames1 Hnames2].
  apply for_each_app in H as (sa & ua & H1 & H2). simpl in H2.
  inv_bind H2 as sb ub Hstep.
  pose proof (first_loop_evolves _ _ _ _ _ _ H1) as Hev1.
  destruct (for_each_merge_prop_other _ _ _ _ _ _ _ _ Hnames1 Hn H1)
    as (Hle1 & Hns1 & (ex1 & Hself1 & Hex1) & Hnew1 & Hold1).
  pose proof (Hold1 bC pC HpC eq_refl) as HpC1.
  assert (Hnone : forall e pe, e ∈ n_props (with_props nA ex1) ->
                    s_props sa !! e = Some pe -> prop_name pe <> prop_name pC).
  { intros e pe He Hpe.
    destruct (decide (length (s_props s) <= e)%nat) as [Hge|Hlt]; [by apply (Hnew1 e)|].
    simpl in He. apply elem_of_app in He as [He|He]; last first.
    { rewrite Forall_forall in Hex1. specialize (Hex1 e He). lia. }
    destruct (lookup_lt_is_Some_2 (s_props s) e ltac:(lia)) as [pe0 Hpe0].
    destruct (ev_prop _ _ Hev1 e pe0 Hpe0) as (pe' & Hpe' & _ & Hnm & _).
    assert (pe' = pe) as -> by congruence. rewrite Hnm. intros Heq.
    apply Habs. unfold prop_names. apply list_elem_of_fmap. exists e.
    by rewrite Hpe0; simpl; rewrite Heq. }
  destruct (merge_prop_absent _ _ _ _ _ _ _ _ Hself1 HpC1 Hnone Hstep) as (copy & Hcopy & ->).
  pose proof (prop_copy_spec _ _ Hcopy) as (_ & Hcname & _).
  assert (Hevb : evolves s (Store (s_props sa ++ [set_parent copy self])
                   (<[self := with_props (with_props nA ex1) [length (s_props sa)]]>
                      (s_nodes sa)))).
  { eapply evolves_trans; [exact Hev1|]. by eapply merge_prop_evolves. }
  pose proof (names_preserved _ _ _ _ Hevb Hnames2) as Hnames2b.
  pose proof (lookup_lt_Some _ _ _ Hself1) as Hlt.
  destruct (for_each_merge_prop_other _ _ _ _ _ _ _ _ Hnames2b
              (list_lookup_insert_eq _ _ _ Hlt) H2)
    as (Hle2 & _ & (ex2 & Hself2 & _) & _ & Hold2).
  exists (length (s_props sa)), copy, ((ex1 ++ [length (s_props sa)]) ++ ex2).
  destruct Hle1 as [_ Hlp1]. destruct Hle2 as [_ Hlp2]. simpl in Hlp2.
  rewrite length_app in Hlp2. simpl in Hlp2.
  split_and!; [done|lia|lia| | |].
  - rewrite Hself2, !with_props_app. by rewrite <- !app_assoc.
  - apply elem_of_app. left. apply elem_of_app. right. apply list_elem_of_here.
  - apply Hold2; simpl.
    + by rewrite lookup_app_r, Nat.sub_diag by lia.
    + unfold set_parent. by rewrite prop_name_with_parent.
Qed.

(** ** The second loop leaves the properties of [self] alone *)

Lemma footprint_spec (s : store) (D : list naddr) (self : naddr) (n : node) :
  footprint s D self n = true ->
  (self ∉ D) /\
  Forall (fun c => c ∈ D) (n_nodes n) /\
  (forall d nd, d ∈ D -> s_nodes s !! d = Some nd ->
     Forall (fun c => c ∈ D) (n_nodes nd) /\
     Forall (fun b => (b < length (s_props s))%nat /\ b ∉ n_props n) (n_props nd)).
Proof.
  unfold footprint. rewrite !andb_true_iff, negb_true_iff, bool_decide_eq_false.
  intros [[Hself Hch] HD]. split_and!; [done| |].
  - rewrite forallb_forall in Hch. apply Forall_forall. intros c Hc.
    apply list_elem_of_In in Hc. specialize (Hch c Hc).
    by apply bool_decide_eq_true in Hch.
  - intros d nd Hd Hnd. rewrite forallb_forall in HD.
    apply list_elem_of_In in Hd. specialize (HD d Hd). rewrite Hnd in HD.
    apply andb_true_iff in HD as [H1 H2]. rewrite forallb_forall in H1, H2. split.
    + apply Forall_forall. intros c Hc. apply list_elem_of_In in Hc.
      specialize (H1 c Hc). by apply bool_decide_eq_true in H1.
    + apply Forall_forall. intros b Hb. apply list_elem_of_In in Hb.
      specialize (H2 b Hb). apply andb_true_iff in H2 as [H2 H3].
      apply bool_decide_eq_true in H2. apply negb_true_iff, bool_decide_eq_false in H3.
      done.
Qed.

Lemma below_nodes_dec (D : list naddr) (s1 : store) (a : naddr) :
  below_nodes D s1 a \/ ~ below_nodes D s1 a.
Proof.
  unfold below_nodes. destruct (decide (a ∈ D)); [auto|].
  destruct (decide (length (s_nodes s1) <= a)%nat); [auto|]. right. intros [?|?]; auto.
Qed.

(** After the first loop of a merge into [self], the two sets are closed
    and hold the children of [self]. *)
Lemma below_closed (s s1 : store) (D : list naddr) (self : naddr) (n : node) :
  footprint s D self n = true ->
  (forall x, x <> self -> s_nodes s1 !! x = s_nodes s !! x) ->
  closed (below_nodes D s1) (below_props D s s1) s1.
Proof.
  intros (Hself & Hch & HD)%footprint_spec Hns. split_and!.
  - intros a Ha. by right.
  - intros b Hb. by right.
  - intros a na [Ha|Ha] Hna; [|apply lookup_lt_Some in Hna; lia].
    rewrite Hns in Hna by (intros ->; done).
    destruct (HD a na Ha Hna) as [H1 H2]. split.
    + eapply Forall_impl; [exact H1|]. intros c Hc. by left.
    + apply Forall_forall. intros b Hb. left. eauto.
Qed.

(** The second loop of a merge into [self] leaves alone the properties of
    [self] and the properties the first loop allocated, and only adds
    children to [self]. *)
Lemma second_loop_frame (fuel : nat) (self : naddr) (replace : bool) (xs : list naddr)
    (s s1 s' : store) (u : unit) (D : list naddr) (nA n1 : node) :
  footprint s D self nA = true ->
  (forall x, x <> self -> s_nodes s1 !! x = s_nodes s !! x) ->
  s_nodes s1 !! self = Some n1 -> n_nodes n1 = n_nodes nA ->
  for_each (merge_node fuel (fun t a => Node_merge fuel t a replace) self) xs s1
    = (s', Ok u) ->
  (forall b, (b < length (s_props s1))%nat ->
             b ∈ n_props nA \/ (length (s_props s) <= b)%nat ->
             s_props s' !! b = s_props s1 !! b) /\
  (exists en, s_nodes s' !! self = Some (with_nodes n1 en)).
Proof.
  intros Hfp Hns Hn1 Hch H.
  pose proof (below_closed s s1 D self nA Hfp Hns) as Hc.
  pose proof Hfp as (Hself & HchD & HD)%footprint_spec.
  assert (Hpre : exists n, s_nodes s1 !! self = Some n /\
                           Forall (below_nodes D s1) (n_nodes n)).
  { exists n1. split; [done|]. rewrite Hch.
    eapply Forall_impl; [exact HchD|]. intros c Hc'. by left. }
  assert (Hrec : forall t x s2 s3 u2,
             closed (below_nodes D s1) (below_props D s s1) s2 -> below_nodes D s1 t ->
             (fun t a => Node_merge fuel t a replace) t x s2 = (s3, Ok u2) ->
             frame_ok (below_nodes D s1) (below_props D s s1) s2 s3).
  { intros t x s2 s3 u2 Hc2 Ht Hr. simpl in Hr.
    eapply (Node_merge_frame _ _ (below_nodes_dec D s1)); eauto. }
  pose proof (for_each_child_frame _ _ (below_nodes_dec D s1) fuel _ self xs Hrec
                _ _ _ Hc Hpre H) as (_ & _ & _ & Hps & Hs & _).
  split.
  - intros b Hb Hown. apply Hps. intros [(d & nd & Hd & Hnd & Hin)|Hge]; [|lia].
    destruct (HD d nd Hd Hnd) as [_ Hprops]. rewrite Forall_forall in Hprops.
    destruct (Hprops b Hin) as [Hlt Hnot]. destruct Hown as [Hown|Hown]; [done|lia].
  - destruct (Hs n1) as (en & Hen & _); [|done|by exists en].
    intros [Hin|Hge]; [done|]. apply lookup_lt_Some in Hn1. lia.
Qed.

(** What a merge of [B] into [A] that returned did to the properties of
    [A], when property names are distinct within [A] and within [B] and
    the nodes below [A] own their properties. *)
Lemma merge_properties_of_run (fuel : nat) (A B : naddr) (replace : bool) (s s' : store)
    (nA nB : node) (D : list naddr) :
  s_nodes s !! A = Some nA -> s_nodes s !! B = Some nB ->
  NoDup (prop_names s (n_props nA)) ->
  NoDup (prop_names s (n_props nB)) -> None ∉ prop_names s (n_props nB) ->
  footprint s D A nA = true ->
  Node_merge fuel A B replace s = (s', Ok tt) ->
  (forall bA bB pA pB,
      bA ∈ n_props nA -> bB ∈ n_props nB ->
      s_props s !! bA = Some pA -> s_props s !! bB = Some pB ->
      prop_name pA = prop_name pB -> prop_eq pB (OpProp pA) = false ->
      (replace = true ->
       exists d, prop_data pB = Some d /\
                 s_props s' !! bA = Some (set_data pA (copy_data d))) /\
      (replace = false -> s_props s' !! bA = Some pA)) /\
  (forall bC pC,
      bC ∈ n_props nB -> s_props s !! bC = Some pC ->
      Some (prop_name pC) ∉ prop_names s (n_props nA) ->
      exists c copy nA',
        prop_copy pC = Ok copy /\ (length (s_props s) <= c)%nat /\
        s_nodes s' !! A = Some nA' /\ c ∈ n_props nA' /\
        s_props s' !! c = Some (set_parent copy A)).
Proof.
  intros HA HB HndA HndB Hval Hfp H.
  destruct fuel as [|fuel]; [discriminate|]. simpl in H.
  inv_read H as other Ho. apply load_node_Ok in Ho. assert (other = nB) as -> by congruence.
  inv_bind H as s1 u1 Hloop1. inv_read H as other' Ho'.
  destruct (first_loop_shape _ _ _ _ _ _ _ HA Hloop1) as (Hle & Hns & (ex & Hself1 & Hex)).
  destruct (second_loop_frame _ _ _ _ _ _ _ _ _ _ _ Hfp Hns Hself1 eq_refl H)
    as (Hframe & (en & Hself')).
  split.
  - intros bA bB pA pB HinA HinB HpA HpB Hname Hneq.
    pose proof (first_loop_conflict _ _ _ _ _ _ _ _ _ _ _ HA HndA HndB Hval HinA HinB
                  HpA HpB Hname Hneq Hloop1) as Hres.
    split; intros ->.
    + destruct Hres as (d & Hd & Hres). exists d. split; [done|].
      rewrite Hframe; [done| |by left]. by apply lookup_lt_Some in Hres.
    + rewrite Hframe; [done| |by left]. by apply lookup_lt_Some in Hres.
  - intros bC pC HinB HpC Habs.
    destruct (first_loop_absent _ _ _ _ _ _ _ _ _ HA HndB Hval HinB HpC Habs Hloop1)
      as (c & copy & ex' & Hcopy & Hc & Hself1' & Hcin & Hpc).
    exists c, copy, (with_nodes (with_props nA ex) en).
    split_and!; [done|lia|done| |].
    + simpl. assert (with_props nA ex' = with_props nA ex) as Heq by congruence.
      injection Heq as Heq. apply app_inv_head in Heq as <-.
      apply elem_of_app. by right.
    + rewrite Hframe; [done|lia|right; lia].
Qed.

(** A property of the other node that has no [data] attribute cannot
    replace a value: the merge raises and leaves the store as it was.
    With [replace] false the same merge returns and changes nothing. *)
Lemma merge_valueless_raises :
  Node_merge 5 0%nat 1%nat true valueless_store = (valueless_store, Raise AttributeError) /\
  Node_merge 5 0%nat 1%nat false valueless_store = (valueless_store, Ok tt).
Proof. split; reflexivity. Qed.

(** ** Well-formed stores stay well-formed *)

Lemma valid_opt_mono (b1 b2 : nat) (q : option nat) :
  (b1 <= b2)%nat -> valid_opt b1 q -> valid_opt b2 q.
Proof. destruct q; simpl; [lia|done]. Qed.

Lemma Forall_lt_mono (b1 b2 : nat) (l : list nat) :
  (b1 <= b2)%nat -> Forall (fun c => (c < b1)%nat) l -> Forall (fun c => (c < b2)%nat) l.
Proof. intros Hle Hl. eapply Forall_impl; [exact Hl|]. simpl. intros; lia. Qed.

Lemma wf_store_spec (s : store) : wf_store s = true -> wf s.
Proof.
  unfold wf_store. rewrite andb_true_iff, !forallb_forall. intros [Hn Hp].
  assert (Hopt : forall b q, valid_optb b q = true -> valid_opt b q).
  { intros b [a|]; simpl; [|done]. by intros ?%bool_decide_eq_true. }
  assert (Hall : forall b l, forallb (fun c => bool_decide (c < b)%nat) l = true ->
                             Forall (fun c => (c < b)%nat) l).
  { intros b l Hl. rewrite forallb_forall in Hl. apply Forall_forall. intros c Hc.
    apply list_elem_of_In in Hc. specialize (Hl c Hc). by apply bool_decide_eq_true in Hl. }
  split.
  - intros a n Ha. apply list_elem_of_lookup_2, list_elem_of_In in Ha.
    specialize (Hn n Ha). apply andb_true_iff in Hn as [Hn H3].
    apply andb_true_iff in Hn as [H1 H2]. auto.
  - intros b p Hb. apply list_elem_of_lookup_2, list_elem_of_In in Hb. auto.
Qed.

Lemma wf_alloc_node (s : store) (nm : str) :
  wf s -> wf (Store (s_props s) (s_nodes s ++ [Node nm None [] []])).
Proof.
  intros [Hn Hp]. split; simpl.
  - intros a n [Hl|[_ Hr]]%lookup_app_Some.
    + destruct (Hn a n Hl) as (H1 & H2 & H3). rewrite length_app. simpl.
      split_and!; [|eapply Forall_lt_mono; [|exact H2]|done]; [|lia].
      eapply valid_opt_mono; [|exact H1]. lia.
    + apply list_lookup_singleton_Some in Hr as [_ <-]. simpl. auto.
  - intros b p Hb. rewrite length_app. eapply valid_opt_mono; [|by apply (Hp b)]. lia.
Qed.

Lemma wf_alloc_prop (s : store) (p : prop) :
  wf s -> valid_opt (length (s_nodes s)) (prop_parent p) ->
  wf (Store (s_props s ++ [p]) (s_nodes s)).
Proof.
  intros [Hn Hp] Hpar. split; simpl.
  - intros a n Ha. destruct (Hn a n Ha) as (H1 & H2 & H3). rewrite length_app.
    split_and!; [done|done|]. eapply Forall_lt_mono; [|exact H3]. lia.
  - intros b q [Hl|[_ Hr]]%lookup_app_Some; [by apply (Hp b)|].
    by apply list_lookup_singleton_Some in Hr as [_ <-].
Qed.

Lemma wf_write_node (s : store) (y : naddr) (n : node) :
  wf s ->
  valid_opt (length (s_nodes s)) (n_parent n) ->
  Forall (fun c => (c < length (s_nodes s))%nat) (n_nodes n) ->
  Forall (fun b => (b < length (s_props s))%nat) (n_props n) ->
  wf (Store (s_props s) (<[y := n]> (s_nodes s))).
Proof.
  intros [Hn Hp] H1 H2 H3. split; simpl; rewrite length_insert.
  - intros a n' [(-> & <- & _)|[_ Hl]]%list_lookup_insert_Some; [auto|]. by apply (Hn a).
  - exact Hp.
Qed.

Lemma wf_write_prop (s : store) (b : paddr) (p : prop) :
  wf s -> valid_opt (length (s_nodes s)) (prop_parent p) ->
  wf (Store (<[b := p]> (s_props s)) (s_nodes s)).
Proof.
  intros [Hn Hp] Hpar. split; simpl.
  - intros a n Ha. rewrite length_insert. by apply (Hn a).
  - intros c q [(-> & <- & _)|[_ Hl]]%list_lookup_insert_Some; [done|]. by apply (Hp c).
Qed.

Lemma deepcopy_opt_wf (s0 : store) (base : nat) (rec : naddr -> memo -> M (naddr * memo)) :
  dc_fun_wf s0 (fun s => length (s_nodes s)) rec ->
  forall x m s s' q m',
    wf s -> dc_ok s0 m s -> deepcopy_opt rec x m s = (s', Ok (q, m')) ->
    wf s' /\ valid_opt (length (s_nodes s')) q.
Proof.
  intros Hrec x m s s' q m' Hwf Hok H. destruct x as [a|]; simpl in H.
  - inv_bind H as s1 [b m1] Hr. apply ret_Ok in H as [-> [= -> ->]].
    destruct (Hrec _ _ _ _ _ _ Hwf Hok Hr). auto.
  - apply ret_Ok in H as [-> [= -> ->]]. simpl. auto.
Qed.

Lemma deepcopy_list_wf (s0 : store) (base : nat) (len_of : store -> nat)
    (f : nat -> memo -> M (nat * memo)) :
  (forall s s', store_le s s' -> (len_of s <= len_of s')%nat) ->
  dc_fun_ok s0 base f -> dc_fun_wf s0 len_of f ->
  forall xs m s s' ys m',
    wf s -> dc_ok s0 m s -> deepcopy_list f xs m s = (s', Ok (ys, m')) ->
    wf s' /\ Forall (fun y => (y < len_of s')%nat) ys.
Proof.
  intros Hmono Hf Hfw. induction xs as [|x xs IH]; intros m s s' ys m' Hwf Hok H;
    simpl in H.
  - apply ret_Ok in H as [-> [= -> ->]]. auto.
  - inv_bind H as s1 [y m1] Hx. inv_bind H as s2 [ys' m2] Hxs.
    apply ret_Ok in H as [-> [= -> ->]].
    destruct (Hfw _ _ _ _ _ _ Hwf Hok Hx) as [Hwf1 Hy].
    destruct (Hf _ _ _ _ _ _ Hok Hx) as (Hok1 & _ & _).
    destruct (IH _ _ _ _ _ Hwf1 Hok1 Hxs) as [Hwf2 Hys].
    destruct (deepcopy_list_ok s0 base f Hf _ _ _ _ _ _ Hok1 Hxs) as (_ & Hle & _).
    split; [done|]. constructor; [|done]. specialize (Hmono _ _ Hle). lia.
Qed.

Lemma deepcopy_prop_wf (s0 : store) (rec : naddr -> memo -> M (naddr * memo)) :
  dc_fun_ok s0 (length (s_nodes s0)) rec ->
  dc_fun_wf s0 (fun s => length (s_nodes s)) rec ->
  dc_fun_wf s0 (fun s => length (s_props s)) (deepcopy_prop rec).
Proof.
  intros Hrec Hrecw x m s s' y m' Hwf Hok H. unfold deepcopy_prop in H.
  destruct (m_props m !! x) as [b|] eqn:Hm.
  - apply ret_Ok in H as [-> [= -> ->]]. split; [done|].
    apply (dc_memo_p _ _ _ Hok) in Hm. lia.
  - inv_read H as p Hp.
    inv_bind H as s1 b Hb. unfold alloc_prop in Hb. injection Hb as <- <-.
    inv_bind H as s2 [parent m1] Hpar.
    inv_bind H as s3 u Hw. unfold write_prop in Hw. injection Hw as <-.
    apply ret_Ok in H as [-> [= -> ->]].
    pose proof (dc_ok_alloc_prop s0 m s x (with_parent p None) Hok) as Hok1.
    assert (Hwf1 : wf (Store (s_props s ++ [with_parent p None]) (s_nodes s))).
    { apply wf_alloc_prop; [done|]. by rewrite prop_parent_with_parent. }
    destruct (deepcopy_opt_wf s0 0 rec Hrecw _ _ _ _ _ _ Hwf1 Hok1 Hpar) as [Hwf2 Hvp].
    destruct (deepcopy_opt_ok s0 rec Hrec _ _ _ _ _ _ Hok1 Hpar) as (_ & [_ Hlp] & _).
    simpl in Hlp. rewrite length_app in Hlp. simpl in Hlp.
    split; simpl.
    + apply wf_write_prop; [done|]. by destruct p.
    + rewrite length_insert. lia.
Qed.

Lemma deepcopy_node_wf (s0 : store) (fuel : nat) :
  dc_fun_wf s0 (fun s => length (s_nodes s)) (deepcopy_node fuel).
Proof.
  induction fuel as [|fuel IH]; intros x m s s' y m' Hwf Hok H; [discriminate|].
  pose proof (proj2 (deepcopy_node_ok s0 (S fuel)) _ _ _ _ _ _ Hok H) as Hy.
  split; [|exact Hy]. simpl in H.
  destruct (m_nodes m !! x) as [b|] eqn:Hm.
  - by apply ret_Ok in H as [-> [= -> ->]].
  - inv_read H as n Hn.
    inv_bind H as s1 b Hb. unfold alloc_node in Hb. injection Hb as <- <-.
    inv_bind H as s2 [parent m1] Hpar.
    inv_bind H as s3 [props m2] Hprops.
    inv_bind H as s4 [nodes m3] Hnodes.
    inv_bind H as s5 u Hw. unfold write_node in Hw. injection Hw as <-.
    apply ret_Ok in H as [-> [= -> ->]].
    destruct (deepcopy_node_ok s0 fuel) as [IHok _].
    pose proof (dc_ok_alloc_node s0 m s x (n_name n) Hok) as Hok1.
    pose proof (wf_alloc_node s (n_name n) Hwf) as Hwf1.
    destruct (deepcopy_opt_wf s0 0 _ IH _ _ _ _ _ _ Hwf1 Hok1 Hpar) as [Hwf2 Hvp].
    destruct (deepcopy_opt_ok s0 _ IHok _ _ _ _ _ _ Hok1 Hpar) as (Hok2 & Hle2 & _).
    destruct (deepcopy_list_wf s0 _ (fun s => length (s_props s)) _
                (fun s s' H => proj2 H) (deepcopy_prop_ok s0 _ IHok)
                (deepcopy_prop_wf s0 _ IHok IH) _ _ _ _ _ _ Hwf2 Hok2 Hprops)
      as [Hwf3 Hvps].
    destruct (deepcopy_list_ok s0 _ _ (deepcopy_prop_ok s0 _ IHok) _ _ _ _ _ _ Hok2 Hprops)
      as (Hok3 & Hle3 & _).
    destruct (deepcopy_list_wf s0 _ (fun s => length (s_nodes s)) _
                (fun s s' H => proj1 H) IHok IH _ _ _ _ _ _ Hwf3 Hok3 Hnodes)
      as [Hwf4 Hvns].
    destruct (deepcopy_list_ok s0 _ _ IHok _ _ _ _ _ _ Hok3 Hnodes) as (_ & Hle4 & _).
    apply wf_write_node; simpl; [done| |done|].
    + eapply valid_opt_mono; [|exact Hvp].
      destruct Hle3 as [? _], Hle4 as [? _]. lia.
    + eapply Forall_lt_mono; [|exact Hvps]. destruct Hle4 as [_ ?]. lia.
Qed.

Lemma deepcopy_wf (fuel : nat) (x : naddr) (s s' : store) (y : naddr) :
  wf s -> deepcopy fuel x s = (s', Ok y) -> wf s'.
Proof.
  intros Hwf H. unfold deepcopy in H.
  inv_bind H as s1 [y' m] Hdc. apply ret_Ok in H as [-> _].
  by destruct (deepcopy_node_wf s fuel _ _ _ _ _ _ Hwf (dc_ok_start s) Hdc).
Qed.

(** ** deepcopy returns *)

Lemma keys_ok_size (s0 : store) (m : memo) :
  keys_ok s0 m -> (size (m_nodes m) <= length (s_nodes s0))%nat.
Proof.
  intros Hk. rewrite <- (size_dom (D := gset nat)).
  rewrite <- (size_set_seq (C := gset nat) 0 (length (s_nodes s0))).
  apply subseteq_size. intros k [y Hy]%elem_of_dom.
  apply elem_of_set_seq. specialize (Hk k y Hy). lia.
Qed.

Section DeepcopyTotal.

Variable s0 : store.
Hypothesis wf0 : wf s0.

Lemma deepcopy_opt_total (fuel : nat) (rec : naddr -> memo -> M (naddr * memo)) :
  dc_total s0 fuel (fun x => (x < length (s_nodes s0))%nat) rec ->
  forall x m s,
    dc_ok s0 m s -> valid_opt (length (s_nodes s0)) x -> keys_ok s0 m ->
    (length (s_nodes s0) < fuel + size (m_nodes m))%nat ->
    exists s' q m',
      deepcopy_opt rec x m s = (s', Ok (q, m')) /\
      (size (m_nodes m) <= size (m_nodes m'))%nat /\ keys_ok s0 m'.
Proof.
  intros Hrec x m s Hok Hx Hk Hf. destruct x as [a|]; simpl.
  - destruct (Hrec a m s Hok Hx Hk Hf) as (s' & y & m' & Hr & Hsz & Hk').
    exists s', (Some y), m'. unfold bind. rewrite Hr. auto.
  - exists s, None, m. auto.
Qed.

Lemma deepcopy_list_total (fuel base : nat) (src_ok : nat -> Prop)
    (f : nat -> memo -> M (nat * memo)) :
  dc_fun_ok s0 base f -> dc_total s0 fuel src_ok f ->
  forall xs m s,
    dc_ok s0 m s -> Forall src_ok xs -> keys_ok s0 m ->
    (length (s_nodes s0) < fuel + size (m_nodes m))%nat ->
    exists s' ys m',
      deepcopy_list f xs m s = (s', Ok (ys, m')) /\
      (size (m_nodes m) <= size (m_nodes m'))%nat /\ keys_ok s0 m'.
Proof.
  intros Hfok Hf. induction xs as [|x xs IH]; intros m s Hok Hxs Hk Hfuel; simpl.
  - exists s, [], m. auto.
  - apply Forall_cons in Hxs as [Hx Hxs].
    destruct (Hf x m s Hok Hx Hk Hfuel) as (s1 & y & m1 & Hr & Hsz1 & Hk1).
    destruct (Hfok _ _ _ _ _ _ Hok Hr) as (Hok1 & _ & _).
    destruct (IH m1 s1 Hok1 Hxs Hk1 ltac:(lia)) as (s2 & ys & m2 & Hr2 & Hsz2 & Hk2).
    exists s2, (y :: ys), m2. unfold bind. rewrite Hr, Hr2. split_and!; auto. lia.
Qed.

Lemma deepcopy_prop_total (fuel : nat) (rec : naddr -> memo -> M (naddr * memo)) :
  dc_fun_ok s0 (length (s_nodes s0)) rec ->
  dc_total s0 fuel (fun x => (x < length (s_nodes s0))%nat) rec ->
  dc_total s0 fuel (fun b => (b < length (s_props s0))%nat) (deepcopy_prop rec).
Proof.
  intros Hrok Hrec a m s Hok Ha Hk Hfuel. unfold deepcopy_prop.
  destruct (m_props m !! a) as [b|] eqn:Hm.
  - exists s, b, m. auto.
  - destruct (lookup_lt_is_Some_2 _ _ Ha) as [p Hp].
    pose proof (wf_prop _ wf0 a p Hp) as Hvp.
    rewrite <- (dc_old_p _ _ _ Hok) in Hp by exact Ha.
    pose proof (dc_ok_alloc_prop s0 m s a (with_parent p None) Hok) as Hok1.
    destruct (deepcopy_opt_total fuel rec Hrec (prop_parent p) _ _ Hok1 Hvp Hk Hfuel)
      as (s2 & q & m2 & Hr & Hsz & Hk2).
    eexists _, (length (s_props s)), m2.
    unfold bind, lift, load_prop, alloc_prop. rewrite Hp. simpl in *. rewrite Hr.
    unfold write_prop, ret. simpl. auto.
Qed.

Lemma deepcopy_node_total (fuel : nat) :
  dc_total s0 fuel (fun x => (x < length (s_nodes s0))%nat) (deepcopy_node fuel).
Proof.
  induction fuel as [|fuel IH]; intros x m s Hok Hx Hk Hfuel.
  { pose proof (keys_ok_size _ _ Hk). lia. }
  simpl. destruct (m_nodes m !! x) as [y|] eqn:Hm.
  - exists s, y, m. auto.
  - destruct (lookup_lt_is_Some_2 _ _ Hx) as [n Hn].
    destruct (wf_node _ wf0 x n Hn) as (Hvp & Hvn & Hvps).
    rewrite <- (dc_old_n _ _ _ Hok) in Hn by exact Hx.
    destruct (deepcopy_node_ok s0 fuel) as [IHok _].
    pose proof (dc_ok_alloc_node s0 m s x (n_name n) Hok) as Hok1.
    set (m1 := Memo (<[x := length (s_nodes s)]> (m_nodes m)) (m_props m)) in *.
    assert (Hsz1 : size (m_nodes m1) = S (size (m_nodes m))).
    { simpl. by apply map_size_insert_None. }
    assert (Hk1 : keys_ok s0 m1).
    { intros k y. simpl. rewrite lookup_insert. case_decide; [intros _; lia|]. apply Hk. }
    destruct (deepcopy_opt_total fuel _ IH (n_parent n) _ _ Hok1 Hvp Hk1 ltac:(lia))
      as (s2 & parent & m2 & Hr2 & Hsz2 & Hk2).
    destruct (deepcopy_opt_ok s0 _ IHok _ _ _ _ _ _ Hok1 Hr2) as (Hok2 & _ & _).
    destruct (deepcopy_list_total fuel _ _ _ (deepcopy_prop_ok s0 _ IHok)
                (deepcopy_prop_total fuel _ IHok IH) (n_props n) _ _ Hok2 Hvps Hk2
                ltac:(lia)) as (s3 & props & m3 & Hr3 & Hsz3 & Hk3).
    destruct (deepcopy_list_ok s0 _ _ (deepcopy_prop_ok s0 _ IHok) _ _ _ _ _ _ Hok2 Hr3)
      as (Hok3 & _ & _).
    destruct (deepcopy_list_total fuel _ _ _ IHok IH (n_nodes n) _ _ Hok3 Hvn Hk3
                ltac:(lia)) as (s4 & nodes & m4 & Hr4 & Hsz4 & Hk4).
    eexists _, (length (s_nodes s)), m4.
    unfold bind, lift, load_node, alloc_node. rewrite Hn. simpl.
    fold m1. rewrite Hr2, Hr3, Hr4. unfold write_node, ret. simpl.
    split_and!; [reflexivity|lia|done].
Qed.

End DeepcopyTotal.

(** In a well-formed store, a deep copy of a node returns when the budget
    exceeds the number of nodes. *)
Lemma deepcopy_total (fuel : nat) (x : naddr) (s : store) :
  wf s -> (x < length (s_nodes s))%nat -> (length (s_nodes s) < fuel)%nat ->
  exists s' y, deepcopy fuel x s = (s', Ok y).
Proof.
  intros Hwf Hx Hfuel.
  destruct (deepcopy_node_total s Hwf fuel x empty_memo s (dc_ok_start s) Hx)
    as (s' & y & m' & Hr & _).
  - intros k y. simpl. by rewrite lookup_empty.
  - lia.
  - exists s', y. unfold deepcopy, bind. by rewrite Hr.
Qed.

(** ** A larger budget does not change an outcome *)

Lemma rrefines_refl {A} (r : result A) : rrefines r r.
Proof. by intros a. Qed.

Lemma rrefines_rbind {A B} (r1 r2 : result A) (k1 k2 : A -> result B) :
  rrefines r1 r2 -> (forall a, rrefines (k1 a) (k2 a)) ->
  rrefines (rbind r1 k1) (rbind r2 k2).
Proof.
  intros Hr Hk b H. destruct r1 as [a|]; [|discriminate].
  rewrite (Hr a eq_refl). simpl in *. by apply Hk.
Qed.

Lemma refines_refl {A} (c : M A) : refines c c.
Proof. by intros s s' a. Qed.

Lemma refines_bind {A B} (m1 m2 : M A) (k1 k2 : A -> M B) :
  refines m1 m2 -> (forall a, refines (k1 a) (k2 a)) ->
  refines (bind m1 k1) (bind m2 k2).
Proof.
  intros Hm Hk s s' b H. apply bind_Ok in H as (s1 & a & H1 & H2).
  unfold bind. rewrite (Hm _ _ _ H1). by apply Hk.
Qed.

Lemma refines_lift {A} (f1 f2 : store -> result A) :
  (forall s, rrefines (f1 s) (f2 s)) -> refines (lift f1) (lift f2).
Proof.
  intros Hf s s' a [-> H]%lift_Ok. unfold lift. by rewrite (Hf _ _ H).
Qed.

Lemma contains_mono (eq1 eq2 : nat -> nat -> result bool) (x : nat) (l : list nat) :
  (forall x e, rrefines (eq1 x e) (eq2 x e)) ->
  rrefines (contains eq1 x l) (contains eq2 x l).
Proof.
  intros Heq. induction l as [|e l IH]; simpl; [apply rrefines_refl|].
  case_bool_decide; [apply rrefines_refl|].
  apply rrefines_rbind; [apply Heq|]. intros [|]; [apply rrefines_refl|exact IH].
Qed.

Lemma all_in_mono (eq1 eq2 : nat -> nat -> result bool) (xs l : list nat) :
  (forall x e, rrefines (eq1 x e) (eq2 x e)) ->
  rrefines (all_in eq1 xs l) (all_in eq2 xs l).
Proof.
  intros Heq. induction xs as [|x xs IH]; simpl; [apply rrefines_refl|].
  apply rrefines_rbind; [by apply contains_mono|].
  intros [|]; simpl; [exact IH|apply rrefines_refl].
Qed.

Lemma Node_eq_mono (s : store) (fuel : nat) :
  forall fuel' a o, (fuel <= fuel')%nat ->
    rrefines (Node___eq__ fuel s a o) (Node___eq__ fuel' s a o).
Proof.
  induction fuel as [|fuel IH]; intros fuel' a o Hle.
  - destruct o; simpl; intros b H; discriminate.
  - destruct fuel' as [|fuel']; [lia|].
    destruct o; simpl; try (intros b H; discriminate).
    apply rrefines_rbind; [apply rrefines_refl|]. intros n.
    apply rrefines_rbind; [apply rrefines_refl|]. intros m.
    destruct (negb _); [apply rrefines_refl|].
    destruct (_ || _); [apply rrefines_refl|].
    apply rrefines_rbind; [apply rrefines_refl|]. intros ps.
    destruct (negb ps); [apply rrefines_refl|].
    apply all_in_mono. intros x e. apply IH. lia.
Qed.

Lemma deepcopy_opt_mono (rec1 rec2 : naddr -> memo -> M (naddr * memo)) x m :
  (forall x m, refines (rec1 x m) (rec2 x m)) ->
  refines (deepcopy_opt rec1 x m) (deepcopy_opt rec2 x m).
Proof.
  intros Hrec. destruct x as [a|]; simpl; [|apply refines_refl].
  apply refines_bind; [apply Hrec|]. intros [b m']. apply refines_refl.
Qed.

Lemma deepcopy_list_mono (f1 f2 : nat -> memo -> M (nat * memo)) xs :
  (forall x m, refines (f1 x m) (f2 x m)) ->
  forall m, refines (deepcopy_list f1 xs m) (deepcopy_list f2 xs m).
Proof.
  intros Hf. induction xs as [|x xs IH]; intros m; simpl; [apply refines_refl|].
  apply refines_bind; [apply Hf|]. intros [y m1].
  apply refines_bind; [apply IH|]. intros [ys m2]. apply refines_refl.
Qed.

Lemma deepcopy_prop_mono (rec1 rec2 : naddr -> memo -> M (naddr * memo)) a m :
  (forall x m, refines (rec1 x m) (rec2 x m)) ->
  refines (deepcopy_prop rec1 a m) (deepcopy_prop rec2 a m).
Proof.
  intros Hrec. unfold deepcopy_prop. destruct (m_props m !! a); [apply refines_refl|].
  apply refines_bind; [apply refines_refl|]. intros p.
  apply refines_bind; [apply refines_refl|]. intros b.
  apply refines_bind; [by apply deepcopy_opt_mono|]. intros [parent m1].
  apply refines_refl.
Qed.

Lemma deepcopy_node_mono (fuel : nat) :
  forall fuel' x m, (fuel <= fuel')%nat ->
    refines (deepcopy_node fuel x m) (deepcopy_node fuel' x m).
Proof.
  induction fuel as [|fuel IH]; intros fuel' x m Hle; [intros s s' a H; discriminate|].
  destruct fuel' as [|fuel']; [lia|]. simpl.
  destruct (m_nodes m !! x); [apply refines_refl|].
  assert (Hrec : forall x m, refines (deepcopy_node fuel x m) (deepcopy_node fuel' x m)).
  { intros y m0. apply IH. lia. }
  apply refines_bind; [apply refines_refl|]. intros n.
  apply refines_bind; [apply refines_refl|]. intros y.
  apply refines_bind; [by apply deepcopy_opt_mono|]. intros [parent m1].
  apply refines_bind.
  { apply deepcopy_list_mono. intros a m0. by apply deepcopy_prop_mono. }
  intros [props m2].
  apply refines_bind; [by apply deepcopy_list_mono|]. intros [nodes m3].
  apply refines_refl.
Qed.

Lemma deepcopy_mono (fuel fuel' : nat) (x : naddr) :
  (fuel <= fuel')%nat -> refines (deepcopy fuel x) (deepcopy fuel' x).
Proof.
  intros Hle. unfold deepcopy. apply refines_bind; [by apply deepcopy_node_mono|].
  intros [y m]. apply refines_refl.
Qed.

Lemma for_each_mono (body1 body2 : nat -> M unit) (xs : list nat) :
  (forall x, refines (body1 x) (body2 x)) ->
  refines (for_each body1 xs) (for_each body2 xs).
Proof.
  intros Hb. induction xs as [|x xs IH]; simpl; [apply refines_refl|].
  apply refines_bind; [apply Hb|]. intros _. exact IH.
Qed.

Lemma merge_node_mono (fuel fuel' : nat) (rec1 rec2 : naddr -> naddr -> M unit)
    (self a : naddr) :
  (fuel <= fuel')%nat ->
  (forall t x, refines (rec1 t x) (rec2 t x)) ->
  refines (merge_node fuel rec1 self a) (merge_node fuel' rec2 self a).
Proof.
  intros Hle Hrec. unfold merge_node.
  apply refines_bind; [apply refines_refl|]. intros sub.
  apply refines_bind; [apply refines_refl|]. intros [i|].
  - apply refines_bind.
    + apply refines_lift. intros s. unfold node_in_nodes.
      apply rrefines_rbind; [apply rrefines_refl|]. intros n.
      apply contains_mono. intros x e. unfold node_eq. by apply Node_eq_mono.
    + intros [|]; [apply refines_refl|].
      apply refines_bind; [apply refines_refl|]. intros t. apply Hrec.
  - apply refines_bind; [by apply deepcopy_mono|]. intros c. apply refines_refl.
Qed.

Lemma Node_merge_mono (fuel : nat) :
  forall fuel' self node replace, (fuel <= fuel')%nat ->
    refines (Node_merge fuel self node replace) (Node_merge fuel' self node replace).
Proof.
  induction fuel as [|fuel IH]; intros fuel' self node replace Hle;
    [intros s s' a H; discriminate|].
  destruct fuel' as [|fuel']; [lia|]. simpl.
  apply refines_bind; [apply refines_refl|]. intros other.
  apply refines_bind; [apply refines_refl|]. intros _.
  apply refines_bind; [apply refines_refl|]. intros other'.
  apply for_each_mono. intros x. apply merge_node_mono; [lia|].
  intros t y. apply IH. lia.
Qed.

(** ** Lookups and comparisons return *)

Lemma contains_total (eq : nat -> nat -> result bool) (x : nat) (l : list nat) :
  (forall e, e ∈ l -> exists b, eq x e = Ok b) -> exists b, contains eq x l = Ok b.
Proof.
  induction l as [|e l IH]; intros Heq; simpl; [eauto|].
  case_bool_decide; [eauto|].
  destruct (Heq e (list_elem_of_here _ _)) as [b ->]. simpl.
  destruct b; [eauto|]. apply IH. intros e' He'. apply Heq. by apply list_elem_of_further.
Qed.

Lemma all_in_total (eq : nat -> nat -> result bool) (xs l : list nat) :
  (forall x e, x ∈ xs -> e ∈ l -> exists b, eq x e = Ok b) ->
  exists b, all_in eq xs l = Ok b.
Proof.
  induction xs as [|x xs IH]; intros Heq; simpl; [eauto|].
  destruct (contains_total eq x l) as [b ->].
  { intros e He. apply Heq; [apply list_elem_of_here|done]. }
  simpl. destruct b; simpl; [|eauto].
  apply IH. intros x' e Hx' He. apply Heq; [by apply list_elem_of_further|done].
Qed.

Lemma prop_eq_at_total (s : store) (x e : paddr) :
  (x < length (s_props s))%nat -> (e < length (s_props s))%nat ->
  exists b, prop_eq_at s x e = Ok b.
Proof.
  intros [p Hp]%lookup_lt_is_Some_2 [q Hq]%lookup_lt_is_Some_2.
  unfold prop_eq_at, load_prop. rewrite Hp, Hq. simpl. eauto.
Qed.

Lemma get_property_index_loop_total (s : store) (nm : str) (l : list paddr) :
  Forall (fun b => (b < length (s_props s))%nat) l ->
  forall k, exists r, get_property_index_loop s l nm k = Ok r.
Proof.
  induction l as [|a l IH]; intros Hl k; simpl; [eauto|].
  apply Forall_cons in Hl as [[p Hp]%lookup_lt_is_Some_2 Hl].
  unfold load_prop. rewrite Hp. simpl. case_bool_decide; [eauto|]. by apply IH.
Qed.

Lemma get_subnode_index_loop_total (s : store) (nm : str) (l : list naddr) :
  Forall (fun b => (b < length (s_nodes s))%nat) l ->
  forall k, exists r, get_subnode_index_loop s l nm k = Ok r.
Proof.
  induction l as [|a l IH]; intros Hl k; simpl; [eauto|].
  apply Forall_cons in Hl as [[n Hn]%lookup_lt_is_Some_2 Hl].
  unfold load_node. rewrite Hn. simpl. case_bool_decide; [eauto|]. by apply IH.
Qed.

Lemma get_subnode_index_loop_Some (s : store) (nm : str) (l : list naddr) :
  forall k i, get_subnode_index_loop s l nm k = Ok (Some i) ->
              (k <= i)%nat /\ is_Some (l !! (i - k)%nat).
Proof.
  induction l as [|a l IH]; intros k i; simpl; [discriminate|].
  destruct (load_node a s) as [n|]; simpl; [|discriminate].
  case_bool_decide.
  - intros [= <-]. rewrite Nat.sub_diag. eauto.
  - intros [Hle [t Ht]]%IH. split; [lia|].
    replace (i - k)%nat with (S (i - S k)) by lia. eauto.
Qed.

(** Two nodes of a well-formed store are compared within a budget that
    exceeds the height of the left one. *)
Lemma Node_eq_total (s : store) :
  wf s ->
  forall h a e, height_ok h s a = true -> (e < length (s_nodes s))%nat ->
                exists b, Node___eq__ h s a (OpNode e) = Ok b.
Proof.
  intros Hwf. induction h as [|h IH]; intros a e Hh He; [discriminate|].
  simpl in *. destruct (s_nodes s !! a) as [n|] eqn:Hn; [|discriminate].
  destruct (lookup_lt_is_Some_2 _ _ He) as [m Hm].
  unfold load_node. rewrite Hn, Hm. simpl.
  destruct (negb _); [eauto|]. destruct (_ || _); [eauto|].
  destruct (wf_node _ Hwf a n Hn) as (_ & _ & Hnp).
  destruct (wf_node _ Hwf e m Hm) as (_ & Hmn & Hmp).
  rewrite Forall_forall in Hnp, Hmp, Hmn.
  destruct (all_in_total (prop_eq_at s) (n_props n) (n_props m)) as [ps ->].
  { intros x y Hx Hy. apply prop_eq_at_total; auto. }
  simpl. destruct ps; simpl; [|eauto].
  apply all_in_total. intros x y Hx Hy. apply IH; [|auto].
  rewrite forallb_forall in Hh. apply Hh. by apply list_elem_of_In.
Qed.

(** ** Classes and names of property objects *)

Lemma kinds_refl (s : store) : kinds s s.
Proof. intros b q Hq. eauto. Qed.

Lemma kinds_trans (s1 s2 s3 : store) : kinds s1 s2 -> kinds s2 s3 -> kinds s1 s3.
Proof.
  intros H12 H23 b q3 Hq3.
  destruct (H23 b q3 Hq3) as (b2 & q2 & Hq2 & Hc2 & Hn2).
  destruct (H12 b2 q2 Hq2) as (b1 & q1 & Hq1 & Hc1 & Hn1).
  exists b1, q1. split_and!; [done|congruence|congruence].
Qed.

Lemma plain_kinds (s s' : store) (nm : str) : kinds s s' -> plain s nm -> plain s' nm.
Proof.
  intros Hk Hp b q' Hq' Hnm.
  destruct (Hk b q' Hq') as (b0 & q & Hq & Hc & Hn).
  rewrite <- Hc. apply (Hp b0 q Hq). congruence.
Qed.

Lemma kinds_same_props (s s' : store) : s_props s' = s_props s -> kinds s s'.
Proof. intros E b q Hq. rewrite E in Hq. eauto. Qed.

(** Installing at [b] an object that has the class and the name of an
    object of [s0]. *)
Lemma kinds_write_prop (s0 s : store) (b : paddr) (p q : prop) (a : paddr) :
  kinds s0 s -> s_props s0 !! a = Some q ->
  class_of p = class_of q -> prop_name p = prop_name q ->
  kinds s0 (Store (<[b := p]> (s_props s)) (s_nodes s)).
Proof.
  intros Hk Hq Hc Hn b' q' Hq'. simpl in Hq'.
  apply list_lookup_insert_Some in Hq' as [(-> & <- & _)|[_ Hq']]; [|by apply (Hk b')].
  exists a, q. auto.
Qed.

Lemma kinds_alloc_prop (s0 s : store) (p q : prop) (a : paddr) (nodes : list node) :
  kinds s0 s -> s_props s0 !! a = Some q ->
  class_of p = class_of q -> prop_name p = prop_name q ->
  kinds s0 (Store (s_props s ++ [p]) nodes).
Proof.
  intros Hk Hq Hc Hn b' q' Hq'. simpl in Hq'.
  apply lookup_app_Some in Hq' as [Hq'|[_ Hq']]; [by apply (Hk b')|].
  apply list_lookup_singleton_Some in Hq' as [_ <-]. exists a, q. auto.
Qed.

Lemma merge_prop_kinds (self : naddr) (replace : bool) (a : paddr) (s s' : store) (u : unit) :
  merge_prop self replace a s = (s', Ok u) -> kinds s s'.
Proof.
  intros (prop & n & index & Hprop & Hn & _ & Hcase)%merge_prop_cases.
  destruct index as [i|].
  - destruct Hcase as (present & _ & Hcase).
    destruct present; [subst; apply kinds_refl|].
    destruct replace; [|subst; apply kinds_refl].
    destruct Hcase as (d & t & target & _ & _ & Htarget & ->).
    eapply kinds_write_prop; [apply kinds_refl|exact Htarget| |].
    + apply class_of_set_data.
    + apply prop_name_set_data.
  - destruct Hcase as (copy & Hcopy & ->).
    apply prop_copy_spec in Hcopy as (Hc & Hnm & _).
    eapply kinds_alloc_prop; [apply kinds_refl|exact Hprop| |].
    + unfold set_parent. by rewrite class_of_with_parent.
    + unfold set_parent. by rewrite prop_name_with_parent.
Qed.

Lemma for_each_kinds (body : nat -> M unit) (xs : list nat) :
  (forall x s s' u, body x s = (s', Ok u) -> kinds s s') ->
  forall s s' u, for_each body xs s = (s', Ok u) -> kinds s s'.
Proof.
  intros Hb. induction xs as [|x xs IH]; intros s s' u H; simpl in H.
  - apply ret_Ok in H as [-> _]. apply kinds_refl.
  - inv_bind H as s1 u1 Hx. eapply kinds_trans; eauto.
Qed.

Lemma deepcopy_opt_kinds (rec : naddr -> memo -> M (naddr * memo)) :
  (forall x m s s' r, rec x m s = (s', Ok r) -> kinds s s') ->
  forall q m s s' r, deepcopy_opt rec q m s = (s', Ok r) -> kinds s s'.
Proof.
  intros Hrec [a|] m s s' r H; simpl in H.
  - inv_bind H as s1 [b m1] Ha. apply ret_Ok in H as [-> _]. eauto.
  - apply ret_Ok in H as [-> _]. apply kinds_refl.
Qed.

Lemma deepcopy_list_kinds (f : nat -> memo -> M (nat * memo)) :
  (forall x m s s' r, f x m s = (s', Ok r) -> kinds s s') ->
  forall xs m s s' r, deepcopy_list f xs m s = (s', Ok r) -> kinds s s'.
Proof.
  intros Hf. induction xs as [|x xs IH]; intros m s s' r H; simpl in H.
  - apply ret_Ok in H as [-> _]. apply kinds_refl.
  - inv_bind H as s1 [y m1] Hx. inv_bind H as s2 [ys m2] Hxs.
    apply ret_Ok in H as [-> _]. eapply kinds_trans; eauto.
Qed.

Lemma deepcopy_prop_kinds (rec : naddr -> memo -> M (naddr * memo)) :
  (forall x m s s' r, rec x m s = (s', Ok r) -> kinds s s') ->
  forall a m s s' r, deepcopy_prop rec a m s = (s', Ok r) -> kinds s s'.
Proof.
  intros Hrec a m s s' r H. unfold deepcopy_prop in H.
  destruct (m_props m !! a) as [b|].
  - apply ret_Ok in H as [-> _]. apply kinds_refl.
  - inv_read H as p Hp. apply load_prop_Ok in Hp.
    inv_bind H as s1 b Hb. unfold alloc_prop in Hb. injection Hb as <- <-.
    inv_bind H as s2 [parent m2] Hpar.
    inv_bind H as s3 u Hw. unfold write_prop in Hw. injection Hw as <-.
    apply ret_Ok in H as [-> _].
    assert (Hk2 : kinds s s2).
    { eapply kinds_trans; [|eapply deepcopy_opt_kinds; [exact Hrec|exact Hpar]].
      eapply kinds_alloc_prop; [apply kinds_refl|exact Hp| |].
      - apply class_of_with_parent.
      - apply prop_name_with_parent. }
    eapply kinds_write_prop; [exact Hk2|exact Hp| |]; by destruct p.
Qed.

Lemma deepcopy_node_kinds (fuel : nat) :
  forall x m s s' r, deepcopy_node fuel x m s = (s', Ok r) -> kinds s s'.
Proof.
  induction fuel as [|fuel IH]; intros x m s s' r H; [discriminate|].
  simpl in H. destruct (m_nodes m !! x) as [y|].
  - apply ret_Ok in H as [-> _]. apply kinds_refl.
  - inv_read H as n Hn.
    inv_bind H as s1 y Hy. unfold alloc_node in Hy. injection Hy as <- <-.
    inv_bind H as s2 [parent m2] Hpar.
    inv_bind H as s3 [props m3] Hprops.
    inv_bind H as s4 [nodes m4] Hnodes.
    inv_bind H as s5 u Hw. unfold write_node in Hw. injection Hw as <-.
    apply ret_Ok in H as [-> _].
    apply (kinds_trans _ s4); [|apply kinds_same_props; reflexivity].
    apply (kinds_trans _ s3); [|eapply deepcopy_list_kinds; [exact IH|exact Hnodes]].
    apply (kinds_trans _ s2);
      [|eapply deepcopy_list_kinds; [apply deepcopy_prop_kinds; exact IH|exact Hprops]].
    eapply kinds_trans; [|eapply deepcopy_opt_kinds; [exact IH|exact Hpar]].
    apply kinds_same_props. reflexivity.
Qed.

Lemma deepcopy_kinds (fuel : nat) (x : naddr) (s s' : store) (y : naddr) :
  deepcopy fuel x s = (s', Ok y) -> kinds s s'.
Proof.
  unfold deepcopy. intros H. inv_bind H as s1 [y' m] Hdc.
  apply ret_Ok in H as [-> _]. by eapply deepcopy_node_kinds.
Qed.

Lemma merge_node_kinds (fuel : nat) (rec : naddr -> naddr -> M unit) (self a : naddr) :
  (forall t x s s' u, rec t x s = (s', Ok u) -> kinds s s') ->
  forall s s' u, merge_node fuel rec self a s = (s', Ok u) -> kinds s s'.
Proof.
  intros Hrec s s' u H. unfold merge_node in H.
  inv_read H as sub Hsub. inv_read H as index Hidx.
  destruct index as [i|].
  - inv_read H as present Hpres.
    destruct present; [apply ret_Ok in H as [-> _]; apply kinds_refl|].
    inv_read H as t Ht. eauto.
  - inv_bind H as s1 c Hdc.
    unfold nodes_append in H. inv_read H as n Hn.
    unfold write_node in H. injection H as <-.
    apply (kinds_trans _ s1); [by eapply deepcopy_kinds|].
    apply kinds_same_props. reflexivity.
Qed.

Lemma Node_merge_kinds (fuel : nat) :
  forall self node replace s s' u,
    Node_merge fuel self node replace s = (s', Ok u) -> kinds s s'.
Proof.
  induction fuel as [|fuel IH]; intros self node replace s s' u H; [discriminate|].
  simpl in H.
  inv_read H as other Ho. inv_bind H as s1 u1 Hprops. inv_read H as other' Ho'.
  eapply kinds_trans.
  - eapply for_each_kinds; [|exact Hprops]. intros x s2 s3 u2. apply merge_prop_kinds.
  - eapply for_each_kinds; [|exact H]. intros x s2 s3 u2. apply merge_node_kinds.
    intros t y s4 s5 u3 Hr. simpl in Hr. eauto.
Qed.

(** ** The first loop returns *)

Lemma get_property_loop_none_after (s : store) (nm : str) (extra : list prop)
    (nodes' : list node) (l : list paddr) :
  forall k, get_property_index_loop s l nm k = Ok None ->
            get_property_loop (Store (s_props s ++ extra) nodes') l nm = Ok None.
Proof.
  induction l as [|a l IH]; intros k; simpl; [done|].
  unfold load_prop. simpl. destruct (s_props s !! a) as [p|] eqn:Hp; simpl; [|discriminate].
  rewrite (lookup_app_l_Some _ _ _ _ Hp). simpl.
  case_bool_decide; [discriminate|]. apply IH.
Qed.

Lemma merge_prop_total (self : naddr) (replace : bool) (a : paddr) (s : store)
    (n : node) (p : prop) :
  wf s -> s_nodes s !! self = Some n -> s_props s !! a = Some p ->
  mergeable replace s p ->
  exists s', merge_prop self replace a s = (s', Ok tt).
Proof.
  intros Hwf Hn Hp [[c Hc] Hdata].
  destruct (wf_node _ Hwf self n Hn) as (_ & _ & Hvp).
  destruct (get_property_index_loop_total s (prop_name p) (n_props n) Hvp 0%nat) as [r Hr].
  unfold merge_prop, bind, lift, load_prop, get_property_index, load_node.
  rewrite Hp, Hn. simpl. rewrite Hr.
  destruct r as [i|].
  - unfold prop_in_props, load_node. rewrite Hn. simpl.
    destruct (contains_total (prop_eq_at s) a (n_props n)) as [present Hpres].
    { intros e He. apply prop_eq_at_total; [by apply lookup_lt_Some in Hp|].
      rewrite Forall_forall in Hvp. auto. }
    rewrite Hpres.
    destruct present; [by eexists|]. destruct replace; [|by eexists].
    apply get_property_index_loop_Some in Hr as (t & target & _ & Ht & Htarget & Hnm).
    rewrite Nat.sub_0_r in Ht.
    assert (Hd : is_Some (prop_data p)).
    { destruct (Hdata eq_refl) as [Hd|Hplain]; [done|].
      destruct (prop_data p) as [d|] eqn:Ed; [done|]. exfalso.
      apply contains_false_inv in Hpres. rewrite Forall_forall in Hpres.
      destruct (Hpres t) as [_ Heq]; [by eapply list_elem_of_lookup_2|].
      unfold prop_eq_at, load_prop in Heq. rewrite Hp, Htarget in Heq.
      cbn [rbind] in Heq. injection Heq as Heq.
      assert (Hcp : class_of p = CProperty) by (by destruct p).
      pose proof (Hplain t target Htarget Hnm) as Hct.
      fold (prop_eq p (OpProp target)) in Heq.
      assert (Ht' : prop_eq p (OpProp target) = true); [|congruence].
      unfold prop_eq, proper_subclass, prop___eq__. rewrite Hct, Hcp. simpl.
      rewrite Hnm. by rewrite bool_decide_eq_true_2. }
    destruct Hd as [d ->].
    unfold props_at, load_node. rewrite Hn. simpl. rewrite Ht, Htarget.
    unfold write_prop. by eexists.
  - rewrite Hc. simpl. unfold alloc_prop. simpl.
    unfold bind, lift, load_prop. simpl.
    rewrite lookup_app_r, Nat.sub_diag by lia. simpl.
    unfold get_property, load_node. simpl. rewrite Hn. simpl.
    pose proof (prop_copy_spec _ _ Hc) as (_ & Hname & _). rewrite Hname.
    rewrite (get_property_loop_none_after s (prop_name p) [c] (s_nodes s) _ _ Hr).
    unfold write_prop, props_append, bind, lift, load_node. simpl. rewrite Hn.
    unfold write_node. by eexists.
Qed.

Lemma merge_prop_wf (self : naddr) (replace : bool) (a : paddr) (s s' : store) (u : unit) :
  wf s -> merge_prop self replace a s = (s', Ok u) -> wf s'.
Proof.
  intros Hwf (prop & n & index & Hprop & Hn & _ & Hcase)%merge_prop_cases.
  destruct (wf_node _ Hwf self n Hn) as (H1 & H2 & H3).
  pose proof (lookup_lt_Some _ _ _ Hn) as Hlt.
  destruct index as [i|].
  - destruct Hcase as (present & _ & Hcase). destruct present; [by subst|].
    destruct replace; [|by subst].
    destruct Hcase as (d & t & target & _ & _ & Htarget & ->).
    apply wf_write_prop; [done|]. rewrite prop_parent_set_data.
    by apply (wf_prop _ Hwf t).
  - destruct Hcase as (copy & _ & ->).
    assert (Hwf1 : wf (Store (s_props s ++ [set_parent copy self]) (s_nodes s))).
    { apply wf_alloc_prop; [done|]. unfold set_parent. by rewrite prop_parent_with_parent. }
    apply (wf_write_node _ self _ Hwf1); simpl; [done|done|].
    rewrite length_app. simpl. apply Forall_app. split.
    + eapply Forall_lt_mono; [|exact H3]. lia.
    + repeat constructor. lia.
Qed.

Lemma for_each_wf (body : nat -> M unit) (xs : list nat) :
  (forall x s s' u, wf s -> body x s = (s', Ok u) -> wf s') ->
  forall s s' u, wf s -> for_each body xs s = (s', Ok u) -> wf s'.
Proof.
  intros Hb. induction xs as [|x xs IH]; intros s s' u Hwf H; simpl in H.
  - by apply ret_Ok in H as [-> _].
  - inv_bind H as s1 u1 Hx. eauto.
Qed.

Lemma merge_node_wf (fuel : nat) (rec : naddr -> naddr -> M unit) (self a : naddr) :
  (forall t x s s' u, wf s -> rec t x s = (s', Ok u) -> wf s') ->
  forall s s' u, wf s -> merge_node fuel rec self a s = (s', Ok u) -> wf s'.
Proof.
  intros Hrec s s' u Hwf H. unfold merge_node in H.
  inv_read H as sub Hsub. inv_read H as index Hidx.
  destruct index as [i|].
  - inv_read H as present Hpres.
    destruct present; [by apply ret_Ok in H as [-> _]|].
    inv_read H as t Ht. eauto.
  - inv_bind H as s1 c Hdc.
    pose proof (deepcopy_wf _ _ _ _ _ Hwf Hdc) as Hwf1.
    destruct (deepcopy_spec _ _ _ _ _ Hdc) as (_ & Hc & _).
    unfold nodes_append in H. inv_read H as n Hn. apply load_node_Ok in Hn.
    unfold write_node in H. injection H as <-.
    destruct (wf_node _ Hwf1 self n Hn) as (H1 & H2 & H3).
    apply wf_write_node; simpl; [done|done| |done].
    apply Forall_app. split; [done|]. repeat constructor. lia.
Qed.

Lemma Node_merge_wf (fuel : nat) :
  forall self node replace s s' u,
    wf s -> Node_merge fuel self node replace s = (s', Ok u) -> wf s'.
Proof.
  induction fuel as [|fuel IH]; intros self node replace s s' u Hwf H; [discriminate|].
  simpl in H.
  inv_read H as other Ho. inv_bind H as s1 u1 Hprops. inv_read H as other' Ho'.
  assert (Hwf1 : wf s1).
  { eapply for_each_wf; [|exact Hwf|exact Hprops].
    intros x s2 s3 u2. apply merge_prop_wf. }
  eapply for_each_wf; [|exact Hwf1|exact H].
  intros x s2 s3 u2. apply merge_node_wf.
  intros t y s4 s5 u3 Hwf4 Hr. simpl in Hr. eauto.
Qed.

(** ** merge returns *)

Section MergeTotal.

Variables inD PD : nat -> Prop.
Hypothesis inD_dec : forall a, inD a \/ ~ inD a.
Variable replace : bool.

Lemma mergeable_kinds (s s' : store) (p : prop) :
  kinds s s' -> mergeable replace s p -> mergeable replace s' p.
Proof.
  intros Hk [Hc Hd]. split; [done|]. intros Hr.
  destruct (Hd Hr) as [Hv|Hpl]; [by left|right]. by eapply plain_kinds.
Qed.

Lemma bside_frame (s s' : store) :
  kinds s s' ->
  (forall x, ~ inD x -> s_nodes s' !! x = s_nodes s !! x) ->
  (forall b, ~ PD b -> s_props s' !! b = s_props s !! b) ->
  forall h b, bside inD PD replace h s b -> bside inD PD replace h s' b.
Proof.
  intros Hk Hn Hp. induction h as [|h IH]; intros b; simpl; [done|].
  intros (n & Hb & Hout & Hprops & Hch). exists n. split_and!; [by rewrite Hn|done| |].
  - eapply Forall_impl; [exact Hprops|]. simpl. intros p (Hpd & pp & Hpp & Hm).
    split; [done|]. exists pp. split; [by rewrite Hp|]. by eapply mergeable_kinds.
  - eapply Forall_impl; [exact Hch|]. exact IH.
Qed.

Lemma bside_height (s : store) :
  forall h b, bside inD PD replace h s b -> height_ok h s b = true.
Proof.
  induction h as [|h IH]; intros b; simpl; [done|].
  intros (n & -> & _ & _ & Hch). apply forallb_forall. intros c Hc.
  apply IH. rewrite Forall_forall in Hch. apply Hch. by apply list_elem_of_In.
Qed.

Lemma first_loop_total (self : naddr) (xs : list paddr) :
  inD self ->
  forall s,
    wf s -> closed inD PD s -> is_Some (s_nodes s !! self) ->
    Forall (fun p => ~ PD p /\ exists pp, s_props s !! p = Some pp /\ mergeable replace s pp)
           xs ->
    exists s', for_each (merge_prop self replace) xs s = (s', Ok tt).
Proof.
  intros Hself. induction xs as [|x xs IH]; intros s Hwf Hc [n Hn] Hxs; simpl.
  - by exists s.
  - apply Forall_cons in Hxs as [(Hpd & pp & Hpp & Hm) Hxs].
    destruct (merge_prop_total self replace x s n pp Hwf Hn Hpp Hm) as [s1 H1].
    pose proof (merge_prop_kinds _ _ _ _ _ _ H1) as Hk1.
    pose proof (merge_prop_frame _ _ _ _ _ _ _ _ Hc Hself H1) as (Hc1 & Hle1 & Hns1 & Hps1).
    pose proof (merge_prop_wf _ _ _ _ _ _ Hwf H1) as Hwf1.
    destruct (IH s1 Hwf1 Hc1) as [s2 H2].
    + apply lookup_lt_is_Some_2. apply lookup_lt_Some in Hn. destruct Hle1. lia.
    + eapply Forall_impl; [exact Hxs|]. simpl. intros p (Hp & q & Hq & Hmq).
      split; [done|]. exists q. split; [by rewrite Hps1|]. by eapply mergeable_kinds.
    + exists s2. unfold bind. by rewrite H1.
Qed.

Lemma node_in_nodes_total (h : nat) (self a : naddr) (s : store) :
  wf s -> (self < length (s_nodes s))%nat -> height_ok h s a = true ->
  exists present, forall fuel, (h <= fuel)%nat ->
    node_in_nodes fuel self a s = Ok present.
Proof.
  intros Hwf [n Hn]%lookup_lt_is_Some_2 Hh.
  destruct (wf_node _ Hwf self n Hn) as (_ & Hvn & _). rewrite Forall_forall in Hvn.
  destruct (contains_total (fun x e => node_eq h s x (OpNode e)) a (n_nodes n))
    as [present Hpres].
  { intros e He. unfold node_eq. apply Node_eq_total; auto. }
  exists present. intros fuel Hle. unfold node_in_nodes, load_node. rewrite Hn. simpl.
  eapply contains_mono; [|exact Hpres]. intros x e. unfold node_eq.
  by apply Node_eq_mono.
Qed.

Lemma merge_node_total (h : nat) (self a : naddr) (s : store) :
  merge_returns inD PD replace h ->
  wf s -> closed inD PD s -> inD self -> (self < length (s_nodes s))%nat ->
  bside inD PD replace h s a ->
  exists f0 s', forall fuel, (f0 <= fuel)%nat ->
    merge_node fuel (fun t y => Node_merge fuel t y replace) self a s = (s', Ok tt).
Proof.
  intros IH Hwf Hc Hself Hlt Hb.
  pose proof (bside_height _ _ _ Hb) as Hh.
  destruct h as [|h']; [done|].
  destruct Hb as (sub & Hsub & Hout & Hprops & Hch).
  destruct (lookup_lt_is_Some_2 _ _ Hlt) as [n Hn].
  destruct (wf_node _ Hwf self n Hn) as (_ & Hvn & _).
  destruct (get_subnode_index_loop_total s (n_name sub) (n_nodes n) Hvn 0%nat) as [r Hr].
  assert (Hidx : get_subnode_index self (n_name sub) s = Ok r).
  { unfold get_subnode_index, load_node. by rewrite Hn. }
  destruct r as [i|].
  - destruct (node_in_nodes_total (S h') self a s Hwf Hlt Hh) as [present Hpres].
    destruct present.
    + exists (S h'), s. intros fuel Hle. unfold merge_node, bind, lift, load_node.
      rewrite Hsub. simpl. rewrite Hidx. by rewrite (Hpres fuel Hle).
    + apply get_subnode_index_loop_Some in Hr as [_ [t Ht]]. rewrite Nat.sub_0_r in Ht.
      assert (Htin : inD t).
      { destruct Hc as (_ & _ & Hcl). destruct (Hcl self n Hself Hn) as [Hcn _].
        rewrite Forall_forall in Hcn. apply Hcn. by eapply list_elem_of_lookup_2. }
      assert (Htv : (t < length (s_nodes s))%nat).
      { rewrite Forall_forall in Hvn. apply Hvn. by eapply list_elem_of_lookup_2. }
      destruct (IH s t a Hwf Hc Htin Htv) as (f1 & s' & Hrec).
      { simpl. exists sub. auto. }
      exists (Nat.max (S h') f1), s'. intros fuel Hle.
      unfold merge_node, bind, lift, load_node.
      rewrite Hsub. simpl. rewrite Hidx. rewrite (Hpres fuel ltac:(lia)).
      unfold nodes_at, load_node. rewrite Hn. simpl. rewrite Ht.
      apply Hrec. lia.
  - destruct (deepcopy_total (S (length (s_nodes s))) a s Hwf) as (s1 & c & Hdc);
      [by apply lookup_lt_Some in Hsub|lia|].
    destruct (deepcopy_spec _ _ _ _ _ Hdc) as ([m Hok] & _ & _).
    assert (Hn1 : s_nodes s1 !! self = Some n).
    { by rewrite (dc_old_n _ _ _ Hok). }
    eexists (S (length (s_nodes s))), _. intros fuel Hle.
    unfold merge_node, bind, lift, load_node.
    rewrite Hsub. simpl. rewrite Hidx.
    rewrite (deepcopy_mono _ fuel a Hle _ _ _ Hdc).
    unfold nodes_append, bind, lift, load_node. rewrite Hn1. simpl.
    unfold write_node. reflexivity.
Qed.

Lemma second_loop_total (h : nat) (self : naddr) (xs : list naddr) :
  merge_returns inD PD replace h -> inD self ->
  forall s,
    wf s -> closed inD PD s -> (self < length (s_nodes s))%nat ->
    Forall (bside inD PD replace h s) xs ->
    exists f0 s', forall fuel, (f0 <= fuel)%nat ->
      for_each (merge_node fuel (fun t y => Node_merge fuel t y replace) self) xs s
        = (s', Ok tt).
Proof.
  intros IHm Hself. induction xs as [|x xs IH]; intros s Hwf Hc Hlt Hxs; simpl.
  - exists 0%nat, s. auto.
  - apply Forall_cons in Hxs as [Hx Hxs].
    destruct (merge_node_total h self x s IHm Hwf Hc Hself Hlt Hx) as (f1 & s1 & H1).
    pose proof (H1 f1 (Nat.le_refl _)) as H1'.
    assert (Hwf1 : wf s1).
    { eapply merge_node_wf; [|exact Hwf|exact H1'].
      intros t y s2 s3 u Hwf2 Hr. simpl in Hr. by eapply Node_merge_wf. }
    destruct (lookup_lt_is_Some_2 _ _ Hlt) as [n Hn].
    assert (Hf1 : child_frame inD PD self s s1).
    { eapply (merge_node_child_frame _ _ inD_dec); [|exact Hc| |exact H1'].
      - intros t y s2 s3 u Hc2 Ht Hr. simpl in Hr.
        by eapply (Node_merge_frame _ _ inD_dec).
      - exists n. split; [done|]. destruct Hc as (_ & _ & Hcl).
        by destruct (Hcl self n Hself Hn). }
    destruct Hf1 as (Hc1 & [Hln Hlp] & Hns & Hps & _ & _).
    destruct (IH s1 Hwf1 Hc1 ltac:(lia)) as (f2 & s2 & H2).
    { eapply Forall_impl; [exact Hxs|]. intros y. apply bside_frame; [| |done].
      - eapply merge_node_kinds; [|exact H1'].
        intros t y' s2 s3 u Hr. simpl in Hr. by eapply Node_merge_kinds.
      - intros z Hz. apply Hns; [done|]. by intros ->. }
    exists (Nat.max f1 f2), s2. intros fuel Hle. unfold bind.
    rewrite (H1 fuel ltac:(lia)). apply H2. lia.
Qed.

(** In a well-formed store, merging a tree whose objects lie outside the
    two sets into a node of the set returns, for every budget from some
    budget on, and with the same outcome. *)
Lemma Node_merge_total (h : nat) : merge_returns inD PD replace h.
Proof.
  induction h as [|h IH]; intros s t x Hwf Hc Ht Hlt Hb; [done|].
  destruct Hb as (n & Hx & Hout & Hprops & Hch).
  destruct (first_loop_total t (n_props n) Ht s Hwf Hc (lookup_lt_is_Some_2 _ _ Hlt) Hprops)
    as [s1 H1].
  assert (Hf1 : frame_ok inD PD s s1).
  { eapply for_each_frame; [|exact Hc|exact H1].
    intros y s2 s3 u Hc2 Hy. by eapply merge_prop_frame. }
  destruct Hf1 as (Hc1 & [Hln Hlp] & Hns & Hps).
  assert (Hwf1 : wf s1).
  { eapply for_each_wf; [|exact Hwf|exact H1]. intros y s2 s3 u. apply merge_prop_wf. }
  destruct (second_loop_total h t (n_nodes n) IH Ht s1 Hwf1 Hc1 ltac:(lia))
    as (f2 & s2 & H2).
  { eapply Forall_impl; [exact Hch|]. intros y. apply bside_frame; [|done|done].
    eapply for_each_kinds; [|exact H1]. intros z s2 s3 u. apply merge_prop_kinds. }
  exists (S f2), s2. intros fuel Hle. destruct fuel as [|fuel]; [lia|].
  simpl. unfold bind, lift, load_node. rewrite Hx. simpl. rewrite H1.
  rewrite Hns by done. rewrite Hx. simpl. apply H2. lia.
Qed.

End MergeTotal.

(** ** merge ends *)

Lemma merge_prop_ends (self : naddr) (replace : bool) (a : paddr) (s : store)
    (n : node) (p : prop) :
  wf s -> s_nodes s !! self = Some n -> s_props s !! a = Some p ->
  (exists c, prop_copy p = Ok c) ->
  (exists s', merge_prop self replace a s = (s', Ok tt)) \/
  (merge_prop self replace a s = (s, Raise AttributeError)).
Proof.
  intros Hwf Hn Hp [c Hc].
  destruct (wf_node _ Hwf self n Hn) as (_ & _ & Hvp).
  destruct (get_property_index_loop_total s (prop_name p) (n_props n) Hvp 0%nat) as [r Hr].
  unfold merge_prop, bind, lift, load_prop, get_property_index, load_node.
  rewrite Hp, Hn. simpl. rewrite Hr.
  destruct r as [i|].
  - unfold prop_in_props, load_node. rewrite Hn. simpl.
    destruct (contains_total (prop_eq_at s) a (n_props n)) as [present ->].
    { intros e He. apply prop_eq_at_total; [by apply lookup_lt_Some in Hp|].
      rewrite Forall_forall in Hvp. auto. }
    destruct present; [left; by eexists|]. destruct replace; [|left; by eexists].
    destruct (prop_data p) as [d|]; [left|by right].
    apply get_property_index_loop_Some in Hr as (t & target & _ & Ht & Htarget & _).
    rewrite Nat.sub_0_r in Ht.
    unfold props_at, load_node. rewrite Hn. simpl. rewrite Ht, Htarget.
    unfold write_prop. by eexists.
  - left. rewrite Hc. simpl. unfold alloc_prop. simpl.
    unfold bind, lift, load_prop. simpl.
    rewrite lookup_app_r, Nat.sub_diag by lia. simpl.
    unfold get_property, load_node. simpl. rewrite Hn. simpl.
    pose proof (prop_copy_spec _ _ Hc) as (_ & Hname & _). rewrite Hname.
    rewrite (get_property_loop_none_after s (prop_name p) [c] (s_nodes s) _ _ Hr).
    unfold write_prop, props_append, bind, lift, load_node. simpl. rewrite Hn.
    unfold write_node. by eexists.
Qed.

Section MergeEnds.

Variables inD PD : nat -> Prop.
Hypothesis inD_dec : forall a, inD a \/ ~ inD a.
Variable replace : bool.

Lemma first_loop_ends (self : naddr) (xs : list paddr) :
  inD self ->
  forall s,
    wf s -> closed inD PD s -> is_Some (s_nodes s !! self) ->
    Forall (fun p => ~ PD p /\ exists pp, s_props s !! p = Some pp /\ mergeable false s pp)
           xs ->
    exists s' r, settled r /\ for_each (merge_prop self replace) xs s = (s', r).
Proof.
  intros Hself. induction xs as [|x xs IH]; intros s Hwf Hc [n Hn] Hxs; simpl.
  - exists s, (Ok tt). split; [by left|done].
  - apply Forall_cons in Hxs as [(Hpd & pp & Hpp & Hm) Hxs].
    destruct (merge_prop_ends self replace x s n pp Hwf Hn Hpp (proj1 Hm)) as [[s1 H1]|H1].
    + pose proof (merge_prop_kinds _ _ _ _ _ _ H1) as Hk1.
      pose proof (merge_prop_frame _ _ _ _ _ _ _ _ Hc Hself H1) as (Hc1 & Hle1 & Hns1 & Hps1).
      pose proof (merge_prop_wf _ _ _ _ _ _ Hwf H1) as Hwf1.
      destruct (IH s1 Hwf1 Hc1) as (s2 & r & Hr & H2).
      * apply lookup_lt_is_Some_2. apply lookup_lt_Some in Hn. destruct Hle1. lia.
      * eapply Forall_impl; [exact Hxs|]. simpl. intros p (Hp & q & Hq & Hmq).
        split; [done|]. exists q. split; [by rewrite Hps1|].
        by eapply (mergeable_kinds false).
      * exists s2, r. split; [done|]. unfold bind. by rewrite H1.
    + exists s, (Raise AttributeError). split; [by right|]. unfold bind. by rewrite H1.
Qed.

Lemma merge_node_ends (h : nat) (self a : naddr) (s : store) :
  merge_settles inD PD replace h ->
  wf s -> closed inD PD s -> inD self -> (self < length (s_nodes s))%nat ->
  bside inD PD false h s a ->
  exists f0 s' r, settled r /\ forall fuel, (f0 <= fuel)%nat ->
    merge_node fuel (fun t y => Node_merge fuel t y replace) self a s = (s', r).
Proof.
  intros IH Hwf Hc Hself Hlt Hb.
  pose proof (bside_height _ _ _ _ _ _ Hb) as Hh.
  destruct h as [|h']; [done|].
  destruct Hb as (sub & Hsub & Hout & Hprops & Hch).
  destruct (lookup_lt_is_Some_2 _ _ Hlt) as [n Hn].
  destruct (wf_node _ Hwf self n Hn) as (_ & Hvn & _).
  destruct (get_subnode_index_loop_total s (n_name sub) (n_nodes n) Hvn 0%nat) as [r Hr].
  assert (Hidx : get_subnode_index self (n_name sub) s = Ok r).
  { unfold get_subnode_index, load_node. by rewrite Hn. }
  destruct r as [i|].
  - destruct (node_in_nodes_total (S h') self a s Hwf Hlt Hh) as [present Hpres].
    destruct present.
    + exists (S h'), s, (Ok tt). split; [by left|]. intros fuel Hle.
      unfold merge_node, bind, lift, load_node.
      rewrite Hsub. simpl. rewrite Hidx. by rewrite (Hpres fuel Hle).
    + apply get_subnode_index_loop_Some in Hr as [_ [t Ht]]. rewrite Nat.sub_0_r in Ht.
      assert (Htin : inD t).
      { destruct Hc as (_ & _ & Hcl). destruct (Hcl self n Hself Hn) as [Hcn _].
        rewrite Forall_forall in Hcn. apply Hcn. by eapply list_elem_of_lookup_2. }
      assert (Htv : (t < length (s_nodes s))%nat).
      { rewrite Forall_forall in Hvn. apply Hvn. by eapply list_elem_of_lookup_2. }
      destruct (IH s t a Hwf Hc Htin Htv) as (f1 & s' & r & Hset & Hrec).
      { simpl. exists sub. auto. }
      exists (Nat.max (S h') f1), s', r. split; [done|]. intros fuel Hle.
      unfold merge_node, bind, lift, load_node.
      rewrite Hsub. simpl. rewrite Hidx. rewrite (Hpres fuel ltac:(lia)).
      unfold nodes_at, load_node. rewrite Hn. simpl. rewrite Ht.
      apply Hrec. lia.
  - destruct (deepcopy_total (S (length (s_nodes s))) a s Hwf) as (s1 & c & Hdc);
      [by apply lookup_lt_Some in Hsub|lia|].
    destruct (deepcopy_spec _ _ _ _ _ Hdc) as ([m Hok] & _ & _).
    assert (Hn1 : s_nodes s1 !! self = Some n).
    { by rewrite (dc_old_n _ _ _ Hok). }
    eexists (S (length (s_nodes s))), _, (Ok tt). split; [by left|]. intros fuel Hle.
    unfold merge_node, bind, lift, load_node.
    rewrite Hsub. simpl. rewrite Hidx.
    rewrite (deepcopy_mono _ fuel a Hle _ _ _ Hdc).
    unfold nodes_append, bind, lift, load_node. rewrite Hn1. simpl.
    unfold write_node. reflexivity.
Qed.

Lemma second_loop_ends (h : nat) (self : naddr) (xs : list naddr) :
  merge_settles inD PD replace h -> inD self ->
  forall s,
    wf s -> closed inD PD s -> (self < length (s_nodes s))%nat ->
    Forall (bside inD PD false h s) xs ->
    exists f0 s' r, settled r /\ forall fuel, (f0 <= fuel)%nat ->
      for_each (merge_node fuel (fun t y => Node_merge fuel t y replace) self) xs s
        = (s', r).
Proof.
  intros IHm Hself. induction xs as [|x xs IH]; intros s Hwf Hc Hlt Hxs; simpl.
  - exists 0%nat, s, (Ok tt). split; [by left|]. auto.
  - apply Forall_cons in Hxs as [Hx Hxs].
    destruct (merge_node_ends h self x s IHm Hwf Hc Hself Hlt Hx)
      as (f1 & s1 & r1 & [->| ->] & H1); last first.
    { exists f1, s1, (Raise AttributeError). split; [by right|]. intros fuel Hle.
      unfold bind. by rewrite (H1 fuel Hle). }
    pose proof (H1 f1 (Nat.le_refl _)) as H1'.
    assert (Hwf1 : wf s1).
    { eapply merge_node_wf; [|exact Hwf|exact H1'].
      intros t y s2 s3 u Hwf2 Hr. simpl in Hr. by eapply Node_merge_wf. }
    destruct (lookup_lt_is_Some_2 _ _ Hlt) as [n Hn].
    assert (Hf1 : child_frame inD PD self s s1).
    { eapply (merge_node_child_frame _ _ inD_dec); [|exact Hc| |exact H1'].
      - intros t y s2 s3 u Hc2 Ht Hr. simpl in Hr.
        by eapply (Node_merge_frame _ _ inD_dec).
      - exists n. split; [done|]. destruct Hc as (_ & _ & Hcl).
        by destruct (Hcl self n Hself Hn). }
    destruct Hf1 as (Hc1 & [Hln Hlp] & Hns & Hps & _ & _).
    destruct (IH s1 Hwf1 Hc1 ltac:(lia)) as (f2 & s2 & r2 & Hr2 & H2).
    { eapply Forall_impl; [exact Hxs|]. intros y. apply bside_frame; [| |done].
      - eapply merge_node_kinds; [|exact H1'].
        intros t y' s2 s3 u Hr. simpl in Hr. by eapply Node_merge_kinds.
      - intros z Hz. apply Hns; [done|]. by intros ->. }
    exists (Nat.max f1 f2), s2, r2. split; [done|]. intros fuel Hle. unfold bind.
    rewrite (H1 fuel ltac:(lia)). apply H2. lia.
Qed.

(** In a well-formed store, merging a tree whose objects lie outside the
    two sets, and whose properties can be copied, into a node of the set
    ends, for every budget from some budget on, and with the same
    outcome: the merge returns, or it read the [data] of a property
    without value. *)
Lemma Node_merge_ends (h : nat) : merge_settles inD PD replace h.
Proof.
  induction h as [|h IH]; intros s t x Hwf Hc Ht Hlt Hb; [done|].
  destruct Hb as (n & Hx & Hout & Hprops & Hch).
  destruct (first_loop_ends t (n_props n) Ht s Hwf Hc (lookup_lt_is_Some_2 _ _ Hlt) Hprops)
    as (s1 & r1 & [->| ->] & H1); last first.
  { exists 1%nat, s1, (Raise AttributeError). split; [by right|]. intros fuel Hle.
    destruct fuel as [|fuel]; [lia|].
    simpl. unfold bind, lift, load_node. rewrite Hx. simpl. by rewrite H1. }
  assert (Hf1 : frame_ok inD PD s s1).
  { eapply for_each_frame; [|exact Hc|exact H1].
    intros y s2 s3 u Hc2 Hy. by eapply merge_prop_frame. }
  destruct Hf1 as (Hc1 & [Hln Hlp] & Hns & Hps).
  assert (Hwf1 : wf s1).
  { eapply for_each_wf; [|exact Hwf|exact H1]. intros y s2 s3 u. apply merge_prop_wf. }
  destruct (second_loop_ends h t (n_nodes n) IH Ht s1 Hwf1 Hc1 ltac:(lia))
    as (f2 & s2 & r2 & Hr2 & H2).
  { eapply Forall_impl; [exact Hch|]. intros y. apply bside_frame; [|done|done].
    eapply for_each_kinds; [|exact H1]. intros z s2 s3 u. apply merge_prop_kinds. }
  exists (S f2), s2, r2. split; [done|]. intros fuel Hle. destruct fuel as [|fuel]; [lia|].
  simpl. unfold bind, lift, load_node. rewrite Hx. simpl. rewrite H1.
  rewrite Hns by done. rewrite Hx. simpl. apply H2. lia.
Qed.

End MergeEnds.

(** ** From the tests to the invariants *)

Lemma side_closed_spec (s : store) (DA : list naddr) :
  side_closed s DA = true -> closed (below_nodes DA s) (side_props DA s) s.
Proof.
  unfold side_closed. rewrite forallb_forall. intros H. split_and!.
  - intros a Ha. by right.
  - intros b Hb. by right.
  - intros a n [Ha|Ha] Hn; [|apply lookup_lt_Some in Hn; lia].
    pose proof (H a (proj1 (list_elem_of_In _ _) Ha)) as Hd. rewrite Hn in Hd.
    rewrite forallb_forall in Hd. split.
    + apply Forall_forall. intros c Hc. left.
      apply list_elem_of_In in Hc. specialize (Hd c Hc). by apply bool_decide_eq_true in Hd.
    + apply Forall_forall. intros b Hb. left. unfold props_of.
      apply list_elem_of_In, in_flat_map. exists a. split; [by apply list_elem_of_In|].
      rewrite Hn. by apply list_elem_of_In.
Qed.

Lemma plainb_spec (s : store) (nm : str) : plainb s nm = true -> plain s nm.
Proof.
  unfold plainb. rewrite forallb_forall. intros H b q Hq Hnm.
  specialize (H q (proj1 (list_elem_of_In _ _) (list_elem_of_lookup_2 _ _ _ Hq))).
  apply orb_true_iff in H as [H|H].
  - apply negb_true_iff, bool_decide_eq_false in H. done.
  - by apply bool_decide_eq_true in H.
Qed.

Lemma mergeableb_spec (replace : bool) (s : store) (p : prop) :
  mergeableb replace s p = true -> mergeable replace s p.
Proof.
  unfold mergeableb, mergeable. intros [Hc Hd]%andb_true_iff. split.
  - destruct (prop_copy p) as [c|]; [eauto|discriminate].
  - intros ->. simpl in Hd. apply orb_true_iff in Hd as [Hd|Hd].
    + left. by apply bool_decide_eq_true in Hd.
    + right. by apply plainb_spec.
Qed.

Lemma bside_ok_spec (DA : list naddr) (replace : bool) (s : store) :
  forall h b, bside_ok DA replace h s b = true ->
              bside (below_nodes DA s) (side_props DA s) replace h s b.
Proof.
  induction h as [|h IH]; intros b; simpl; [discriminate|].
  destruct (s_nodes s !! b) as [n|] eqn:Hn; [|discriminate].
  intros [[Hout Hprops]%andb_true_iff Hch]%andb_true_iff.
  apply negb_true_iff, bool_decide_eq_false in Hout.
  rewrite forallb_forall in Hprops, Hch.
  exists n. split_and!; [done| | |].
  - intros [Hin|Hge]; [done|]. apply lookup_lt_Some in Hn. lia.
  - apply Forall_forall. intros p Hp. apply list_elem_of_In in Hp.
    specialize (Hprops p Hp). apply andb_true_iff in Hprops as [Hnot Hm].
    apply negb_true_iff, bool_decide_eq_false in Hnot.
    destruct (s_props s !! p) as [pp|] eqn:Hpp; [|discriminate]. split.
    + intros [Hin|Hge]; [done|]. apply lookup_lt_Some in Hpp. lia.
    + exists pp. split; [done|]. by apply mergeableb_spec.
  - apply Forall_forall. intros c Hc. apply IH, Hch. by apply list_elem_of_In.
Qed.

(** A merge of the tree below [B], fewer than [h] levels, into a node of
    [DA] returns from some budget on. *)
Lemma Node_merge_returns (DA : list naddr) (replace : bool) (h : nat) (s : store)
    (A B : naddr) :
  wf_store s = true -> side_closed s DA = true -> A ∈ DA ->
  is_Some (s_nodes s !! A) ->
  bside_ok DA replace h s B = true ->
  exists f0 s', forall fuel, (f0 <= fuel)%nat ->
    Node_merge fuel A B replace s = (s', Ok tt).
Proof.
  intros Hwf%wf_store_spec Hc%side_closed_spec HA [nA HnA] Hb%bside_ok_spec.
  apply (Node_merge_total (below_nodes DA s) (side_props DA s) (below_nodes_dec DA s)
           replace h s A B Hwf Hc); [by left| |done].
  by apply lookup_lt_Some in HnA.
Qed.

(** The same merge, whatever the values of the properties below [B]:
    it ends, from some budget on, by returning or by the
    [AttributeError] of a property without value. *)
Lemma Node_merge_settles (DA : list naddr) (replace : bool) (h : nat) (s : store)
    (A B : naddr) :
  wf_store s = true -> side_closed s DA = true -> A ∈ DA ->
  is_Some (s_nodes s !! A) ->
  bside_ok DA false h s B = true ->
  exists f0 s' r, settled r /\ forall fuel, (f0 <= fuel)%nat ->
    Node_merge fuel A B replace s = (s', r).
Proof.
  intros Hwf%wf_store_spec Hc%side_closed_spec HA [nA HnA] Hb%bside_ok_spec.
  apply (Node_merge_ends (below_nodes DA s) (side_props DA s) (below_nodes_dec DA s)
           replace h s A B Hwf Hc); [by left| |done].
  by apply lookup_lt_Some in HnA.
Qed.

Lemma footprint_side_closed (s : store) (D : list naddr) (A : naddr) (nA : node) :
  footprint s D A nA = true -> s_nodes s !! A = Some nA ->
  side_closed s (A :: D) = true.
Proof.
  intros (_ & Hch & HD)%footprint_spec HA. unfold side_closed.
  apply forallb_forall. intros d Hd. apply list_elem_of_In in Hd.
  destruct (s_nodes s !! d) as [n|] eqn:Hn; [|done].
  apply forallb_forall. intros c Hc. apply list_elem_of_In in Hc.
  apply bool_decide_eq_true. apply list_elem_of_further.
  apply elem_of_cons in Hd as [->|Hd].
  - assert (n = nA) as -> by congruence. rewrite Forall_forall in Hch. auto.
  - destruct (HD d n Hd Hn) as [Hn' _]. rewrite Forall_forall in Hn'. auto.
Qed.

Lemma wf_prop_names (s : store) (a : naddr) (n : node) :
  wf s -> s_nodes s !! a = Some n -> None ∉ prop_names s (n_props n).
Proof.
  intros Hwf Hn. destruct (wf_node _ Hwf a n Hn) as (_ & _ & Hp).
  rewrite Forall_forall in Hp. unfold prop_names.
  intros (b & Hb & Hin)%list_elem_of_fmap.
  destruct (lookup_lt_is_Some_2 _ _ (Hp b Hin)) as [p Hpp]. by rewrite Hpp in Hb.
Qed.

(** In a well-formed store, the iteration that meets a child whose name
    [self] lacks returns when the budget exceeds the number of nodes. *)
Lemma merge_node_absent_total (fuel : nat) (rec : naddr -> naddr -> M unit)
    (self a : naddr) (s : store) (sub : node) :
  wf s -> s_nodes s !! a = Some sub ->
  get_subnode_index self (n_name sub) s = Ok None ->
  (length (s_nodes s) < fuel)%nat ->
  exists s1, merge_node fuel rec self a s = (s1, Ok tt).
Proof.
  intros Hwf Hsub Hidx Hfuel.
  destruct (get_subnode_index_self _ _ _ _ Hidx) as [n Hn].
  destruct (deepcopy_total fuel a s Hwf) as (s1 & c & Hdc);
    [by apply lookup_lt_Some in Hsub|done|].
  destruct (deepcopy_spec _ _ _ _ _ Hdc) as ([m Hok] & _ & _).
  assert (Hn1 : s_nodes s1 !! self = Some n).
  { rewrite (dc_old_n _ _ _ Hok); [done|]. by apply lookup_lt_Some in Hn. }
  eexists. unfold merge_node, bind, lift, load_node. rewrite Hsub. simpl.
  rewrite Hidx, Hdc. unfold nodes_append, bind, lift, load_node. rewrite Hn1. simpl.
  unfold write_node. reflexivity.
Qed.

Lemma prop_data_set_data (p : prop) (d : payload) : prop_data (set_data p d) = Some d.
Proof. by destruct p. Qed.

Lemma with_parent_detached (p : prop) (q : option naddr) :
  prop_parent p = None -> with_parent (with_parent p q) None = p.
Proof. destruct p; simpl; by intros ->. Qed.

(** C4. Let [A] and [B] be nodes of a well-formed store whose properties
    have distinct names, the nodes below [A] owning their properties.

    Whenever [A.merge(B, replace)] returns: a property of [A] that [B]
    holds under the same name without being equal to it keeps its class,
    name and parent; when [replace] is true its [data] is the [data] of
    the property of [B], whatever the classes of the two, and nothing
    else of it changed; when [replace] is false it is unchanged.  For a
    property of [B] whose name no property of [A] has, [A] holds a new
    property object, the [copy()] of that property, with [A] as parent
    and the class, name and values of the original.

    When the tree below [B] is apart from [A] and the nodes below it
    and its properties can be copied, the merge ends, from some budget
    on: it returns, or it raises the [AttributeError] of a property
    without value whose [data] a replacing merge reads.  It returns when,
    for a replacing merge, each of these properties has a value or a
    name that only properties without value bear. *)
Theorem merge_properties (A B : naddr) (replace : bool) (s : store)
    (nA nB : node) (D : list naddr) :
  s_nodes s !! A = Some nA -> s_nodes s !! B = Some nB ->
  wf_store s = true ->
  NoDup (prop_names s (n_props nA)) -> NoDup (prop_names s (n_props nB)) ->
  footprint s D A nA = true ->
  (forall fuel s',
      Node_merge fuel A B replace s = (s', Ok tt) ->
      (forall bA bB pA pB,
          bA ∈ n_props nA -> bB ∈ n_props nB ->
          s_props s !! bA = Some pA -> s_props s !! bB = Some pB ->
          prop_name pA = prop_name pB -> prop_eq pB (OpProp pA) = false ->
          exists pA',
            s_props s' !! bA = Some pA' /\
            class_of pA' = class_of pA /\ prop_name pA' = prop_name pA /\
            prop_parent pA' = prop_parent pA /\
            (replace = true ->
             exists d, prop_data pB = Some d /\ prop_data pA' = Some d /\
                       pA' = set_data pA d) /\
            (replace = false -> pA' = pA)) /\
      (forall bC pC,
          bC ∈ n_props nB -> s_props s !! bC = Some pC ->
          Some (prop_name pC) ∉ prop_names s (n_props nA) ->
          exists c pc nA' ep,
            (length (s_props s) <= c)%nat /\
            s_nodes s' !! A = Some nA' /\ n_props nA' = n_props nA ++ ep /\ c ∈ ep /\
            s_props s' !! c = Some pc /\ prop_parent pc = Some A /\
            prop_copy pC = Ok (with_parent pc None) /\
            class_of pc = class_of pC /\ prop_name pc = prop_name pC /\
            values pc = values pC)) /\
  (forall h,
      bside_ok (A :: D) false h s B = true ->
      exists f0 s' r, settled r /\ forall fuel, (f0 <= fuel)%nat ->
        Node_merge fuel A B replace s = (s', r)) /\
  (forall h,
      bside_ok (A :: D) replace h s B = true ->
      exists f0 s', forall fuel, (f0 <= fuel)%nat ->
        Node_merge fuel A B replace s = (s', Ok tt)).
Proof.
  intros HA HB Hwf HndA HndB Hfp. split; [|split].
  - intros fuel s' Hrun.
    destruct (merge_properties_of_run fuel A B replace s s' nA nB D HA HB HndA HndB)
      as [Hconf Habs]; [|done|done|].
    { eapply wf_prop_names; [by apply wf_store_spec|exact HB]. }
    split.
    + intros bA bB pA pB HinA HinB HpA HpB Hname Hneq.
      destruct (Hconf bA bB pA pB HinA HinB HpA HpB Hname Hneq) as [Ht Hf].
      destruct replace.
      * destruct (Ht eq_refl) as (d & Hd & HpA'). unfold copy_data in HpA'.
        exists (set_data pA d). split_and!; auto.
        -- apply class_of_set_data.
        -- apply prop_name_set_data.
        -- apply prop_parent_set_data.
        -- intros _. exists d. split_and!; auto. apply prop_data_set_data.
        -- discriminate.
      * exists pA. split_and!; auto. discriminate.
    + intros bC pC HinB HpC Hnone.
      destruct (Habs bC pC HinB HpC Hnone)
        as (c & copy & nA' & Hcopy & Hc & HnA' & Hcin & Hpc).
      destruct (prop_copy_spec _ _ Hcopy) as (Hcl & Hnm & Hpar & Hval).
      destruct (ev_node _ _ (Node_merge_evolves _ _ _ _ _ _ _ Hrun) A nA HA)
        as (n'' & en & ep & Hn'' & _ & _ & _ & Hps & _).
      assert (n'' = nA') as -> by congruence.
      assert (Hcep : c ∈ ep).
      { rewrite Hps in Hcin. apply elem_of_app in Hcin as [Hold|?]; [|done].
        destruct (wf_node _ (wf_store_spec _ Hwf) A nA HA) as (_ & _ & Hvp).
        rewrite Forall_forall in Hvp. specialize (Hvp c Hold). lia. }
      exists c, (set_parent copy A), nA', ep. unfold set_parent.
      split_and!; auto.
      * apply prop_parent_with_parent.
      * by rewrite with_parent_detached.
      * by rewrite class_of_with_parent.
      * by rewrite prop_name_with_parent.
      * rewrite <- Hval. by destruct copy.
  - intros h Hbs.
    apply (Node_merge_settles (A :: D) replace h s A B Hwf
             (footprint_side_closed _ _ _ _ Hfp HA) (list_elem_of_here _ _)
             (mk_is_Some _ _ HA) Hbs).
  - intros h Hbs.
    apply (Node_merge_returns (A :: D) replace h s A B Hwf
             (footprint_side_closed _ _ _ _ Hfp HA) (list_elem_of_here _ _)
             (mk_is_Some _ _ HA) Hbs).
Qed.

Lemma overlay_store_eq :
  overlay_store =
  Store [PropWords (py "p") (Some 0%nat) (PyList [PyInt 1]) 32;
         Property (py "flag") (Some 0%nat) None;
         PropStrings (py "p") (Some 1%nat) (PyList [PyStr (py "x")]);
         Property (py "flag") (Some 1%nat) None;
         Property (py "status") (Some 1%nat) None;
         Property (py "ranges") (Some 2%nat) None]
        [Node (py "a") None [0%nat; 1%nat] [];
         Node (py "b") None [2%nat; 3%nat; 4%nat] [2%nat];
         Node (py "c") (Some 1%nat) [5%nat] [3%nat];
         Node (py "d") (Some 2%nat) [] []].
Proof. reflexivity. Qed.

Lemma merged_overlay_eq :
  Node_merge 6 0%nat 1%nat true overlay_store = (merged_overlay, Ok tt) /\
  merged_overlay =
  Store [PropWords (py "p") (Some 0%nat) (PyList [PyStr (py "x")]) 32;
         Property (py "flag") (Some 0%nat) None;
         PropStrings (py "p") (Some 1%nat) (PyList [PyStr (py "x")]);
         Property (py "flag") (Some 1%nat) None;
         Property (py "status") (Some 1%nat) None;
         Property (py "ranges") (Some 2%nat) None;
         Property (py "status") (Some 0%nat) None;
         PropStrings (py "p") (Some 5%nat) (PyList [PyStr (py "x")]);
         Property (py "flag") (Some 5%nat) None;
         Property (py "status") (Some 5%nat) None;
         Property (py "ranges") (Some 4%nat) None]
        [Node (py "a") None [0%nat; 1%nat; 6%nat] [4%nat];
         Node (py "b") None [2%nat; 3%nat; 4%nat] [2%nat];
         Node (py "c") (Some 1%nat) [5%nat] [3%nat];
         Node (py "d") (Some 2%nat) [] [];
         Node (py "c") (Some 5%nat) [10%nat] [6%nat];
         Node (py "b") None [7%nat; 8%nat; 9%nat] [4%nat];
         Node (py "d") (Some 4%nat) [] []].
Proof. split; reflexivity. Qed.

(** In the overlay sample, [a.merge(b)] returns; afterwards the property
    [p] of [a], a [PropWords], holds the strings of the [p] of [b], its
    properties are followed by one new property, the property 6: a
    property [status] without value whose parent is [a]. *)
Lemma merge_properties_witness :
  (exists f0 s', forall fuel, (f0 <= fuel)%nat ->
     Node_merge fuel 0%nat 1%nat true overlay_store = (s', Ok tt)) /\
  Node_merge 6 0%nat 1%nat true overlay_store = (merged_overlay, Ok tt) /\
  s_props merged_overlay !! 0%nat
    = Some (PropWords (py "p") (Some 0%nat) (PyList [PyStr (py "x")]) 32) /\
  n_props <$> s_nodes merged_overlay !! 0%nat = Some ([0%nat; 1%nat] ++ [6%nat]) /\
  s_props merged_overlay !! 6%nat = Some (Property (py "status") (Some 0%nat) None).
Proof.
  assert (H1 : NoDup (prop_names overlay_store [0%nat; 1%nat])) by compute_done.
  assert (H2 : NoDup (prop_names overlay_store [2%nat; 3%nat; 4%nat])) by compute_done.
  destruct (merge_properties 0%nat 1%nat true overlay_store
              (Node (py "a") None [0%nat; 1%nat] [])
              (Node (py "b") None [2%nat; 3%nat; 4%nat] [2%nat]) []
              eq_refl eq_refl eq_refl H1 H2 eq_refl) as (Hrun & _ & Hret).
  split; [exact (Hret 3%nat eq_refl)|]. split; [reflexivity|].
  destruct (Hrun 6%nat merged_overlay eq_refl) as [Hconf Habs].
  split.
  - destruct (Hconf 0%nat 2%nat
                (PropWords (py "p") (Some 0%nat) (PyList [PyInt 1]) 32)
                (PropStrings (py "p") (Some 1%nat) (PyList [PyStr (py "x")])))
      as (pA' & HpA' & _ & _ & _ & Ht & _);
      [compute_done|compute_done|reflexivity|reflexivity|reflexivity|reflexivity|].
    destruct (Ht eq_refl) as (d & Hd & _ & ->). injection Hd as <-. exact HpA'.
  - destruct (Habs 4%nat (Property (py "status") (Some 1%nat) None))
      as (c & pc & nA' & ep & Hc & HnA' & Hps & Hcin & Hpc & Hpar & Hcopy & _);
      [compute_done|reflexivity|compute_done|].
    assert (Hep : ep = [6%nat]).
    { assert (H6 : n_props <$> s_nodes merged_overlay !! 0%nat
                   = Some ([0%nat; 1%nat] ++ [6%nat])) by reflexivity.
      rewrite HnA' in H6. simpl in H6. injection H6 as H6. rewrite Hps in H6.
      simpl in H6. by injection H6. }
    rewrite Hep in Hcin. apply list_elem_of_singleton in Hcin as ->.
    split; [reflexivity|].
    rewrite Hpc. f_equal.
    destruct pc as [nm q d|nm q d|nm q d w|nm q d]; try discriminate Hcopy.
    simpl in Hpar, Hcopy. vm_compute in Hcopy. injection Hcopy as <- <-. by rewrite Hpar.
Defined.

(** ** The copies a deep copy makes *)

Lemma memo_opt_mono (g g' : gmap nat nat) (q q' : option nat) :
  g ⊆ g' -> memo_opt g q q' -> memo_opt g' q q'.
Proof.
  intros Hg. destruct q as [a|], q' as [a'|]; simpl; try done.
  intros H. by eapply lookup_weaken.
Qed.

Lemma memo_list_mono (g g' : gmap nat nat) (l l' : list nat) :
  g ⊆ g' -> memo_list g l l' -> memo_list g' l l'.
Proof.
  intros Hg H. eapply Forall2_impl; [exact H|]. simpl. intros a b Hab.
  by eapply lookup_weaken.
Qed.

Lemma memo_le_refl (m : memo) : memo_le m m.
Proof. by split. Qed.

Lemma memo_le_trans (m1 m2 m3 : memo) : memo_le m1 m2 -> memo_le m2 m3 -> memo_le m1 m3.
Proof. intros [H1 H2] [H3 H4]. split; by etrans. Qed.

Lemma node_image_mono (m m' : memo) (n n' : node) :
  memo_le m m' -> node_image m n n' -> node_image m' n n'.
Proof.
  intros [Hn Hp] (H1 & H2 & H3 & H4).
  split_and!; eauto using memo_opt_mono, memo_list_mono.
Qed.

Lemma prop_image_mono (m m' : memo) (p p' : prop) :
  memo_le m m' -> prop_image m p p' -> prop_image m' p p'.
Proof. intros [Hn Hp] (H1 & H2). split; eauto using memo_opt_mono. Qed.

Lemma dc_img_start (s : store) :
  dc_img s (fun _ => False) (fun _ => False) empty_memo s.
Proof.
  split; unfold empty_memo; cbn [m_nodes m_props].
  - intros x y H. by rewrite lookup_empty in H.
  - intros a b H. by rewrite lookup_empty in H.
  - intros x x' y H. by rewrite lookup_empty in H.
  - intros a a' b H. by rewrite lookup_empty in H.
Qed.

Lemma dc_img_alloc_node (s0 : store) (ON OP : nat -> Prop) (m : memo) (s : store)
    (x : naddr) (nm : str) :
  dc_ok s0 m s -> dc_img s0 ON OP m s -> m_nodes m !! x = None ->
  dc_img s0 (fun a => ON a \/ a = x) OP
         (Memo (<[x := length (s_nodes s)]> (m_nodes m)) (m_props m))
         (Store (s_props s) (s_nodes s ++ [Node nm None [] []])).
Proof.
  intros Hok [Hn Hp Hin Hip] Hx.
  assert (Hle : memo_le m (Memo (<[x := length (s_nodes s)]> (m_nodes m)) (m_props m))).
  { split; simpl; [by apply insert_subseteq|done]. }
  split; simpl.
  - intros x' y [[-> <-]|[Hne Hm]]%lookup_insert_Some Hopen; [exfalso; auto|].
    destruct (Hn x' y Hm) as (n & n' & H0 & Hs & Himg); [auto|].
    exists n, n'. split_and!; [done| |by eapply node_image_mono].
    by apply lookup_app_l_Some.
  - intros a b Hm Hopen. destruct (Hp a b Hm Hopen) as (p & p' & H0 & Hs & Himg).
    exists p, p'. split_and!; [done|done|by eapply prop_image_mono].
  - intros x1 x2 y [[<- <-]|[Hne1 H1]]%lookup_insert_Some
                   [[<- Hy]|[Hne2 H2]]%lookup_insert_Some; [done|..].
    + apply (dc_memo_n _ _ _ Hok) in H2. lia.
    + apply (dc_memo_n _ _ _ Hok) in H1. lia.
    + by eapply Hin.
  - exact Hip.
Qed.

Lemma dc_img_alloc_prop (s0 : store) (ON OP : nat -> Prop) (m : memo) (s : store)
    (a : paddr) (p : prop) :
  dc_ok s0 m s -> dc_img s0 ON OP m s -> m_props m !! a = None ->
  dc_img s0 ON (fun b => OP b \/ b = a)
         (Memo (m_nodes m) (<[a := length (s_props s)]> (m_props m)))
         (Store (s_props s ++ [p]) (s_nodes s)).
Proof.
  intros Hok [Hn Hp Hin Hip] Ha.
  assert (Hle : memo_le m (Memo (m_nodes m) (<[a := length (s_props s)]> (m_props m)))).
  { split; simpl; [done|by apply insert_subseteq]. }
  split; simpl.
  - intros x y Hm Hopen. destruct (Hn x y Hm Hopen) as (n & n' & H0 & Hs & Himg).
    exists n, n'. split_and!; [done|done|by eapply node_image_mono].
  - intros a' b [[-> <-]|[Hne Hm]]%lookup_insert_Some Hopen; [exfalso; auto|].
    destruct (Hp a' b Hm) as (q & q' & H0 & Hs & Himg); [auto|].
    exists q, q'. split_and!; [done| |by eapply prop_image_mono].
    by apply lookup_app_l_Some.
  - exact Hin.
  - intros a1 a2 b [[<- <-]|[Hne1 H1]]%lookup_insert_Some
                   [[<- Hb]|[Hne2 H2]]%lookup_insert_Some; [done|..].
    + apply (dc_memo_p _ _ _ Hok) in H2. lia.
    + apply (dc_memo_p _ _ _ Hok) in H1. lia.
    + by eapply Hip.
Qed.

Lemma dc_img_close_node (s0 : store) (ON OP : nat -> Prop) (m : memo) (s : store)
    (x y : naddr) (n n' : node) :
  dc_ok s0 m s -> dc_img s0 (fun a => ON a \/ a = x) OP m s ->
  m_nodes m !! x = Some y -> s_nodes s0 !! x = Some n -> node_image m n n' ->
  dc_img s0 ON OP m (Store (s_props s) (<[y := n']> (s_nodes s))).
Proof.
  intros Hok [Hn Hp Hin Hip] Hx Hn0 Himg. split; simpl; [|done|done|done].
  intros x' y' Hm Hopen. destruct (decide (x' = x)) as [->|Hne].
  - assert (y' = y) as -> by congruence. exists n, n'. split_and!; [done| |done].
    apply list_lookup_insert_eq. apply (dc_memo_n _ _ _ Hok) in Hx. lia.
  - destruct (Hn x' y' Hm) as (n1 & n1' & H0 & Hs & Himg1); [by intros [?|?]|].
    exists n1, n1'. split_and!; [done| |done].
    rewrite list_lookup_insert_ne; [done|]. intros ->. apply Hne. by eapply Hin.
Qed.

Lemma dc_img_close_prop (s0 : store) (ON OP : nat -> Prop) (m : memo) (s : store)
    (a b : paddr) (p p' : prop) :
  dc_ok s0 m s -> dc_img s0 ON (fun c => OP c \/ c = a) m s ->
  m_props m !! a = Some b -> s_props s0 !! a = Some p -> prop_image m p p' ->
  dc_img s0 ON OP m (Store (<[b := p']> (s_props s)) (s_nodes s)).
Proof.
  intros Hok [Hn Hp Hin Hip] Ha Hp0 Himg. split; simpl; [done| |done|done].
  intros a' b' Hm Hopen. destruct (decide (a' = a)) as [->|Hne].
  - assert (b' = b) as -> by congruence. exists p, p'. split_and!; [done| |done].
    apply list_lookup_insert_eq. apply (dc_memo_p _ _ _ Hok) in Ha. lia.
  - destruct (Hp a' b' Hm) as (p1 & p1' & H0 & Hs & Himg1); [by intros [?|?]|].
    exists p1, p1'. split_and!; [done| |done].
    rewrite list_lookup_insert_ne; [done|]. intros ->. apply Hne. by eapply Hip.
Qed.

Lemma deepcopy_opt_img (s0 : store) (rec : naddr -> memo -> M (naddr * memo)) :
  dc_fun_img s0 (length (s_nodes s0)) m_nodes rec ->
  forall ON OP q m s s' q' m',
    valid_opt (length (s_nodes s0)) q -> dc_ok s0 m s -> dc_img s0 ON OP m s ->
    deepcopy_opt rec q m s = (s', Ok (q', m')) ->
    dc_img s0 ON OP m' s' /\ memo_le m m' /\ memo_opt (m_nodes m') q q'.
Proof.
  intros Hrec ON OP [a|] m s s' q' m' Hv Hok Himg H; simpl in H.
  - inv_bind H as s1 [b m1] Ha. apply ret_Ok in H as [-> [= -> ->]].
    destruct (Hrec _ _ _ _ _ _ _ _ Hv Hok Himg Ha) as (? & ? & ?). auto.
  - apply ret_Ok in H as [-> [= -> ->]]. split_and!; [done|apply memo_le_refl|done].
Qed.

Lemma deepcopy_list_img (s0 : store) (len0 base : nat) (get : memo -> gmap nat nat)
    (f : nat -> memo -> M (nat * memo)) :
  (forall m m', memo_le m m' -> get m ⊆ get m') ->
  dc_fun_ok s0 base f -> dc_fun_img s0 len0 get f ->
  forall ON OP xs m s s' ys m',
    Forall (fun x => (x < len0)%nat) xs -> dc_ok s0 m s -> dc_img s0 ON OP m s ->
    deepcopy_list f xs m s = (s', Ok (ys, m')) ->
    dc_img s0 ON OP m' s' /\ memo_le m m' /\ memo_list (get m') xs ys.
Proof.
  intros Hget Hfok Hf ON OP.
  induction xs as [|x xs IH]; intros m s s' ys m' Hv Hok Himg H; simpl in H.
  - apply ret_Ok in H as [-> [= -> ->]].
    split_and!; [done|apply memo_le_refl|constructor].
  - apply Forall_cons in Hv as [Hx Hv].
    inv_bind H as s1 [y m1] Hy. inv_bind H as s2 [ys' m2] Hys.
    apply ret_Ok in H as [-> [= -> ->]].
    destruct (Hf _ _ _ _ _ _ _ _ Hx Hok Himg Hy) as (Himg1 & Hle1 & Hm1).
    destruct (Hfok _ _ _ _ _ _ Hok Hy) as (Hok1 & _ & _).
    destruct (IH _ _ _ _ _ Hv Hok1 Himg1 Hys) as (Himg2 & Hle2 & Hl2).
    split_and!; [done|by eapply memo_le_trans|].
    constructor; [|done]. eapply lookup_weaken; [exact Hm1|by apply Hget].
Qed.

Lemma deepcopy_prop_img (s0 : store) (rec : naddr -> memo -> M (naddr * memo)) :
  wf s0 -> dc_fun_ok s0 (length (s_nodes s0)) rec ->
  dc_fun_img s0 (length (s_nodes s0)) m_nodes rec ->
  dc_fun_img s0 (length (s_props s0)) m_props (deepcopy_prop rec).
Proof.
  intros Hwf Hrok Hrec ON OP a m s s' b m' Ha Hok Himg H. unfold deepcopy_prop in H.
  destruct (m_props m !! a) as [b0|] eqn:Hm.
  - apply ret_Ok in H as [-> [= -> ->]]. split_and!; [done|apply memo_le_refl|done].
  - inv_read H as p Hp. apply load_prop_Ok in Hp.
    rewrite (dc_old_p _ _ _ Hok) in Hp by done.
    inv_bind H as s1 b' Hb. unfold alloc_prop in Hb. injection Hb as <- <-.
    inv_bind H as s2 [parent m2] Hpar.
    inv_bind H as s3 u Hw. unfold write_prop in Hw. injection Hw as <-.
    apply ret_Ok in H as [-> [= -> ->]].
    pose proof (dc_ok_alloc_prop s0 m s a (with_parent p None) Hok) as Hok1.
    pose proof (dc_img_alloc_prop s0 ON OP m s a (with_parent p None) Hok Himg Hm) as Himg1.
    destruct (deepcopy_opt_ok s0 rec Hrok _ _ _ _ _ _ Hok1 Hpar) as (Hok2 & _ & _).
    destruct (deepcopy_opt_img s0 rec Hrec _ _ _ _ _ _ _ _
                (wf_prop _ Hwf a p Hp) Hok1 Himg1 Hpar) as (Himg2 & Hle2 & Hq).
    assert (Hab : m_props m2 !! a = Some (length (s_props s))).
    { eapply lookup_weaken; [|exact (proj2 Hle2)]. simpl. apply lookup_insert_eq. }
    split_and!.
    + eapply dc_img_close_prop; [exact Hok2|exact Himg2|exact Hab|exact Hp|].
      split; [|by destruct p].
      destruct p as [nm q [d|]|nm q d|nm q d w|nm q d]; reflexivity.
    + eapply memo_le_trans; [|exact Hle2]. split; simpl; [done|by apply insert_subseteq].
    + exact Hab.
Qed.

Lemma deepcopy_node_img (s0 : store) (fuel : nat) :
  wf s0 -> dc_fun_img s0 (length (s_nodes s0)) m_nodes (deepcopy_node fuel).
Proof.
  intros Hwf. induction fuel as [|fuel IH]; intros ON OP x m s s' y m' Hx Hok Himg H;
    [discriminate|].
  simpl in H. destruct (m_nodes m !! x) as [y0|] eqn:Hm.
  - apply ret_Ok in H as [-> [= -> ->]]. split_and!; [done|apply memo_le_refl|done].
  - inv_read H as n Hn. apply load_node_Ok in Hn.
    rewrite (dc_old_n _ _ _ Hok) in Hn by done.
    inv_bind H as s1 b Hb. unfold alloc_node in Hb. injection Hb as <- <-.
    inv_bind H as s2 [parent m2] Hpar.
    inv_bind H as s3 [props m3] Hprops.
    inv_bind H as s4 [nodes m4] Hnodes.
    inv_bind H as s5 u Hw. unfold write_node in Hw. injection Hw as <-.
    apply ret_Ok in H as [-> [= -> ->]].
    destruct (deepcopy_node_ok s0 fuel) as [Hrok _].
    destruct (wf_node _ Hwf x n Hn) as (Hvq & Hvn & Hvp).
    pose proof (dc_ok_alloc_node s0 m s x (n_name n) Hok) as Hok1.
    pose proof (dc_img_alloc_node s0 ON OP m s x (n_name n) Hok Himg Hm) as Himg1.
    destruct (deepcopy_opt_ok s0 _ Hrok _ _ _ _ _ _ Hok1 Hpar) as (Hok2 & _ & _).
    destruct (deepcopy_opt_img s0 _ IH _ _ _ _ _ _ _ _ Hvq Hok1 Himg1 Hpar)
      as (Himg2 & Hle2 & Hq).
    destruct (deepcopy_list_ok s0 _ _ (deepcopy_prop_ok s0 _ Hrok) _ _ _ _ _ _ Hok2 Hprops)
      as (Hok3 & _ & _).
    destruct (deepcopy_list_img s0 _ _ m_props _ (fun _ _ H => proj2 H)
                (deepcopy_prop_ok s0 _ Hrok) (deepcopy_prop_img s0 _ Hwf Hrok IH)
                _ _ _ _ _ _ _ _ Hvp Hok2 Himg2 Hprops) as (Himg3 & Hle3 & Hps).
    destruct (deepcopy_list_ok s0 _ _ Hrok _ _ _ _ _ _ Hok3 Hnodes) as (Hok4 & _ & _).
    destruct (deepcopy_list_img s0 _ _ m_nodes _ (fun _ _ H => proj1 H) Hrok IH
                _ _ _ _ _ _ _ _ Hvn Hok3 Himg3 Hnodes) as (Himg4 & Hle4 & Hns).
    pose proof (memo_le_trans _ _ _ Hle2 (memo_le_trans _ _ _ Hle3 Hle4)) as Hle.
    assert (Hxy : m_nodes m4 !! x = Some (length (s_nodes s))).
    { eapply lookup_weaken; [|exact (proj1 Hle)]. simpl. apply lookup_insert_eq. }
    split_and!.
    + eapply dc_img_close_node; [exact Hok4|exact Himg4|exact Hxy|exact Hn|].
      split_and!; simpl; [done| | |done].
      * eapply memo_opt_mono; [|exact Hq].
        exact (proj1 (memo_le_trans _ _ _ Hle3 Hle4)).
      * eapply memo_list_mono; [|exact Hps]. exact (proj2 Hle4).
    + eapply memo_le_trans; [|exact Hle]. split; simpl; [by apply insert_subseteq|done].
    + exact Hxy.
Qed.

(** A deep copy of a node of a well-formed store returns with a memo in
    which every object has its finished copy. *)
Lemma deepcopy_img (fuel : nat) (x : naddr) (s s' : store) (y : naddr) :
  wf s -> (x < length (s_nodes s))%nat -> deepcopy fuel x s = (s', Ok y) ->
  exists m, dc_ok s m s' /\ dc_img s (fun _ => False) (fun _ => False) m s' /\
            m_nodes m !! x = Some y.
Proof.
  intros Hwf Hx H. unfold deepcopy in H.
  inv_bind H as s1 [y' m] Hdc. apply ret_Ok in H as [-> ->].
  destruct (deepcopy_node_ok s fuel) as [Hok _].
  destruct (Hok _ _ _ _ _ _ (dc_ok_start s) Hdc) as (Hok' & _ & _).
  destruct (deepcopy_node_img s fuel Hwf _ _ _ _ _ _ _ _ Hx (dc_ok_start s)
              (dc_img_start s) Hdc) as (Himg & _ & Hxy).
  eauto.
Qed.

(** ** Children appended by a merge *)

Lemma get_subnode_index_loop_named (s : store) (nm : str) (l : list naddr) :
  forall k i, get_subnode_index_loop s l nm k = Ok (Some i) ->
              Some nm ∈ node_names s l.
Proof.
  induction l as [|a l IH]; intros k i; simpl; [discriminate|].
  destruct (load_node a s) as [n|] eqn:Hn; simpl; [|discriminate].
  apply load_node_Ok in Hn. unfold node_names. simpl.
  case_bool_decide as Hnm.
  - intros _. rewrite Hn. simpl. rewrite Hnm. apply list_elem_of_here.
  - intros H%IH. by apply list_elem_of_further.
Qed.

Lemma child_named_evolves (s s' : store) (self : naddr) (n : node) (nm : str) :
  evolves s s' -> s_nodes s !! self = Some n ->
  Some nm ∈ node_names s (n_nodes n) ->
  exists n', s_nodes s' !! self = Some n' /\ Some nm ∈ node_names s' (n_nodes n').
Proof.
  intros Hev Hn (c & Hc & Hin)%list_elem_of_fmap.
  destruct (s_nodes s !! c) as [nc|] eqn:Hnc; [|discriminate].
  simpl in Hc. injection Hc as Hc.
  destruct (ev_node _ _ Hev self n Hn) as (n' & en & ep & Hn' & _ & _ & Hns & _).
  destruct (ev_node _ _ Hev c nc Hnc) as (nc' & _ & _ & Hnc' & Hname & _).
  exists n'. split; [done|].
  apply list_elem_of_fmap. exists c. split.
  - rewrite Hnc'. simpl. congruence.
  - rewrite Hns. apply elem_of_app. by left.
Qed.

(** After the second loop, [self] has a child named like each node the
    loop ran over. *)
Lemma second_loop_named (fuel : nat) (rec : naddr -> naddr -> M unit) (self : naddr) :
  (forall t x s s' u, rec t x s = (s', Ok u) -> evolves s s') ->
  forall xs s s' u,
    for_each (merge_node fuel rec self) xs s = (s', Ok u) ->
    forall x sub, x ∈ xs -> s_nodes s !! x = Some sub ->
      exists n', s_nodes s' !! self = Some n' /\
                 Some (n_name sub) ∈ node_names s' (n_nodes n').
Proof.
  intros Hrec. induction xs as [|x0 xs IH]; intros s s' u H x sub Hx Hsub.
  - by apply elem_of_nil in Hx.
  - simpl in H. inv_bind H as s1 u1 Hx0.
    pose proof (merge_node_evolves fuel rec self x0 Hrec _ _ _ Hx0) as Hev1.
    assert (Hev2 : evolves s1 s').
    { eapply for_each_evolves; [|exact H]. intros y s2 s3 u2 Hy.
      by eapply merge_node_evolves. }
    apply elem_of_cons in Hx as [->|Hx].
    + assert (exists n1, s_nodes s1 !! self = Some n1 /\
                         Some (n_name sub) ∈ node_names s1 (n_nodes n1)) as (n1 & Hn1 & Hin).
      { pose proof Hx0 as Hx0'. unfold merge_node in Hx0'.
        inv_read Hx0' as sub' Hsub'. apply load_node_Ok in Hsub'.
        assert (sub' = sub) as -> by congruence.
        inv_read Hx0' as index Hidx. destruct index as [i|].
        - unfold get_subnode_index in Hidx.
          destruct (load_node self s) as [nself|] eqn:Hself; [|discriminate].
          apply load_node_Ok in Hself. simpl in Hidx.
          apply get_subnode_index_loop_named in Hidx.
          by eapply child_named_evolves.
        - destruct (merge_node_absent _ _ _ _ _ _ _ _ Hsub Hidx Hx0)
            as (c & nc & nself & _ & Hself1 & _ & Hc & Hname & _).
          eexists. split; [exact Hself1|]. simpl.
          apply list_elem_of_fmap. exists c. split.
          + rewrite Hc. simpl. congruence.
          + apply elem_of_app. right. apply list_elem_of_here. }
      by eapply child_named_evolves.
    + destruct (ev_node _ _ Hev1 x sub Hsub) as (sub1 & _ & _ & Hsub1 & Hname & _).
      rewrite <- Hname. by eapply IH.
Qed.

Lemma merge_child_named (fuel : nat) (self other : naddr) (replace : bool)
    (s s' : store) (no : node) (x : naddr) (sub : node) :
  Node_merge fuel self other replace s = (s', Ok tt) ->
  s_nodes s !! other = Some no -> x ∈ n_nodes no -> s_nodes s !! x = Some sub ->
  exists n', s_nodes s' !! self = Some n' /\
             Some (n_name sub) ∈ node_names s' (n_nodes n').
Proof.
  intros H Hno Hx Hsub. destruct fuel as [|fuel]; [discriminate|]. simpl in H.
  inv_read H as other0 Hother0.
  inv_bind H as s1 u1 Hprops.
  inv_read H as other1 Hother1. apply load_node_Ok in Hother1.
  assert (Hev1 : evolves s s1).
  { eapply for_each_evolves; [|exact Hprops]. intros. by eapply merge_prop_evolves. }
  destruct (ev_node _ _ Hev1 other no Hno) as (no1 & en & ep & Hno1 & _ & _ & Hns & _).
  assert (other1 = no1) as -> by congruence.
  destruct (ev_node _ _ Hev1 x sub Hsub) as (sub1 & _ & _ & Hsub1 & Hname & _).
  rewrite <- Hname.
  eapply (second_loop_named fuel _ self); [|exact H| |exact Hsub1].
  - intros t y s2 s3 u2 Hr. simpl in Hr. by eapply Node_merge_evolves.
  - rewrite Hns. apply elem_of_app. by left.
Qed.

(** * Further properties of the encoder *)

Lemma prop_to_dtb_pos (T : dtb_tags) (p : prop) (strings : str) (pos version : Z)
    (blob : bytes) (strings' : str) (pos' : Z) :
  prop_to_dtb T p strings pos version = Ok (blob, strings', pos') ->
  pos' = pos + len blob /\ 12 <= len blob.
Proof.
  destruct p as [name ? ?|name ? d|name ? d w|name ? d]; simpl.
  - unfold Property_to_dtb. destruct (name_offset strings name) as [strpos st].
    destruct (pack_III _ _ _) as [h|] eqn:Hh; simpl; [|discriminate].
    intros [= <- <- <-]. apply pack_III_length in Hh. unfold len. rewrite Hh. simpl. lia.
  - intros (raw & header & _ & Hh & -> & _ & ->)%PropStrings_to_dtb_inv.
    split; [reflexivity|]. apply pack_III_length in Hh.
    rewrite len_app. pose proof (len_nonneg (zeros (leading_pad pos version) ++ raw ++
                                              zeros (trailing_pad (len raw)))).
    unfold len in *. rewrite Hh. lia.
  - unfold PropWords_to_dtb. destruct (name_offset strings name) as [strpos st].
    destruct (pack_III _ _ _) as [h|] eqn:Hh; simpl; [|discriminate].
    destruct (words_blob _ _) as [b|] eqn:Hb; simpl; [|discriminate].
    intros [= <- <- <-]. split; [reflexivity|].
    apply words_blob_len in Hb. apply pack_III_length in Hh. rewrite Hb.
    pose proof (len_nonneg (items d)). unfold len in *. rewrite Hh. lia.
  - unfold PropBytes_to_dtb. destruct (name_offset strings name) as [strpos st].
    destruct (pack_III _ _ _) as [h|] eqn:Hh; simpl; [|discriminate].
    destruct (bytearray _) as [raw|] eqn:Hb; simpl; [|discriminate].
    intros [= <- <- <-]. split; [reflexivity|]. apply pack_III_length in Hh.
    assert (12 <= len (h ++ raw)).
    { rewrite len_app. pose proof (len_nonneg raw). unfold len in *. rewrite Hh. lia. }
    destruct (negb _); [|done]. rewrite len_app.
    pose proof (len_nonneg (zeros (4 - len (h ++ raw) mod 4))). lia.
Qed.

(** What a loop over records adds to the blob, when each record advances
    the offset by its length and keeps it a multiple of four. *)
Lemma dtb_loop_length (f : nat -> str -> Z -> result (bytes * str * Z)) (xs : list nat) :
  (forall x strings pos data strings' pos',
      f x strings pos = Ok (data, strings', pos') ->
      pos' = pos + len data /\ (pos mod 4 = 0 -> len data mod 4 = 0)) ->
  forall blob strings pos blob' strings' pos',
    dtb_loop f xs blob strings pos = Ok (blob', strings', pos') ->
    exists added, blob' = blob ++ added /\ pos' = pos + len added /\
                  (pos mod 4 = 0 -> len added mod 4 = 0).
Proof.
  intros Hf. induction xs as [|x xs IH]; intros blob strings pos blob' strings' pos'; simpl.
  - intros [= <- <- <-]. exists []. rewrite app_nil_r. unfold len. simpl.
    split_and!; [done|lia|done].
  - destruct (f x strings pos) as [[[data st] ps]|] eqn:Hx; simpl; [|discriminate].
    intros (added & -> & -> & Hal)%IH. apply Hf in Hx as [-> Hd].
    exists (data ++ added). rewrite len_app, app_assoc. split_and!; [done|lia|].
    intros Hpos. specialize (Hd Hpos). apply mod4_add; [done|].
    apply Hal. by apply mod4_add.
Qed.

Lemma Node_to_dtb_shape (T : dtb_tags) (s : store) (version : Z) (fuel : nat) :
  forall self strings pos blob strings' pos',
    Node_to_dtb fuel T s version self strings pos = Ok (blob, strings', pos') ->
    (pos' = pos + len blob /\ (pos mod 4 = 0 -> len blob mod 4 = 0)) /\
    exists n b mid tag,
      s_nodes s !! self = Some n /\ begin_node T (n_name n) = Ok b /\
      pack_u32 (DTB_END_NODE T) = Ok tag /\ blob = b ++ mid ++ tag.
Proof.
  induction fuel as [|fuel IH]; intros self strings pos blob strings' pos'; simpl;
    [discriminate|].
  destruct (load_node self s) as [n|] eqn:Hn; simpl; [|discriminate].
  apply load_node_Ok in Hn.
  destruct (begin_node T (n_name n)) as [b|] eqn:Hb; simpl; [|discriminate].
  destruct (dtb_loop (prop_to_dtb_at T s version) _ _ _ _) as [[[b1 st1] p1]|] eqn:H1;
    simpl; [|discriminate].
  destruct (dtb_loop (Node_to_dtb fuel T s version) _ _ _ _) as [[[b2 st2] p2]|] eqn:H2;
    simpl; [|discriminate].
  destruct (pack_u32 _) as [tag|] eqn:Ht; simpl; [|discriminate].
  intros [= <- <- <-].
  apply dtb_loop_length in H1 as (a1 & -> & -> & Ha1).
  2:{ intros x st ps bl st' ps'. unfold prop_to_dtb_at.
      destruct (load_prop x s) as [p|]; simpl; [|discriminate].
      intros H. split; [by apply prop_to_dtb_pos in H as [-> _]|].
      intros Hpos. by destruct (prop_record_aligned _ _ _ _ _ _ _ _ Hpos H). }
  apply dtb_loop_length in H2 as (a2 & -> & -> & Ha2).
  2:{ intros x st ps bl st' ps' H. by apply IH in H as [H _]. }
  pose proof (proj1 (begin_node_shape _ _ _ Hb)) as Hbal.
  apply pack_u32_length in Ht as Htl.
  split.
  - rewrite !len_app. replace (len tag) with 4 by (unfold len; by rewrite Htl).
    split; [lia|]. intros Hpos.
    assert (H1 : len a1 mod 4 = 0) by (apply Ha1; by apply mod4_add).
    assert (H2 : len a2 mod 4 = 0) by (apply Ha2; by repeat apply mod4_add).
    by repeat apply mod4_add.
  - exists n, b, (a1 ++ a2), tag. split_and!; auto. by rewrite <- !app_assoc.
Qed.

(** X1. The offset [Node.to_dtb] returns is the offset it was given plus
    the length of the blob it returns; when the offset given is a multiple
    of four, so is the length of the blob, with the records of all the
    properties and nodes below. *)
Theorem Node_to_dtb_length (T : dtb_tags) (s : store) (version : Z) (fuel : nat)
    (self : naddr) (strings : str) (pos : Z) (blob : bytes) (strings' : str) (pos' : Z) :
  Node_to_dtb fuel T s version self strings pos = Ok (blob, strings', pos') ->
  pos' = pos + len blob /\ (pos mod 4 = 0 -> len blob mod 4 = 0).
Proof. intros H. by apply Node_to_dtb_shape in H as [H _]. Qed.

Lemma Node_to_dtb_length_witness :
  exists blob strings',
    Node_to_dtb 5 fdt_tags sample_store 17 0%nat [] 8 = Ok (blob, strings', 8 + len blob) /\
    (8 mod 4 = 0 -> len blob mod 4 = 0).
Proof.
  destruct (Node_to_dtb 5 fdt_tags sample_store 17 0%nat [] 8)
    as [[[blob st] ps]|] eqn:H; [|by vm_compute in H].
  exists blob, st.
  destruct (Node_to_dtb_length _ _ _ _ _ _ _ _ _ _ H) as [-> Hal]. by split.
Defined.

(** X2. The blob [Node.to_dtb] returns starts with the begin-node record
    of the node, padded to a multiple of four, and ends with the four bytes
    of the end-node tag. *)
Theorem Node_to_dtb_framed (T : dtb_tags) (s : store) (version : Z) (fuel : nat)
    (self : naddr) (strings : str) (pos : Z) (blob : bytes) (strings' : str) (pos' : Z) :
  Node_to_dtb fuel T s version self strings pos = Ok (blob, strings', pos') ->
  exists n b mid tag,
    s_nodes s !! self = Some n /\ begin_node T (n_name n) = Ok b /\
    pack_u32 (DTB_END_NODE T) = Ok tag /\ blob = b ++ mid ++ tag.
Proof. intros H. by apply Node_to_dtb_shape in H as [_ H]. Qed.

Lemma Node_to_dtb_framed_witness :
  exists blob strings' pos' n b mid tag,
    Node_to_dtb 5 fdt_tags sample_store 17 0%nat [] 0 = Ok (blob, strings', pos') /\
    s_nodes sample_store !! 0%nat = Some n /\ begin_node fdt_tags (n_name n) = Ok b /\
    pack_u32 (DTB_END_NODE fdt_tags) = Ok tag /\ blob = b ++ mid ++ tag.
Proof.
  destruct (Node_to_dtb 5 fdt_tags sample_store 17 0%nat [] 0)
    as [[[blob st] ps]|] eqn:H; [|by vm_compute in H].
  destruct (Node_to_dtb_framed _ _ _ _ _ _ _ _ _ _ H) as (n & b & mid & tag & H1).
  by exists blob, st, ps, n, b, mid, tag.
Defined.

Lemma find_at (s sub : str) :
  0 <= find s sub -> starts_with (drop (Z.to_nat (find s sub)) s) sub = true.
Proof.
  induction s as [|c s IH]; simpl.
  - destruct (starts_with [] sub) eqn:E; [done|lia].
  - destruct (starts_with (c :: s) sub) eqn:E; [done|].
    destruct (find s sub <? 0) eqn:Hlt; [lia|]. apply Z.ltb_ge in Hlt. intros _.
    replace (Z.to_nat (1 + find s sub)) with (S (Z.to_nat (find s sub))) by lia.
    simpl. by apply IH.
Qed.

Lemma name_offset_at (strings name : str) :
  0 <= fst (name_offset strings name) /\
  take (length name + 1) (drop (Z.to_nat (fst (name_offset strings name)))
                               (snd (name_offset strings name)))
  = name ++ [NUL].
Proof.
  unfold name_offset. destruct (find strings (name ++ [NUL]) <? 0) eqn:E; simpl.
  - split; [apply len_nonneg|]. unfold len. rewrite Nat2Z.id, drop_app_length.
    apply take_ge. rewrite length_app. simpl. lia.
  - apply Z.ltb_ge in E. split; [done|].
    apply find_at, starts_with_spec in E as [r ->].
    replace (length name + 1)%nat with (length (name ++ [NUL]))
      by (rewrite length_app; simpl; lia).
    by rewrite take_app_length.
Qed.

(** X3. The name field of the record of a property is an offset into the
    string table the encoder returns, at which that table holds the name
    of the property followed by a NUL; the table returned is the table
    given with, at most, something added at its end. *)
Theorem prop_to_dtb_name_at_offset (T : dtb_tags) (p : prop) (strings : str)
    (pos version : Z) (blob : bytes) (strings' : str) (pos' : Z) :
  prop_to_dtb T p strings pos version = Ok (blob, strings', pos') ->
  exists off ext,
    pack_u32 off = Ok (field 2 blob) /\ 0 <= off /\ strings' = strings ++ ext /\
    take (length (prop_name p) + 1) (drop (Z.to_nat off) strings') = prop_name p ++ [NUL].
Proof.
  intros [-> Hoff]%prop_to_dtb_name_offset.
  destruct (name_offset_extends strings (prop_name p)) as [ext Hext].
  destruct (name_offset_at strings (prop_name p)) as [H0 Hat].
  exists (fst (name_offset strings (prop_name p))), ext. by split_and!.
Qed.

Lemma prop_to_dtb_name_at_offset_witness :
  exists off ext,
    pack_u32 off = Ok (field 2 [0; 0; 0; 3; 0; 0; 0; 4; 0; 0; 0; 4; 0; 0; 0; 7]) /\
    0 <= off /\ py "foo" ++ [NUL] ++ py "reg" ++ [NUL] = (py "foo" ++ [NUL]) ++ ext /\
    take (length (py "reg") + 1)
         (drop (Z.to_nat off) (py "foo" ++ [NUL] ++ py "reg" ++ [NUL]))
    = py "reg" ++ [NUL].
Proof.
  exact (prop_to_dtb_name_at_offset fdt_tags
           (PropWords (py "reg") None (PyList [PyInt 7]) 32)
           (py "foo" ++ [NUL]) 0 17 _ _ 16 eq_refl).
Defined.

Lemma words_blob_rejects (data : list pyval) (w : Z) :
  PyInt w ∈ data -> ~ (0 <= w < 2 ^ 32) ->
  forall acc, words_blob data acc = Raise EncodeError.
Proof.
  intros Hin Hw. induction data as [|v data IH]; intros acc.
  - by apply elem_of_nil in Hin.
  - destruct v as [x|z]; simpl; [done|].
    unfold pack_u32 at 1.
    destruct ((0 <=? z) && (z <? 2 ^ 32)) eqn:E; simpl.
    + apply IH. apply elem_of_cons in Hin as [[= ->]|Hin]; [|done].
      apply andb_true_iff in E as [?%Z.leb_le ?%Z.ltb_lt]. lia.
    + done.
Qed.

Lemma pack_III_EncodeError (a b c : Z) (e : exn) : pack_III a b c = Raise e -> e = EncodeError.
Proof.
  unfold pack_III, pack_u32.
  repeat (destruct (_ && _); simpl; [|by intros [= <-]]). discriminate.
Qed.

(** X4. A words property accepts, with a word size above 32, words of
    more than 32 bits, and [to_dtb] packs every word into four bytes: the
    encoder raises on a property that holds a word outside [0, 2^32). *)
Theorem PropWords_wide_word_not_encoded (T : dtb_tags) (name : str) (args : list pyval)
    (wsize : Z) (parent : option naddr) (p : prop) (w : Z)
    (strings : str) (pos version : Z) :
  PropWords_init name args wsize parent = Ok p ->
  PyInt w ∈ args -> 2 ^ 32 <= w ->
  prop_to_dtb T p strings pos version = Raise EncodeError.
Proof.
  intros Hinit Hin Hw. unfold PropWords_init in Hinit.
  destruct (BaseItem___init__ name); simpl in Hinit; [|discriminate].
  destruct (append_all _ _ _) as [d|] eqn:Hd; simpl in Hinit; [|discriminate].
  injection Hinit as <-.
  apply append_all_PyList in Hd. simpl in Hd. subst d. simpl.
  unfold PropWords_to_dtb. destruct (name_offset strings name) as [strpos st].
  destruct (pack_III _ _ _) as [h|e] eqn:Hh; simpl.
  - rewrite (words_blob_rejects args w Hin); [done|lia].
  - by apply pack_III_EncodeError in Hh as ->.
Qed.

Lemma PropWords_wide_word_not_encoded_witness :
  PropWords_init (py "reg") [PyInt 1; PyInt (2 ^ 40)] 64 None
  = Ok (PropWords (py "reg") None (PyList [PyInt 1; PyInt (2 ^ 40)]) 64) /\
  prop_to_dtb fdt_tags (PropWords (py "reg") None (PyList [PyInt 1; PyInt (2 ^ 40)]) 64)
              [] 0 17 = Raise EncodeError.
Proof.
  split; [reflexivity|].
  assert (Hin : PyInt (2 ^ 40) ∈ [PyInt 1; PyInt (2 ^ 40)]) by (right; left).
  exact (PropWords_wide_word_not_encoded fdt_tags (py "reg") [PyInt 1; PyInt (2 ^ 40)] 64 None
           _ (2 ^ 40) [] 0 17 eq_refl Hin ltac:(lia)).
Defined.

(** * Decoding raw values *)

Lemma byte_of_word (z k : Z) : 0 <= k -> Z.land (Z.shiftr z k) 255 = (z / 2 ^ k) mod 256.
Proof.
  intros Hk. rewrite Z.shiftr_div_pow2 by lia. change 255 with (Z.ones 8).
  rewrite Z.land_ones by lia. reflexivity.
Qed.

Lemma lor_bytes (hi lo k : Z) :
  0 <= k -> 0 <= lo < 2 ^ k -> Z.lor (Z.shiftl hi k) lo = hi * 2 ^ k + lo.
Proof.
  intros Hk Hlo. rewrite Z.shiftl_mul_pow2 by lia.
  assert (Hdisj : Z.land (hi * 2 ^ k) lo = 0).
  { apply Z.bits_inj'. intros n Hn. rewrite Z.land_spec, Z.bits_0.
    destruct (Z_lt_le_dec n k).
    - rewrite Z.mul_pow2_bits_low by lia. reflexivity.
    - destruct (Z.eq_dec lo 0) as [->|]. { rewrite Z.bits_0. apply andb_false_r. }
      rewrite (Z.bits_above_log2 lo n); [apply andb_false_r|lia|].
      apply Z.log2_lt_pow2; [lia|].
      apply Z.lt_le_trans with (2 ^ k); [lia|apply Z.pow_le_mono_r; lia]. }
  rewrite Z.add_nocarry_lxor by exact Hdisj. symmetry. apply Z.lxor_lor. exact Hdisj.
Qed.

Lemma word_of_bytes (b0 b1 b2 b3 : Z) :
  0 <= b0 < 256 -> 0 <= b1 < 256 -> 0 <= b2 < 256 -> 0 <= b3 < 256 ->
  Z.lor (Z.shiftl b0 24) (Z.lor (Z.shiftl b1 16) (Z.lor (Z.shiftl b2 8) b3))
  = ((b0 * 256 + b1) * 256 + b2) * 256 + b3.
Proof.
  intros H0 H1 H2 H3.
  rewrite (lor_bytes b2 b3 8) by lia.
  rewrite (lor_bytes b1 _ 16) by lia.
  rewrite (lor_bytes b0 _ 24) by lia.
  lia.
Qed.

Lemma pack_u32_bytes (z : Z) (b : bytes) :
  pack_u32 z = Ok b ->
  0 <= z < 2 ^ 32 /\
  b = [(z / 16777216) mod 256; (z / 65536) mod 256; (z / 256) mod 256; z mod 256].
Proof.
  unfold pack_u32. destruct ((0 <=? z) && (z <? 2 ^ 32)) eqn:E; [|discriminate].
  apply andb_true_iff in E as [?%Z.leb_le ?%Z.ltb_lt]. intros [= <-]. split; [lia|].
  rewrite !byte_of_word by lia. change 255 with (Z.ones 8). rewrite Z.land_ones by lia.
  reflexivity.
Qed.

(** Unpacking the four bytes of a packed word gives the word. *)
Lemma unpack_pack (z : Z) (b : bytes) : pack_u32 z = Ok b -> unpack_u32 b = Ok z.
Proof.
  intros [Hz ->]%pack_u32_bytes. unfold unpack_u32. f_equal.
  rewrite word_of_bytes by (apply Z.mod_pos_bound; lia).
  change (2 ^ 32) with 4294967296 in Hz. Z.div_mod_to_equations. lia.
Qed.

(** Packing the word unpacked from four bytes gives the bytes. *)
Lemma pack_unpack (b0 b1 b2 b3 : Z) :
  0 <= b0 < 256 -> 0 <= b1 < 256 -> 0 <= b2 < 256 -> 0 <= b3 < 256 ->
  exists w, unpack_u32 [b0; b1; b2; b3] = Ok w /\ 0 <= w < 2 ^ 32 /\
            pack_u32 w = Ok [b0; b1; b2; b3].
Proof.
  intros H0 H1 H2 H3. eexists. split; [reflexivity|].
  rewrite word_of_bytes by lia.
  set (w := ((b0 * 256 + b1) * 256 + b2) * 256 + b3).
  assert (Hw : 0 <= w < 2 ^ 32) by (change (2 ^ 32) with 4294967296; lia).
  split; [exact Hw|]. unfold pack_u32.
  rewrite (proj2 (andb_true_iff _ _)) by (split; [apply Z.leb_le|apply Z.ltb_lt]; lia).
  rewrite !byte_of_word by lia. change 255 with (Z.ones 8). rewrite Z.land_ones by lia.
  change (2 ^ 24) with 16777216. change (2 ^ 16) with 65536. change (2 ^ 8) with 256.
  assert (E0 : (w / 16777216) mod 256 = b0) by (unfold w; Z.div_mod_to_equations; lia).
  assert (E1 : (w / 65536) mod 256 = b1) by (unfold w; Z.div_mod_to_equations; lia).
  assert (E2 : (w / 256) mod 256 = b2) by (unfold w; Z.div_mod_to_equations; lia).
  assert (E3 : w mod 256 = b3) by (unfold w; Z.div_mod_to_equations; lia).
  change (2 ^ 8) with 256. by rewrite E0, E1, E2, E3.
Qed.

Lemma words_blob_split (data : list pyval) :
  forall acc blob, words_blob data acc = Ok blob ->
    exists raw, blob = acc ++ raw /\ (length raw = 4 * length data)%nat /\
                forall acc', words_blob data acc' = Ok (acc' ++ raw).
Proof.
  induction data as [|[x|w] data IH]; intros acc blob; simpl.
  - intros [= <-]. exists []. rewrite app_nil_r. split_and!; [done..|].
    intros acc'. by rewrite app_nil_r.
  - discriminate.
  - destruct (pack_u32 w) as [wb|] eqn:Hw; simpl; [|discriminate].
    intros (raw & -> & Hlen & Hall)%IH. exists (wb ++ raw).
    apply pack_u32_length in Hw. rewrite length_app, <- app_assoc.
    split_and!; [done|lia|]. intros acc'. rewrite Hall. by rewrite <- app_assoc.
Qed.

Lemma range4_words (n : nat) : range4 (4 * n) = (fun k => (4 * k)%nat) <$> seq 0 n.
Proof.
  unfold range4. f_equal. f_equal. symmetry. apply (Nat.div_unique _ 4 n 3); lia.
Qed.

Lemma words_loop_decodes (data : list pyval) :
  forall pre raw d0 k,
    words_blob data pre = Ok (pre ++ raw) -> length pre = (4 * k)%nat ->
    words_loop (pre ++ raw) ((fun j => (4 * j)%nat) <$> seq k (length data)) (PyList d0)
    = Ok (PyList (d0 ++ data)).
Proof.
  induction data as [|[x|w] data IH]; intros pre raw d0 k; simpl.
  - intros _ _. by rewrite app_nil_r.
  - discriminate.
  - destruct (pack_u32 w) as [wb|] eqn:Hw; simpl; [|discriminate]. intros H Hpre.
    destruct (words_blob_split _ _ _ H) as (raw' & Heq & _ & _).
    rewrite <- app_assoc in Heq. apply app_inv_head in Heq. subst raw.
    rewrite <- Hpre, drop_app_length.
    pose proof (pack_u32_length _ _ Hw) as Hl.
    rewrite (take_app_length' wb raw' 4 (eq_sym Hl)).
    rewrite (unpack_pack _ _ Hw). simpl.
    apply pack_u32_bytes in Hw as Hr. destruct Hr as [Hr _].
    unfold checked_append, PropWords_check, in_word_range. simpl.
    rewrite (proj2 (andb_true_iff _ _)) by (split; [apply Z.leb_le|apply Z.ltb_lt]; lia).
    simpl. rewrite (app_assoc pre wb raw').
    etrans; [apply (IH (pre ++ wb) raw' (d0 ++ [PyInt w]) (S k))|].
    + by rewrite <- app_assoc.
    + rewrite length_app. lia.
    + by rewrite <- app_assoc.
Qed.

(** X5. Decoding the payload of the record of a words property gives the
    property back: when [is_string] rejects the payload, [new_property]
    returns a words property of word size 32 with the same name and the
    same words, without parent. *)
Theorem new_property_words_roundtrip (is_string : bytes -> bool) (T : dtb_tags)
    (name : str) (q : option naddr) (data : list pyval) (w : Z)
    (strings : str) (pos version : Z) (blob : bytes) (strings' : str) (pos' : Z) :
  forallb printable name = true -> data <> [] ->
  prop_to_dtb T (PropWords name q (PyList data) w) strings pos version
  = Ok (blob, strings', pos') ->
  is_string (record_payload blob) = false ->
  new_property is_string name (record_payload blob)
  = Ok (PropWords name None (PyList data) 32).
Proof.
  intros Hname Hne H Hstr. simpl in H. unfold PropWords_to_dtb in H.
  destruct (name_offset strings name) as [strpos st].
  destruct (pack_III _ _ _) as [h|] eqn:Hh; simpl in H; [|discriminate].
  destruct (words_blob _ _) as [b|] eqn:Hb; simpl in H; [|discriminate].
  injection H as <- <- <-. simpl in Hb.
  destruct (words_blob_split _ _ _ Hb) as (raw & -> & Hlen & Hall).
  rewrite record_payload_of_header in * by (by apply pack_III_length in Hh).
  unfold new_property. rewrite Hstr.
  assert (Hpos : (0 <? len raw) && (len raw mod 4 =? 0) = true).
  { destruct data; [done|]. apply andb_true_iff. unfold len. rewrite Hlen.
    split; [apply Z.ltb_lt; simpl length; lia|].
    apply Z.eqb_eq. rewrite Nat2Z.inj_mul, Z.mul_comm. apply Z.mod_mul. lia. }
  rewrite Hpos. unfold PropWords_init, BaseItem___init__. rewrite Hname. simpl.
  rewrite Hlen, range4_words.
  pose proof (words_loop_decodes data [] raw [] 0%nat (Hall []) eq_refl) as Hdec.
  change ([] ++ raw) with raw in Hdec. change ([] ++ data) with data in Hdec.
  by rewrite Hdec.
Qed.

Lemma new_property_words_roundtrip_witness :
  new_property (fun _ => false) (py "reg")
    (record_payload [0; 0; 0; 3; 0; 0; 0; 8; 0; 0; 0; 0; 0; 0; 1; 2; 255; 0; 0; 7])
  = Ok (PropWords (py "reg") None (PyList [PyInt 258; PyInt 4278190087]) 32).
Proof.
  exact (new_property_words_roundtrip (fun _ => false) fdt_tags (py "reg") (Some 3%nat)
           [PyInt 258; PyInt 4278190087] 32 [] 0 17 _ _ _
           eq_refl ltac:(discriminate) eq_refl eq_refl).
Defined.

Lemma words_loop_bytes (n : nat) :
  forall raw pre d0 k,
    length raw = (4 * n)%nat -> Forall (fun b => 0 <= b < 256) raw ->
    length pre = (4 * k)%nat ->
    exists data,
      words_loop (pre ++ raw) ((fun j => (4 * j)%nat) <$> seq k n) (PyList d0)
      = Ok (PyList (d0 ++ data)) /\
      length data = n /\
      forall acc, words_blob data acc = Ok (acc ++ raw).
Proof.
  induction n as [|n IH]; intros raw pre d0 k Hlen Hb Hpre.
  - destruct raw; [|discriminate]. exists []. rewrite !app_nil_r.
    split_and!; [done..|]. intros acc. by rewrite app_nil_r.
  - destruct raw as [|b0 [|b1 [|b2 [|b3 rest]]]]; simpl in Hlen; try lia.
    apply Forall_cons in Hb as [H0 Hb]. apply Forall_cons in Hb as [H1 Hb].
    apply Forall_cons in Hb as [H2 Hb]. apply Forall_cons in Hb as [H3 Hb].
    destruct (pack_unpack b0 b1 b2 b3 H0 H1 H2 H3) as (w & Hun & Hw & Hpack).
    destruct (IH rest (pre ++ [b0; b1; b2; b3]) (d0 ++ [PyInt w]) (S k))
      as (data & Hloop & Hdl & Hall); [lia|done|rewrite length_app; simpl; lia|].
    exists (PyInt w :: data). split_and!.
    + change (words_loop (pre ++ b0 :: b1 :: b2 :: b3 :: rest)
                ((4 * k)%nat :: ((fun j => (4 * j)%nat) <$> seq (S k) n)) (PyList d0)
              = Ok (PyList (d0 ++ PyInt w :: data))).
      cbn [words_loop]. rewrite <- Hpre, drop_app_length.
      change (take 4 (b0 :: b1 :: b2 :: b3 :: rest)) with [b0; b1; b2; b3].
      rewrite Hun. cbn [rbind].
      unfold checked_append, PropWords_check, in_word_range.
      rewrite (proj2 (andb_true_iff _ _)) by (split; [apply Z.leb_le|apply Z.ltb_lt]; lia).
      cbn [rbind data_append].
      rewrite <- app_assoc in Hloop. simpl in Hloop. rewrite <- app_assoc in Hloop.
      exact Hloop.
    + simpl. by rewrite Hdl.
    + intros acc. simpl. rewrite Hpack. simpl. rewrite Hall. by rewrite <- app_assoc.
Qed.

Lemma bytearray_fmap (raw : bytes) :
  Forall (fun b => 0 <= b < 256) raw -> bytearray (PyInt <$> raw) = Ok raw.
Proof.
  induction 1 as [|b raw Hb _ IH]; [done|]. rewrite fmap_cons. cbn [bytearray].
  rewrite (proj2 (andb_true_iff _ _)) by (split; apply Z.leb_le; lia).
  by rewrite IH.
Qed.

(** X6. For a raw value that [is_string] rejects, [new_property] chooses
    the class by the length alone: no bytes give a property without value;
    a length that is not a multiple of four gives a bytes property holding
    the bytes; every other length gives a words property of word size 32,
    with one word for each four bytes, whose encoding is the raw value. *)
Theorem new_property_not_string (is_string : bytes -> bool) (name : str) (raw : bytes) :
  is_string raw = false -> forallb printable name = true ->
  Forall (fun b => 0 <= b < 256) raw ->
  (raw = [] -> new_property is_string name raw = Ok (Property name None None)) /\
  (len raw mod 4 <> 0 ->
   new_property is_string name raw = Ok (PropBytes name None (ByteArray raw))) /\
  (raw <> [] -> len raw mod 4 = 0 ->
   exists data,
     new_property is_string name raw = Ok (PropWords name None (PyList data) 32) /\
     len raw = 4 * len data /\ words_blob data [] = Ok raw).
Proof.
  intros Hstr Hname Hb. unfold new_property. rewrite Hstr. split_and!.
  - intros ->. simpl. unfold Property_init, BaseItem___init__. by rewrite Hname.
  - intros Hmod. apply Z.eqb_neq in Hmod. rewrite Hmod, andb_false_r.
    assert (Hpos : (0 <? len raw) = true).
    { destruct raw; [done|]. apply Z.ltb_lt. unfold len. simpl length. lia. }
    rewrite Hpos. simpl. unfold PropBytes_init, BaseItem___init__. rewrite Hname. simpl.
    by rewrite bytearray_fmap.
  - intros Hne Hmod.
    assert (Hpos : (0 <? len raw) = true).
    { destruct raw; [done|]. apply Z.ltb_lt. unfold len. simpl length. lia. }
    rewrite Hpos, (proj2 (Z.eqb_eq _ _) Hmod). simpl.
    unfold PropWords_init, BaseItem___init__. rewrite Hname. simpl.
    assert (Hn : exists n, length raw = (4 * n)%nat).
    { exists (Z.to_nat (len raw / 4)). unfold len in *. Z.div_mod_to_equations. lia. }
    destruct Hn as [n Hn].
    destruct (words_loop_bytes n raw [] [] 0%nat Hn Hb eq_refl) as (data & Hloop & Hdl & Hall).
    exists data. rewrite Hn, range4_words.
    change ([] ++ raw) with raw in Hloop. change ([] ++ data) with data in Hloop.
    rewrite Hloop. simpl. split_and!; [done| |exact (Hall [])].
    unfold len. lia.
Qed.

Lemma new_property_not_string_witness :
  ([1; 2; 3] = [] ->
   new_property (fun _ => false) (py "x") [1; 2; 3] = Ok (Property (py "x") None None)) /\
  (len [1; 2; 3] mod 4 <> 0 ->
   new_property (fun _ => false) (py "x") [1; 2; 3]
   = Ok (PropBytes (py "x") None (ByteArray [1; 2; 3]))) /\
  ([1; 2; 3] <> [] -> len [1; 2; 3] mod 4 = 0 ->
   exists data,
     new_property (fun _ => false) (py "x") [1; 2; 3]
     = Ok (PropWords (py "x") None (PyList data) 32) /\
     len [1; 2; 3] = 4 * len data /\ words_blob data [] = Ok [1; 2; 3]).
Proof.
  assert (Hb : Forall (fun b => 0 <= b < 256) [1; 2; 3]) by (repeat constructor; lia).
  exact (new_property_not_string (fun _ => false) (py "x") [1; 2; 3] eq_refl eq_refl Hb).
Defined.

Lemma split_loop_piece (s rest cur : str) :
  NUL ∉ s ->
  split_loop NUL (s ++ NUL :: rest) cur = (cur ++ s) :: split_loop NUL rest [].
Proof.
  revert cur. induction s as [|c s IH]; intros cur Hs; cbn [app split_loop].
  - case_bool_decide; [|done]. by rewrite app_nil_r.
  - case_bool_decide as Hc.
    + subst c. exfalso. apply Hs. by left.
    + rewrite IH, <- app_assoc; [done|]. intros Hin. apply Hs. by right.
Qed.

(** A character [PropStrings.append] accepts is an ASCII character other
    than NUL. *)
Lemma string_char_range (c : ascii) :
  printable c || bool_decide (c = ascii_of_nat 13) || bool_decide (c = ascii_of_nat 10) = true ->
  0 < ord c < 128.
Proof.
  intros H. apply orb_true_iff in H as [H|H]; [apply orb_true_iff in H as [H|H]|].
  - unfold printable in H. apply orb_true_iff in H as [H|H];
      apply andb_true_iff in H as [?%Z.leb_le ?%Z.leb_le]; lia.
  - apply bool_decide_eq_true in H as ->. by vm_compute.
  - apply bool_decide_eq_true in H as ->. by vm_compute.
Qed.

Lemma PropStrings_check_Ok (v : pyval) :
  PropStrings_check v = Ok tt ->
  exists st, v = PyStr st /\ st <> [] /\ Forall (fun c => 0 < ord c < 128) st.
Proof.
  destruct v as [st|z]; simpl; [|discriminate].
  destruct (negb (0 <? Z.of_nat (length st))) eqn:E; [discriminate|].
  destruct (negb (forallb _ st)) eqn:F; [discriminate|]. intros _.
  exists st. split_and!; [done| |].
  - intros ->. discriminate.
  - apply negb_false_iff in F. rewrite forallb_forall in F.
    apply Forall_forall. intros c Hc. apply string_char_range, F. by apply list_elem_of_In.
Qed.

Lemma append_all_checks (check : pyval -> result unit) (args : list pyval) :
  forall l d, append_all check (PyList l) args = Ok d ->
              Forall (fun v => check v = Ok tt) args.
Proof.
  induction args as [|v args IH]; intros l d; simpl; [by constructor|].
  destruct (check v) as [[]|] eqn:Hv; simpl; [|discriminate].
  intros H%IH. by constructor.
Qed.

Lemma decode_encode (st : str) :
  Forall (fun c => 0 < ord c < 128) st ->
  encode_ascii st = Ok (ord <$> st) /\
  (fun b => ascii_of_nat (Z.to_nat b)) <$> (ord <$> st) = st /\
  forallb (fun b => (0 <=? b) && (b <? 128)) (ord <$> st) = true /\
  NUL ∉ st.
Proof.
  intros H. split_and!.
  - unfold encode_ascii. rewrite (proj2 (forallb_forall _ _)); [done|].
    intros c Hc%list_elem_of_In. rewrite Forall_forall in H. apply Z.ltb_lt, H, Hc.
  - induction H as [|c st Hc _ IH]; [done|]. rewrite !fmap_cons, IH. f_equal.
    unfold ord. by rewrite Nat2Z.id, ascii_nat_embedding.
  - apply forallb_forall. intros b Hb%list_elem_of_In.
    apply list_elem_of_fmap in Hb as (c & -> & Hc). rewrite Forall_forall in H.
    specialize (H c Hc). apply andb_true_iff. split; [apply Z.leb_le|apply Z.ltb_lt]; lia.
  - intros Hin. rewrite Forall_forall in H. specialize (H _ Hin).
    change (ord NUL) with 0 in H. lia.
Qed.

(** The blob of strings that [append] accepts, decoded and split at the
    NULs, gives the strings back. *)
Lemma strings_blob_decodes (args : list pyval) :
  Forall (fun v => PropStrings_check v = Ok tt) args ->
  forall acc d0,
    exists raw,
      strings_blob args acc = Ok (acc ++ raw) /\
      forallb (fun b => (0 <=? b) && (b <? 128)) raw = true /\
      strings_loop (split_loop NUL ((fun b => ascii_of_nat (Z.to_nat b)) <$> raw) [])
                   (PyList d0)
      = Ok (PyList (d0 ++ args)).
Proof.
  induction 1 as [|v args Hck _ IH]; intros acc d0.
  - exists []. rewrite !app_nil_r. by split_and!.
  - destruct (PropStrings_check_Ok v Hck) as (st & -> & Hne & Hst).
    destruct (decode_encode st Hst) as (Henc & Hdec & Hasc & Hnul).
    destruct (IH (acc ++ (ord <$> st) ++ [0]) (d0 ++ [PyStr st])) as (raw & Hblob & Hall & Hloop).
    exists ((ord <$> st) ++ 0 :: raw). split_and!.
    + cbn [strings_blob]. rewrite Henc. cbn [rbind].
      rewrite Hblob. by rewrite <- !app_assoc.
    + rewrite forallb_app, Hasc. simpl. exact Hall.
    + rewrite fmap_app, fmap_cons, Hdec.
      change (ascii_of_nat (Z.to_nat 0)) with NUL.
      rewrite split_loop_piece by exact Hnul. cbn [strings_loop app].
      rewrite bool_decide_eq_false_2 by exact Hne.
      unfold checked_append. rewrite Hck. cbn [rbind data_append].
      rewrite Hloop. by rewrite <- app_assoc.
Qed.

(** X7. Decoding the blob of the strings of a strings property gives the
    property back: for a property its constructor accepted, when
    [is_string] accepts the concatenation of its strings, each with its
    terminator, [new_property] returns a strings property with the same
    name and the same strings, without parent. *)
Theorem new_property_strings_roundtrip (is_string : bytes -> bool) (name : str)
    (args : list pyval) (parent : option naddr) (p : prop) (raw : bytes) :
  PropStrings_init name args parent = Ok p ->
  strings_blob args [] = Ok raw ->
  is_string raw = true ->
  p = PropStrings name parent (PyList args) /\
  new_property is_string name raw = Ok (PropStrings name None (PyList args)).
Proof.
  intros Hinit Hraw Hstr. unfold PropStrings_init in Hinit.
  destruct (BaseItem___init__ name) as [[]|] eqn:Hname; simpl in Hinit; [|discriminate].
  destruct (append_all _ _ _) as [d|] eqn:Hd; simpl in Hinit; [|discriminate].
  injection Hinit as <-.
  apply append_all_checks in Hd as Hck. apply append_all_PyList in Hd. simpl in Hd. subst d.
  split; [done|].
  destruct (strings_blob_decodes args Hck [] []) as (raw' & Hblob & Hasc & Hloop).
  simpl in Hblob. assert (raw' = raw) as -> by congruence.
  unfold new_property. rewrite Hstr. unfold PropStrings_init. rewrite Hname. simpl.
  unfold decode_ascii. rewrite Hasc. simpl. unfold split. by rewrite Hloop.
Qed.

Lemma new_property_strings_roundtrip_witness :
  PropStrings (py "compatible") None (PyList [PyStr (py "a"); PyStr (py "bc")])
  = PropStrings (py "compatible") None (PyList [PyStr (py "a"); PyStr (py "bc")]) /\
  new_property (fun _ => true) (py "compatible") [97; 0; 98; 99; 0]
  = Ok (PropStrings (py "compatible") None (PyList [PyStr (py "a"); PyStr (py "bc")])).
Proof.
  exact (new_property_strings_roundtrip (fun _ => true) (py "compatible")
           [PyStr (py "a"); PyStr (py "bc")] None _ [97; 0; 98; 99; 0]
           eq_refl eq_refl eq_refl).
Defined.

(** * Valid properties *)

Lemma append_all_iff (check : pyval -> result unit) (args : list pyval) :
  forall l d, append_all check (PyList l) args = Ok d <->
              d = PyList (l ++ args) /\ forallb (fun v => is_ok (check v)) args = true.
Proof.
  induction args as [|v args IH]; intros l d; simpl.
  - rewrite app_nil_r. split; [by intros [= <-]|by intros [-> _]].
  - destruct (check v) as [[]|e]; simpl.
    + rewrite IH, <- app_assoc. reflexivity.
    + split; [discriminate|]. by intros [_ ?].
Qed.

Lemma bytearray_iff (l : list pyval) (b : bytes) :
  bytearray l = Ok b <->
  l = PyInt <$> b /\ forallb (fun z => (0 <=? z) && (z <=? 255)) b = true.
Proof.
  revert b. induction l as [|[st|z] l IH]; intros b; simpl.
  - split; [by intros [= <-]|]. intros [Hb _]. destruct b; [done|discriminate].
  - split; [discriminate|]. intros [Hb _]. destruct b; discriminate.
  - destruct ((0 <=? z) && (z <=? 255)) eqn:E; simpl.
    + destruct (bytearray l) as [r|] eqn:Hr; simpl.
      * split.
        -- intros [= <-]. simpl. rewrite E. destruct (proj1 (IH r) eq_refl) as [-> ->]. done.
        -- intros [Hb Hall]. destruct b as [|z' b]; [discriminate|].
           injection Hb as <- Hb. simpl in Hall. rewrite E in Hall.
           f_equal. f_equal. assert (Ok r = Ok b) as [= ->]; [|done].
           apply IH. done.
      * split; [discriminate|]. intros [Hb Hall]. destruct b as [|z' b]; [discriminate|].
        injection Hb as <- Hb. simpl in Hall. rewrite E in Hall.
        assert (Raise e = Ok b) by (apply IH; done). discriminate.
    + split; [discriminate|]. intros [Hb Hall]. destruct b as [|z' b]; [discriminate|].
      injection Hb as <- Hb. simpl in Hall. by rewrite E in Hall.
Qed.

(** X8. A constructor of a class with a value returns exactly when the
    name is printable and every value given passes the assertion of the
    class's [append]; the object then holds the values given, in order. *)
Theorem constructors_accept_valid (name : str) (p : prop) :
  (forall args parent,
      PropStrings_init name args parent = Ok p <->
      p = PropStrings name parent (PyList args) /\ valid_prop p = true) /\
  (forall args wsize parent,
      PropWords_init name args wsize parent = Ok p <->
      p = PropWords name parent (PyList args) wsize /\ valid_prop p = true) /\
  (forall data,
      PropBytes_init name (Some (PyInt <$> data)) = Ok p <->
      p = PropBytes name None (ByteArray data) /\ valid_prop p = true).
Proof.
  split_and!.
  - intros args parent. unfold PropStrings_init, BaseItem___init__.
    destruct (forallb printable name) eqn:Hn; simpl.
    + destruct (append_all _ _ _) as [d|e] eqn:Hd; simpl.
      * apply append_all_iff in Hd as [-> Hall]. simpl. split.
        -- intros [= <-]. unfold valid_prop. simpl. by rewrite Hn, Hall.
        -- by intros [-> _].
      * split; [discriminate|]. intros [-> Hv]. unfold valid_prop in Hv. simpl in Hv.
        rewrite Hn in Hv. simpl in Hv.
        assert (append_all PropStrings_check (PyList []) args = Ok (PyList ([] ++ args)))
          by (by apply append_all_iff). congruence.
    + split; [discriminate|]. intros [-> Hv]. unfold valid_prop in Hv. simpl in Hv.
      by rewrite Hn in Hv.
  - intros args wsize parent. unfold PropWords_init, BaseItem___init__.
    destruct (forallb printable name) eqn:Hn; simpl.
    + destruct (append_all _ _ _) as [d|e] eqn:Hd; simpl.
      * apply append_all_iff in Hd as [-> Hall]. simpl. split.
        -- intros [= <-]. unfold valid_prop. simpl. by rewrite Hn, Hall.
        -- by intros [-> _].
      * split; [discriminate|]. intros [-> Hv]. unfold valid_prop in Hv. simpl in Hv.
        rewrite Hn in Hv. simpl in Hv.
        assert (append_all (PropWords_check wsize) (PyList []) args = Ok (PyList ([] ++ args)))
          by (by apply append_all_iff). congruence.
    + split; [discriminate|]. intros [-> Hv]. unfold valid_prop in Hv. simpl in Hv.
      by rewrite Hn in Hv.
  - intros data. unfold PropBytes_init, BaseItem___init__.
    destruct (forallb printable name) eqn:Hn; simpl.
    + destruct (bytearray _) as [b|e] eqn:Hb; simpl.
      * apply bytearray_iff in Hb as [Hb Hall].
        assert (HI : Inj (=) (=) PyInt) by (by intros ?? [=]).
        apply (inj (fmap PyInt)) in Hb. subst b. split.
        -- intros [= <-]. unfold valid_prop. simpl. by rewrite Hn, Hall.
        -- by intros [-> _].
      * split; [discriminate|]. intros [-> Hv]. unfold valid_prop in Hv. simpl in Hv.
        rewrite Hn in Hv. simpl in Hv.
        assert (bytearray (PyInt <$> data) = Ok data) by (by apply bytearray_iff).
        congruence.
    + split; [discriminate|]. intros [-> Hv]. unfold valid_prop in Hv. simpl in Hv.
      by rewrite Hn in Hv.
Qed.

Lemma prop_copy_valid (p : prop) :
  valid_prop p = true -> prop_copy p = Ok (with_parent p None).
Proof.
  unfold valid_prop.
  destruct p as [name q [d|]|name q [l|l]|name q [l|l] w|name q [l|l]]; simpl;
    intros [Hn Hall]%andb_true_iff; try discriminate.
  - unfold Property_init, BaseItem___init__. by rewrite Hn.
  - unfold PropStrings_init, BaseItem___init__. rewrite Hn. simpl.
    by rewrite (proj2 (append_all_iff PropStrings_check l [] _) (conj eq_refl Hall)).
  - unfold PropWords_init, BaseItem___init__. rewrite Hn. simpl.
    by rewrite (proj2 (append_all_iff (PropWords_check w) l [] _) (conj eq_refl Hall)).
  - unfold PropBytes_init, BaseItem___init__. rewrite Hn. simpl.
    by rewrite (proj2 (bytearray_iff (PyInt <$> l) l) (conj eq_refl Hall)).
Qed.

Lemma prop_eq_detached (p : prop) (q : option naddr) :
  prop_eq (with_parent p q) (OpProp p) = true /\ prop_eq p (OpProp (with_parent p q)) = true.
Proof.
  pose proof (prop_eq_refl p) as H.
  destruct p as [name q0 d|name q0 d|name q0 d w|name q0 d]; split; exact H.
Qed.

(** X9. Copying a valid property never fails: [copy()] returns a new
    property of the same class, name and values that has no parent, is
    valid, and compares equal to the original in both directions. *)
Theorem copy_of_valid (p : prop) :
  valid_prop p = true ->
  exists c,
    prop_copy p = Ok c /\ prop_parent c = None /\ valid_prop c = true /\
    class_of c = class_of p /\ prop_name c = prop_name p /\ values c = values p /\
    prop_eq c (OpProp p) = true /\ prop_eq p (OpProp c) = true.
Proof.
  intros Hv. exists (with_parent p None).
  destruct (prop_eq_detached p None) as [H1 H2].
  split_and!; auto using prop_copy_valid.
  all: by destruct p.
Qed.

Lemma copy_of_valid_witness :
  exists c,
    prop_copy (PropWords (py "reg") (Some 2%nat) (PyList [PyInt 1; PyInt 2]) 32) = Ok c /\
    prop_parent c = None /\ valid_prop c = true /\
    class_of c = CPropWords /\ prop_name c = py "reg" /\
    values c = [PyInt 1; PyInt 2] /\
    prop_eq c (OpProp (PropWords (py "reg") (Some 2%nat) (PyList [PyInt 1; PyInt 2]) 32)) = true /\
    prop_eq (PropWords (py "reg") (Some 2%nat) (PyList [PyInt 1; PyInt 2]) 32) (OpProp c) = true.
Proof.
  exact (copy_of_valid (PropWords (py "reg") (Some 2%nat) (PyList [PyInt 1; PyInt 2]) 32)
           eq_refl).
Defined.

Lemma pack_u32_Ok (z : Z) : 0 <= z < 2 ^ 32 -> exists b, pack_u32 z = Ok b.
Proof.
  intros Hz. unfold pack_u32.
  rewrite (proj2 (andb_true_iff _ _)) by (split; [apply Z.leb_le|apply Z.ltb_lt]; lia).
  eauto.
Qed.

Lemma pack_III_Ok (a b c : Z) :
  0 <= a < 2 ^ 32 -> 0 <= b < 2 ^ 32 -> 0 <= c < 2 ^ 32 ->
  exists x y z, pack_u32 a = Ok x /\ pack_u32 b = Ok y /\ pack_u32 c = Ok z /\
                pack_III a b c = Ok (x ++ y ++ z).
Proof.
  intros [x Hx]%pack_u32_Ok [y Hy]%pack_u32_Ok [z Hz]%pack_u32_Ok.
  exists x, y, z. unfold pack_III. by rewrite Hx, Hy, Hz.
Qed.

Lemma name_offset_range (strings name : str) :
  0 <= fst (name_offset strings name) <= len strings.
Proof.
  unfold name_offset. destruct (find strings (name ++ [NUL]) <? 0) eqn:E; simpl.
  - pose proof (len_nonneg strings). lia.
  - apply Z.ltb_ge in E. destruct (find_range strings (name ++ [NUL])) as [H|H]; [lia|].
    pose proof (len_nonneg (name ++ [NUL])). lia.
Qed.

Lemma strings_blob_valid (l : list pyval) :
  forallb (fun v => is_ok (PropStrings_check v)) l = true ->
  forall acc, exists raw,
    strings_blob l acc = Ok (acc ++ raw) /\
    len raw = foldr (fun v a => match v with PyStr st => len st + 1 + a | PyInt _ => a end) 0 l.
Proof.
  induction l as [|v l IH]; simpl; intros Hall acc.
  - exists []. by rewrite app_nil_r.
  - apply andb_true_iff in Hall as [Hv Hall].
    destruct (PropStrings_check v) as [[]|] eqn:Hck; [|done].
    destruct (PropStrings_check_Ok v Hck) as (st & -> & _ & Hst).
    destruct (decode_encode st Hst) as (Henc & _). rewrite Henc. simpl.
    destruct (IH Hall (acc ++ (ord <$> st) ++ [0])) as (raw & -> & Hlen).
    exists ((ord <$> st) ++ [0] ++ raw). split; [by rewrite <- !app_assoc|].
    rewrite !len_app, Hlen. unfold len. rewrite length_fmap. simpl. lia.
Qed.

Lemma words_blob_valid (w : Z) (l : list pyval) :
  w <= 32 -> forallb (fun v => is_ok (PropWords_check w v)) l = true ->
  forall acc, exists raw, words_blob l acc = Ok (acc ++ raw).
Proof.
  intros Hw. induction l as [|v l IH]; simpl; intros Hall acc.
  - exists []. by rewrite app_nil_r.
  - apply andb_true_iff in Hall as [Hv Hall].
    destruct v as [st|z]; [done|]. simpl in Hv. unfold in_word_range in Hv.
    destruct ((0 <=? z) && _) eqn:E; [|done].
    apply andb_true_iff in E as [Hz%Z.leb_le E].
    assert (Hr : 0 <= z < 2 ^ 32).
    { destruct (0 <=? w) eqn:E0.
      - apply Z.leb_le in E0. apply Z.ltb_lt in E.
        pose proof (Z.pow_le_mono_r 2 w 32 ltac:(lia) Hw). lia.
      - apply Z.eqb_eq in E. subst z. change (2 ^ 32) with 4294967296. lia. }
    destruct (pack_u32_Ok z Hr) as [b ->]. simpl.
    destruct (IH Hall (acc ++ b)) as (raw & ->). exists (b ++ raw). by rewrite <- app_assoc.
Qed.

(** X10. The encoder returns for every valid property whose words, if it
    has some, are of a word size up to 32, as long as the tag, the table
    and the value fit 32 bits; the length field of the record is the size
    of the value in bytes. *)
Theorem valid_prop_encodes (T : dtb_tags) (p : prop) (strings : str) (pos version : Z) :
  valid_prop p = true ->
  match p with PropWords _ _ _ w => w <= 32 | _ => True end ->
  0 <= DTB_PROP T < 2 ^ 32 -> len strings < 2 ^ 32 -> raw_size p < 2 ^ 32 ->
  exists blob,
    prop_to_dtb T p strings pos version
    = Ok (blob, snd (name_offset strings (prop_name p)), pos + len blob) /\
    pack_u32 (raw_size p) = Ok (field 1 blob).
Proof.
  unfold valid_prop. intros [Hn Hall]%andb_true_iff Hw HT Hs Hsz.
  pose proof (name_offset_range strings (prop_name p)) as Hoff.
  destruct p as [name q [d|]|name q [l|l]|name q [l|l] w|name q [l|l]];
    simpl in *; try discriminate.
  - unfold Property_to_dtb. destruct (name_offset strings name) as [strpos st]. simpl in *.
    destruct (pack_III_Ok (DTB_PROP T) 0 strpos) as (x & y & z & Hx & Hy & Hz & ->);
      [lia..|]. simpl.
    exists (x ++ y ++ z). apply pack_u32_length in Hx as Hxl. apply pack_u32_length in Hy as Hyl.
    apply pack_u32_length in Hz as Hzl.
    split; [repeat f_equal; unfold len; rewrite !length_app; lia|].
    rewrite <- (app_nil_r (x ++ y ++ z)). by rewrite field_1_of_header.
  - unfold PropStrings_to_dtb. simpl.
    destruct (strings_blob_valid l Hall []) as (raw & Hraw & Hlen). simpl in Hraw.
    rewrite Hraw. simpl. destruct (name_offset strings name) as [strpos st]. simpl in *.
    pose proof (len_nonneg raw).
    destruct (pack_III_Ok (DTB_PROP T) (len raw) strpos) as (x & y & z & Hx & Hy & Hz & ->);
      [lia..|]. simpl.
    eexists. split; [reflexivity|].
    rewrite field_1_of_header by eauto using pack_u32_length. by rewrite <- Hlen.
  - unfold PropWords_to_dtb. simpl. destruct (name_offset strings name) as [strpos st].
    simpl in *. pose proof (len_nonneg l).
    destruct (pack_III_Ok (DTB_PROP T) (len l * 4) strpos)
      as (x & y & z & Hx & Hy & Hz & ->); [lia..|]. simpl.
    destruct (words_blob_valid w l Hw Hall (x ++ y ++ z)) as (raw & ->). simpl.
    eexists. split; [reflexivity|].
    by rewrite field_1_of_header by eauto using pack_u32_length.
  - unfold PropBytes_to_dtb. simpl. destruct (name_offset strings name) as [strpos st].
    simpl in *. unfold len in *. rewrite length_fmap in *.
    destruct (pack_III_Ok (DTB_PROP T) (Z.of_nat (length l)) strpos)
      as (x & y & z & Hx & Hy & Hz & ->); [lia..|]. simpl.
    rewrite (proj2 (bytearray_iff (PyInt <$> l) l) (conj eq_refl Hall)). simpl.
    eexists. split; [reflexivity|].
    destruct (negb _); [rewrite <- (app_assoc (x ++ y ++ z) l)|];
      by rewrite field_1_of_header by eauto using pack_u32_length.
Qed.

Lemma valid_prop_encodes_witness :
  exists blob,
    prop_to_dtb fdt_tags (PropBytes (py "mac") None (ByteArray [1; 2; 3; 4; 5; 6])) [] 0 17
    = Ok (blob, snd (name_offset [] (py "mac")), 0 + len blob) /\
    pack_u32 6 = Ok (field 1 blob).
Proof.
  assert (H1 : 0 <= DTB_PROP fdt_tags < 2 ^ 32) by compute_done.
  assert (H2 : len (@nil ascii) < 2 ^ 32) by compute_done.
  assert (H3 : raw_size (PropBytes (py "mac") None (ByteArray [1; 2; 3; 4; 5; 6])) < 2 ^ 32)
    by compute_done.
  exact (valid_prop_encodes fdt_tags (PropBytes (py "mac") None (ByteArray [1; 2; 3; 4; 5; 6]))
           [] 0 17 eq_refl I H1 H2 H3).
Defined.

(** * Changing the value of a property *)

Lemma forallb_snoc {A} (f : A -> bool) (l : list A) (x : A) :
  forallb f l = true -> f x = true -> forallb f (l ++ [x]) = true.
Proof. intros Hl Hx. rewrite forallb_app, Hl. simpl. by rewrite Hx. Qed.

Lemma forallb_delete {A} (f : A -> bool) (l : list A) (i : nat) :
  forallb f l = true -> forallb f (delete i l) = true.
Proof.
  revert i. induction l as [|x l IH]; intros i; [by destruct i|]. simpl.
  intros [Hx Hl]%andb_true_iff. destruct i as [|i]; simpl; [done|].
  by rewrite Hx, IH.
Qed.

Lemma fmap_delete_at {A B} (f : A -> B) (l : list A) (i : nat) :
  f <$> delete i l = delete i (f <$> l).
Proof.
  revert i. induction l as [|x l IH]; intros i; [by destruct i|].
  destruct i as [|i]; simpl; [done|]. by rewrite <- IH.
Qed.

Lemma delete_last {A} (l : list A) (x : A) : delete (length l) (l ++ [x]) = l.
Proof. induction l as [|y l IH]; simpl; [done|]. by rewrite IH. Qed.

(** X11. [append] on a valid property first applies the assertion of the
    class: a value that fails it leaves the store as it was; a value that
    passes is added at the end of the values, and the property stays valid,
    with its class, name and parent. *)
Theorem prop_append_checked (a : paddr) (v : pyval) (s : store) (p : prop) :
  s_props s !! a = Some p -> valid_prop p = true ->
  (forall e, prop_check p v = Raise e -> prop_append a v s = (s, Raise e)) /\
  (prop_check p v = Ok tt ->
   exists p',
     prop_append a v s = (Store (<[a := p']> (s_props s)) (s_nodes s), Ok tt) /\
     values p' = values p ++ [v] /\ valid_prop p' = true /\
     class_of p' = class_of p /\ prop_name p' = prop_name p /\
     prop_parent p' = prop_parent p).
Proof.
  intros Hp Hv. unfold prop_append, bind, lift, load_prop. rewrite Hp. split.
  - intros e ->. reflexivity.
  - intros Hck. rewrite Hck. unfold valid_prop in Hv.
    apply andb_true_iff in Hv as [Hn Hall].
    destruct p as [name q [d|]|name q [l|l]|name q [l|l] w|name q [l|l]];
      simpl in *; try discriminate.
    + eexists. split; [reflexivity|]. unfold valid_prop. simpl. rewrite Hn. simpl.
      split_and!; try done. apply forallb_snoc; [done|]. by rewrite Hck.
    + eexists. split; [reflexivity|]. unfold valid_prop. simpl. rewrite Hn. simpl.
      split_and!; try done. apply forallb_snoc; [done|]. by rewrite Hck.
    + destruct v as [st|z]; [discriminate Hck|]. unfold PropBytes_check in Hck.
      destruct ((0 <=? z) && (z <=? 255)) eqn:E; [|discriminate Hck].
      eexists. split; [reflexivity|]. unfold valid_prop. simpl. rewrite Hn. simpl.
      split_and!; try done.
      * by rewrite fmap_app.
      * by apply forallb_snoc.
Qed.

Lemma prop_append_checked_witness :
  (forall e, prop_check (PropBytes (py "mac") None (ByteArray [1])) (PyInt 256) = Raise e ->
             prop_append 0%nat (PyInt 256)
               (Store [PropBytes (py "mac") None (ByteArray [1])] [])
             = (Store [PropBytes (py "mac") None (ByteArray [1])] [], Raise e)) /\
  (prop_check (PropBytes (py "mac") None (ByteArray [1])) (PyInt 256) = Ok tt ->
   exists p',
     prop_append 0%nat (PyInt 256) (Store [PropBytes (py "mac") None (ByteArray [1])] [])
     = (Store (<[0%nat := p']> [PropBytes (py "mac") None (ByteArray [1])]) [], Ok tt) /\
     values p' = [PyInt 1] ++ [PyInt 256] /\ valid_prop p' = true /\
     class_of p' = CPropBytes /\ prop_name p' = py "mac" /\ prop_parent p' = None).
Proof.
  exact (prop_append_checked 0%nat (PyInt 256)
           (Store [PropBytes (py "mac") None (ByteArray [1])] [])
           (PropBytes (py "mac") None (ByteArray [1])) eq_refl eq_refl).
Defined.

(** X12. [pop] on a valid property with a value raises for an index that
    is negative or not below the number of values, leaving the store as it
    was; for an index in range it returns the value at the index and
    removes it, and the property stays valid. *)
Theorem prop_pop_bounds (a : paddr) (index : Z) (s : store) (p : prop) :
  s_props s !! a = Some p -> valid_prop p = true -> class_of p <> CProperty ->
  (~ (0 <= index < len (values p)) -> prop_pop a index s = (s, Raise IndexOutOfRange)) /\
  (forall v, 0 <= index -> values p !! Z.to_nat index = Some v ->
     exists p',
       prop_pop a index s = (Store (<[a := p']> (s_props s)) (s_nodes s), Ok v) /\
       values p' = delete (Z.to_nat index) (values p) /\ valid_prop p' = true /\
       class_of p' = class_of p /\ prop_name p' = prop_name p /\
       prop_parent p' = prop_parent p).
Proof.
  intros Hp Hv Hc. unfold prop_pop, bind, lift, load_prop. rewrite Hp.
  unfold valid_prop in Hv. apply andb_true_iff in Hv as [Hn Hall].
  destruct p as [name q [d|]|name q [l|l]|name q [l|l] w|name q [l|l]];
    simpl in *; try discriminate; try done.
  all: split;
    [ intros Hr;
      destruct ((0 <=? index) && (index <? _)) eqn:E; [|done];
      apply andb_true_iff in E as [?%Z.leb_le ?%Z.ltb_lt]; lia
    | intros v H0 Hv;
      pose proof (lookup_lt_Some _ _ _ Hv) as Hlt;
      rewrite (proj2 (andb_true_iff _ _))
        by (split; [apply Z.leb_le|apply Z.ltb_lt]; unfold len; lia);
      rewrite Hv; eexists; split; [reflexivity|];
      unfold valid_prop; simpl; rewrite Hn; simpl;
      split_and!; try done; auto using forallb_delete, fmap_delete_at ].
Qed.

Lemma prop_pop_bounds_witness :
  (~ (0 <= -1 < len [PyInt 7; PyInt 8]) ->
   prop_pop 0%nat (-1) (Store [PropWords (py "reg") None (PyList [PyInt 7; PyInt 8]) 32] [])
   = (Store [PropWords (py "reg") None (PyList [PyInt 7; PyInt 8]) 32] [],
      Raise IndexOutOfRange)) /\
  (forall v, 0 <= -1 -> [PyInt 7; PyInt 8] !! Z.to_nat (-1) = Some v ->
     exists p',
       prop_pop 0%nat (-1)
         (Store [PropWords (py "reg") None (PyList [PyInt 7; PyInt 8]) 32] [])
       = (Store (<[0%nat := p']> [PropWords (py "reg") None (PyList [PyInt 7; PyInt 8]) 32])
                [], Ok v) /\
       values p' = delete (Z.to_nat (-1)) [PyInt 7; PyInt 8] /\ valid_prop p' = true /\
       class_of p' = CPropWords /\ prop_name p' = py "reg" /\ prop_parent p' = None).
Proof.
  exact (prop_pop_bounds 0%nat (-1)
           (Store [PropWords (py "reg") None (PyList [PyInt 7; PyInt 8]) 32] [])
           (PropWords (py "reg") None (PyList [PyInt 7; PyInt 8]) 32)
           eq_refl eq_refl ltac:(discriminate)).
Defined.

Lemma store_insert_back (s : store) (a : paddr) (p p' : prop) :
  s_props s !! a = Some p ->
  Store (<[a := p]> (<[a := p']> (s_props s))) (s_nodes s) = s.
Proof.
  intros Hp. destruct s as [ps ns]. simpl in *.
  by rewrite list_insert_insert_eq, list_insert_id.
Qed.

(** X13. Appending a value to a valid property and popping the last index
    gives the value back and leaves the store as it was before the
    append. *)
Theorem append_then_pop (a : paddr) (v : pyval) (s : store) (p : prop) :
  s_props s !! a = Some p -> valid_prop p = true -> prop_check p v = Ok tt ->
  exists s1,
    prop_append a v s = (s1, Ok tt) /\
    prop_pop a (len (values p)) s1 = (s, Ok v).
Proof.
  intros Hp Hv Hck. pose proof (lookup_lt_Some _ _ _ Hp) as Hlt.
  unfold prop_append, prop_pop, bind, lift, load_prop. rewrite Hp, Hck.
  unfold valid_prop in Hv. apply andb_true_iff in Hv as [Hn Hall].
  destruct p as [name q [d|]|name q [l|l]|name q [l|l] w|name q [l|l]];
    simpl in *; try discriminate.
  3: destruct v as [st|z]; [discriminate Hck|]; unfold PropBytes_check in Hck;
     destruct ((0 <=? z) && (z <=? 255)) eqn:E; [|discriminate Hck].
  all: eexists; split; [reflexivity|]; simpl;
    rewrite list_lookup_insert_eq by done; simpl;
    unfold len; rewrite ?length_fmap, ?length_app; simpl;
    rewrite (proj2 (andb_true_iff _ _)) by (split; [apply Z.leb_le|apply Z.ltb_lt]; lia);
    rewrite Nat2Z.id, ?fmap_app; simpl;
    rewrite <- ?(length_fmap PyInt l), lookup_app_r, Nat.sub_diag by done; simpl;
    rewrite ?length_fmap, delete_last; unfold write_prop, ret; simpl;
    f_equal; by apply store_insert_back.
Qed.

Lemma append_then_pop_witness :
  exists s1,
    prop_append 0%nat (PyStr (py "ok"))
      (Store [PropStrings (py "status") None (PyList [PyStr (py "a")])] []) = (s1, Ok tt) /\
    prop_pop 0%nat (len [PyStr (py "a")]) s1
    = (Store [PropStrings (py "status") None (PyList [PyStr (py "a")])] [], Ok (PyStr (py "ok"))).
Proof.
  exact (append_then_pop 0%nat (PyStr (py "ok"))
           (Store [PropStrings (py "status") None (PyList [PyStr (py "a")])] [])
           (PropStrings (py "status") None (PyList [PyStr (py "a")]))
           eq_refl eq_refl eq_refl).
Defined.

(** * Lookup, append and removal *)

Lemma get_property_loop_None (s : store) (name : str) (l : list paddr) :
  get_property_loop s l name = Ok None <->
  Forall (fun b => exists p, s_props s !! b = Some p /\ prop_name p <> name) l.
Proof.
  induction l as [|b l IH]; simpl; [by split; [constructor|]|].
  unfold load_prop. destruct (s_props s !! b) as [p|] eqn:Hp; simpl.
  - case_bool_decide as Hn.
    + split; [discriminate|]. intros [(p' & Hp' & Hne) _]%Forall_cons. congruence.
    + rewrite IH. split; [intros H; constructor; eauto|by intros [_ H]%Forall_cons].
  - split; [discriminate|]. intros [(p' & Hp' & _) _]%Forall_cons. congruence.
Qed.

Lemma get_property_loop_Some (s : store) (name : str) (l : list paddr) (a : paddr) :
  get_property_loop s l name = Ok (Some a) <->
  exists l1 l2 p,
    l = l1 ++ a :: l2 /\ s_props s !! a = Some p /\ prop_name p = name /\
    Forall (fun b => exists p, s_props s !! b = Some p /\ prop_name p <> name) l1.
Proof.
  induction l as [|b l IH]; simpl.
  - split; [discriminate|]. intros (l1 & l2 & p & Hl & _). by destruct l1.
  - unfold load_prop. destruct (s_props s !! b) as [p|] eqn:Hp; simpl.
    + case_bool_decide as Hn.
      * split.
        -- intros [= <-]. exists [], l, p. by split_and!.
        -- intros (l1 & l2 & p' & Hl & Hp' & Hn' & Hall). destruct l1 as [|c l1].
           ++ by injection Hl as -> _.
           ++ injection Hl as <- _. apply Forall_cons in Hall as [(p'' & Hp'' & Hne) _].
              congruence.
      * rewrite IH. split.
        -- intros (l1 & l2 & p' & -> & Hp' & Hn' & Hall). exists (b :: l1), l2, p'.
           split_and!; [done..|]. constructor; eauto.
        -- intros (l1 & l2 & p' & Hl & Hp' & Hn' & Hall). destruct l1 as [|c l1].
           ++ injection Hl as -> _. congruence.
           ++ injection Hl as <- ->. apply Forall_cons in Hall as [_ Hall].
              by exists l1, l2, p'.
    + split; [discriminate|].
      intros (l1 & l2 & p' & Hl & Hp' & Hn' & Hall). destruct l1 as [|c l1].
      * injection Hl as -> _. congruence.
      * injection Hl as <- _. apply Forall_cons in Hall as [(p'' & Hp'' & _) _]. congruence.
Qed.

Lemma get_subnode_loop_None (s : store) (name : str) (l : list naddr) :
  get_subnode_loop s l name = Ok None <->
  Forall (fun b => exists n, s_nodes s !! b = Some n /\ n_name n <> name) l.
Proof.
  induction l as [|b l IH]; simpl; [by split; [constructor|]|].
  unfold load_node. destruct (s_nodes s !! b) as [p|] eqn:Hp; simpl.
  - case_bool_decide as Hn.
    + split; [discriminate|]. intros [(p' & Hp' & Hne) _]%Forall_cons. congruence.
    + rewrite IH. split; [intros H; constructor; eauto|by intros [_ H]%Forall_cons].
  - split; [discriminate|]. intros [(p' & Hp' & _) _]%Forall_cons. congruence.
Qed.

Lemma get_subnode_loop_Some (s : store) (name : str) (l : list naddr) (a : naddr) :
  get_subnode_loop s l name = Ok (Some a) <->
  exists l1 l2 n,
    l = l1 ++ a :: l2 /\ s_nodes s !! a = Some n /\ n_name n = name /\
    Forall (fun b => exists n, s_nodes s !! b = Some n /\ n_name n <> name) l1.
Proof.
  induction l as [|b l IH]; simpl.
  - split; [discriminate|]. intros (l1 & l2 & p & Hl & _). by destruct l1.
  - unfold load_node. destruct (s_nodes s !! b) as [p|] eqn:Hp; simpl.
    + case_bool_decide as Hn.
      * split.
        -- intros [= <-]. exists [], l, p. by split_and!.
        -- intros (l1 & l2 & p' & Hl & Hp' & Hn' & Hall). destruct l1 as [|c l1].
           ++ by injection Hl as -> _.
           ++ injection Hl as <- _. apply Forall_cons in Hall as [(p'' & Hp'' & Hne) _].
              congruence.
      * rewrite IH. split.
        -- intros (l1 & l2 & p' & -> & Hp' & Hn' & Hall). exists (b :: l1), l2, p'.
           split_and!; [done..|]. constructor; eauto.
        -- intros (l1 & l2 & p' & Hl & Hp' & Hn' & Hall). destruct l1 as [|c l1].
           ++ injection Hl as -> _. congruence.
           ++ injection Hl as <- ->. apply Forall_cons in Hall as [_ Hall].
              by exists l1, l2, p'.
    + split; [discriminate|].
      intros (l1 & l2 & p' & Hl & Hp' & Hn' & Hall). destruct l1 as [|c l1].
      * injection Hl as -> _. congruence.
      * injection Hl as <- _. apply Forall_cons in Hall as [(p'' & Hp'' & _) _]. congruence.
Qed.

(** X14. After [append] of a property returned, the property has the node
    as parent and is the last of the node's properties, no other object
    has changed, and [get_property] with its name returns it. *)
Theorem append_then_get_property (self : naddr) (a : paddr) (s s' : store) :
  Node_append self (ItemProp a) s = (s', Ok tt) ->
  exists p n,
    s_props s !! a = Some p /\ s_nodes s !! self = Some n /\ (a ∉ n_props n) /\
    s' = Store (<[a := set_parent p self]> (s_props s))
               (<[self := Node (n_name n) (n_parent n) (n_props n ++ [a]) (n_nodes n)]>
                  (s_nodes s)) /\
    get_property self (prop_name p) s' = Ok (Some a).
Proof.
  intros H. unfold Node_append in H.
  inv_read H as p Hp. apply load_prop_Ok in Hp.
  inv_read H as found Hfound. destruct found as [b|]; [discriminate|].
  inv_bind H as s1 u Hw. unfold write_prop in Hw. injection Hw as <- _.
  unfold props_append in H. inv_read H as n Hn. apply load_node_Ok in Hn. simpl in Hn.
  unfold write_node in H. injection H as <-. simpl.
  unfold get_property in Hfound. unfold load_node in Hfound. rewrite Hn in Hfound.
  simpl in Hfound. apply get_property_loop_None in Hfound.
  assert (Hnotin : a ∉ n_props n).
  { intros Hin. rewrite Forall_forall in Hfound.
    destruct (Hfound a Hin) as (p' & Hp' & Hne). congruence. }
  pose proof (lookup_lt_Some _ _ _ Hp) as Hlta. pose proof (lookup_lt_Some _ _ _ Hn) as Hlts.
  exists p, n. split_and!; [done..|].
  unfold get_property, load_node. simpl. rewrite list_lookup_insert_eq by done. simpl.
  apply get_property_loop_Some. exists (n_props n), [], (set_parent p self). simpl.
  split_and!; [done| |by destruct p|].
  - by rewrite list_lookup_insert_eq.
  - apply Forall_forall. intros b Hb. rewrite Forall_forall in Hfound.
    destruct (Hfound b Hb) as (p' & Hp' & Hne). exists p'. split; [|done].
    rewrite list_lookup_insert_ne; [done|]. intros ->. done.
Qed.

Lemma append_then_get_property_witness :
  exists p n,
    s_props (Store [Property (py "x") None None] [Node (py "a") None [] []]) !! 0%nat = Some p /\
    s_nodes (Store [Property (py "x") None None] [Node (py "a") None [] []]) !! 0%nat = Some n /\
    (0%nat ∉ n_props n) /\
    Store [Property (py "x") (Some 0%nat) None] [Node (py "a") None [0%nat] []]
    = Store (<[0%nat := set_parent p 0%nat]> [Property (py "x") None None])
            (<[0%nat := Node (n_name n) (n_parent n) (n_props n ++ [0%nat]) (n_nodes n)]>
               [Node (py "a") None [] []]) /\
    get_property 0%nat (prop_name p)
      (Store [Property (py "x") (Some 0%nat) None] [Node (py "a") None [0%nat] []])
    = Ok (Some 0%nat).
Proof.
  exact (append_then_get_property 0%nat 0%nat
           (Store [Property (py "x") None None] [Node (py "a") None [] []]) _ eq_refl).
Defined.

(** X15. After [append] of a node returned, the node appended is another
    node than the one appended to, has it as parent and is the last of its
    children, no other object has changed, and [get_subnode] with its name
    returns it. *)
Theorem append_then_get_subnode (self a : naddr) (s s' : store) :
  Node_append self (ItemNode a) s = (s', Ok tt) ->
  exists x n,
    s_nodes s !! a = Some x /\ s_nodes s !! self = Some n /\
    a <> self /\ (a ∉ n_nodes n) /\
    s' = Store (s_props s)
               (<[self := Node (n_name n) (n_parent n) (n_props n) (n_nodes n ++ [a])]>
                  (<[a := node_set_parent x self]> (s_nodes s))) /\
    get_subnode self (n_name x) s' = Ok (Some a).
Proof.
  intros H. unfold Node_append in H.
  inv_read H as x Hx. apply load_node_Ok in Hx.
  inv_read H as found Hfound. destruct found as [b|]; [discriminate|].
  case_bool_decide as Hne; [discriminate|].
  inv_bind H as s1 u Hw. unfold write_node in Hw. injection Hw as <- _.
  unfold nodes_append in H. inv_read H as n Hn. apply load_node_Ok in Hn. simpl in Hn.
  rewrite list_lookup_insert_ne in Hn by done.
  unfold write_node in H. injection H as <-. simpl.
  unfold get_subnode in Hfound. unfold load_node in Hfound. rewrite Hn in Hfound.
  simpl in Hfound. apply get_subnode_loop_None in Hfound.
  assert (Hnotin : a ∉ n_nodes n).
  { intros Hin. rewrite Forall_forall in Hfound.
    destruct (Hfound a Hin) as (p' & Hp' & Hne'). congruence. }
  pose proof (lookup_lt_Some _ _ _ Hx) as Hlta. pose proof (lookup_lt_Some _ _ _ Hn) as Hlts.
  exists x, n. split_and!; [done..|].
  unfold get_subnode, load_node. simpl.
  rewrite list_lookup_insert_eq by (by rewrite length_insert). simpl.
  apply get_subnode_loop_Some. exists (n_nodes n), [], (node_set_parent x self). simpl.
  split_and!; [done| |done|].
  - rewrite list_lookup_insert_ne by done. by rewrite list_lookup_insert_eq.
  - apply Forall_forall. intros b Hb. rewrite Forall_forall in Hfound.
    destruct (Hfound b Hb) as (p' & Hp' & Hne').
    destruct (decide (b = self)) as [->|Hbs].
    + rewrite list_lookup_insert_eq by (by rewrite length_insert).
      eexists. split; [reflexivity|]. simpl. congruence.
    + exists p'. split; [|done]. rewrite !list_lookup_insert_ne; [done| |done].
      intros ->. done.
Qed.

Lemma append_then_get_subnode_witness :
  exists x n,
    s_nodes (Store [] [Node (py "a") None [] []; Node (py "b") None [] []]) !! 1%nat = Some x /\
    s_nodes (Store [] [Node (py "a") None [] []; Node (py "b") None [] []]) !! 0%nat = Some n /\
    1%nat <> 0%nat /\ (1%nat ∉ n_nodes n) /\
    Store [] [Node (py "a") None [] [1%nat]; Node (py "b") (Some 0%nat) [] []]
    = Store []
        (<[0%nat := Node (n_name n) (n_parent n) (n_props n) (n_nodes n ++ [1%nat])]>
           (<[1%nat := node_set_parent x 0%nat]>
              [Node (py "a") None [] []; Node (py "b") None [] []])) /\
    get_subnode 0%nat (n_name x)
      (Store [] [Node (py "a") None [] [1%nat]; Node (py "b") (Some 0%nat) [] []])
    = Ok (Some 1%nat).
Proof.
  exact (append_then_get_subnode 0%nat 1%nat
           (Store [] [Node (py "a") None [] []; Node (py "b") None [] []]) _ eq_refl).
Defined.

Lemma Node_append_node_inv (self a : naddr) (s s' : store) :
  Node_append self (ItemNode a) s = (s', Ok tt) ->
  exists x n,
    s_nodes s !! a = Some x /\ s_nodes s !! self = Some n /\ a <> self /\
    s' = Store (s_props s)
               (<[self := Node (n_name n) (n_parent n) (n_props n) (n_nodes n ++ [a])]>
                  (<[a := node_set_parent x self]> (s_nodes s))).
Proof.
  intros H. unfold Node_append in H.
  inv_read H as x Hx. apply load_node_Ok in Hx.
  inv_read H as found Hfound. destruct found as [b|]; [discriminate|].
  case_bool_decide as Hne; [discriminate|].
  inv_bind H as s1 u Hw. unfold write_node in Hw. injection Hw as <- _.
  unfold nodes_append in H. inv_read H as n Hn. apply load_node_Ok in Hn. simpl in Hn.
  rewrite list_lookup_insert_ne in Hn by done.
  unfold write_node in H. injection H as <-. simpl. by exists x, n.
Qed.

Lemma Node_append_node_Ok (self a : naddr) (s : store) (x n : node) :
  s_nodes s !! a = Some x -> s_nodes s !! self = Some n -> a <> self ->
  get_subnode self (n_name x) s = Ok None ->
  Node_append self (ItemNode a) s
  = (Store (s_props s)
           (<[self := Node (n_name n) (n_parent n) (n_props n) (n_nodes n ++ [a])]>
              (<[a := node_set_parent x self]> (s_nodes s))), Ok tt).
Proof.
  intros Hx Hn Hne Hfound. unfold Node_append, bind, lift, load_node.
  rewrite Hx, Hfound. rewrite bool_decide_eq_false_2 by done.
  unfold write_node, nodes_append, bind, lift, load_node. simpl.
  rewrite list_lookup_insert_ne by done. by rewrite Hn.
Qed.

(** X16. [append] refuses the node itself, not its ancestors: a node that
    is met on the way up from [self] can be appended to [self] when no
    child has its name, and from then on the walk of [path] from [self]
    never ends. *)
Theorem append_ancestor_diverges (self a q : naddr) (k : nat) (s : store) (n x : node) :
  s_nodes s !! self = Some n -> s_nodes s !! a = Some x -> a <> self ->
  n_name n <> py "/" -> n_parent n = Some q -> climbs s k q a = true ->
  get_subnode self (n_name x) s = Ok None ->
  exists s',
    Node_append self (ItemNode a) s = (s', Ok tt) /\
    forall fuel, node_path fuel s' self = Raise OutOfFuel.
Proof.
  intros Hn Hx Hne Hname Hpar Hclimb Hfound.
  eexists. split; [by apply Node_append_node_Ok|].
  set (s' := Store _ _).
  pose proof (lookup_lt_Some _ _ _ Hn) as Hlts. pose proof (lookup_lt_Some _ _ _ Hx) as Hlta.
  assert (Hself' : s_nodes s' !! self
                   = Some (Node (n_name n) (n_parent n) (n_props n) (n_nodes n ++ [a]))).
  { simpl. apply list_lookup_insert_eq. by rewrite length_insert. }
  assert (Ha' : s_nodes s' !! a = Some (node_set_parent x self)).
  { simpl. rewrite list_lookup_insert_ne by done. by apply list_lookup_insert_eq. }
  assert (Hother : forall y, y <> self -> y <> a -> s_nodes s' !! y = s_nodes s !! y).
  { intros y H1 H2. simpl. by rewrite !list_lookup_insert_ne. }
  assert (Hloop : forall fuel,
            (forall k y acc, climbs s k y a = true ->
                             path_loop fuel s' (Some y) acc = Raise OutOfFuel) /\
            (forall acc, path_loop fuel s' (Some self) acc = Raise OutOfFuel)).
  { induction fuel as [|fuel [IH1 IH2]]; [done|]. split.
    - intros k0 y acc Hy. cbn [path_loop]. unfold load_node.
      destruct k0 as [|k0]; cbn [climbs] in Hy;
        destruct (s_nodes s !! y) as [ny|] eqn:Hny; try discriminate;
        apply andb_true_iff in Hy as [Hroot Hy]; apply negb_true_iff in Hroot;
        apply orb_true_iff in Hy as [Hy|Hy].
      + apply bool_decide_eq_true in Hy. subst y. rewrite Ha'. cbn [rbind node_set_parent n_name].
        assert (ny = x) as -> by congruence. rewrite Hroot. apply IH2.
      + discriminate.
      + apply bool_decide_eq_true in Hy. subst y. rewrite Ha'. cbn [rbind node_set_parent n_name].
        assert (ny = x) as -> by congruence. rewrite Hroot. apply IH2.
      + destruct (n_parent ny) as [qy|] eqn:Hqy; [|discriminate].
        destruct (decide (y = a)) as [->|Hya].
        * rewrite Ha'. cbn [rbind node_set_parent n_name].
          assert (ny = x) as -> by congruence. rewrite Hroot. apply IH2.
        * destruct (decide (y = self)) as [->|Hys].
          -- rewrite Hself'. cbn [rbind n_name n_parent].
             assert (ny = n) as -> by congruence. rewrite Hroot, Hqy. by eapply IH1.
          -- rewrite Hother, Hny by done. cbn [rbind]. rewrite Hroot, Hqy. by eapply IH1.
    - intros acc. cbn [path_loop]. unfold load_node. rewrite Hself'. cbn [rbind n_name n_parent].
      rewrite bool_decide_eq_false_2 by done. rewrite Hpar. by eapply IH1. }
  intros fuel. unfold node_path, load_node. rewrite Hself'. cbn [rbind n_parent].
  rewrite Hpar. unfold path_of. by rewrite (proj1 (Hloop fuel) k q [] Hclimb).
Qed.

Lemma append_ancestor_diverges_witness :
  exists s',
    Node_append 1%nat (ItemNode 0%nat)
      (Store [] [Node (py "a") None [] [1%nat]; Node (py "b") (Some 0%nat) [] []])
    = (s', Ok tt) /\
    forall fuel, node_path fuel s' 1%nat = Raise OutOfFuel.
Proof.
  exact (append_ancestor_diverges 1%nat 0%nat 0%nat 0
           (Store [] [Node (py "a") None [] [1%nat]; Node (py "b") (Some 0%nat) [] []])
           (Node (py "b") (Some 0%nat) [] []) (Node (py "a") None [] [1%nat])
           eq_refl eq_refl ltac:(discriminate) ltac:(discriminate) eq_refl eq_refl eq_refl).
Defined.

(** X17. [append] of a node does not take it out of the children of the
    node that held it: every node that listed it still lists it, while its
    parent is the node it was appended to. *)
Theorem append_keeps_previous_listing (self a : naddr) (s s' : store) :
  Node_append self (ItemNode a) s = (s', Ok tt) ->
  (exists x', s_nodes s' !! a = Some x' /\ n_parent x' = Some self) /\
  (forall o no, s_nodes s !! o = Some no -> a ∈ n_nodes no ->
     exists no', s_nodes s' !! o = Some no' /\ a ∈ n_nodes no').
Proof.
  intros (x & n & Hx & Hn & Hne & ->)%Node_append_node_inv.
  pose proof (lookup_lt_Some _ _ _ Hn) as Hlts. pose proof (lookup_lt_Some _ _ _ Hx) as Hlta.
  simpl. split.
  - eexists. rewrite list_lookup_insert_ne by done.
    split; [by apply list_lookup_insert_eq|done].
  - intros o no Ho Hin. destruct (decide (o = self)) as [->|Hos].
    + eexists. split; [apply list_lookup_insert_eq; by rewrite length_insert|].
      simpl. assert (no = n) as -> by congruence. apply elem_of_app. by left.
    + rewrite list_lookup_insert_ne by done. destruct (decide (o = a)) as [->|Hoa].
      * eexists. split; [by apply list_lookup_insert_eq|].
        simpl. by assert (no = x) as -> by congruence.
      * exists no. by rewrite list_lookup_insert_ne.
Qed.

Lemma append_keeps_previous_listing_witness :
  (exists x', s_nodes (Store [] [Node (py "a") None [] [2%nat]; Node (py "b") None [] [2%nat];
                                 Node (py "c") (Some 1%nat) [] []]) !! 2%nat = Some x' /\
              n_parent x' = Some 1%nat) /\
  (forall o no,
      s_nodes (Store [] [Node (py "a") None [] [2%nat]; Node (py "b") None [] [];
                         Node (py "c") (Some 0%nat) [] []]) !! o = Some no ->
      2%nat ∈ n_nodes no ->
      exists no', s_nodes (Store [] [Node (py "a") None [] [2%nat];
                                     Node (py "b") None [] [2%nat];
                                     Node (py "c") (Some 1%nat) [] []]) !! o = Some no' /\
                  2%nat ∈ n_nodes no').
Proof.
  exact (append_keeps_previous_listing 1%nat 2%nat
           (Store [] [Node (py "a") None [] [2%nat]; Node (py "b") None [] [];
                      Node (py "c") (Some 0%nat) [] []]) _ eq_refl).
Defined.

Lemma list_remove_first (eq : nat -> nat -> result bool) (a : nat) (l1 l2 : list nat) :
  Forall (fun e => e <> a /\ eq e a = Ok false) l1 ->
  list_remove eq a (l1 ++ a :: l2) = Ok (l1 ++ l2).
Proof.
  induction 1 as [|e l1 [Hne He] _ IH]; simpl.
  - by rewrite bool_decide_eq_true_2.
  - rewrite bool_decide_eq_false_2 by done. rewrite He. simpl. by rewrite IH.
Qed.

Lemma prop_eq_names_differ (p q : prop) :
  prop_name p <> prop_name q -> prop_eq p (OpProp q) = false.
Proof.
  intros Hne. destruct (prop_eq p (OpProp q)) eqn:E; [|done].
  by apply prop_eq_name in E.
Qed.

(** X18. [remove_property] with a name that no property of the node has
    returns without an error and changes nothing.  Otherwise it takes the
    first property of that name out of the node's list and changes nothing
    else: the properties before and after it keep their order, and the
    removed object keeps its parent; when no later property has the name,
    [get_property] with that name then returns [None]. *)
Theorem remove_property_first (self : naddr) (name : str) (s : store) (n : node) :
  s_nodes s !! self = Some n ->
  (Forall (fun b => exists p, s_props s !! b = Some p /\ prop_name p <> name) (n_props n) ->
   remove_property self name s = (s, Ok tt)) /\
  (forall l1 a l2 p,
      n_props n = l1 ++ a :: l2 -> s_props s !! a = Some p -> prop_name p = name ->
      Forall (fun b => exists p, s_props s !! b = Some p /\ prop_name p <> name) l1 ->
      let s' := Store (s_props s)
                      (<[self := Node (n_name n) (n_parent n) (l1 ++ l2) (n_nodes n)]>
                         (s_nodes s)) in
      remove_property self name s = (s', Ok tt) /\
      (Forall (fun b => exists p, s_props s !! b = Some p /\ prop_name p <> name) l2 ->
       get_property self name s' = Ok None)).
Proof.
  intros Hn. pose proof (lookup_lt_Some _ _ _ Hn) as Hlt. split.
  - intros Hall%get_property_loop_None.
    unfold remove_property, bind, lift, get_property, load_node. rewrite Hn. simpl.
    by rewrite Hall.
  - intros l1 a l2 p Hl Hp Hname Hl1 s'. split.
    + unfold remove_property, bind, lift, get_property, load_node. rewrite Hn. simpl.
      rewrite (proj2 (get_property_loop_Some s name (n_props n) a))
        by (by exists l1, l2, p).
      rewrite Hn. simpl. rewrite Hl, list_remove_first; [done|].
      eapply Forall_impl; [exact Hl1|]. simpl. intros b (pb & Hpb & Hne). split.
      * intros ->. congruence.
      * unfold prop_eq_at, load_prop. rewrite Hpb, Hp. cbn [rbind].
        rewrite prop_eq_names_differ; [done|congruence].
    + intros Hl2. unfold get_property, load_node. simpl.
      rewrite list_lookup_insert_eq by done. simpl.
      apply get_property_loop_None. apply Forall_app. by split.
Qed.

Lemma remove_property_first_witness :
  (Forall (fun b => exists p,
             s_props (Store [PropWords (py "reg") (Some 0%nat) (PyList [PyInt 1]) 32;
                             Property (py "ranges") (Some 0%nat) None]
                            [Node (py "a") None [0%nat; 1%nat] []]) !! b = Some p /\
             prop_name p <> py "ranges") [0%nat; 1%nat] ->
   remove_property 0%nat (py "ranges")
     (Store [PropWords (py "reg") (Some 0%nat) (PyList [PyInt 1]) 32;
             Property (py "ranges") (Some 0%nat) None]
            [Node (py "a") None [0%nat; 1%nat] []])
   = (Store [PropWords (py "reg") (Some 0%nat) (PyList [PyInt 1]) 32;
             Property (py "ranges") (Some 0%nat) None]
            [Node (py "a") None [0%nat; 1%nat] []], Ok tt)) /\
  remove_property 0%nat (py "ranges")
    (Store [PropWords (py "reg") (Some 0%nat) (PyList [PyInt 1]) 32;
            Property (py "ranges") (Some 0%nat) None]
           [Node (py "a") None [0%nat; 1%nat] []])
  = (Store [PropWords (py "reg") (Some 0%nat) (PyList [PyInt 1]) 32;
            Property (py "ranges") (Some 0%nat) None]
           [Node (py "a") None [0%nat] []], Ok tt).
Proof.
  pose proof (remove_property_first 0%nat (py "ranges")
                (Store [PropWords (py "reg") (Some 0%nat) (PyList [PyInt 1]) 32;
                        Property (py "ranges") (Some 0%nat) None]
                       [Node (py "a") None [0%nat; 1%nat] []])
                (Node (py "a") None [0%nat; 1%nat] []) eq_refl) as [H1 H2].
  split; [exact H1|].
  refine (proj1 (H2 [0%nat] 1%nat [] (Property (py "ranges") (Some 0%nat) None)
                    eq_refl eq_refl eq_refl _)).
  repeat constructor. eexists. split; [reflexivity|]. discriminate.
Defined.

(** X19. [remove_subnode] with a name that no child of the node has
    returns without an error and changes nothing.  Otherwise it takes the
    first child of that name out of the node's list and changes nothing
    else: the removed node keeps its parent, its properties and its
    children. *)
Theorem remove_subnode_first (fuel : nat) (self : naddr) (name : str) (s : store) (n : node) :
  s_nodes s !! self = Some n ->
  (Forall (fun b => exists x, s_nodes s !! b = Some x /\ n_name x <> name) (n_nodes n) ->
   remove_subnode fuel self name s = (s, Ok tt)) /\
  (forall l1 a l2 x,
      (0 < fuel)%nat ->
      n_nodes n = l1 ++ a :: l2 -> s_nodes s !! a = Some x -> n_name x = name ->
      Forall (fun b => exists x, s_nodes s !! b = Some x /\ n_name x <> name) l1 ->
      let s' := Store (s_props s)
                      (<[self := Node (n_name n) (n_parent n) (n_props n) (l1 ++ l2)]>
                         (s_nodes s)) in
      remove_subnode fuel self name s = (s', Ok tt) /\
      (a <> self -> s_nodes s' !! a = Some x)).
Proof.
  intros Hn. pose proof (lookup_lt_Some _ _ _ Hn) as Hlt. split.
  - intros Hall%get_subnode_loop_None.
    unfold remove_subnode, bind, lift, get_subnode, load_node. rewrite Hn. simpl.
    by rewrite Hall.
  - intros l1 a l2 x Hfuel Hl Hx Hname Hl1 s'. split.
    + unfold remove_subnode, bind, lift, get_subnode, load_node. rewrite Hn. simpl.
      rewrite (proj2 (get_subnode_loop_Some s name (n_nodes n) a))
        by (by exists l1, l2, x).
      rewrite Hn. simpl. rewrite Hl, list_remove_first; [done|].
      eapply Forall_impl; [exact Hl1|]. simpl. intros b (xb & Hxb & Hne). split.
      * intros ->. congruence.
      * destruct fuel as [|fuel]; [lia|]. unfold node_eq. simpl. unfold load_node.
        rewrite Hxb, Hx. simpl. rewrite bool_decide_eq_false_2; [done|congruence].
    + intros Hne. simpl. by rewrite list_lookup_insert_ne.
Qed.

Lemma remove_subnode_first_witness :
  (Forall (fun b => exists x,
             s_nodes (Store [] [Node (py "a") None [] [1%nat; 2%nat];
                                Node (py "b") (Some 0%nat) [] [];
                                Node (py "c") (Some 0%nat) [] []]) !! b = Some x /\
             n_name x <> py "c") [1%nat; 2%nat] ->
   remove_subnode 1 0%nat (py "c")
     (Store [] [Node (py "a") None [] [1%nat; 2%nat]; Node (py "b") (Some 0%nat) [] [];
                Node (py "c") (Some 0%nat) [] []])
   = (Store [] [Node (py "a") None [] [1%nat; 2%nat]; Node (py "b") (Some 0%nat) [] [];
                Node (py "c") (Some 0%nat) [] []], Ok tt)) /\
  remove_subnode 1 0%nat (py "c")
    (Store [] [Node (py "a") None [] [1%nat; 2%nat]; Node (py "b") (Some 0%nat) [] [];
               Node (py "c") (Some 0%nat) [] []])
  = (Store [] [Node (py "a") None [] [1%nat]; Node (py "b") (Some 0%nat) [] [];
               Node (py "c") (Some 0%nat) [] []], Ok tt).
Proof.
  pose proof (remove_subnode_first 1 0%nat (py "c")
                (Store [] [Node (py "a") None [] [1%nat; 2%nat];
                           Node (py "b") (Some 0%nat) [] [];
                           Node (py "c") (Some 0%nat) [] []])
                (Node (py "a") None [] [1%nat; 2%nat]) eq_refl) as [H1 H2].
  split; [exact H1|].
  refine (proj1 (H2 [1%nat] 2%nat [] (Node (py "c") (Some 0%nat) [] [])
                    (le_n 1) eq_refl eq_refl eq_refl _)).
  repeat constructor. eexists. split; [reflexivity|]. discriminate.
Defined.

(** * Equality of a node with itself, and merging a node into itself *)

Lemma contains_self (eq : nat -> nat -> result bool) (x : nat) (l : list nat) :
  x ∈ l -> (forall e, e ∈ l -> exists b, eq x e = Ok b) -> contains eq x l = Ok true.
Proof.
  induction l as [|e l IH]; intros Hx Heq; [by apply elem_of_nil in Hx|]. simpl.
  case_bool_decide as Hxe; [done|].
  destruct (Heq e (list_elem_of_here _ _)) as [b ->]. simpl. destruct b; [done|].
  apply IH.
  - apply elem_of_cons in Hx as [->|Hx]; done.
  - intros e' He'. apply Heq. by apply list_elem_of_further.
Qed.

Lemma all_in_self (eq : nat -> nat -> result bool) (xs l : list nat) :
  (forall x, x ∈ xs -> x ∈ l) ->
  (forall x e, x ∈ xs -> e ∈ l -> exists b, eq x e = Ok b) ->
  all_in eq xs l = Ok true.
Proof.
  induction xs as [|x xs IH]; intros Hsub Heq; [done|]. simpl.
  rewrite contains_self.
  - simpl. apply IH.
    + intros y Hy. apply Hsub. by apply list_elem_of_further.
    + intros y e Hy He. apply Heq; [by apply list_elem_of_further|done].
  - apply Hsub, list_elem_of_here.
  - intros e He. apply Heq; [apply list_elem_of_here|done].
Qed.

(** X20. In a well-formed store, a node whose tree has fewer than [h]
    levels compares equal to itself within the budget [h], whatever its
    properties and children are. *)
Theorem Node_eq_reflexive (h : nat) (s : store) (a : naddr) :
  wf_store s = true -> height_ok h s a = true ->
  Node___eq__ h s a (OpNode a) = Ok true.
Proof.
  intros Hwf%wf_store_spec Hh. destruct h as [|h]; [discriminate|]. simpl in *.
  destruct (s_nodes s !! a) as [n|] eqn:Hn; [|discriminate].
  unfold load_node. rewrite Hn. simpl.
  rewrite !bool_decide_eq_true_2 by done. simpl.
  destruct (wf_node _ Hwf a n Hn) as (_ & Hvn & Hvp). rewrite Forall_forall in Hvn, Hvp.
  rewrite all_in_self; [simpl|done|].
  - apply all_in_self; [done|]. intros x e Hx He. apply Node_eq_total; auto.
    rewrite forallb_forall in Hh. apply Hh. by apply list_elem_of_In.
  - intros x e Hx He. apply prop_eq_at_total; auto.
Qed.

Lemma Node_eq_reflexive_witness :
  Node___eq__ 4 sample_store 0%nat (OpNode 0%nat) = Ok true.
Proof. exact (Node_eq_reflexive 4 sample_store 0%nat eq_refl eq_refl). Defined.

Lemma for_each_noop (body : nat -> M unit) (xs : list nat) (s : store) :
  (forall x, x ∈ xs -> body x s = (s, Ok tt)) -> for_each body xs s = (s, Ok tt).
Proof.
  induction xs as [|x xs IH]; intros Hb; [done|]. simpl. unfold bind.
  rewrite Hb by apply list_elem_of_here. apply IH. intros y Hy. apply Hb.
  by apply list_elem_of_further.
Qed.

Lemma get_subnode_index_loop_None (s : store) (nm : str) (l : list naddr) :
  forall k,
    get_subnode_index_loop s l nm k = Ok None ->
    Forall (fun t => exists n, s_nodes s !! t = Some n /\ n_name n <> nm) l.
Proof.
  induction l as [|a l IH]; intros k; simpl; [by constructor|].
  destruct (load_node a s) as [n|] eqn:Hn; simpl; [|discriminate].
  apply load_node_Ok in Hn. case_bool_decide as Hnm; [discriminate|].
  intros H. constructor; eauto.
Qed.

(** X21. Merging a node of a well-formed store into itself changes
    nothing: every property and every child is found in the node's own
    lists, so nothing is copied and nothing is replaced. *)
Theorem merge_into_itself (h fuel : nat) (s : store) (a : naddr) (replace : bool) :
  wf_store s = true -> height_ok h s a = true -> (h <= fuel)%nat ->
  Node_merge fuel a a replace s = (s, Ok tt).
Proof.
  intros Hwf%wf_store_spec Hh Hfuel. destruct h as [|h]; [discriminate|].
  destruct fuel as [|fuel]; [lia|]. simpl in *.
  destruct (s_nodes s !! a) as [n|] eqn:Hn; [|discriminate].
  destruct (wf_node _ Hwf a n Hn) as (_ & Hvn & Hvp). rewrite Forall_forall in Hvn, Hvp.
  unfold bind at 1. unfold lift at 1. unfold load_node at 1. rewrite Hn.
  unfold bind at 1. rewrite for_each_noop.
  - unfold bind at 1. unfold lift at 1. unfold load_node at 1. rewrite Hn.
    apply for_each_noop. intros x Hx.
    destruct (lookup_lt_is_Some_2 _ _ (Hvn x Hx)) as [sub Hsub].
    unfold merge_node, bind, lift, load_node. rewrite Hsub.
    destruct (get_subnode_index_loop_total s (n_name sub) (n_nodes n)
                ltac:(by apply Forall_forall) 0%nat) as [r Hr].
    unfold get_subnode_index, load_node. rewrite Hn. simpl. rewrite Hr.
    destruct r as [i|].
    + unfold node_in_nodes, load_node. rewrite Hn. simpl.
      rewrite contains_self; [done|done|].
      intros e He. unfold node_eq.
      destruct (Node_eq_total s Hwf h x e) as [b Hb]; [|auto|].
      * rewrite forallb_forall in Hh. apply Hh. by apply list_elem_of_In.
      * exists b. eapply Node_eq_mono; [|exact Hb]. lia.
    + apply get_subnode_index_loop_None in Hr. rewrite Forall_forall in Hr.
      destruct (Hr x Hx) as (sub' & Hsub' & Hne). congruence.
  - intros x Hx.
    destruct (lookup_lt_is_Some_2 _ _ (Hvp x Hx)) as [p Hp].
    unfold merge_prop, bind, lift, load_prop. rewrite Hp.
    destruct (get_property_index_loop_total s (prop_name p) (n_props n)
                ltac:(by apply Forall_forall) 0%nat) as [r Hr].
    unfold get_property_index, load_node. rewrite Hn. simpl. rewrite Hr.
    destruct r as [i|].
    + unfold prop_in_props, load_node. rewrite Hn. simpl.
      rewrite contains_self; [done|done|].
      intros e He. apply prop_eq_at_total; auto.
    + apply get_property_index_loop_None in Hr. rewrite Forall_forall in Hr.
      destruct (Hr x Hx) as (p' & Hp' & Hne). congruence.
Qed.

Lemma merge_into_itself_witness :
  Node_merge 4 0%nat 0%nat true sample_store = (sample_store, Ok tt).
Proof.
  exact (merge_into_itself 4 4 sample_store 0%nat true eq_refl eq_refl (le_n 4)).
Defined.

(** * What a merge leaves alone *)

Lemma keeps_props_trans (s1 s2 s3 : store) :
  ((length (s_props s1) <= length (s_props s2))%nat /\
   forall b, (b < length (s_props s1))%nat -> s_props s2 !! b = s_props s1 !! b) ->
  ((length (s_props s2) <= length (s_props s3))%nat /\
   forall b, (b < length (s_props s2))%nat -> s_props s3 !! b = s_props s2 !! b) ->
  (length (s_props s1) <= length (s_props s3))%nat /\
  forall b, (b < length (s_props s1))%nat -> s_props s3 !! b = s_props s1 !! b.
Proof.
  intros [Hl1 H1] [Hl2 H2]. split; [lia|]. intros b Hb. rewrite H2 by lia. by apply H1.
Qed.

Lemma for_each_keeps_props (body : nat -> M unit) (xs : list nat) :
  (forall x s s' u, body x s = (s', Ok u) ->
     (length (s_props s) <= length (s_props s'))%nat /\
     forall b, (b < length (s_props s))%nat -> s_props s' !! b = s_props s !! b) ->
  forall s s' u, for_each body xs s = (s', Ok u) ->
    (length (s_props s) <= length (s_props s'))%nat /\
    forall b, (b < length (s_props s))%nat -> s_props s' !! b = s_props s !! b.
Proof.
  intros Hbody. induction xs as [|x xs IH]; intros s s' u H; simpl in H.
  - apply ret_Ok in H as [-> _]. by split.
  - inv_bind H as s1 u1 Hx.
    eapply keeps_props_trans; [eapply Hbody; exact Hx|eapply IH; exact H].
Qed.

Lemma merge_prop_keeps_props (self : naddr) (a : paddr) (s s' : store) (u : unit) :
  merge_prop self false a s = (s', Ok u) ->
  (length (s_props s) <= length (s_props s'))%nat /\
  forall b, (b < length (s_props s))%nat -> s_props s' !! b = s_props s !! b.
Proof.
  intros (prop & n & index & Hprop & Hself & _ & Hcase)%merge_prop_cases.
  destruct index as [i|].
  - destruct Hcase as (present & _ & Hcase). by destruct present; subst s'.
  - destruct Hcase as (copy & _ & ->). simpl. rewrite length_app. simpl. split; [lia|].
    intros b Hb. by rewrite lookup_app_l.
Qed.

Lemma merge_node_keeps_props (fuel : nat) (rec : naddr -> naddr -> M unit) (self a : naddr) :
  (forall t x s s' u, rec t x s = (s', Ok u) ->
     (length (s_props s) <= length (s_props s'))%nat /\
     forall b, (b < length (s_props s))%nat -> s_props s' !! b = s_props s !! b) ->
  forall s s' u, merge_node fuel rec self a s = (s', Ok u) ->
    (length (s_props s) <= length (s_props s'))%nat /\
    forall b, (b < length (s_props s))%nat -> s_props s' !! b = s_props s !! b.
Proof.
  intros Hrec s s' u H. unfold merge_node in H.
  inv_read H as sub Hsub. inv_read H as index Hidx.
  destruct index as [i|].
  - inv_read H as present Hpres.
    destruct present; [by apply ret_Ok in H as [-> _]|].
    inv_read H as t Ht. eauto.
  - inv_bind H as s1 c Hc.
    destruct (deepcopy_spec _ _ _ _ _ Hc) as ([m Hok] & _ & _).
    unfold nodes_append in H. inv_read H as n Hn. unfold write_node in H.
    injection H as <-. simpl. destruct (dc_le _ _ _ Hok) as [_ Hlp].
    split; [done|]. intros b Hb. by apply (dc_old_p _ _ _ Hok).
Qed.

(** X22. A merge with [replace] false, into any node and from any node,
    leaves every property object that existed before it exactly as it
    was: its class, name, parent and value. *)
Theorem merge_keep_leaves_properties (fuel : nat) (self other : naddr) (s s' : store) :
  Node_merge fuel self other false s = (s', Ok tt) ->
  forall b, (b < length (s_props s))%nat -> s_props s' !! b = s_props s !! b.
Proof.
  intros H.
  cut ((length (s_props s) <= length (s_props s'))%nat /\
       forall b, (b < length (s_props s))%nat -> s_props s' !! b = s_props s !! b);
    [by intros [_ ?]|].
  revert self other s s' H. generalize tt.
  induction fuel as [|fuel IH]; intros u self other s s' H; [discriminate|].
  simpl in H.
  inv_read H as o Ho. inv_bind H as s1 u1 Hprops. inv_read H as o' Ho'.
  eapply keeps_props_trans.
  - eapply for_each_keeps_props; [|exact Hprops]. intros. by eapply merge_prop_keeps_props.
  - eapply for_each_keeps_props; [|exact H]. intros x s2 s3 u2 Hx.
    eapply merge_node_keeps_props; [|exact Hx].
    intros t y s4 s5 u3 Hr. simpl in Hr. destruct u3. by eapply IH.
Qed.

Lemma merge_keep_leaves_properties_witness :
  s_props (merged_sample false) !! 0%nat = s_props merge_sample_store !! 0%nat.
Proof.
  assert (H : (0 < length (s_props merge_sample_store))%nat) by compute_done.
  exact (merge_keep_leaves_properties 5 0%nat 1%nat merge_sample_store (merged_sample false)
           eq_refl 0%nat H).
Defined.

(** X23. A merge writes only below the node merged into: when [DA] is a
    set of nodes that holds [self] and, with a node, its children, the
    merge into [self] leaves every other node of the store, and every
    property that is not a property of a node of [DA], as it was. *)
Theorem merge_leaves_outside (DA : list naddr) (fuel : nat) (self other : naddr)
    (replace : bool) (s s' : store) :
  side_closed s DA = true -> self ∈ DA ->
  Node_merge fuel self other replace s = (s', Ok tt) ->
  (forall x, x ∉ DA -> (x < length (s_nodes s))%nat -> s_nodes s' !! x = s_nodes s !! x) /\
  (forall b, b ∉ props_of s DA -> (b < length (s_props s))%nat ->
             s_props s' !! b = s_props s !! b).
Proof.
  intros Hc%side_closed_spec Hself H.
  destruct (Node_merge_frame (below_nodes DA s) (side_props DA s) (below_nodes_dec DA s)
              fuel self other replace s s' tt Hc (or_introl Hself) H)
    as (_ & _ & Hn & Hp).
  split.
  - intros x Hx Hlt. apply Hn. intros [?|?]; [done|lia].
  - intros b Hb Hlt. apply Hp. intros [?|?]; [done|lia].
Qed.

Lemma merge_leaves_outside_witness :
  (forall x, x ∉ [0%nat] -> (x < length (s_nodes merge_sample_store))%nat ->
             s_nodes (merged_sample true) !! x = s_nodes merge_sample_store !! x) /\
  (forall b, b ∉ props_of merge_sample_store [0%nat] ->
             (b < length (s_props merge_sample_store))%nat ->
             s_props (merged_sample true) !! b = s_props merge_sample_store !! b).
Proof.
  assert (H1 : 0%nat ∈ [0%nat]) by compute_done.
  exact (merge_leaves_outside [0%nat] 5 0%nat 1%nat true merge_sample_store
           (merged_sample true) eq_refl H1 eq_refl).
Defined.

(** X24. The deep copy that a merge makes of a child it has no node for:
    in a well-formed store it returns, within a budget above the number of
    nodes; the copy is a new node with the name of the original; no object
    that existed before has changed; and every node allocated by the copy
    has its parent, its children and its properties among the objects
    allocated by the copy, so that nothing is shared with the original. *)
Theorem deepcopy_isolated (fuel : nat) (x : naddr) (s : store) (nx : node) :
  wf_store s = true -> s_nodes s !! x = Some nx -> (length (s_nodes s) < fuel)%nat ->
  exists s' y ny,
    deepcopy fuel x s = (s', Ok y) /\
    (length (s_nodes s) <= y)%nat /\ s_nodes s' !! y = Some ny /\ n_name ny = n_name nx /\
    (forall a, (a < length (s_nodes s))%nat -> s_nodes s' !! a = s_nodes s !! a) /\
    (forall b, (b < length (s_props s))%nat -> s_props s' !! b = s_props s !! b) /\
    (forall a n, (length (s_nodes s) <= a)%nat -> s_nodes s' !! a = Some n ->
       fresh_or_none (length (s_nodes s)) (n_parent n) /\
       Forall (fun c => (length (s_nodes s) <= c)%nat) (n_nodes n) /\
       Forall (fun b => (length (s_props s) <= b)%nat) (n_props n)).
Proof.
  intros Hwf%wf_store_spec Hx Hfuel.
  destruct (deepcopy_total fuel x s Hwf) as (s' & y & Hdc);
    [by apply lookup_lt_Some in Hx|done|].
  destruct (deepcopy_spec _ _ _ _ _ Hdc) as ([m Hok] & Hy & (nx' & ny & Hnx & Hny & Hname)).
  assert (nx' = nx) as -> by congruence.
  exists s', y, ny. split_and!; [done|lia|done|done| | |].
  - apply (dc_old_n _ _ _ Hok).
  - apply (dc_old_p _ _ _ Hok).
  - apply (dc_new_n _ _ _ Hok).
Qed.

Lemma deepcopy_isolated_witness :
  exists s' y ny,
    deepcopy 4 2%nat merge_sample_store = (s', Ok y) /\
    (length (s_nodes merge_sample_store) <= y)%nat /\ s_nodes s' !! y = Some ny /\
    n_name ny = n_name (Node (py "c") (Some 1%nat) [] []) /\
    (forall a, (a < length (s_nodes merge_sample_store))%nat ->
               s_nodes s' !! a = s_nodes merge_sample_store !! a) /\
    (forall b, (b < length (s_props merge_sample_store))%nat ->
               s_props s' !! b = s_props merge_sample_store !! b) /\
    (forall a n, (length (s_nodes merge_sample_store) <= a)%nat -> s_nodes s' !! a = Some n ->
       fresh_or_none (length (s_nodes merge_sample_store)) (n_parent n) /\
       Forall (fun c => (length (s_nodes merge_sample_store) <= c)%nat) (n_nodes n) /\
       Forall (fun b => (length (s_props merge_sample_store) <= b)%nat) (n_props n)).
Proof.
  assert (H : (length (s_nodes merge_sample_store) < 4)%nat) by compute_done.
  exact (deepcopy_isolated 4 2%nat merge_sample_store (Node (py "c") (Some 1%nat) [] [])
           eq_refl eq_refl H).
Defined.

(** X25. [get_property] returns the first property of the node with the
    name asked for, and [None] exactly when the node has no property of
    that name; [get_subnode] does the same with the children. *)
Theorem get_first_of_name (self : naddr) (name : str) (s : store) (n : node) :
  s_nodes s !! self = Some n ->
  (get_property self name s = Ok None <->
   Forall (fun b => exists p, s_props s !! b = Some p /\ prop_name p <> name) (n_props n)) /\
  (forall a, get_property self name s = Ok (Some a) <->
     exists l1 l2 p,
       n_props n = l1 ++ a :: l2 /\ s_props s !! a = Some p /\ prop_name p = name /\
       Forall (fun b => exists p, s_props s !! b = Some p /\ prop_name p <> name) l1) /\
  (get_subnode self name s = Ok None <->
   Forall (fun b => exists x, s_nodes s !! b = Some x /\ n_name x <> name) (n_nodes n)) /\
  (forall a, get_subnode self name s = Ok (Some a) <->
     exists l1 l2 x,
       n_nodes n = l1 ++ a :: l2 /\ s_nodes s !! a = Some x /\ n_name x = name /\
       Forall (fun b => exists x, s_nodes s !! b = Some x /\ n_name x <> name) l1).
Proof.
  intros Hn. unfold get_property, get_subnode, load_node. rewrite Hn. simpl.
  split_and!.
  - apply get_property_loop_None.
  - intros a. apply get_property_loop_Some.
  - apply get_subnode_loop_None.
  - intros a. apply get_subnode_loop_Some.
Qed.

Lemma get_first_of_name_witness :
  get_property 3%nat (py "reg") sample_store = Ok (Some 0%nat) /\
  get_subnode 0%nat (py "bus") sample_store = Ok None.
Proof.
  destruct (get_first_of_name 3%nat (py "reg") sample_store
              (Node (py "leaf") (Some 2%nat) [0%nat] []) eq_refl) as (_ & H1 & _ & _).
  destruct (get_first_of_name 0%nat (py "bus") sample_store
              (Node (py "/") None [] [1%nat]) eq_refl) as (_ & _ & H2 & _).
  split.
  - apply H1. exists [], [], (PropWords (py "reg") (Some 3%nat) (PyList [PyInt 1]) 32).
    by split_and!.
  - apply H2. repeat constructor. eexists. split; [reflexivity|]. discriminate.
Defined.

(** * Merging twice *)

Lemma prop_eq_same (p q : prop) :
  class_of q = class_of p -> prop_name q = prop_name p -> values q = values p ->
  prop_eq p (OpProp q) = true.
Proof.
  intros Hc Hn Hv. unfold prop_eq, proper_subclass. rewrite Hc.
  destruct (bool_decide (class_of p = CProperty)) eqn:E; simpl.
  - apply bool_decide_eq_true in E. unfold prop___eq__. rewrite E. simpl.
    rewrite Hn. by rewrite bool_decide_eq_true_2.
  - apply bool_decide_eq_false in E. unfold prop___eq__.
    destruct (class_of p) eqn:Ecp; [done|..];
      apply PropData_eq_spec; unfold isinstance; rewrite Hc, Hv;
      (split_and!; [by apply bool_decide_eq_true|done|done|done]).
Qed.

Lemma set_data_idem (p : prop) (d : payload) : set_data (set_data p d) d = set_data p d.
Proof. by destruct p. Qed.

Lemma index_loop_congr (s s2 : store) (nm : str) (l : list paddr) :
  (forall e p, e ∈ l -> s_props s !! e = Some p ->
               exists p2, s_props s2 !! e = Some p2 /\ prop_name p2 = prop_name p) ->
  forall k r, get_property_index_loop s l nm k = Ok r ->
              get_property_index_loop s2 l nm k = Ok r.
Proof.
  induction l as [|a l IH]; intros Hs k r; simpl; [done|].
  unfold load_prop. destruct (s_props s !! a) as [p|] eqn:Hp; simpl; [|discriminate].
  destruct (Hs a p (list_elem_of_here _ _) Hp) as (p2 & -> & Hn). simpl. rewrite Hn.
  case_bool_decide; [done|]. apply IH. intros e q He. apply Hs. by apply list_elem_of_further.
Qed.

Lemma index_loop_app_Some (s : store) (nm : str) (l l' : list paddr) :
  forall k i, get_property_index_loop s l nm k = Ok (Some i) ->
              get_property_index_loop s (l ++ l') nm k = Ok (Some i).
Proof.
  induction l as [|a l IH]; intros k i; simpl; [discriminate|].
  destruct (load_prop a s) as [p|]; simpl; [|discriminate].
  case_bool_decide; [done|]. apply IH.
Qed.

Lemma index_loop_app_None (s : store) (nm : str) (l l' : list paddr) :
  forall k, get_property_index_loop s l nm k = Ok None ->
            get_property_index_loop s (l ++ l') nm k
            = get_property_index_loop s l' nm (k + length l).
Proof.
  induction l as [|a l IH]; intros k; simpl; [by rewrite Nat.add_0_r|].
  destruct (load_prop a s) as [p|]; simpl; [|discriminate].
  case_bool_decide; [discriminate|]. intros Hl. rewrite (IH _ Hl). f_equal. lia.
Qed.

(** Running an iteration of the first loop a second time, right after the
    first, changes nothing. *)
Lemma merge_prop_again (self : naddr) (replace : bool) (b : paddr) (s s1 : store) :
  merge_prop self replace b s = (s1, Ok tt) ->
  merge_prop self replace b s1 = (s1, Ok tt).
Proof.
  intros H.
  pose proof H as (prop & n & index & Hprop & Hself & Hidx & Hcase)%merge_prop_cases.
  pose proof (lookup_lt_Some _ _ _ Hprop) as Hltb.
  pose proof (lookup_lt_Some _ _ _ Hself) as Hlts.
  unfold get_property_index, load_node in Hidx. rewrite Hself in Hidx. simpl in Hidx.
  destruct index as [i|].
  - destruct Hcase as (present & Hpres & Hcase).
    destruct present; [by subst s1|].
    destruct replace; [|by subst s1].
    destruct Hcase as (d & t & target & Hd & Ht & Htarget & ->).
    unfold prop_in_props, load_node in Hpres. rewrite Hself in Hpres. simpl in Hpres.
    apply contains_false_inv in Hpres as Hall. rewrite Forall_forall in Hall.
    pose proof (list_elem_of_lookup_2 _ _ _ Ht) as Htin.
    destruct (Hall t Htin) as [Hbt _].
    pose proof (lookup_lt_Some _ _ _ Htarget) as Hltt.
    unfold merge_prop, bind, lift, load_prop. simpl.
    rewrite list_lookup_insert_ne by done. rewrite Hprop.
    unfold get_property_index, load_node. simpl. rewrite Hself. simpl.
    assert (Hidx2 : get_property_index_loop
                      (Store (<[t := set_data target d]> (s_props s)) (s_nodes s))
                      (n_props n) (prop_name prop) 0 = Ok (Some i)).
    { eapply index_loop_congr; [|exact Hidx].
      intros e p He Hp. simpl. destruct (decide (e = t)) as [->|Het].
      - rewrite list_lookup_insert_eq by done. eexists. split; [done|].
        rewrite prop_name_set_data. congruence.
      - rewrite list_lookup_insert_ne by done. eauto. }
    rewrite Hidx2.
    unfold prop_in_props, load_node. simpl. rewrite Hself. simpl.
    destruct (contains_total
                (prop_eq_at (Store (<[t := set_data target d]> (s_props s)) (s_nodes s)))
                b (n_props n)) as [present' Hp'].
    { intros e He. apply prop_eq_at_total; simpl; rewrite length_insert; [done|].
      destruct (Hall e He) as [_ Heq]. unfold prop_eq_at, load_prop in Heq.
      rewrite Hprop in Heq. simpl in Heq.
      destruct (s_props s !! e) eqn:Hee; [|discriminate]. by apply lookup_lt_Some in Hee. }
    rewrite Hp'. destruct present'; [done|]. rewrite Hd.
    unfold props_at, load_node. simpl. rewrite Hself. simpl. rewrite Ht.
    rewrite list_lookup_insert_eq by done.
    unfold write_prop. simpl. unfold copy_data.
    by rewrite set_data_idem, list_insert_insert_eq.
  - destruct Hcase as (copy & Hcopy & ->).
    apply get_property_index_loop_None in Hidx as Hall. rewrite Forall_forall in Hall.
    destruct (prop_copy_spec _ _ Hcopy) as (Hcc & Hcn & _ & Hcv).
    unfold merge_prop, bind, lift, load_prop. simpl.
    rewrite (lookup_app_l_Some _ _ _ _ Hprop).
    unfold get_property_index, load_node. simpl.
    rewrite list_lookup_insert_eq by done. simpl.
    rewrite index_loop_app_None.
    2:{ eapply index_loop_congr; [|exact Hidx]. intros e p He Hp. simpl.
        rewrite (lookup_app_l_Some _ _ _ _ Hp). eauto. }
    simpl. unfold load_prop. simpl.
    rewrite lookup_app_r, Nat.sub_diag by lia. simpl.
    assert (Hnm : bool_decide (prop_name (set_parent copy self) = prop_name prop) = true).
    { apply bool_decide_eq_true. unfold set_parent. by rewrite prop_name_with_parent. }
    rewrite Hnm.
    unfold prop_in_props, load_node. simpl.
    rewrite list_lookup_insert_eq by done. simpl.
    rewrite contains_true_intro; [done| |].
    + apply Forall_forall. intros e He. destruct (Hall e He) as (p & Hp & Hne). split.
      * intros ->. congruence.
      * unfold prop_eq_at, load_prop. cbn [s_props].
        rewrite (lookup_app_l_Some _ _ _ _ Hprop), (lookup_app_l_Some _ _ _ _ Hp).
        cbn [rbind]. rewrite prop_eq_names_differ; [done|congruence].
    + right. unfold prop_eq_at, load_prop. cbn [s_props].
      rewrite (lookup_app_l_Some _ _ _ _ Hprop).
      rewrite lookup_app_r, Nat.sub_diag by lia.
      change ([set_parent copy self] !! 0%nat) with (Some (set_parent copy self)).
      cbn [rbind]. rewrite prop_eq_same; [done|..].
      * unfold set_parent. by rewrite class_of_with_parent.
      * unfold set_parent. by rewrite prop_name_with_parent.
      * rewrite <- Hcv. unfold set_parent. by destruct copy.
Qed.

(** An iteration that changes nothing still changes nothing after the
    iteration for a property of another name. *)
Lemma merge_prop_stays_settled (self : naddr) (replace : bool) (b b' : paddr)
    (s s2 : store) (pb pb' : prop) :
  s_props s !! b = Some pb -> s_props s !! b' = Some pb' ->
  prop_name pb <> prop_name pb' ->
  merge_prop self replace b s = (s, Ok tt) ->
  merge_prop self replace b' s = (s2, Ok tt) ->
  merge_prop self replace b s2 = (s2, Ok tt).
Proof.
  intros Hb Hb' Hne Hset Hrun.
  pose proof Hset as (prop & n & index & Hprop & Hself & Hidx & Hcase)%merge_prop_cases.
  assert (prop = pb) as -> by congruence.
  destruct (merge_prop_step _ _ _ _ _ _ _ _ Hrun Hb' Hself)
    as (Hle & Hother & (ex & Hself2 & Hex) & Hfresh & Hkeep).
  pose proof (merge_prop_evolves _ _ _ _ _ _ Hrun) as Hev.
  pose proof (lookup_lt_Some _ _ _ Hb) as Hltb.
  unfold get_property_index, load_node in Hidx. rewrite Hself in Hidx. simpl in Hidx.
  destruct index as [i|].
  2:{ destruct Hcase as (copy & _ & Heq). apply (f_equal (fun st => length (s_props st))) in Heq.
      simpl in Heq. rewrite length_app in Heq. simpl in Heq. lia. }
  destruct Hcase as (present & Hpres & Hcase).
  unfold prop_in_props, load_node in Hpres. rewrite Hself in Hpres. simpl in Hpres.
  pose proof (Hkeep b pb Hb Hne) as Hb2.
  assert (Hidx2 : get_property_index_loop s2 (n_props n ++ ex) (prop_name pb) 0
                  = Ok (Some i)).
  { apply index_loop_app_Some. eapply index_loop_congr; [|exact Hidx].
    intros e p _ Hp. destruct (ev_prop _ _ Hev e p Hp) as (p2 & Hp2 & _ & Hn2 & _). eauto. }
  assert (HF : forall e r, prop_eq_at s b e = Ok r -> prop_eq_at s2 b e = Ok r).
  { intros e r. unfold prop_eq_at, load_prop. rewrite Hb, Hb2. cbn [rbind].
    destruct (s_props s !! e) as [q|] eqn:Hq; cbn [rbind]; [|discriminate].
    intros [= <-]. destruct (decide (prop_name q = prop_name pb')) as [Hqn|Hqn].
    - destruct (ev_prop _ _ Hev e q Hq) as (q2 & -> & _ & Hn2 & _). cbn [rbind].
      fold (prop_eq pb (OpProp q)). rewrite (prop_eq_names_differ pb q) by congruence.
      by rewrite (prop_eq_names_differ pb q2) by congruence.
    - by rewrite (Hkeep e q Hq Hqn). }
  assert (HG : Forall (fun c => b <> c /\ prop_eq_at s2 b c = Ok false) ex).
  { destruct (ev_node _ _ Hev self n Hself) as (n' & en & ep & Hn' & _ & _ & _ & Hps & _ & Hep).
    assert (n' = with_props n ex) as -> by congruence. simpl in Hps.
    apply app_inv_head in Hps. subst ep.
    eapply Forall_impl; [exact Hep|]. simpl. intros c [Hc (pc & Hpc & _)]. split; [lia|].
    unfold prop_eq_at, load_prop. rewrite Hb2, Hpc. cbn [rbind].
    rewrite prop_eq_names_differ; [done|]. rewrite (Hfresh c pc Hc Hpc). done. }
  assert (Hpres2 : contains (prop_eq_at s2) b (n_props n ++ ex) = Ok present).
  { destruct present.
    - apply contains_true_inv in Hpres as (l1 & e & l2 & -> & Hl1 & He).
      rewrite <- app_assoc. apply contains_true_intro.
      + eapply Forall_impl; [exact Hl1|]. simpl. intros e' [? ?]. auto.
      + destruct He as [?|?]; auto.
    - apply contains_false_inv in Hpres. apply contains_false_intro, Forall_app. split; [|done].
      eapply Forall_impl; [exact Hpres|]. simpl. intros e' [? ?]. auto. }
  unfold merge_prop, bind, lift, load_prop. rewrite Hb2.
  unfold get_property_index, load_node. rewrite Hself2. cbn [rbind n_props with_props].
  rewrite Hidx2. unfold prop_in_props, load_node. rewrite Hself2. cbn [rbind n_props with_props].
  rewrite Hpres2. destruct present; [done|]. destruct replace; [|done].
  destruct Hcase as (d & t & target & Hd & Ht & Htarget & Heq).
  pose proof (lookup_lt_Some _ _ _ Htarget) as Hltt.
  assert (Hfix : set_data target d = target).
  { apply (f_equal (fun st => s_props st !! t)) in Heq. simpl in Heq.
    rewrite list_lookup_insert_eq in Heq by done. congruence. }
  assert (Hnt : prop_name target = prop_name pb).
  { apply get_property_index_loop_Some in Hidx as (t' & p & _ & Ht' & Hp & Hn).
    rewrite Nat.sub_0_r in Ht'. congruence. }
  assert (Ht2 : s_props s2 !! t = Some target) by (apply Hkeep; [done|congruence]).
  rewrite Hd. unfold props_at, load_node. rewrite Hself2. cbn [rbind n_props with_props].
  rewrite (lookup_app_l_Some _ _ _ _ Ht). rewrite Ht2.
  unfold write_prop, copy_data. rewrite Hfix, list_insert_id by done. by destruct s2.
Qed.

Lemma for_each_stays_settled (self : naddr) (replace : bool) (b : paddr) (pb : prop)
    (xs : list paddr) :
  forall s s',
    s_props s !! b = Some pb ->
    Forall (fun y => exists py, s_props s !! y = Some py /\ prop_name py <> prop_name pb) xs ->
    merge_prop self replace b s = (s, Ok tt) ->
    for_each (merge_prop self replace) xs s = (s', Ok tt) ->
    merge_prop self replace b s' = (s', Ok tt).
Proof.
  induction xs as [|y xs IH]; intros s s' Hb Hxs Hset H; simpl in H.
  - by apply ret_Ok in H as [-> _].
  - inv_bind H as s1 u1 Hy. destruct u1.
    apply Forall_cons in Hxs as [(py & Hpy & Hne) Hxs].
    pose proof (merge_prop_cases _ _ _ _ _ _ Hset) as (? & n & _ & _ & Hself & _).
    destruct (merge_prop_step _ _ _ _ _ _ _ _ Hy Hpy Hself) as (_ & _ & _ & _ & Hkeep).
    apply (IH s1 s').
    + apply Hkeep; [done|congruence].
    + eapply names_preserved; [|exact Hxs]. by eapply merge_prop_evolves.
    + eapply merge_prop_stays_settled; [exact Hb|exact Hpy|congruence|exact Hset|exact Hy].
    + exact H.
Qed.

Lemma prop_names_evolves (s s' : store) (xs : list paddr) :
  evolves s s' -> None ∉ prop_names s xs -> prop_names s' xs = prop_names s xs.
Proof.
  intros Hev. unfold prop_names. induction xs as [|x xs IH]; intros Hval; [done|].
  rewrite !fmap_cons in *. apply not_elem_of_cons in Hval as [Hx Hval].
  rewrite IH by done. f_equal.
  destruct (s_props s !! x) as [p|] eqn:Hp; [|done].
  destruct (ev_prop _ _ Hev x p Hp) as (p' & -> & _ & Hn & _). simpl. by rewrite Hn.
Qed.

(** After the first loop over properties of distinct names, running the
    iteration of any of them again changes nothing. *)
Lemma first_loop_settles (self : naddr) (replace : bool) (xs : list paddr) :
  forall s s',
    NoDup (prop_names s xs) -> None ∉ prop_names s xs ->
    for_each (merge_prop self replace) xs s = (s', Ok tt) ->
    forall x, x ∈ xs -> merge_prop self replace x s' = (s', Ok tt).
Proof.
  induction xs as [|x0 xs IH]; intros s s' Hnd Hval H x Hx; [by apply elem_of_nil in Hx|].
  simpl in H. inv_bind H as s1 u1 Hx0. destruct u1.
  pose proof (merge_prop_evolves _ _ _ _ _ _ Hx0) as Hev.
  pose proof (merge_prop_cases _ _ _ _ _ _ Hx0) as (p0 & n & _ & Hp0 & Hself & _).
  pose proof (names_around s [] xs x0 p0 Hnd Hval Hp0) as Hothers. simpl in Hothers.
  unfold prop_names in Hnd, Hval. rewrite fmap_cons in Hnd, Hval.
  apply NoDup_cons in Hnd as [_ Hnd]. apply not_elem_of_cons in Hval as [_ Hval].
  fold (prop_names s xs) in Hnd, Hval.
  apply elem_of_cons in Hx as [->|Hx].
  - destruct (ev_prop _ _ Hev x0 p0 Hp0) as (p1 & Hp1 & _ & Hn1 & _).
    eapply (for_each_stays_settled self replace x0 p1 xs s1 s'); [done| | |exact H].
    + rewrite Hn1. eapply names_preserved; [exact Hev|exact Hothers].
    + by eapply merge_prop_again.
  - eapply (IH s1 s'); [| |exact H|exact Hx].
    + by rewrite (prop_names_evolves s s1 xs Hev Hval).
    + by rewrite (prop_names_evolves s s1 xs Hev Hval).
Qed.

(** X26. Merging a node without children a second time changes nothing:
    when [B], whose properties have distinct names, has been merged into
    another node [A], merging it again with the same [replace] returns and
    leaves the store as the first merge left it. *)
Theorem merge_properties_twice (fuel : nat) (A B : naddr) (replace : bool) (s s' : store)
    (nA nB : node) :
  s_nodes s !! A = Some nA -> s_nodes s !! B = Some nB -> A <> B ->
  n_nodes nB = [] ->
  NoDup (prop_names s (n_props nB)) -> None ∉ prop_names s (n_props nB) ->
  Node_merge fuel A B replace s = (s', Ok tt) ->
  Node_merge fuel A B replace s' = (s', Ok tt).
Proof.
  intros HA HB Hne Hleaf Hnd Hval H.
  destruct fuel as [|fuel]; [discriminate|]. simpl in H.
  inv_read H as o Ho. apply load_node_Ok in Ho. assert (o = nB) as -> by congruence.
  inv_bind H as s1 u1 Hloop. destruct u1.
  inv_read H as o' Ho'. apply load_node_Ok in Ho'.
  destruct (first_loop_shape _ _ _ _ _ _ _ HA Hloop) as (_ & Hns & _).
  rewrite (Hns B) in Ho' by done. assert (o' = nB) as -> by congruence.
  rewrite Hleaf in H. simpl in H. apply ret_Ok in H as [-> _].
  assert (HB1 : s_nodes s1 !! B = Some nB) by (by rewrite (Hns B)).
  simpl. unfold bind at 1. unfold lift at 1. unfold load_node at 1. rewrite HB1.
  unfold bind at 1.
  rewrite (for_each_noop _ _ _ (first_loop_settles A replace (n_props nB) s s1 Hnd Hval Hloop)).
  unfold bind at 1. unfold lift at 1. unfold load_node at 1. rewrite HB1.
  by rewrite Hleaf.
Qed.

Lemma merge_properties_twice_witness :
  Node_merge 2 0%nat 1%nat true
    (Store [PropWords (py "p") (Some 0%nat) (PyList [PyInt 2]) 32;
            PropWords (py "p") (Some 1%nat) (PyList [PyInt 2]) 32;
            PropStrings (py "q") (Some 1%nat) (PyList [PyStr (py "x")]);
            PropStrings (py "q") (Some 0%nat) (PyList [PyStr (py "x")])]
           [Node (py "a") None [0%nat; 3%nat] []; Node (py "b") None [1%nat; 2%nat] []])
  = (Store [PropWords (py "p") (Some 0%nat) (PyList [PyInt 2]) 32;
            PropWords (py "p") (Some 1%nat) (PyList [PyInt 2]) 32;
            PropStrings (py "q") (Some 1%nat) (PyList [PyStr (py "x")]);
            PropStrings (py "q") (Some 0%nat) (PyList [PyStr (py "x")])]
           [Node (py "a") None [0%nat; 3%nat] []; Node (py "b") None [1%nat; 2%nat] []],
     Ok tt).
Proof.
  assert (H1 : NoDup (prop_names
                        (Store [PropWords (py "p") (Some 0%nat) (PyList [PyInt 1]) 32;
                                PropWords (py "p") (Some 1%nat) (PyList [PyInt 2]) 32;
                                PropStrings (py "q") (Some 1%nat) (PyList [PyStr (py "x")])]
                               [Node (py "a") None [0%nat] [];
                                Node (py "b") None [1%nat; 2%nat] []])
                        [1%nat; 2%nat])) by compute_done.
  assert (H2 : None ∉ prop_names
                        (Store [PropWords (py "p") (Some 0%nat) (PyList [PyInt 1]) 32;
                                PropWords (py "p") (Some 1%nat) (PyList [PyInt 2]) 32;
                                PropStrings (py "q") (Some 1%nat) (PyList [PyStr (py "x")])]
                               [Node (py "a") None [0%nat] [];
                                Node (py "b") None [1%nat; 2%nat] []])
                        [1%nat; 2%nat]) by compute_done.
  exact (merge_properties_twice 2 0%nat 1%nat true
           (Store [PropWords (py "p") (Some 0%nat) (PyList [PyInt 1]) 32;
                   PropWords (py "p") (Some 1%nat) (PyList [PyInt 2]) 32;
                   PropStrings (py "q") (Some 1%nat) (PyList [PyStr (py "x")])]
                  [Node (py "a") None [0%nat] []; Node (py "b") None [1%nat; 2%nat] []])
           _ (Node (py "a") None [0%nat] []) (Node (py "b") None [1%nat; 2%nat] [])
           eq_refl eq_refl ltac:(discriminate) eq_refl H1 H2 eq_refl).
Defined.

(** * Invariants of a merge *)

(** X27. A merge only adds: after a merge that returned, every node of
    the store has the name and the parent it had, and its children and
    properties are those it had, in order, followed by objects allocated
    by the merge, the new properties having that node as parent; every
    property has the class, the name and the parent it had; and a node
    allocated by the merge has no parent or a parent allocated by it. *)
Theorem merge_only_adds (fuel : nat) (self other : naddr) (replace : bool) (s s' : store) :
  Node_merge fuel self other replace s = (s', Ok tt) -> evolves s s'.
Proof. apply Node_merge_evolves. Qed.

Lemma merge_only_adds_witness : evolves merge_sample_store (merged_sample true).
Proof.
  exact (merge_only_adds 5 0%nat 1%nat true merge_sample_store (merged_sample true) eq_refl).
Defined.

(** X28. A merge keeps the store well formed: when every parent, child
    and property reference of the store names an object of the store, the
    same holds after a merge that returned. *)
Theorem merge_keeps_well_formed (fuel : nat) (self other : naddr) (replace : bool)
    (s s' : store) :
  wf_store s = true -> Node_merge fuel self other replace s = (s', Ok tt) -> wf s'.
Proof. intros Hwf%wf_store_spec H. by eapply Node_merge_wf. Qed.

Lemma merge_keeps_well_formed_witness : wf (merged_sample true).
Proof.
  exact (merge_keeps_well_formed 5 0%nat 1%nat true merge_sample_store (merged_sample true)
           eq_refl eq_refl).
Defined.

(** * Children copied by a merge *)

Lemma Forall2_impl_l {A B} (R : A -> Prop) (P Q : A -> B -> Prop)
    (l : list A) (k : list B) :
  Forall R l -> Forall2 P l k -> (forall x y, R x -> P x y -> Q x y) -> Forall2 Q l k.
Proof.
  intros HR HP HQ. induction HP as [|x y l k Hxy HP IH]; [constructor|].
  apply Forall_cons in HR as [Hx HR]. constructor; auto.
Qed.

Lemma Forall2_impl_r {A B} (R : B -> Prop) (P Q : A -> B -> Prop)
    (l : list A) (k : list B) :
  Forall R k -> Forall2 P l k -> (forall x y, R y -> P x y -> Q x y) -> Forall2 Q l k.
Proof.
  intros HR HP HQ. induction HP as [|x y l k Hxy HP IH]; [constructor|].
  apply Forall_cons in HR as [Hy HR]. constructor; auto.
Qed.

(** In the store a deep copy leaves, the copy of a node is the root of a
    deep copy of the tree below that node. *)
Lemma img_tree_copy (s s' : store) (m : memo) :
  dc_ok s m s' -> dc_img s (fun _ => False) (fun _ => False) m s' ->
  forall h x y, m_nodes m !! x = Some y -> tree_copy h s x s' y.
Proof.
  intros Hok Himg. induction h as [|h IH]; intros x y Hxy; simpl; [done|].
  split; [apply (dc_memo_n _ _ _ Hok) in Hxy; lia|].
  destruct (img_node _ _ _ _ _ Himg x y Hxy) as (n & n' & Hn & Hn' & Hname & _ & Hps & Hns);
    [tauto|].
  exists n, n'. split_and!; [done|done|done| |].
  - eapply Forall2_impl; [exact Hps|]. simpl. intros a b Hab.
    split; [apply (dc_memo_p _ _ _ Hok) in Hab; lia|].
    destruct (img_prop _ _ _ _ _ Himg a b Hab) as (p & p' & Hp & Hp' & Hval & Hpar); [tauto|].
    exists p, p'. split_and!; [done|done|done|].
    intros Hpx. rewrite Hpx in Hpar. simpl in Hpar.
    destruct (prop_parent p') as [q|]; [|done]. congruence.
  - eapply Forall2_impl; [exact Hns|]. simpl. intros c c' Hcc.
    split; [by apply IH|]. intros nc nc' Hnc Hnc' Hpx.
    destruct (img_node _ _ _ _ _ Himg c c' Hcc) as (nc0 & nc0' & H0 & H0' & _ & Hpar & _);
      [tauto|].
    assert (nc0 = nc) as -> by congruence. assert (nc0' = nc') as -> by congruence.
    rewrite Hpx in Hpar. simpl in Hpar.
    destruct (n_parent nc') as [q|]; [|done]. congruence.
Qed.

(** And the parents of a copy are the copies of the parents. *)
Lemma img_chain_copy (s s' : store) (m : memo) :
  dc_ok s m s' -> dc_img s (fun _ => False) (fun _ => False) m s' ->
  forall k q q', memo_opt (m_nodes m) q q' -> chain_copy k s q s' q'.
Proof.
  intros Hok Himg. induction k as [|k IH]; intros q q' Hq; simpl; [done|].
  destruct q as [a|], q' as [a'|]; simpl in Hq; try done.
  split; [apply (dc_memo_n _ _ _ Hok) in Hq; lia|].
  destruct (img_node _ _ _ _ _ Himg a a' Hq) as (n & n' & Hn & Hn' & Hname & Hpar & _);
    [tauto|].
  exists n, n'. split_and!; [done|done|done|]. by apply IH.
Qed.

(** A copy of a parent chain gives the same path. *)
Lemma chain_copy_path (s s' : store) :
  forall fuel q q' acc,
    (forall k, chain_copy k s q s' q') ->
    path_loop fuel s' q' acc = path_loop fuel s q acc.
Proof.
  induction fuel as [|fuel IH]; intros q q' acc H; [done|]. simpl.
  pose proof (H 1%nat) as H1. simpl in H1.
  destruct q as [a|], q' as [a'|]; try done.
  destruct H1 as (_ & n & n' & Hn & Hn' & Hname & _).
  unfold load_node. rewrite Hn, Hn'. simpl. rewrite Hname.
  case_bool_decide; [done|]. apply IH. intros k.
  specialize (H (S k)). simpl in H. destruct H as (_ & n1 & n1' & H1 & H1' & _ & Hc).
  assert (n1 = n) as -> by congruence. assert (n1' = n') as -> by congruence. exact Hc.
Qed.

Lemma copied_path (s s' : store) (x c : naddr) :
  copied s x s' c -> forall fuel, node_path fuel s' c = node_path fuel s x.
Proof.
  intros [_ (sub & nc & Hsub & Hnc & Hchain)] fuel.
  unfold node_path, path_of, load_node. rewrite Hsub, Hnc. simpl.
  by rewrite (chain_copy_path s s' fuel _ _ [] Hchain).
Qed.

Lemma copied_name (s s' : store) (x c : naddr) (sub nc : node) :
  copied s x s' c -> s_nodes s !! x = Some sub -> s_nodes s' !! c = Some nc ->
  n_name nc = n_name sub /\ (length (s_nodes s) <= c)%nat.
Proof.
  intros [Ht _] Hsub Hnc. specialize (Ht 1%nat). simpl in Ht.
  destruct Ht as (Hc & n0 & n0' & H0 & H0' & Hname & _).
  split; [congruence|done].
Qed.

(** The nodes of [s1] have in [s2] the name and the parent they had. *)
Lemma chain_copy_right (s s1 s2 : store) :
  (forall a n, s_nodes s1 !! a = Some n ->
     exists n', s_nodes s2 !! a = Some n' /\ n_name n' = n_name n /\
                n_parent n' = n_parent n) ->
  forall k q q', chain_copy k s q s1 q' -> chain_copy k s q s2 q'.
Proof.
  intros Hkeep. induction k as [|k IH]; intros q q'; simpl; [done|].
  destruct q as [a|], q' as [a'|]; try done.
  intros (Hfresh & n & n' & Hn & Hn' & Hname & Hc).
  destruct (Hkeep a' n' Hn') as (n2 & Hn2 & Hname2 & Hpar2).
  split; [done|]. exists n, n2. split_and!; [done|done|congruence|].
  rewrite Hpar2. by apply IH.
Qed.

Lemma chain_copy_left (s0 s s' : store) :
  wf s0 -> (length (s_nodes s0) <= length (s_nodes s))%nat ->
  (forall a n, s_nodes s0 !! a = Some n ->
     exists n', s_nodes s !! a = Some n' /\ n_name n' = n_name n /\
                n_parent n' = n_parent n) ->
  forall k q q', valid_opt (length (s_nodes s0)) q ->
                 chain_copy k s q s' q' -> chain_copy k s0 q s' q'.
Proof.
  intros Hwf Hle Hkeep. induction k as [|k IH]; intros q q' Hv; simpl; [done|].
  destruct q as [a|], q' as [a'|]; try done. simpl in Hv.
  intros (Hfresh & n & n' & Hn & Hn' & Hname & Hc).
  destruct (lookup_lt_is_Some_2 _ _ Hv) as [n0 Hn0].
  destruct (Hkeep a n0 Hn0) as (n1 & Hn1 & Hname1 & Hpar1).
  assert (n1 = n) as -> by congruence.
  split; [lia|]. exists n0, n'. split_and!; [done|done|congruence|].
  apply IH; [by destruct (wf_node _ Hwf a n0 Hn0)|]. by rewrite <- Hpar1.
Qed.

Lemma evolves_keeps (s s' : store) :
  evolves s s' ->
  forall a n, s_nodes s !! a = Some n ->
    exists n', s_nodes s' !! a = Some n' /\ n_name n' = n_name n /\
               n_parent n' = n_parent n.
Proof.
  intros Hev a n Hn.
  destruct (ev_node _ _ Hev a n Hn) as (n' & _ & _ & Hn' & Hname & Hpar & _). eauto.
Qed.

(** A deep copy stays one as long as its objects are left alone. *)
Lemma tree_copy_frame (PN PP : nat -> Prop) (s s1 s2 : store) :
  (forall a, PN a -> s_nodes s2 !! a = s_nodes s1 !! a) ->
  (forall b, PP b -> s_props s2 !! b = s_props s1 !! b) ->
  (forall a na, PN a -> s_nodes s1 !! a = Some na ->
     Forall PN (n_nodes na) /\ Forall PP (n_props na)) ->
  forall h x c, PN c -> tree_copy h s x s1 c -> tree_copy h s x s2 c.
Proof.
  intros Hnodes Hprops Hsub. induction h as [|h IH]; intros x c Hc; simpl; [done|].
  intros (Hfresh & n & n' & Hn & Hn' & Hname & Hps & Hns).
  destruct (Hsub c n' Hc Hn') as [HPN HPP].
  split; [done|]. exists n, n'. split_and!; [done|by rewrite Hnodes|done| |].
  - eapply Forall2_impl_r; [exact HPP|exact Hps|]. simpl.
    intros a b Hb (Hfb & p & p' & Hp & Hp' & Hv & Hpar).
    split; [done|]. exists p, p'. rewrite Hprops by done. auto.
  - eapply Forall2_impl_r; [exact HPN|exact Hns|]. simpl.
    intros c0 c0' Hc0 [Ht Hl]. split; [by apply IH|].
    intros nc nc' Hnc Hnc'. rewrite Hnodes in Hnc' by done. by apply (Hl nc nc').
Qed.

Lemma elem_of_props_of (s : store) (DA : list naddr) (d : naddr) (nd : node) (b : paddr) :
  d ∈ DA -> s_nodes s !! d = Some nd -> b ∈ n_props nd -> b ∈ props_of s DA.
Proof.
  intros Hd Hnd Hb. unfold props_of. apply list_elem_of_In, in_flat_map.
  exists d. split; [by apply list_elem_of_In|]. rewrite Hnd. by apply list_elem_of_In.
Qed.

(** The tree that is copied can be read in the store the merge started
    in, as long as it is apart from what the merge writes to. *)
Lemma tree_copy_left (DA : list naddr) (s sj s' : store) :
  wf s -> store_le s sj ->
  (forall z, (z < length (s_nodes s))%nat -> z ∉ DA -> s_nodes sj !! z = s_nodes s !! z) ->
  (forall b, (b < length (s_props s))%nat -> b ∉ props_of s DA ->
             s_props sj !! b = s_props s !! b) ->
  forall k h x c, apart DA h s x = true -> tree_copy k sj x s' c -> tree_copy k s x s' c.
Proof.
  intros Hwf [Hln Hlp] Hon Hop. induction k as [|k IH]; intros h x c Hap; [done|].
  destruct h as [|h]; [discriminate|]. simpl in Hap.
  destruct (s_nodes s !! x) as [n0|] eqn:Hn0; [|discriminate].
  apply andb_true_iff in Hap as [[Hx Hps]%andb_true_iff Hns].
  apply negb_true_iff, bool_decide_eq_false in Hx.
  rewrite forallb_forall in Hps, Hns.
  destruct (wf_node _ Hwf x n0 Hn0) as (_ & Hvn & Hvp).
  simpl. intros (Hfresh & n & n' & Hn & Hn' & Hname & HP & HN).
  rewrite Hon in Hn; [|by apply lookup_lt_Some in Hn0|done].
  assert (n = n0) as -> by congruence.
  split; [lia|]. exists n0, n'. split_and!; [done|done|done| |].
  - eapply (Forall2_impl_l (fun a => (a < length (s_props s))%nat /\ a ∉ props_of s DA));
      [|exact HP|].
    + apply Forall_forall. intros a Ha. rewrite Forall_forall in Hvp.
      split; [by apply Hvp|].
      specialize (Hps a (proj1 (list_elem_of_In _ _) Ha)).
      by apply negb_true_iff, bool_decide_eq_false in Hps.
    + simpl. intros a b [Ha1 Ha2] (Hfb & p & p' & Hp & Hp' & Hv & Hpar).
      split; [lia|]. exists p, p'. rewrite Hop in Hp by done. auto.
  - eapply (Forall2_impl_l (fun a => (a < length (s_nodes s))%nat /\
                                     apart DA h s a = true)); [|exact HN|].
    + apply Forall_forall. intros a Ha. rewrite Forall_forall in Hvn.
      split; [by apply Hvn|]. apply Hns. by apply list_elem_of_In.
    + simpl. intros a b [Ha1 Ha2] [Ht Hl]. split; [by eapply IH|].
      intros nc nc' Hnc Hnc'. apply Hl; [|done].
      rewrite Hon; [done|done|].
      destruct h as [|h']; [discriminate|]. simpl in Ha2. rewrite Hnc in Ha2.
      apply andb_true_iff in Ha2 as [[Ha2 _]%andb_true_iff _].
      by apply negb_true_iff, bool_decide_eq_false in Ha2.
Qed.

Lemma get_subnode_index_loop_at (s : store) (nm : str) (l : list naddr) :
  forall k i, get_subnode_index_loop s l nm k = Ok (Some i) ->
    exists t nt, (k <= i)%nat /\ l !! (i - k)%nat = Some t /\
                 s_nodes s !! t = Some nt /\ n_name nt = nm.
Proof.
  induction l as [|a l IH]; intros k i; simpl; [discriminate|].
  destruct (load_node a s) as [n|] eqn:Hn; simpl; [|discriminate].
  apply load_node_Ok in Hn. case_bool_decide as Hnm.
  - intros [= <-]. exists a, n. rewrite Nat.sub_diag. auto.
  - intros (t & nt & Hle & Hl & Ht & Hname)%IH. exists t, nt.
    replace (i - k)%nat with (S (i - S k)) by lia. split_and!; auto. lia.
Qed.

Lemma copied_frame (PN PP : nat -> Prop) (s s1 s2 : store) (x c : naddr) :
  (forall a, PN a -> s_nodes s2 !! a = s_nodes s1 !! a) ->
  (forall b, PP b -> s_props s2 !! b = s_props s1 !! b) ->
  (forall a na, PN a -> s_nodes s1 !! a = Some na ->
     Forall PN (n_nodes na) /\ Forall PP (n_props na)) ->
  evolves s1 s2 -> PN c -> copied s x s1 c -> copied s x s2 c.
Proof.
  intros Hn Hp Hsub Hev Hc [Ht (sub & nc & Hx & Hnc & Hchain)]. split.
  - intros h. eapply tree_copy_frame; eauto.
  - exists sub, nc. split_and!; [done|by rewrite Hn|].
    intros k. eapply chain_copy_right; [by apply evolves_keeps|]. apply Hchain.
Qed.

Section CopyLoop.

Variables (s : store) (D : list naddr) (self : naddr) (n : node) (s1 : store).
Variables (fuel : nat) (replace : bool) (h : nat).
Hypothesis Hwf0 : wf s.
Hypothesis Hself0 : s_nodes s !! self = Some n.
Hypothesis Hfp : footprint s D self n = true.
Hypothesis Hle01 : store_le s s1.

(** One iteration of the second loop. *)
Lemma merge_node_copies (x : naddr) (PN PP : nat -> Prop) (ej : list naddr)
    (sj s' : store) (u : unit) (sub : node) :
  loop_inv s D self n s1 PN PP ej sj ->
  apart (self :: D) h s x = true ->
  s_nodes s !! x = Some sub ->
  Forall (fun e => exists ne, s_nodes sj !! e = Some ne /\ n_name ne <> n_name sub) ej ->
  merge_node fuel (fun t a => Node_merge fuel t a replace) self x sj = (s', Ok u) ->
  exists PN' PP' ej',
    loop_inv s D self n s1 PN' PP' (ej ++ ej') s' /\
    (forall a, PN a -> PN' a) /\ (forall b, PP b -> PP' b) /\
    (forall a, PN a -> s_nodes s' !! a = s_nodes sj !! a) /\
    (forall b, PP b -> s_props s' !! b = s_props sj !! b) /\
    evolves sj s' /\
    ((Some (n_name sub) ∈ node_names s (n_nodes n) /\ ej' = []) \/
     ((Some (n_name sub) ∉ node_names s (n_nodes n)) /\
      exists c, ej' = [c] /\ PN' c /\ copied s x s' c)).
Proof.
  intros Hinv Hap Hsub Hnames H.
  assert (Hev : evolves sj s').
  { eapply merge_node_evolves; [|exact H].
    intros t a s2 s3 u2 Hr. simpl in Hr. by eapply Node_merge_evolves. }
  assert (Hwf' : wf s').
  { eapply merge_node_wf; [|exact (li_wf _ _ _ _ _ _ _ _ _ Hinv)|exact H].
    intros t a s2 s3 u2 Hw Hr. simpl in Hr. by eapply Node_merge_wf. }
  pose proof Hfp as (HselfD & HchD & HD)%footprint_spec.
  destruct Hinv as [Hwfj Hevj Hlej Hdec Hcl Hpn Hpp Hsubc Hon Hop (nj & Hnj & Hch) Hej].
  assert (Hxout : x ∉ self :: D).
  { destruct h as [|h']; [discriminate|]. simpl in Hap. rewrite Hsub in Hap.
    apply andb_true_iff in Hap as [[Hx _]%andb_true_iff _].
    by apply negb_true_iff, bool_decide_eq_false in Hx. }
  pose proof (lookup_lt_Some _ _ _ Hsub) as Hxlt.
  assert (Hxj : s_nodes sj !! x = Some sub) by (by rewrite Hon).
  pose proof (lookup_lt_Some _ _ _ Hself0) as Hselflt.
  destruct Hle01 as [Hln01 Hlp01]. destruct Hlej as [Hlnj Hlpj].
  pose proof (ev_le _ _ Hev) as [Hln' Hlp'].
  assert (Hold : forall t, t ∈ n_nodes n ->
             exists nt0 nt, s_nodes s !! t = Some nt0 /\ s_nodes sj !! t = Some nt /\
                            n_name nt = n_name nt0 /\ t ∈ D /\
                            (t < length (s_nodes s))%nat).
  { intros t Ht. destruct (wf_node _ Hwf0 self n Hself0) as (_ & Hvn & _).
    rewrite Forall_forall in Hvn, HchD. pose proof (Hvn t Ht) as Hlt.
    destruct (lookup_lt_is_Some_2 _ _ Hlt) as [nt0 Hnt0].
    destruct (ev_node _ _ Hevj t nt0 Hnt0) as (nt & _ & _ & Hnt & Hname & _).
    exists nt0, nt. split_and!; auto. }
  unfold merge_node in H.
  inv_read H as sub' Hsub'. apply load_node_Ok in Hsub'.
  assert (sub' = sub) as -> by congruence.
  inv_read H as index Hidx.
  unfold get_subnode_index, load_node in Hidx. rewrite Hnj in Hidx. simpl in Hidx.
  destruct index as [i|].
  - apply get_subnode_index_loop_at in Hidx as (t & nt & _ & Hti & Hnt & Hname).
    rewrite Nat.sub_0_r in Hti.
    assert (Htin : t ∈ n_nodes n).
    { pose proof (list_elem_of_lookup_2 _ _ _ Hti) as Hin. rewrite Hch in Hin.
      apply elem_of_app in Hin as [?|Hte]; [done|].
      rewrite Forall_forall in Hnames. destruct (Hnames t Hte) as (ne & Hne & Hdiff).
      congruence. }
    destruct (Hold t Htin) as (nt0 & nt' & Hnt0 & Hnt' & Hname' & HtD & Htlt).
    assert (nt' = nt) as -> by congruence.
    assert (Hpresent : Some (n_name sub) ∈ node_names s (n_nodes n)).
    { apply list_elem_of_fmap. exists t. split; [|done]. rewrite Hnt0. simpl. congruence. }
    inv_read H as present Hpres. destruct present.
    + apply ret_Ok in H as [-> _]. exists PN, PP, []. rewrite app_nil_r.
      split_and!; [|done|done|done|done|done|by left].
      split; [done|done|split; lia|done|done|done|done|done|done|done|by exists nj|done].
    + inv_read H as t' Ht'. unfold nodes_at, load_node in Ht'.
      rewrite Hnj in Ht'. simpl in Ht'. rewrite Hti in Ht'. injection Ht' as <-.
      assert (Htin' : below_nodes D s1 t /\ ~ PN t).
      { split; [by left|]. intros HP%Hpn. lia. }
      assert (Hdec' : forall a, (below_nodes D s1 a /\ ~ PN a) \/
                                ~ (below_nodes D s1 a /\ ~ PN a)).
      { intros a. destruct (below_nodes_dec D s1 a) as [?|?];
          destruct (Hdec a) as [?|?]; tauto. }
      destruct (Node_merge_frame _ _ Hdec' fuel t x replace sj s' u Hcl Htin' H)
        as (Hcl' & _ & Hns' & Hps').
      exists PN, PP, []. rewrite app_nil_r.
      split_and!; auto.
      * split.
        -- done.
        -- by eapply evolves_trans.
        -- split; lia.
        -- done.
        -- done.
        -- intros a Ha%Hpn. lia.
        -- intros b Hb%Hpp. lia.
        -- intros a na Ha Hna. rewrite Hns' in Hna by tauto. by apply (Hsubc a).
        -- intros z Hz Hzout. rewrite Hns'; [by apply Hon|].
           intros [[Hin|Hge] _]; [|lia]. apply Hzout. by apply list_elem_of_further.
        -- intros b Hb Hbout. rewrite Hps'; [by apply Hop|].
           intros [[(d & nd & Hd & Hnd & Hin)|Hge] _]; [|lia]. apply Hbout.
           eapply elem_of_props_of; [|exact Hnd|exact Hin]. by apply list_elem_of_further.
        -- exists nj. split; [|done]. rewrite Hns'; [done|].
           intros [[Hin|Hge] _]; [done|lia].
        -- done.
      * intros a Ha. apply Hns'. tauto.
      * intros b Hb. apply Hps'. tauto.
  - apply get_subnode_index_loop_None in Hidx. rewrite Forall_forall in Hidx.
    assert (Habsent : Some (n_name sub) ∉ node_names s (n_nodes n)).
    { intros (t & Ht & Htin)%list_elem_of_fmap.
      destruct (Hold t Htin) as (nt0 & nt & Hnt0 & Hnt & Hname & _).
      rewrite Hnt0 in Ht. simpl in Ht. injection Ht as Ht.
      destruct (Hidx t) as (nt' & Hnt' & Hdiff).
      { rewrite Hch. apply elem_of_app. by left. }
      congruence. }
    inv_bind H as s2 c Hdc.
    assert (Hxltj : (x < length (s_nodes sj))%nat) by lia.
    destruct (deepcopy_img _ _ _ _ _ Hwfj Hxltj Hdc) as (m & Hok & Himg & Hxc).
    pose proof (deepcopy_wf _ _ _ _ _ Hwfj Hdc) as Hwf2.
    destruct (dc_le _ _ _ Hok) as [Hln2 Hlp2].
    unfold nodes_append in H. inv_read H as nself Hnself. apply load_node_Ok in Hnself.
    rewrite (dc_old_n _ _ _ Hok) in Hnself by lia.
    assert (nself = nj) as -> by congruence.
    unfold write_node in H. injection H as Hs'.
    pose proof (dc_memo_n _ _ _ Hok _ _ Hxc) as Hcb.
    assert (Hother : forall a, a <> self -> s_nodes s' !! a = s_nodes s2 !! a).
    { intros a Ha. rewrite <- Hs'. simpl. by rewrite list_lookup_insert_ne. }
    assert (Hselfn : s_nodes s' !! self
                     = Some (Node (n_name nj) (n_parent nj) (n_props nj) (n_nodes nj ++ [c]))).
    { rewrite <- Hs'. simpl. apply list_lookup_insert_eq. lia. }
    assert (Hprops : s_props s' = s_props s2) by (by rewrite <- Hs').
    assert (Hlen : length (s_nodes s') = length (s_nodes s2)).
    { rewrite <- Hs'. simpl. by rewrite length_insert. }
    clear Hs'.
    assert (Hnew : forall a na, (length (s_nodes sj) <= a)%nat -> s_nodes s2 !! a = Some na ->
               Forall (fun c0 => (length (s_nodes sj) <= c0 < length (s_nodes s2))%nat)
                      (n_nodes na) /\
               Forall (fun b => (length (s_props sj) <= b < length (s_props s2))%nat)
                      (n_props na)).
    { intros a na Ha Hna.
      destruct (dc_new_n _ _ _ Hok a na Ha Hna) as (_ & Hfn & Hfp').
      destruct (wf_node _ Hwf2 a na Hna) as (_ & Hvn & Hvp).
      rewrite Forall_forall in Hfn, Hfp', Hvn, Hvp.
      split; apply Forall_forall; intros z Hz.
      - split; [by apply Hfn|by apply Hvn].
      - split; [by apply Hfp'|by apply Hvp]. }
    exists (fun a => PN a \/ (length (s_nodes sj) <= a < length (s_nodes s2))%nat),
           (fun b => PP b \/ (length (s_props sj) <= b < length (s_props s2))%nat),
           [c].
    assert (HPNold : forall a, PN a -> s_nodes s' !! a = s_nodes sj !! a).
    { intros a Ha%Hpn. rewrite Hother by lia. apply (dc_old_n _ _ _ Hok). lia. }
    assert (HPPold : forall b, PP b -> s_props s' !! b = s_props sj !! b).
    { intros b Hb%Hpp. rewrite Hprops. apply (dc_old_p _ _ _ Hok). lia. }
    split_and!; auto.
    + split.
      * done.
      * by eapply evolves_trans.
      * split; lia.
      * intros a. destruct (Hdec a) as [?|?]; [by left; left|].
        destruct (decide (length (s_nodes sj) <= a < length (s_nodes s2))%nat);
          [by left; right|right; tauto].
      * destruct Hcl as (_ & _ & Hcl3). split_and!.
        -- intros a Ha. split; [right; lia|]. intros [HP%Hpn|?]; lia.
        -- intros b Hb. rewrite Hprops in Hb. split; [right; lia|].
           intros [HP%Hpp|?]; lia.
        -- intros a na [Hbelow Hnot] Hna.
           assert (Hne : a <> self).
           { intros ->. destruct Hbelow as [?|?]; [done|lia]. }
           rewrite Hother in Hna by done.
           pose proof (lookup_lt_Some _ _ _ Hna) as Hlt.
           assert (Haj : (a < length (s_nodes sj))%nat).
           { destruct (decide (a < length (s_nodes sj))%nat); [done|].
             exfalso. apply Hnot. right. lia. }
           rewrite (dc_old_n _ _ _ Hok) in Hna by done.
           destruct (Hcl3 a na) as [H1 H2]; [tauto|done|].
           destruct (wf_node _ Hwfj a na Hna) as (_ & Hvn & Hvp).
           rewrite Forall_forall in H1, H2, Hvn, Hvp.
           split; apply Forall_forall; intros z Hz.
           ++ destruct (H1 z Hz) as [Hb Hp]. split; [done|].
              intros [?|?]; [done|]. specialize (Hvn z Hz). lia.
           ++ destruct (H2 z Hz) as [Hb Hp]. split; [done|].
              intros [?|?]; [done|]. specialize (Hvp z Hz). lia.
      * intros a [Ha%Hpn|Ha]; lia.
      * intros b [Hb%Hpp|Hb]; rewrite Hprops; lia.
      * intros a na Ha Hna.
        assert (Hne : a <> self).
        { intros ->. destruct Ha as [Ha%Hpn|Ha]; lia. }
        rewrite Hother in Hna by done. destruct Ha as [Ha|Ha].
        -- rewrite (dc_old_n _ _ _ Hok) in Hna by (apply Hpn in Ha; lia).
           destruct (Hsubc a na Ha Hna) as [H1 H2].
           split; (eapply Forall_impl; [eassumption|]); simpl; auto.
        -- destruct (Hnew a na (proj1 Ha) Hna) as [H1 H2].
           split; (eapply Forall_impl; [eassumption|]); simpl; auto.
      * intros z Hz Hzout. rewrite Hother.
        -- rewrite (dc_old_n _ _ _ Hok) by lia. by apply Hon.
        -- intros ->. apply Hzout. apply list_elem_of_here.
      * intros b Hb Hbout. rewrite Hprops.
        rewrite (dc_old_p _ _ _ Hok) by lia. by apply Hop.
      * eexists. split; [exact Hselfn|]. simpl. by rewrite Hch, app_assoc.
      * apply Forall_app. split.
        -- eapply Forall_impl; [exact Hej|]. simpl. auto.
        -- constructor; [right; lia|constructor].
    + right. split; [done|]. exists c. split_and!; [done|right; lia|].
      destruct (img_node _ _ _ _ _ Himg x c Hxc) as (n0 & nc & Hn0 & Hnc & _ & Hpar & _);
        [tauto|].
      assert (n0 = sub) as -> by congruence.
      assert (Hnc' : s_nodes s' !! c = Some nc) by (rewrite Hother by lia; done).
      split.
      * intros k.
        eapply (tree_copy_left (self :: D) s sj s' Hwf0 (ev_le _ _ Hevj) Hon Hop k h);
          [exact Hap|].
        eapply (tree_copy_frame
                  (fun a => (length (s_nodes sj) <= a < length (s_nodes s2))%nat)
                  (fun b => (length (s_props sj) <= b < length (s_props s2))%nat)
                  sj s2 s').
        -- intros a Ha. apply Hother. lia.
        -- intros b _. by rewrite Hprops.
        -- intros a na Ha Hna. apply (Hnew a na); [lia|done].
        -- lia.
        -- by eapply img_tree_copy.
      * exists sub, nc. split_and!; [done|done|]. intros k.
        eapply (chain_copy_left s sj s' Hwf0); [lia|by apply evolves_keeps| |].
        { by destruct (wf_node _ Hwf0 x sub Hsub). }
        eapply (chain_copy_right sj s2 s').
        -- intros a na Hna. destruct (decide (a = self)) as [->|Hne].
           ++ rewrite (dc_old_n _ _ _ Hok) in Hna by lia.
              assert (na = nj) as -> by congruence. eexists. split; [exact Hselfn|]. done.
           ++ exists na. by rewrite Hother.
        -- by eapply img_chain_copy.
Qed.

End CopyLoop.

Section CopyLoops.

Variables (s : store) (D : list naddr) (self : naddr) (n : node) (s1 : store).
Variables (fuel : nat) (replace : bool) (h : nat).
Hypothesis Hwf0 : wf s.
Hypothesis Hself0 : s_nodes s !! self = Some n.
Hypothesis Hfp : footprint s D self n = true.
Hypothesis Hle01 : store_le s s1.

(** The second loop: the children it appends to [self] are the copies of
    the nodes it ran over whose name no child of [self] had. *)
Lemma second_loop_copies (xs : list naddr) :
  forall PN PP ej sj s' u,
    loop_inv s D self n s1 PN PP ej sj ->
    Forall (fun x => apart (self :: D) h s x = true) xs ->
    NoDup (node_names s xs) ->
    (forall x sub e ne, x ∈ xs -> s_nodes s !! x = Some sub -> e ∈ ej ->
                        s_nodes sj !! e = Some ne -> n_name ne <> n_name sub) ->
    for_each (merge_node fuel (fun t a => Node_merge fuel t a replace) self) xs sj
      = (s', Ok u) ->
    exists PN' PP' ej',
      loop_inv s D self n s1 PN' PP' (ej ++ ej') s' /\
      (forall a, PN a -> PN' a) /\ (forall b, PP b -> PP' b) /\
      (forall a, PN a -> s_nodes s' !! a = s_nodes sj !! a) /\
      (forall b, PP b -> s_props s' !! b = s_props sj !! b) /\
      evolves sj s' /\
      Forall (fun c => PN' c /\
                       exists x sub, x ∈ xs /\ s_nodes s !! x = Some sub /\
                         (Some (n_name sub) ∉ node_names s (n_nodes n)) /\
                         copied s x s' c) ej' /\
      (forall x sub, x ∈ xs -> s_nodes s !! x = Some sub ->
                     Some (n_name sub) ∉ node_names s (n_nodes n) ->
                     exists c, c ∈ ej' /\ copied s x s' c).
Proof.
  induction xs as [|x xs IH]; intros PN PP ej sj s' u Hinv Hap Hnd Hnames H.
  - simpl in H. apply ret_Ok in H as [-> _]. exists PN, PP, []. rewrite app_nil_r.
    split_and!; auto using evolves_refl.
    intros x sub Hx. by apply elem_of_nil in Hx.
  - simpl in H. inv_bind H as sm u1 Hx.
    apply Forall_cons in Hap as [Hapx Hap].
    unfold node_names in Hnd. rewrite fmap_cons in Hnd.
    apply NoDup_cons in Hnd as [Hxnot Hnd].
    assert (Hsub : exists sub, s_nodes s !! x = Some sub).
    { destruct h as [|h']; [discriminate|]. simpl in Hapx.
      destruct (s_nodes s !! x) as [sub|]; [eauto|discriminate]. }
    destruct Hsub as [sub Hsub]. rewrite Hsub in Hxnot. simpl in Hxnot.
    assert (Hnx : Forall (fun e => exists ne, s_nodes sj !! e = Some ne /\
                                             n_name ne <> n_name sub) ej).
    { apply Forall_forall. intros e He.
      pose proof (li_ej _ _ _ _ _ _ _ _ _ Hinv) as Hej. rewrite Forall_forall in Hej.
      pose proof (li_pn _ _ _ _ _ _ _ _ _ Hinv e (Hej e He)) as Hlt.
      destruct (lookup_lt_is_Some_2 (s_nodes sj) e ltac:(lia)) as [ne Hne].
      exists ne. split; [done|]. eapply (Hnames x sub e ne); eauto. apply list_elem_of_here. }
    destruct (merge_node_copies s D self n s1 fuel replace h Hwf0 Hself0 Hfp Hle01
                x PN PP ej sj sm u1 sub Hinv Hapx Hsub Hnx Hx)
      as (PN1 & PP1 & ej1 & Hinv1 & HPN1 & HPP1 & Hn1 & Hp1 & Hev1 & Hcase).
    assert (Hnames1 : forall x' sub' e ne, x' ∈ xs -> s_nodes s !! x' = Some sub' ->
                e ∈ ej ++ ej1 -> s_nodes sm !! e = Some ne -> n_name ne <> n_name sub').
    { intros x' sub' e ne Hx' Hsub' He Hne. apply elem_of_app in He as [He|He].
      - pose proof (li_ej _ _ _ _ _ _ _ _ _ Hinv) as Hej. rewrite Forall_forall in Hej.
        pose proof (li_pn _ _ _ _ _ _ _ _ _ Hinv e (Hej e He)) as Hlt.
        destruct (lookup_lt_is_Some_2 (s_nodes sj) e ltac:(lia)) as [ne0 Hne0].
        destruct (evolves_keeps _ _ Hev1 e ne0 Hne0) as (ne' & Hne' & Hname & _).
        assert (ne' = ne) as -> by congruence. rewrite Hname.
        eapply (Hnames x' sub' e ne0); eauto. by apply list_elem_of_further.
      - destruct Hcase as [[_ ->]|[_ (c & -> & _ & Hcop)]]; [by apply elem_of_nil in He|].
        apply list_elem_of_singleton in He as ->.
        destruct (copied_name _ _ _ _ _ _ Hcop Hsub Hne) as [Hname _]. rewrite Hname.
        intros Heq. apply Hxnot. apply list_elem_of_fmap. exists x'. split; [|done].
        rewrite Hsub'. simpl. by rewrite Heq. }
    destruct (IH PN1 PP1 (ej ++ ej1) sm s' u Hinv1 Hap Hnd Hnames1 H)
      as (PN2 & PP2 & ej2 & Hinv2 & HPN2 & HPP2 & Hn2 & Hp2 & Hev2 & Hall & Hex).
    exists PN2, PP2, (ej1 ++ ej2). rewrite app_assoc.
    assert (Hkeep : forall c, PN1 c -> copied s x sm c -> copied s x s' c).
    { intros c Hc Hcop.
      eapply (copied_frame PN1 PP1 s sm s'); eauto.
      exact (li_sub _ _ _ _ _ _ _ _ _ Hinv1). }
    split_and!; auto.
    + intros a Ha. rewrite Hn2 by auto. by apply Hn1.
    + intros b Hb. rewrite Hp2 by auto. by apply Hp1.
    + by eapply evolves_trans.
    + apply Forall_app. split.
      * destruct Hcase as [[_ ->]|[Habs (c & -> & Hc & Hcop)]]; [constructor|].
        constructor; [|constructor]. split; [by apply HPN2|].
        exists x, sub. split_and!; [apply list_elem_of_here|done|done|by apply Hkeep].
      * eapply Forall_impl; [exact Hall|]. simpl.
        intros c [Hc (x' & sub' & Hx' & Hsub' & Habs' & Hcop')]. split; [done|].
        exists x', sub'. split_and!; [by apply list_elem_of_further|done|done|done].
    + intros x' sub' Hx' Hsub' Habs'. apply elem_of_cons in Hx' as [->|Hx'].
      * assert (sub' = sub) as -> by congruence.
        destruct Hcase as [[Hpres _]|[_ (c & -> & Hc & Hcop)]]; [done|].
        exists c. split; [apply elem_of_app; left; apply list_elem_of_here|by apply Hkeep].
      * destruct (Hex x' sub' Hx' Hsub' Habs') as (c & Hc & Hcop).
        exists c. split; [apply elem_of_app; by right|done].
Qed.

End CopyLoops.

Lemma closed_unprotected (inD PD : nat -> Prop) (s : store) :
  closed inD PD s ->
  closed (fun a => inD a /\ ~ False) (fun b => PD b /\ ~ False) s.
Proof.
  intros (H1 & H2 & H3). split_and!.
  - intros a Ha. split; [by apply H1|tauto].
  - intros b Hb. split; [by apply H2|tauto].
  - intros a na [Ha _] Hna. destruct (H3 a na Ha Hna) as [H4 H5].
    split; (eapply Forall_impl; [eassumption|]); simpl; tauto.
Qed.

(** After a merge into [self] that returned, when the nodes below [self]
    own their properties, the children of the other node are apart from
    [self] and the nodes below it and bear distinct names: the new
    children of [self] are the copies of the children of the other node
    whose name no child of [self] had. *)
Lemma merge_children_copied (fuel : nat) (self other : naddr) (replace : bool)
    (s s' : store) (n no : node) (D : list naddr) (h : nat) :
  wf s -> s_nodes s !! self = Some n -> s_nodes s !! other = Some no ->
  footprint s D self n = true ->
  forallb (apart (self :: D) h s) (n_nodes no) = true ->
  NoDup (node_names s (n_nodes no)) ->
  Node_merge fuel self other replace s = (s', Ok tt) ->
  exists n' en,
    s_nodes s' !! self = Some n' /\ n_nodes n' = n_nodes n ++ en /\
    Forall (fun c => exists x sub, x ∈ n_nodes no /\ s_nodes s !! x = Some sub /\
                       (Some (n_name sub) ∉ node_names s (n_nodes n)) /\
                       copied s x s' c) en /\
    (forall x sub, x ∈ n_nodes no -> s_nodes s !! x = Some sub ->
                   Some (n_name sub) ∉ node_names s (n_nodes n) ->
                   exists c, c ∈ en /\ copied s x s' c).
Proof.
  intros Hwf Hself Hother Hfp Hap Hnd H.
  destruct fuel as [|fuel]; [discriminate|]. simpl in H.
  inv_read H as o Ho. apply load_node_Ok in Ho. assert (o = no) as -> by congruence.
  inv_bind H as s1 u1 Hloop1. inv_read H as o' Ho'. apply load_node_Ok in Ho'.
  destruct (first_loop_shape _ _ _ _ _ _ _ Hself Hloop1) as (Hle & Hns & (ex & Hself1 & Hex)).
  pose proof (first_loop_evolves _ _ _ _ _ _ Hloop1) as Hev1.
  assert (Hch : n_nodes o' = n_nodes no).
  { destruct (decide (other = self)) as [->|Hne].
    - rewrite Hself1 in Ho'. injection Ho' as <-. simpl. congruence.
    - rewrite Hns in Ho' by done. congruence. }
  rewrite Hch in H.
  assert (Hwf1 : wf s1).
  { eapply for_each_wf; [|exact Hwf|exact Hloop1]. intros y s2 s3 u2. apply merge_prop_wf. }
  assert (Hf1 : frame_ok (below_nodes (self :: D) s) (side_props (self :: D) s) s s1).
  { eapply for_each_frame; [| |exact Hloop1].
    - intros y s2 s3 u2 Hc2 Hy. eapply merge_prop_frame; [exact Hc2| |exact Hy].
      left. apply list_elem_of_here.
    - apply side_closed_spec. by eapply footprint_side_closed. }
  destruct Hf1 as (_ & _ & _ & Hps).
  assert (Hinv : loop_inv s D self n s1 (fun _ => False) (fun _ => False) [] s1).
  { split.
    - done.
    - done.
    - apply store_le_refl.
    - intros a. simpl. tauto.
    - apply closed_unprotected. by eapply below_closed.
    - done.
    - done.
    - done.
    - intros z Hz Hzout. apply Hns. intros ->. apply Hzout. apply list_elem_of_here.
    - intros b Hb Hbout. apply Hps. intros [?|?]; [done|lia].
    - eexists. split; [exact Hself1|]. simpl. by rewrite app_nil_r.
    - constructor. }
  rewrite forallb_forall in Hap.
  destruct (second_loop_copies s D self n s1 fuel replace h Hwf Hself Hfp Hle
              (n_nodes no) _ _ [] s1 s' tt Hinv)
    as (PN' & PP' & ej' & Hinv' & _ & _ & _ & _ & _ & Hall & Hex'); [| | |exact H|].
  - apply Forall_forall. intros x Hx. apply Hap. by apply list_elem_of_In.
  - done.
  - intros x sub e ne _ _ He. by apply elem_of_nil in He.
  - destruct (li_self _ _ _ _ _ _ _ _ _ Hinv') as (n' & Hn' & Hch').
    exists n', ej'. split_and!; [done|done| |done].
    eapply Forall_impl; [exact Hall|]. simpl. by intros c [_ Hc].
Qed.

(** C9. Let [self] and [other] be nodes of a well-formed store.

    Whenever [self.merge(other, replace)] returns, the children of
    [self] are those it had followed by new nodes, allocated by the
    merge, none of which has [self] as parent or among the nodes its
    path walks through, while the properties of [self] are those it had
    followed by new properties whose parent is [self]; and for every
    child of [other] whose name no child of [self] had, one of the new
    children of [self] has that name.

    When moreover the nodes below [self] own their properties, the
    children of [other] bear distinct names and the trees below them are
    apart from [self] and the nodes below it, then the new children of
    [self] are exactly the copies of the children of [other] whose name
    no child of [self] had: each is the root of a deep copy of the tree
    below the original, its chain of parents is a copy of the chain of
    parents of the original, and its path is the path of the original.

    When [self] is among a set of nodes that holds the children of its
    members, the tree below [other] is apart from that set and its
    properties can be copied, the merge ends, from some budget on: it
    returns, or it raises the [AttributeError] of a property without
    value whose [data] a replacing merge reads.  It returns when, for a
    replacing merge, each of these properties has a value or a name that
    only properties without value bear. *)
Theorem merge_copies_detached (self other : naddr) (replace : bool) (s : store)
    (n no : node) :
  s_nodes s !! self = Some n -> s_nodes s !! other = Some no ->
  wf_store s = true ->
  (forall fuel s',
      Node_merge fuel self other replace s = (s', Ok tt) ->
      exists n' en ep,
        s_nodes s' !! self = Some n' /\
        n_nodes n' = n_nodes n ++ en /\ n_props n' = n_props n ++ ep /\
        Forall (fun c => exists nc, s_nodes s' !! c = Some nc /\
                           (length (s_nodes s) <= c)%nat /\
                           n_parent nc <> Some self /\ ~ ancestor s' c self) en /\
        Forall (fun b => exists p, s_props s' !! b = Some p /\
                                   prop_parent p = Some self) ep /\
        (forall x sub,
            x ∈ n_nodes no -> s_nodes s !! x = Some sub ->
            Some (n_name sub) ∉ node_names s (n_nodes n) ->
            exists c nc, c ∈ en /\ s_nodes s' !! c = Some nc /\ n_name nc = n_name sub) /\
        (forall D h,
            footprint s D self n = true ->
            forallb (apart (self :: D) h s) (n_nodes no) = true ->
            NoDup (node_names s (n_nodes no)) ->
            Forall (fun c => exists x sub,
                               x ∈ n_nodes no /\ s_nodes s !! x = Some sub /\
                               (Some (n_name sub) ∉ node_names s (n_nodes n)) /\
                               copied s x s' c /\
                               forall f, node_path f s' c = node_path f s x) en /\
            (forall x sub,
                x ∈ n_nodes no -> s_nodes s !! x = Some sub ->
                Some (n_name sub) ∉ node_names s (n_nodes n) ->
                exists c, c ∈ en /\ copied s x s' c /\
                          forall f, node_path f s' c = node_path f s x))) /\
  (forall DA h,
      side_closed s DA = true -> self ∈ DA ->
      bside_ok DA false h s other = true ->
      exists f0 s' r, settled r /\ forall fuel, (f0 <= fuel)%nat ->
        Node_merge fuel self other replace s = (s', r)) /\
  (forall DA h,
      side_closed s DA = true -> self ∈ DA ->
      bside_ok DA replace h s other = true ->
      exists f0 s', forall fuel, (f0 <= fuel)%nat ->
        Node_merge fuel self other replace s = (s', Ok tt)).
Proof.
  intros Hself Hother Hwf. split; [|split].
  - intros fuel s' H.
    pose proof (Node_merge_evolves _ _ _ _ _ _ _ H) as Hev.
    destruct (merge_copies_of_run _ _ _ _ _ _ _ H Hself)
      as (n' & en & ep & Hn' & Hns & Hps & Hen & Hep).
    exists n', en, ep. split_and!; auto.
    + destruct (ev_node _ _ Hev self n Hself)
        as (n'' & en' & ep' & Hn'' & _ & _ & Hns' & _ & Hen' & _).
      assert (n'' = n') as -> by congruence.
      rewrite Hns in Hns'. apply app_inv_head in Hns' as <-.
      rewrite Forall_forall in Hen, Hen'. apply Forall_forall. intros c Hc.
      destruct (Hen c Hc) as (nc & Hnc & Hpar & Hanc). exists nc.
      split_and!; auto. specialize (Hen' c Hc). lia.
    + intros x sub Hx Hsub Habs.
      destruct (merge_child_named _ _ _ _ _ _ _ _ _ H Hother Hx Hsub)
        as (n'' & Hn'' & (c & Hc & Hcin)%list_elem_of_fmap).
      assert (n'' = n') as -> by congruence.
      destruct (s_nodes s' !! c) as [nc|] eqn:Hnc; [|discriminate].
      simpl in Hc. injection Hc as Hc.
      exists c, nc. split_and!; auto.
      rewrite Hns in Hcin. apply elem_of_app in Hcin as [Hold|Hnew]; [|done].
      exfalso. apply Habs.
      destruct (wf_node _ (wf_store_spec _ Hwf) self n Hself) as (_ & Hch & _).
      rewrite Forall_forall in Hch.
      destruct (lookup_lt_is_Some_2 _ _ (Hch c Hold)) as [nc0 Hnc0].
      destruct (ev_node _ _ Hev c nc0 Hnc0) as (nc' & _ & _ & Hnc' & Hname & _).
      apply list_elem_of_fmap. exists c. split; [|done].
      rewrite Hnc0. simpl. congruence.
    + intros D h Hfp Hap Hnd.
      destruct (merge_children_copied fuel self other replace s s' n no D h
                  (wf_store_spec _ Hwf) Hself Hother Hfp Hap Hnd H)
        as (n'' & en' & Hn'' & Hns' & Hall & Hex).
      assert (n'' = n') as -> by congruence.
      rewrite Hns in Hns'. apply app_inv_head in Hns' as <-. split.
      * eapply Forall_impl; [exact Hall|]. simpl.
        intros c (x & sub & Hx & Hsub & Habs & Hcop).
        exists x, sub. split_and!; auto. by apply copied_path.
      * intros x sub Hx Hsub Habs. destruct (Hex x sub Hx Hsub Habs) as (c & Hc & Hcop).
        exists c. split_and!; auto. by apply copied_path.
  - intros DA h Hcl Hin Hbs.
    exact (Node_merge_settles DA replace h s self other Hwf Hcl Hin
             (mk_is_Some _ _ Hself) Hbs).
  - intros DA h Hcl Hin Hbs.
    exact (Node_merge_returns DA replace h s self other Hwf Hcl Hin
             (mk_is_Some _ _ Hself) Hbs).
Qed.

(** In the overlay sample, [a.merge(b)] returns and leaves [a] with one
    new child, the node 4, named [c], whose parent is the node 5 and not
    [a]: a deep copy of the child [c] of [b], below a copy of [b], with
    the path of the original. *)
Lemma merge_copies_detached_witness :
  (exists f0 s', forall fuel, (f0 <= fuel)%nat ->
     Node_merge fuel 0%nat 1%nat true overlay_store = (s', Ok tt)) /\
  Node_merge 6 0%nat 1%nat true overlay_store = (merged_overlay, Ok tt) /\
  n_nodes <$> s_nodes merged_overlay !! 0%nat = Some [4%nat] /\
  s_nodes merged_overlay !! 4%nat = Some (Node (py "c") (Some 5%nat) [10%nat] [6%nat]) /\
  ~ ancestor merged_overlay 4%nat 0%nat /\
  copied overlay_store 2%nat merged_overlay 4%nat /\
  forall f, node_path f merged_overlay 4%nat = node_path f overlay_store 2%nat.
Proof.
  assert (Hnd : NoDup (node_names overlay_store [2%nat])) by compute_done.
  assert (Habs : Some (py "c") ∉ node_names overlay_store []) by (apply not_elem_of_nil).
  destruct (merge_copies_detached 0%nat 1%nat true overlay_store
              (Node (py "a") None [0%nat; 1%nat] [])
              (Node (py "b") None [2%nat; 3%nat; 4%nat] [2%nat])
              eq_refl eq_refl eq_refl) as (Hrun & _ & Hret).
  split; [exact (Hret [0%nat] 3%nat eq_refl (list_elem_of_here _ _) eq_refl)|].
  split; [reflexivity|]. split; [reflexivity|]. split; [reflexivity|].
  destruct (Hrun 6%nat merged_overlay eq_refl)
    as (n' & en & ep & Hn' & Hns & _ & Hen & _ & _ & Hcopies).
  destruct (Hcopies [] 2%nat eq_refl eq_refl Hnd) as [_ Hex].
  destruct (Hex 2%nat (Node (py "c") (Some 1%nat) [5%nat] [3%nat])
              (list_elem_of_here _ _) eq_refl Habs) as (c & Hc & Hcop & Hpath).
  assert (Hen4 : en = [4%nat]).
  { assert (Hn4 : n_nodes <$> s_nodes merged_overlay !! 0%nat = Some [4%nat]) by reflexivity.
    rewrite Hn' in Hn4. simpl in Hn4. injection Hn4 as Hn4. by rewrite Hns in Hn4. }
  rewrite Hen4 in Hc, Hen. apply list_elem_of_singleton in Hc as ->.
  apply Forall_cons in Hen as [(nc & _ & _ & _ & Hanc) _].
  split_and!; [exact Hanc|exact Hcop|exact Hpath].
Defined.
